(* ===== verification/_CoqProject ===== *)
-Q . S2P
Prelude.v
Phys.v
PhysInv.v
PhysInit.v
PhysSpec.v
PhysFrame.v
PageAlloc.v
PageTable.v
Region.v
AddrSpace.v
AddrLife.v
AddrDestroy.v
AddrWitness.v
Bytes.v
CString.v
Ringbuf.v
RingSpsc.v
Port.v
Entropy.v
Security.v
Usr.v
UsrFile.v
Vfs.v
VfsPath.v
VfsRef.v
VfsStep.v
Heap.v
Ramfs.v
RamfsInv.v
RamfsFile.v
RamfsVfs.v
Block.v
Crc.v
Gpt.v
GptThm.v
Fat32.v
Fat32Ops.v
Fat32Thm.v
RbTree.v
RbShape.v
RbInsert.v
RbRemove.v
RbFixup.v
Sched.v
RbThm.v
SchedQueue.v
SchedInv.v
SchedSteal.v
SchedProc.v
SchedReap.v
SchedSwitch.v
SchedCases.v
UserMem.v
UserStack.v
Elf.v
Loader.v
ElfThm.v
Macho.v
MachoThm.v
LoadCases.v
Spawn.v
SpawnThm.v
SpawnCases.v
UserAccess.v
UserAccThm.v
Machine.v
Syscall.v
SysMemThm.v
SysFileThm.v
SysRam.v
SysPriv.v
SysCases.v
