(* ===== verification/Prelude.v ===== *)
(** * OpenASD: a verification library for the kernel

    OpenASD is a small x86-64 operating system: a UEFI loader, a kernel in C,
    an init process with installer and shell, and a few user programs.  This
    library models the kernel's own logic as Gallina functions and proves what
    makes it correct.  C state is passed explicitly; [None] and error codes are
    the values the C functions return; integers are [Z] reduced modulo 2^w
    where the C code can wrap; pointers are addresses ([Z]) or indices into the
    table they point into; loops without a structural bound carry fuel, and a
    theorem says the fuel is enough (or, where the C loop can really run for
    ever, exactly when).

    ** Parts and files

    - Prelude: machine integers, hint databases, lemmas on lists and sums used
      everywhere.
    - kernel/mm/mm.c, physical pages.  Phys: the buddy allocator, the bump
      allocator of early boot and initialisation from the memory map, over a
      byte-addressed store for the free-list links.  PhysInv: its invariant
      (free blocks aligned, disjoint, listed once, counted, marked).  PhysInit:
      initialisation establishes it.  PhysSpec: the theorems on allocation,
      freeing, initialisation and all reachable states.  PhysFrame, PageAlloc:
      the class of page allocators and the instance the buddy allocator gives.
    - kernel/mm/mm.c, address spaces.  PageTable: four-level tables.  Region:
      the list of regions of a process.  AddrSpace: mapping, page faults,
      population; AddrLife, AddrDestroy: creation and destruction; AddrWitness:
      concrete runs.  All are proved against the class of PageAlloc.
    - kernel/lib/string.c.  Bytes: little-endian fields, byte memory and the
      class of kernel heaps; CString: the string routines.
    - kernel/ipc.  Ringbuf: the ring buffer as a bounded queue; RingSpsc: one
      producer and one consumer interleaved access by access; Port: message
      ports over rings and the heap class.
    - kernel/security/security.c.  Entropy: the entropy pool; Security: audit
      ring, login limiter, W^X check, start-up.
    - kernel/usr/usr.c.  Usr: users, groups, permissions and password hashes;
      UsrFile: the passwd and group files.
    - kernel/vfs/vfs.c.  Vfs: node table, mounts, descriptor tables and all
      operations over file systems given as records of functions; VfsPath:
      canonical paths; VfsRef, VfsStep: reference counts over every sequence of
      operations.
    - kernel/vfs/ramfs.c.  Heap: the heap as its clients see it, and the bridge
      from the class of Bytes; Ramfs: the memory file system; RamfsInv: its
      invariant with the ownership of heap blocks; RamfsFile: operations;
      RamfsVfs: the theorems, among them write-then-read through the VFS.
    - kernel/block.  Block: the device table; Crc: the checksum; Gpt, GptThm:
      writing a partition table.
    - kernel/vfs/fat32.c.  Fat32: names, clusters, directory search; Fat32Ops:
      the operations of the VFS, the boot sector, the image writer; Fat32Thm:
      the theorems.
    - kernel/sched/sched.c, the run-queue tree.  RbTree: the red-black tree on
      the nodes embedded in process control blocks, pointer by pointer;
      RbShape: trees, contexts and what it means that memory represents them,
      with the rotations; RbInsert, RbRemove, RbFixup: insertion, unlinking and
      repair; RbThm: the theorems.
    - kernel/sched/sched.c, the scheduler.  Sched: run queues, process table
      and every operation; SchedQueue: the trees of all CPUs as sequences;
      SchedInv: enqueueing and dequeueing; SchedSteal: taking off and work
      stealing; SchedProc: start-up and spawning; SchedReap: waiting for a
      child and its exit; SchedSwitch: time, waking, decay, preemption and the
      switch; SchedCases: concrete runs.  The heap, address spaces and
      descriptor tables it calls are the class SchedEnv.
    - kernel/arch/elf.c and macho.c.  UserMem: stores into the pages of another
      address space; UserStack: the start-up stack; Elf, Macho: the two loaders,
      with an access outside the image as an outcome; Loader: what the loaders
      share in the proofs; ElfThm, MachoThm: the loaders' theorems; Spawn:
      [elf_spawn] and [macho_spawn], which join file system, address spaces and
      scheduler through the class [ExecEnv]; SpawnThm: their theorems against
      [ExecEnvOk]; LoadCases, SpawnCases: concrete images and an instance.
    - kernel/arch/syscall.c.  UserAccess: copies between the kernel and the
      memory of the calling process, strings and argument vectors; UserAccThm:
      what they do to it, page faults included; Machine: the state of the whole
      kernel and the instances that put memory manager and VFS under scheduler
      and loaders (console and network are classes); Syscall: all handlers,
      dispatch and signal delivery; SysMemThm: mmap and brk; SysFileThm: read
      and write as sequences of VFS calls; SysRam: read and write of files of
      the memory file system; SysPriv: what no system call changes; SysCases: a
      concrete machine and the defects it shows.

    ** What the theorems show

    - Physical memory: an allocation returns an aligned block disjoint from all
      others or fails only when none is large enough; freeing returns and
      merges; in every reachable state allocated blocks are disjoint.
    - Address spaces: [map_page] changes one translation; a page fault maps one
      zeroed page or reports the failure; creation shares the kernel half;
      destruction gives back every page exactly once; the region list stays
      sorted and disjoint.
    - IPC: a ring is a FIFO; under every interleaving the consumer gets what
      the producer sent, in order and without a data race; ports deliver each
      message to its port, with the length defect stated.
    - Security: no operation on the entropy pool loses entropy; the audit dump
      is the last 64 events; five failures lock an account.
    - Users: permissions are the Unix rule; the passwd file round-trips; the
      hash separates passwords that differ in one character.
    - Files: canonical paths are normal forms; reference counts are exact in
      every reachable state; closing releases once; process exit releases what
      the process held; the memory file system owns its blocks uniquely and
      refines a list of bytes; what is written is read back.
    - Disks: the table-driven CRC is CRC-32; a formatted disk has two valid
      partition tables; FAT files are read cluster by cluster as they are
      stored, inside the image, and searches end unless the FAT is cyclic.
    - Scheduling: the tree operations return, never follow a NULL pointer and
      implement a sequence in which equal priorities keep their order of
      arrival; every queued process is eventually dequeued, by class and
      priority; stealing moves half of the work and loses none; spawning fills
      a free slot or fails for a stated reason; a foreground child's exit code
      reaches its parent and its resources are released once; on one CPU a
      yield hangs, and a switch records the wrong address space.
    - Programs: loading never reads outside an ELF image; a load that succeeds
      puts the bytes of every segment, and zeros behind them, where the headers
      say; the start-up stack has the System V layout; a spawned process has
      the registers, memory and stack of its file and arguments, is READY and
      queued, and a failed spawn leaves the run queues as they were.
    - System calls: a copy to user memory stores the bytes and nothing else or
      fails at a byte that is not accessible; mmap and brk give fresh zeroed
      memory and keep the rest; what a process writes to a file it reads back
      into any other buffer, through user memory, VFS and memory file system;
      a returning call changes no other process but for signals, and no
      sequence of calls makes an unprivileged process privileged.

    ** Bounds and fuel

    Free-list walks take as much fuel as the store has cells; the page loops
    one round per page; path and name parsers one round per character; ring
    transfers one round per byte.  FAT chains take the number of clusters of
    the volume, which suffices for every chain without repetition.  Tree loops
    take more fuel than there are process control blocks, and the theorems
    say that this suffices; the search for a process slot takes one turn over
    the table, which decides it ([find_slot_enough]).  Copies into user memory
    take [ROUNDS] rounds, one more than there are addresses, by binary
    recursion ([UserMem.loop]); the theorems say that they end.

    ** Not modelled

    Assembly, device registers and interrupt glue (kernel/arch except the parts
    above, kernel/drv, kernel/console, boot), network and TLS, the FFS file
    system, init and user programs.  The messages the loaders print are left
    out.  Of syscall.c: the serial port and keyboard behind the console
    functions, and the MSRs of syscall_init.  The heap of the memory file system
    is a part of its own state, apart from the heap of pipes and kernel stacks.
    Within the files above: amm_kernel_pml4_init, shared maps and the slab
    allocator of mm.c (its clients use the classes of Bytes and Heap), and
    fat32_mount_image.  Spin locks are taken and released within each modelled
    function, so each is one step; RingSpsc is where interleaving matters and
    is modelled, and in Sched a lock that is already held is the result [Hang],
    since the scheduler runs on one CPU.  Saving and restoring registers
    (sched_asm.S) is the point at which the model of a switch ends. *)

From Stdlib Require Import ZArith Lia Bool.
From stdpp Require Import base list gmap numbers.
Open Scope Z_scope.

(** ** Machine integers *)

(** Unsigned C integers are kept as [Z] and reduced explicitly wherever the
    source can wrap around. *)
Declare Scope asd_scope.
Delimit Scope asd_scope with asd.
Notation "'u8' x" := (x mod 2 ^ 8) (at level 10, x at level 9, only parsing) : asd_scope.
Notation "'u16' x" := (x mod 2 ^ 16) (at level 10, x at level 9, only parsing) : asd_scope.
Notation "'u32' x" := (x mod 2 ^ 32) (at level 10, x at level 9, only parsing) : asd_scope.
Notation "'u64' x" := (x mod 2 ^ 64) (at level 10, x at level 9, only parsing) : asd_scope.
Open Scope asd_scope.

(** A C integer used as a condition, and the test of a flag mask. *)
Definition truthy (x : Z) : bool := negb (x =? 0).
Definition has_flag (x m : Z) : bool := truthy (Z.land x m).

(** ** Automation *)

Create HintDb asd.

(** Turns boolean comparisons among the hypotheses into propositions. *)
Ltac zbool :=
  repeat match goal with
  | H : (_ && _) = true |- _ => apply andb_true_iff in H; destruct H
  | H : (_ || _) = false |- _ => apply orb_false_iff in H; destruct H
  | H : negb _ = true |- _ => apply negb_true_iff in H
  | H : negb _ = false |- _ => apply negb_false_iff in H
  | H : (_ =? _) = true |- _ => apply Z.eqb_eq in H
  | H : (_ =? _) = false |- _ => apply Z.eqb_neq in H
  | H : (_ <? _) = true |- _ => apply Z.ltb_lt in H
  | H : (_ <? _) = false |- _ => apply Z.ltb_ge in H
  | H : (_ <=? _) = true |- _ => apply Z.leb_le in H
  | H : (_ <=? _) = false |- _ => apply Z.leb_gt in H
  | H : (_ =? _)%nat = true |- _ => apply Nat.eqb_eq in H
  | H : (_ =? _)%nat = false |- _ => apply Nat.eqb_neq in H
  | H : (_ <? _)%nat = true |- _ => apply Nat.ltb_lt in H
  | H : (_ <? _)%nat = false |- _ => apply Nat.ltb_ge in H
  | H : (_ <=? _)%nat = true |- _ => apply Nat.leb_le in H
  | H : (_ <=? _)%nat = false |- _ => apply Nat.leb_gt in H
  end.

(** Case analysis on the condition of an [if] in the goal (or hypothesis),
    with the comparison turned into a proposition. *)
Ltac zif :=
  match goal with
  | |- context [if ?b then _ else _] => destruct b eqn:?; zbool
  end.
Ltac zif_in H :=
  match type of H with
  | context [if ?b then _ else _] => destruct b eqn:?; zbool
  end.

(** ** Powers of two *)

Lemma pow2_pos (n : Z) : 0 <= n -> 0 < 2 ^ n.
Proof. intros. apply Z.pow_pos_nonneg; lia. Qed.

Lemma pow2_nat_pos (n : nat) : 0 < 2 ^ Z.of_nat n.
Proof. apply pow2_pos. lia. Qed.
#[export] Hint Resolve pow2_pos pow2_nat_pos : asd.

Lemma pow2_nat_S (n : nat) : 2 ^ Z.of_nat (S n) = 2 * 2 ^ Z.of_nat n.
Proof. rewrite Nat2Z.inj_succ, Z.pow_succ_r by lia. lia. Qed.

Lemma u64_small (x : Z) : 0 <= x < 2 ^ 64 -> u64 x = x.
Proof. apply Z.mod_small. Qed.

Lemma u32_small (x : Z) : 0 <= x < 2 ^ 32 -> u32 x = x.
Proof. apply Z.mod_small. Qed.

Lemma lxor_one_even (r : Z) : Z.lxor (2 * r) 1 = 2 * r + 1.
Proof.
  symmetry. apply Z.add_nocarry_lxor.
  change 1 with (Z.ones 1). rewrite Z.land_ones by lia.
  rewrite Z.mul_comm. apply Z.mod_mul. lia.
Qed.

Lemma lxor_one_odd (r : Z) : Z.lxor (2 * r + 1) 1 = 2 * r.
Proof. rewrite <- lxor_one_even, Z.lxor_assoc, Z.lxor_nilpotent, Z.lxor_0_r. done. Qed.

(** Toggling bit [n] of a multiple of [2 ^ n] adds or subtracts [2 ^ n]. *)
Lemma lxor_pow2_mul (n q : Z) :
  0 <= n -> Z.lxor (2 ^ n * q) (2 ^ n) = 2 ^ n * Z.lxor q 1.
Proof.
  intros Hn. rewrite !(Z.mul_comm (2 ^ n)), <- !Z.shiftl_mul_pow2 by lia.
  rewrite Z.shiftl_lxor. f_equal. rewrite Z.shiftl_mul_pow2; lia.
Qed.

(** [x & ~(2 ^ n - 1)] on an unsigned 64-bit value rounds down. *)
Lemma land_mask_low (x n : Z) : 0 <= n -> Z.land x (2 ^ n - 1) = x mod 2 ^ n.
Proof. intros. rewrite <- Z.land_ones by lia. by rewrite Z.ones_equiv, Z.sub_1_r. Qed.

Lemma ldiff_mask_low (x n : Z) : 0 <= n -> Z.ldiff x (2 ^ n - 1) = x - x mod 2 ^ n.
Proof.
  intros. replace (2 ^ n - 1) with (Z.ones n) by (rewrite Z.ones_equiv; lia).
  rewrite Z.ldiff_ones_r, Z.shiftl_mul_pow2, Z.shiftr_div_pow2 by lia.
  pose proof (Z.div_mod x (2 ^ n)). pose proof (pow2_pos n). lia.
Qed.

(** ** Lists *)

(** Reading back an array cell just written, and any other cell. *)
Lemma nth_insert_eq {A} (l : list A) (i : nat) (x d : A) :
  (i < length l)%nat -> nth i (<[i := x]> l) d = x.
Proof. intros. rewrite nth_lookup, list_lookup_insert_eq by done. done. Qed.

Lemma nth_insert_ne {A} (l : list A) (i j : nat) (x d : A) :
  i <> j -> nth j (<[i := x]> l) d = nth j l d.
Proof. intros. rewrite !nth_lookup, list_lookup_insert_ne by done. done. Qed.

(** Sum of the images of a list, used for page and message accounting. *)
Definition zsum {A} (f : A -> Z) (l : list A) : Z := foldr (fun x acc => f x + acc) 0 l.

Lemma zsum_app {A} (f : A -> Z) (l k : list A) : zsum f (l ++ k) = zsum f l + zsum f k.
Proof. induction l as [|x l IH]; simpl; [done|]. rewrite IH. lia. Qed.

Lemma zsum_ext {A} (f g : A -> Z) (l : list A) :
  (forall x, x ∈ l -> f x = g x) -> zsum f l = zsum g l.
Proof.
  induction l as [|x l IH]; intros H; simpl; [done|].
  rewrite H by set_solver. rewrite IH; [done|]. intros; apply H; set_solver.
Qed.

Lemma zsum_nonneg {A} (f : A -> Z) (l : list A) :
  (forall x, x ∈ l -> 0 <= f x) -> 0 <= zsum f l.
Proof.
  induction l as [|x l IH]; intros H; simpl; [done|].
  assert (0 <= f x) by (apply H; set_solver).
  assert (0 <= zsum f l) by (apply IH; intros; apply H; set_solver). lia.
Qed.

(** Changing a function at one point of a duplicate-free list. *)
Lemma zsum_update (f g : nat -> Z) (l : list nat) (i : nat) :
  NoDup l -> i ∈ l -> (forall j, j <> i -> g j = f j) ->
  zsum g l = zsum f l - f i + g i.
Proof.
  induction l as [|x l IH]; intros Hnd Hi Hg; [set_solver|].
  apply list.NoDup_cons in Hnd as [Hx Hnd]. simpl.
  destruct (decide (x = i)) as [->|Hne].
  - rewrite (zsum_ext g f l); [lia|]. intros j Hj. apply Hg. set_solver.
  - rewrite IH by set_solver. rewrite (Hg x) by done. lia.
Qed.

(** The scan [for (i = 0; i < n; i++) if (f(&a[i])) return &a[i];] *)
Fixpoint find_index {A} (f : A -> bool) (l : list A) : option nat :=
  match l with
  | [] => None
  | x :: t => if f x then Some 0%nat else S <$> find_index f t
  end.

Lemma find_index_Some {A} (f : A -> bool) l i :
  find_index f l = Some i <->
  exists x, l !! i = Some x /\ f x = true /\ forall j y, (j < i)%nat -> l !! j = Some y -> f y = false.
Proof.
  revert i. induction l as [|x l IH]; intros i; simpl.
  { split; [done|]. intros (y & Hy & _). done. }
  destruct (f x) eqn:E.
  - split.
    + intros [= <-]. exists x. split_and!; [done|done|]. intros; lia.
    + intros (y & Hy & Hfy & Hlt). destruct i; [done|]. rewrite (Hlt 0%nat x) in E; [done|lia|done].
  - rewrite fmap_Some. split.
    + intros (k & Hk & ->). apply IH in Hk as (y & Hy & Hfy & Hlt). exists y. split_and!; [done|done|].
      intros [|j] z Hj Hz; simpl in Hz; [by simplify_eq|]. apply (Hlt j); [lia|done].
    + intros (y & Hy & Hfy & Hlt). destruct i as [|i]; simpl in Hy; [congruence|]. exists i. split; [|done].
      apply IH. exists y. split_and!; [done|done|]. intros j z Hj Hz. apply (Hlt (S j)); [lia|done].
Qed.

Lemma find_index_None {A} (f : A -> bool) l :
  find_index f l = None <-> forall i x, l !! i = Some x -> f x = false.
Proof.
  induction l as [|x l IH]; simpl.
  { split; [|done]. intros _ i y H. done. }
  destruct (f x) eqn:E.
  - split; [done|]. intros H. specialize (H 0%nat x eq_refl). congruence.
  - rewrite fmap_None, IH. split.
    + intros H [|i] y Hy; simpl in Hy; [by simplify_eq|eauto].
    + intros H i y Hy. apply (H (S i)). done.
Qed.

(** Replacing one element of a list, seen in the concatenated images. *)
Lemma concat_map_insert {A B} (f : A -> list B) (l : list A) i x y :
  l !! i = Some x ->
  exists r, concat (map f l) ≡ₚ f x ++ r /\ concat (map f (<[i := y]> l)) ≡ₚ f y ++ r.
Proof.
  intros Hi. pose proof (lookup_lt_Some _ _ _ Hi).
  exists (concat (map f (take i l)) ++ concat (map f (drop (S i) l))). split.
  - rewrite <- (take_drop_middle l i x Hi) at 1. rewrite map_app, concat_app. simpl.
    rewrite !app_assoc. apply Permutation_app_tail, Permutation_app_comm.
  - rewrite insert_take_drop by done. rewrite map_app, concat_app. simpl.
    rewrite !app_assoc. apply Permutation_app_tail, Permutation_app_comm.
Qed.
