(* ===== verification/Phys.v ===== *)
(** * Physical memory: the buddy allocator of kernel/mm/mm.c

    Free blocks are kept in intrusive singly linked lists, one per order: the
    first word of a free block holds the virtual address of the next one.  The
    model keeps that word in the same memory the rest of the kernel writes to
    ([mem]), so a claim that an allocation is not disturbed by the allocator is
    a claim about [mem]. *)

From S2P Require Import Prelude.
From stdpp Require Import base list gmap numbers.
From Stdlib Require Import ZArith Lia.
Open Scope Z_scope.

Module Phys.

(** ** Data *)

Definition PAGE_SHIFT : Z := 12.
Definition PAGE_SIZE : Z := 4096.
Definition MAX_ORDER : nat := 18.
Definition PHYS_MAP_BASE : Z := 0xFFFFC80000000000.

Definition PAGE_FREE : Z := 1.
Definition PAGE_ALLOC : Z := 2.

Record page_info_t := mkPI {
  flags : Z; order : Z; refcount : Z; map_count : Z }.

(** [page_info[]] is zero-filled when it is mapped. *)
Definition pi0 : page_info_t := mkPI 0 0 0 0.

(** The globals of mm.c the physical allocator works on: [g_phys], the page
    info array (by page frame number), [g_early_boot], the bootstrap bump pool
    and kernel memory (64-bit words by virtual address). *)
Record phys_state_t := mkPhys {
  mem : gmap Z Z;
  pinfo : gmap Z page_info_t;
  lists : list Z;
  free_pages : Z;
  total_pages : Z;
  phys_base : Z;
  phys_top : Z;
  g_early_boot : bool;
  g_bump_base : Z;
  g_bump_cur : Z;
  g_bump_end : Z }.

(** A word read; words never written are zero. *)
Definition rd (m : gmap Z Z) (a : Z) : Z := default 0 (m !! a).

Definition set_mem (s : phys_state_t) (m : gmap Z Z) : phys_state_t :=
  mkPhys m (pinfo s) (lists s) (free_pages s) (total_pages s) (phys_base s)
    (phys_top s) (g_early_boot s) (g_bump_base s) (g_bump_cur s) (g_bump_end s).
Definition set_pinfo (s : phys_state_t) (pi : gmap Z page_info_t) : phys_state_t :=
  mkPhys (mem s) pi (lists s) (free_pages s) (total_pages s) (phys_base s)
    (phys_top s) (g_early_boot s) (g_bump_base s) (g_bump_cur s) (g_bump_end s).
Definition set_lists (s : phys_state_t) (l : list Z) : phys_state_t :=
  mkPhys (mem s) (pinfo s) l (free_pages s) (total_pages s) (phys_base s)
    (phys_top s) (g_early_boot s) (g_bump_base s) (g_bump_cur s) (g_bump_end s).
Definition set_free_pages (s : phys_state_t) (n : Z) : phys_state_t :=
  mkPhys (mem s) (pinfo s) (lists s) n (total_pages s) (phys_base s)
    (phys_top s) (g_early_boot s) (g_bump_base s) (g_bump_cur s) (g_bump_end s).
Definition set_total_pages (s : phys_state_t) (n : Z) : phys_state_t :=
  mkPhys (mem s) (pinfo s) (lists s) (free_pages s) n (phys_base s)
    (phys_top s) (g_early_boot s) (g_bump_base s) (g_bump_cur s) (g_bump_end s).
Definition set_bounds (s : phys_state_t) (b t : Z) : phys_state_t :=
  mkPhys (mem s) (pinfo s) (lists s) (free_pages s) (total_pages s) b
    t (g_early_boot s) (g_bump_base s) (g_bump_cur s) (g_bump_end s).
Definition set_bump (s : phys_state_t) (b c e : Z) : phys_state_t :=
  mkPhys (mem s) (pinfo s) (lists s) (free_pages s) (total_pages s) (phys_base s)
    (phys_top s) (g_early_boot s) b c e.

(** ** Address translation *)

Definition phys_to_virt (s : phys_state_t) (p : Z) : Z :=
  if g_early_boot s then p else u64 (PHYS_MAP_BASE + p).

Definition virt_to_phys (v : Z) : Z := u64 (v - PHYS_MAP_BASE).

Definition page_info (s : phys_state_t) (p : Z) : page_info_t :=
  default pi0 (pinfo s !! Z.shiftr p PAGE_SHIFT).

(** [PAGE_SIZE << order]: the size of a block in bytes. *)
Definition bsize (o : nat) : Z := PAGE_SIZE * 2 ^ Z.of_nat o.

(** ** Operations *)

Definition phys_free_block (s : phys_state_t) (paddr : Z) (o : nat) : phys_state_t :=
  let b := phys_to_virt s paddr in
  let s := set_mem s (<[b := nth o (lists s) 0]> (mem s)) in
  let s := set_lists s (<[o := b]> (lists s)) in
  let pi := page_info s paddr in
  let s := set_pinfo s
             (<[Z.shiftr paddr PAGE_SHIFT :=
                  mkPI PAGE_FREE (u8 (Z.of_nat o)) (refcount pi) (map_count pi)]> (pinfo s)) in
  set_free_pages s (u64 (free_pages s + 2 ^ Z.of_nat o)).

(** The inner loop of [phys_free_range]: the largest order, from [o] down,
    whose block fits in the rest of the range and is naturally aligned. *)
Fixpoint fit_order (base i pages : Z) (o : nat) : nat :=
  match o with
  | O => O
  | S o' =>
      let block_pages := 2 ^ Z.of_nat o in
      if pages <? u64 (i + block_pages) then fit_order base i pages o'
      else
        let addr := u64 (base + i * PAGE_SIZE) in
        if truthy (Z.land addr (block_pages * PAGE_SIZE - 1)) then fit_order base i pages o'
        else o
  end.

(** [phys_free_range]'s outer loop, from page [i] on.  Every round frees at
    least one page, so [pages] rounds are enough fuel. *)
Fixpoint phys_free_range_loop (fuel : nat) (s : phys_state_t) (base i pages : Z) : phys_state_t :=
  match fuel with
  | O => s
  | S fuel' =>
      if i <? pages then
        let o := fit_order base i pages MAX_ORDER in
        let s := phys_free_block s (u64 (base + i * PAGE_SIZE)) o in
        phys_free_range_loop fuel' s base (u64 (i + 2 ^ Z.of_nat o)) pages
      else s
  end.

Definition phys_free_range (s : phys_state_t) (base pages : Z) : phys_state_t :=
  phys_free_range_loop (Z.to_nat pages) s base 0 pages.

(** [while (o > order) { o--; phys_free_block(paddr ^ (PAGE_SIZE << o), o); }]
    with [d = o - order]. *)
Fixpoint split_down (s : phys_state_t) (paddr : Z) (ord d : nat) : phys_state_t :=
  match d with
  | O => s
  | S d' =>
      let o := (ord + d')%nat in
      let buddy := Z.lxor paddr (bsize o) in
      split_down (phys_free_block s buddy o) paddr ord d'
  end.

(** The scan of [amm_phys_alloc] over orders [o], [o+1], ..., [n] of them. *)
Fixpoint alloc_scan (s : phys_state_t) (ord o n : nat) : Z * phys_state_t :=
  match n with
  | O => (0, s)
  | S n' =>
      let b := nth o (lists s) 0 in
      if b =? 0 then alloc_scan s ord (S o) n'
      else
        let s := set_lists s (<[o := rd (mem s) b]> (lists s)) in
        let paddr := virt_to_phys b in
        let s := set_free_pages s (u64 (free_pages s - 2 ^ Z.of_nat o)) in
        let s := split_down s paddr ord (o - ord) in
        let pi := page_info s paddr in
        let s := set_pinfo s
                   (<[Z.shiftr paddr PAGE_SHIFT :=
                        mkPI PAGE_ALLOC (u8 (Z.of_nat ord)) 1 (map_count pi)]> (pinfo s)) in
        (paddr, s)
  end.

(** The bootstrap allocator used while [g_early_boot] is set. *)
Definition zero_range (m : gmap Z Z) (a : Z) (words : nat) : gmap Z Z :=
  foldr (fun k m => <[a + 8 * Z.of_nat k := 0]> m) m (seq 0 words).

Definition bump_alloc (s : phys_state_t) (o : nat) : Z * phys_state_t :=
  let size := u64 (bsize o) in
  let aligned := Z.land (u64 (g_bump_cur s + size - 1)) (u64 (Z.lnot (size - 1))) in
  if g_bump_end s <? u64 (aligned + size) then (0, s)
  else
    let s := set_bump s (g_bump_base s) (u64 (aligned + size)) (g_bump_end s) in
    (aligned, set_mem s (zero_range (mem s) aligned (Z.to_nat (size / 8)))).

Definition amm_phys_alloc (s : phys_state_t) (ord : nat) : Z * phys_state_t :=
  if g_early_boot s then bump_alloc s ord
  else if (MAX_ORDER <? ord)%nat then (0, s)
  else alloc_scan s ord ord (S MAX_ORDER - ord).

(** A [free_block_t **]: a list head or the [next] field of a block. *)
Inductive link := Head (o : nat) | Next (b : Z).

Definition load_link (s : phys_state_t) (l : link) : Z :=
  match l with Head o => nth o (lists s) 0 | Next b => rd (mem s) b end.

Definition store_link (s : phys_state_t) (l : link) (v : Z) : phys_state_t :=
  match l with
  | Head o => set_lists s (<[o := v]> (lists s))
  | Next b => set_mem s (<[b := v]> (mem s))
  end.

(** [while ( *pp && *pp != fb) pp = &( *pp)->next;] *)
Fixpoint unlink_walk (fuel : nat) (s : phys_state_t) (pp : link) (fb : Z) : option link :=
  match fuel with
  | O => None
  | S fuel' =>
      let v := load_link s pp in
      if (v =? 0) || (v =? fb) then Some pp
      else unlink_walk fuel' s (Next v) fb
  end.

(** The coalescing loop of [amm_phys_free], [n] rounds at most
    ([n = MAX_ORDER - order]).  [None]: the list walk does not end. *)
Fixpoint free_loop (n : nat) (s : phys_state_t) (paddr : Z) (ord : nat)
  : option (phys_state_t * Z * nat) :=
  match n with
  | O => Some (s, paddr, ord)
  | S n' =>
      let buddy := Z.lxor paddr (bsize ord) in
      let bi := page_info s buddy in
      if negb (has_flag (flags bi) PAGE_FREE) || negb (order bi =? Z.of_nat ord)
      then Some (s, paddr, ord)
      else
        let fb := phys_to_virt s buddy in
        match unlink_walk (S (size (mem s))) s (Head ord) fb with
        | None => None
        | Some pp =>
            let s := if load_link s pp =? 0 then s
                     else set_free_pages (store_link s pp (rd (mem s) fb))
                            (u64 (free_pages s - 2 ^ Z.of_nat ord)) in
            let paddr := if paddr <? buddy then paddr else buddy in
            free_loop n' s paddr (S ord)
        end
  end.

Definition amm_phys_free (s : phys_state_t) (paddr : Z) (ord : nat) : option phys_state_t :=
  match free_loop (MAX_ORDER - ord) s paddr ord with
  | None => None
  | Some (s, paddr, ord) => Some (phys_free_block s paddr ord)
  end.

(** ** Initialisation from the boot memory map *)

Definition ASD_MEM_FREE : Z := 0.

Record asd_mmap_entry_t := mkEntry { me_base : Z; me_pages : Z; me_type : Z }.

(** [~(PAGE_SIZE - 1)] as an unsigned 64-bit mask. *)
Definition PAGE_MASK : Z := 2 ^ 64 - PAGE_SIZE.
Definition PAGE_ALIGN (x : Z) : Z := Z.land (u64 (x + PAGE_SIZE - 1)) PAGE_MASK.
Definition PAGE_ALIGN_DOWN (x : Z) : Z := Z.land x PAGE_MASK.

Definition entry_base (m : asd_mmap_entry_t) : Z := PAGE_ALIGN (me_base m).
Definition entry_end (m : asd_mmap_entry_t) : Z :=
  PAGE_ALIGN_DOWN (u64 (me_base m + u64 (me_pages m * PAGE_SIZE))).

(** The body of [amm_phys_init]'s loop over the memory map. *)
Definition phys_init_entry (s : phys_state_t) (m : asd_mmap_entry_t) : phys_state_t :=
  if negb (me_type m =? ASD_MEM_FREE) then s
  else
    let base := entry_base m in
    let en := entry_end m in
    if en <=? base then s
    else
      let s := if base <? phys_base s then set_bounds s base (phys_top s) else s in
      let s := if phys_top s <? en then set_bounds s (phys_base s) en else s in
      if truthy (g_bump_base s) && (base <? g_bump_end s) && (g_bump_base s <? en) then
        let s := if base <? g_bump_base s then
                   let pg := Z.shiftr (g_bump_base s - base) PAGE_SHIFT in
                   let s := phys_free_range s base pg in
                   set_total_pages s (u64 (total_pages s + pg))
                 else s in
        if g_bump_end s <? en then
          let pg := Z.shiftr (en - g_bump_end s) PAGE_SHIFT in
          let s := phys_free_range s (g_bump_end s) pg in
          set_total_pages s (u64 (total_pages s + pg))
        else s
      else
        let pages := Z.shiftr (en - base) PAGE_SHIFT in
        let s := phys_free_range s base pages in
        set_total_pages s (u64 (total_pages s + pages)).

(** [memset(&g_phys, 0, sizeof g_phys); g_phys.phys_base = -1;] *)
Definition clear_phys (s : phys_state_t) : phys_state_t :=
  mkPhys (mem s) (pinfo s) (replicate (S MAX_ORDER) 0) 0 0 (2 ^ 64 - 1) 0
    (g_early_boot s) (g_bump_base s) (g_bump_cur s) (g_bump_end s).

Definition amm_phys_init (s : phys_state_t) (mmap : list asd_mmap_entry_t) : phys_state_t :=
  fold_left phys_init_entry mmap (clear_phys s).

(** ** Boot: choosing the bump pool *)

Definition BUMP_SIZE : Z := 64 * 1024 * 1024.

(** First loop of [bump_init]: the first free region of at least [BUMP_SIZE]
    above 1 MiB. *)
Fixpoint bump_first (s : phys_state_t) (mmap : list asd_mmap_entry_t) : option phys_state_t :=
  match mmap with
  | [] => None
  | m :: rest =>
      if negb (me_type m =? ASD_MEM_FREE) then bump_first s rest
      else
        let base := entry_base m in
        let en := entry_end m in
        let base := if base <? 0x100000 then 0x100000 else base in
        if (en <=? base) || (u64 (en - base) <? BUMP_SIZE) then bump_first s rest
        else Some (set_bump s base base (u64 (base + BUMP_SIZE)))
  end.

(** Fallback loop: the largest free region. *)
Definition bump_largest (s : phys_state_t) (m : asd_mmap_entry_t) : phys_state_t :=
  if negb (me_type m =? ASD_MEM_FREE) then s
  else
    let base := entry_base m in
    let en := entry_end m in
    if (base <? en) && (u64 (g_bump_end s - g_bump_base s) <? en - base)
    then set_bump s base base en else s.

Definition bump_init (s : phys_state_t) (mmap : list asd_mmap_entry_t) : phys_state_t :=
  match bump_first s mmap with
  | Some s => s
  | None => fold_left bump_largest mmap s
  end.

Definition scan_entry (s : phys_state_t) (m : asd_mmap_entry_t) : phys_state_t :=
  if negb (me_type m =? ASD_MEM_FREE) then s
  else
    let base := entry_base m in
    let en := entry_end m in
    if en <=? base then s
    else
      let s := if base <? phys_base s then set_bounds s base (phys_top s) else s in
      let s := if phys_top s <? en then set_bounds s (phys_base s) en else s in
      set_total_pages s (u64 (total_pages s + Z.shiftr (en - base) PAGE_SHIFT)).

Definition amm_early_phys_scan (s : phys_state_t) (mmap : list asd_mmap_entry_t) : phys_state_t :=
  bump_init (fold_left scan_entry mmap (clear_phys s)) mmap.

(** [mm_get_meminfo]: total and free bytes. *)
Definition mm_get_meminfo (s : phys_state_t) : Z * Z :=
  (u64 (total_pages s * PAGE_SIZE), u64 (free_pages s * PAGE_SIZE)).

End Phys.
