(* ===== verification/PhysInv.v ===== *)
(** * Invariant of the buddy allocator

    The ghost view of a state: [F o] is the list of free blocks of order [o]
    in list order, [L] the blocks that are in use (allocated, or being split
    or merged by the operation under way). *)

From S2P Require Import Prelude Phys.
From stdpp Require Import base list gmap numbers.
From Stdlib Require Import ZArith Lia.
Open Scope Z_scope.

Module PhysInv.
Import Phys.

Abbreviation blk := (Z * nat)%type.

(** ** Blocks *)

Definition aligned (a : Z) (o : nat) : Prop := (bsize o | a).
Definition in_block (b : blk) (x : Z) : Prop := b.1 <= x < b.1 + bsize b.2.

(** One past the highest physical address the direct map can hold. *)
Definition PHYS_LIMIT : Z := 2 ^ 64 - PHYS_MAP_BASE.

Lemma bsize_pos o : 0 < bsize o.
Proof. unfold bsize, PAGE_SIZE. pose proof (pow2_nat_pos o). lia. Qed.

Lemma bsize_S o : bsize (S o) = 2 * bsize o.
Proof. unfold bsize. rewrite pow2_nat_S. lia. Qed.

Lemma bsize_pow o : bsize o = 2 ^ (12 + Z.of_nat o).
Proof. unfold bsize, PAGE_SIZE. rewrite Z.pow_add_r by lia. done. Qed.

Lemma bsize_0 : bsize 0 = PAGE_SIZE.
Proof. done. Qed.

Lemma bsize_divide k o : (k <= o)%nat -> (bsize k | bsize o).
Proof.
  intros H. exists (2 ^ Z.of_nat (o - k)). rewrite !bsize_pow, <- Z.pow_add_r by lia.
  f_equal. lia.
Qed.

Lemma bsize_mono k o : (k <= o)%nat -> bsize k <= bsize o.
Proof.
  intros H. rewrite !bsize_pow. apply Z.pow_le_mono_r; lia.
Qed.
#[export] Hint Resolve bsize_pos bsize_mono bsize_divide : asd.

Lemma aligned_le a k o : (k <= o)%nat -> aligned a o -> aligned a k.
Proof. intros H Ha. eapply Z.divide_trans; [apply bsize_divide, H|done]. Qed.

Lemma aligned_page a o : aligned a o -> (PAGE_SIZE | a).
Proof. intros H. rewrite <- bsize_0. apply (aligned_le a 0 o); [lia|done]. Qed.
#[export] Hint Resolve aligned_le aligned_page : asd.

(** Aligned blocks form a laminar family: when two meet, the smaller one lies
    inside the larger one. *)
Lemma laminar a o b k x :
  aligned a o -> aligned b k -> (k <= o)%nat ->
  in_block (a, o) x -> in_block (b, k) x ->
  a <= b /\ b + bsize k <= a + bsize o.
Proof.
  unfold in_block; simpl. intros Ha Hb Hle Hx Hy.
  pose proof (bsize_pos k). destruct (bsize_divide k o Hle) as [m Hm].
  destruct Ha as [q ->], Hb as [r ->]. rewrite Hm in *.
  assert (q * m <= r) by nia. assert (r + 1 <= q * m + m) by nia. nia.
Qed.

(** An aligned address of order [k] inside an aligned block of order [S k]
    starts one of its halves. *)
Lemma half_head a k P :
  aligned a (S k) -> aligned P k -> in_block (a, S k) P -> P = a \/ P = a + bsize k.
Proof.
  unfold in_block; simpl. rewrite bsize_S. pose proof (bsize_pos k).
  intros [q Hq] [r Hr] Hx. rewrite bsize_S in Hq. subst.
  assert (2 * q <= r < 2 * q + 2) by nia.
  assert (r = 2 * q \/ r = 2 * q + 1) as [->| ->] by lia; [left|right]; lia.
Qed.

(** The buddy computed with xor. *)
Lemma buddy_low a o : aligned a (S o) -> Z.lxor a (bsize o) = a + bsize o.
Proof.
  intros [q ->]. rewrite bsize_S, !bsize_pow.
  replace (q * (2 * 2 ^ (12 + Z.of_nat o))) with (2 ^ (12 + Z.of_nat o) * (2 * q)) by lia.
  rewrite lxor_pow2_mul, lxor_one_even by lia. lia.
Qed.

Lemma buddy_high a o : aligned a (S o) -> Z.lxor (a + bsize o) (bsize o) = a.
Proof.
  intros H. rewrite <- buddy_low by done.
  by rewrite Z.lxor_assoc, Z.lxor_nilpotent, Z.lxor_0_r.
Qed.

(** A block of order [o] is the low or the high half of a block of order
    [S o]. *)
Lemma half_cases a o : aligned a o -> aligned a (S o) \/ aligned (a - bsize o) (S o).
Proof.
  intros [q ->]. unfold aligned. rewrite bsize_S.
  destruct (Z.Even_or_Odd q) as [[r ->]|[r ->]]; [left|right]; exists r; lia.
Qed.

(** ** The free lists in memory *)

Inductive chain (m : gmap Z Z) : Z -> list Z -> Prop :=
| chain_nil : chain m 0 []
| chain_cons p n l :
    m !! (PHYS_MAP_BASE + p) = Some n -> chain m n l ->
    chain m (PHYS_MAP_BASE + p) (p :: l).

Lemma chain_frame m w v h l :
  (forall p, p ∈ l -> w <> PHYS_MAP_BASE + p) ->
  chain m h l -> chain (<[w := v]> m) h l.
Proof.
  intros Hw Hc. induction Hc as [|p n l Hp Hc IH]; [apply chain_nil|apply chain_cons with n].
  - rewrite lookup_insert_ne; [done|]. apply Hw. set_solver.
  - apply IH. intros. apply Hw. set_solver.
Qed.

Lemma chain_ext m m' h l :
  (forall p, p ∈ l -> m' !! (PHYS_MAP_BASE + p) = m !! (PHYS_MAP_BASE + p)) ->
  chain m h l -> chain m' h l.
Proof.
  intros Hw Hc. induction Hc as [|p n l Hp Hc IH]; [apply chain_nil|apply chain_cons with n].
  - rewrite Hw; [done|set_solver].
  - apply IH. intros. apply Hw. set_solver.
Qed.

Lemma chain_length m h l : NoDup l -> chain m h l -> (length l <= size m)%nat.
Proof.
  intros Hnd Hc.
  assert (Hsub : forall p, p ∈ l -> is_Some (m !! (PHYS_MAP_BASE + p))).
  { induction Hc as [|p n l Hp Hc IH]; intros q Hq; [set_solver|].
    apply list.NoDup_cons in Hnd as [_ Hnd].
    apply elem_of_cons in Hq as [->|Hq]; [eauto|by apply IH]. }
  rewrite <- size_dom, <- (length_fmap (fun p => PHYS_MAP_BASE + p) l).
  set (k := _ <$> l).
  assert (NoDup k) by (apply NoDup_fmap_2; [intros x y Hxy; lia|done]).
  replace (length k) with (size (list_to_set k : gset Z)) by by apply size_list_to_set.
  apply subseteq_size. intros x Hx. apply elem_of_list_to_set in Hx.
  apply list_elem_of_fmap in Hx as (p & -> & Hp). by apply elem_of_dom, Hsub.
Qed.

(** ** The invariant *)

Definition bfree (F : nat -> list Z) (b : blk) : Prop :=
  (b.2 <= MAX_ORDER)%nat /\ b.1 ∈ F b.2.

Definition live (F : nat -> list Z) (L : list blk) (b : blk) : Prop := bfree F b \/ b ∈ L.

Definition npages (F : nat -> list Z) : Z :=
  zsum (fun o => Z.of_nat (length (F o)) * 2 ^ Z.of_nat o) (seq 0 (S MAX_ORDER)).
Definition bpages (L : list blk) : Z := zsum (fun b => 2 ^ Z.of_nat b.2) L.
Arguments bpages : simpl never.
Arguments npages : simpl never.
Arguments bsize : simpl never.

Definition wf_block (b : blk) : Prop :=
  (b.2 <= MAX_ORDER)%nat /\ 0 < b.1 /\ aligned b.1 b.2 /\ b.1 + bsize b.2 <= PHYS_LIMIT.

(** Geometry: the free blocks and the blocks in use are aligned, inside the
    direct map, pairwise disjoint, and no block is both. *)
Record geom (F : nat -> list Z) (L : list blk) : Prop := {
  g_nodup : forall o, (o <= MAX_ORDER)%nat -> NoDup (F o);
  g_nodupL : NoDup L;
  g_wf : forall b, live F L b -> wf_block b;
  g_disj : forall b c x, live F L b -> live F L c -> in_block b x -> in_block c x -> b = c;
  g_excl : forall b, bfree F b -> b ∉ L }.

(** Each list head starts the chain of the free blocks of its order. *)
Definition chains (s : phys_state_t) (F : nat -> list Z) : Prop :=
  length (lists s) = S MAX_ORDER /\
  forall o, (o <= MAX_ORDER)%nat -> chain (mem s) (nth o (lists s) 0) (F o).

(** Page info: a free block is marked free with its order; conversely a page
    marked free either heads a free block of the marked order, or is an old
    mark inside a block of larger order.  [X] lists the pages for which an
    operation under way has suspended the converse. *)
Record marks (X : list Z) (pi : Z -> page_info_t) (F : nat -> list Z) (L : list blk) : Prop := {
  m_free : forall a o, bfree F (a, o) ->
    flags (pi a) = PAGE_FREE /\ order (pi a) = Z.of_nat o;
  m_mark : forall P, (PAGE_SIZE | P) -> P ∉ X -> has_flag (flags (pi P)) PAGE_FREE = true ->
    exists o, order (pi P) = Z.of_nat o /\ aligned P o /\
      (bfree F (P, o) \/ exists b, live F L b /\ (o < b.2)%nat /\ in_block b P) }.

Definition counts (s : phys_state_t) (F : nat -> list Z) (L : list blk) : Prop :=
  free_pages s = npages F /\ npages F + bpages L = total_pages s /\ total_pages s < 2 ^ 64.

Record pinv (X : list Z) (s : phys_state_t) (F : nat -> list Z) (L : list blk) : Prop := {
  pi_early : g_early_boot s = false;
  pi_geom : geom F L;
  pi_chains : chains s F;
  pi_marks : marks X (page_info s) F L;
  pi_counts : counts s F L }.

(** Allocated blocks carry their order in [page_info]. *)
Definition alloc_marked (s : phys_state_t) (A : list blk) : Prop :=
  forall b, b ∈ A ->
    flags (page_info s b.1) = PAGE_ALLOC /\ order (page_info s b.1) = Z.of_nat b.2 /\
    refcount (page_info s b.1) = 1.

(** The state of the allocator between two calls. *)
Definition phys_ok (s : phys_state_t) (F : nat -> list Z) (A : list blk) : Prop :=
  pinv [] s F A /\ alloc_marked s A.

(** Neither the memory nor the page info of the blocks of [L] changed. *)
Definition frame (L : list blk) (s s' : phys_state_t) : Prop :=
  (forall b w, b ∈ L -> in_block b (w - PHYS_MAP_BASE) -> mem s' !! w = mem s !! w) /\
  (forall b P, b ∈ L -> in_block b P -> (PAGE_SIZE | P) -> page_info s' P = page_info s P).

(** The set of managed addresses. *)
Definition managed (F : nat -> list Z) (L : list blk) (x : Z) : Prop :=
  exists b, live F L b /\ in_block b x.

Lemma frame_refl L s : frame L s s.
Proof. done. Qed.

Lemma frame_trans L s1 s2 s3 : frame L s1 s2 -> frame L s2 s3 -> frame L s1 s3.
Proof.
  intros [A1 A2] [B1 B2]. split; intros.
  - erewrite B1 by done. by eapply A1.
  - erewrite B2 by done. by eapply A2.
Qed.

Lemma frame_sub L L' s s' : L ⊆ L' -> frame L' s s' -> frame L s s'.
Proof. intros Hs [A1 A2]. split; intros; eauto. Qed.

Lemma frame_marked L s s' A : A ⊆ L -> (forall b, b ∈ A -> wf_block b) ->
  frame L s s' -> alloc_marked s A -> alloc_marked s' A.
Proof.
  intros Hs Hwf [_ H2] Hm b Hb. destruct (Hwf b Hb) as (_ & _ & Hal & _).
  rewrite (H2 b); eauto with asd.
  unfold in_block. pose proof (bsize_pos b.2). lia.
Qed.

(** The ghost blocks in use are a multiset: everything respects permutation. *)
#[export] Instance bpages_proper : Proper ((≡ₚ) ==> (=)) bpages.
Proof. intros L L' H. unfold bpages. induction H; simpl; lia. Qed.

#[export] Instance live_proper F : Proper ((≡ₚ) ==> (=) ==> iff) (live F).
Proof. intros L L' H b b' ->. unfold live. by rewrite H. Qed.

#[export] Instance managed_proper F : Proper ((≡ₚ) ==> (=) ==> iff) (managed F).
Proof. intros L L' H x x' ->. unfold managed. by setoid_rewrite H. Qed.

#[export] Instance geom_proper F : Proper ((≡ₚ) ==> iff) (geom F).
Proof.
  assert (HI : forall L L', L ≡ₚ L' -> geom F L -> geom F L').
  { intros L L' HP []. split; eauto; by setoid_rewrite <- HP. }
  intros L L' HP. split; apply HI; [done|by symmetry].
Qed.

#[export] Instance pinv_proper X s F : Proper ((≡ₚ) ==> iff) (pinv X s F).
Proof.
  assert (HI : forall L L', L ≡ₚ L' -> pinv X s F L -> pinv X s F L').
  { intros L L' HP [? ? ? [] ?]. split; eauto; [by rewrite <- HP|split; eauto|].
    - by setoid_rewrite <- HP.
    - unfold counts. by rewrite <- HP. }
  intros L L' HP. split; apply HI; [done|by symmetry].
Qed.

Lemma in_block_head b : in_block b b.1.
Proof. unfold in_block. pose proof (bsize_pos b.2). lia. Qed.
Lemma in_block_head' a o : in_block (a, o) a.
Proof. apply (in_block_head (a, o)). Qed.
#[export] Hint Resolve in_block_head in_block_head' : asd.

(** Page frames of page-aligned addresses are distinct. *)
Lemma pfn_inj P Q : (PAGE_SIZE | P) -> (PAGE_SIZE | Q) ->
  Z.shiftr P PAGE_SHIFT = Z.shiftr Q PAGE_SHIFT -> P = Q.
Proof.
  unfold PAGE_SHIFT, PAGE_SIZE. intros [p ->] [q ->].
  rewrite !Z.shiftr_div_pow2 by lia. change (2 ^ 12) with 4096.
  rewrite !Z.div_mul by lia. lia.
Qed.

(** Effect of a page info write on [page_info]. *)
Lemma page_info_eq s s' P v :
  pinfo s' = <[Z.shiftr P PAGE_SHIFT := v]> (pinfo s) -> page_info s' P = v.
Proof. intros E. unfold page_info. by rewrite E, lookup_insert_eq. Qed.

Lemma page_info_ne s s' P v Q :
  pinfo s' = <[Z.shiftr P PAGE_SHIFT := v]> (pinfo s) ->
  (PAGE_SIZE | P) -> (PAGE_SIZE | Q) -> Q <> P -> page_info s' Q = page_info s Q.
Proof.
  intros E HP HQ Hne. unfold page_info. rewrite E, lookup_insert_ne; [done|].
  intros He. by apply Hne, pfn_inj.
Qed.

Lemma virt_wf s b : g_early_boot s = false -> wf_block b ->
  phys_to_virt s b.1 = PHYS_MAP_BASE + b.1 /\ virt_to_phys (PHYS_MAP_BASE + b.1) = b.1.
Proof.
  intros He (_ & Hp & _ & Hlim). unfold phys_to_virt, virt_to_phys. rewrite He.
  unfold PHYS_LIMIT, PHYS_MAP_BASE in *. pose proof (bsize_pos b.2).
  rewrite u64_small by lia. split; [done|]. rewrite u64_small; lia.
Qed.

Lemma npages_nonneg F : 0 <= npages F.
Proof. apply zsum_nonneg. intros o _. pose proof (pow2_nat_pos o). nia. Qed.

Lemma bpages_nonneg L : 0 <= bpages L.
Proof. apply zsum_nonneg. intros b _. pose proof (pow2_nat_pos b.2). lia. Qed.

Lemma bpages_cons a o L : bpages ((a, o) :: L) = 2 ^ Z.of_nat o + bpages L.
Proof. done. Qed.

(** ** Moving a block between its free list and the blocks in use *)

(** [F'] is [F] with block [(a, o)] added to its free list. *)
Definition adds (F : nat -> list Z) (a : Z) (o : nat) (F' : nat -> list Z) : Prop :=
  (o <= MAX_ORDER)%nat /\ (forall k, k <> o -> F' k = F k) /\ F' o ≡ₚ a :: F o.

Section moves.
Context (F F' : nat -> list Z) (L : list blk) (a : Z) (o : nat) (Hadd : adds F a o F').

Lemma bfree_move c : bfree F' c <-> c = (a, o) \/ bfree F c.
Proof.
  destruct Hadd as (Ho & Hne & Heq), c as [c k]. unfold bfree; simpl.
  destruct (decide (k = o)) as [->|Hk].
  - rewrite Heq, elem_of_cons. naive_solver.
  - rewrite Hne by done. naive_solver.
Qed.

Lemma live_move c : live F ((a, o) :: L) c <-> live F' L c.
Proof. unfold live. rewrite bfree_move, elem_of_cons. tauto. Qed.

Lemma managed_move x : managed F ((a, o) :: L) x <-> managed F' L x.
Proof. unfold managed. by setoid_rewrite live_move. Qed.

Lemma geom_move : geom F ((a, o) :: L) <-> geom F' L.
Proof.
  destruct Hadd as (Ho & Hne & Heq). split; intros []; split.
  - intros k Hk. destruct (decide (k = o)) as [->|Hko]; [|rewrite Hne; auto].
    rewrite Heq. apply list.NoDup_cons. split; [|auto]. intros Hin.
    apply (g_excl0 (a, o)); [by split|set_solver].
  - by apply list.NoDup_cons in g_nodupL0 as [_ ?].
  - intros b Hb%live_move. auto.
  - intros b c x Hb%live_move Hc%live_move. eauto.
  - intros b [->|Hb]%bfree_move; [by apply list.NoDup_cons in g_nodupL0 as [? _]|].
    apply g_excl0 in Hb. set_solver.
  - intros k Hk. destruct (decide (k = o)) as [->|Hko]; [|rewrite <- Hne; auto].
    specialize (g_nodup0 o Hk). rewrite Heq in g_nodup0.
    by apply list.NoDup_cons in g_nodup0 as [_ ?].
  - apply list.NoDup_cons. split; [|done]. apply g_excl0, bfree_move. by left.
  - intros b Hb%live_move. auto.
  - intros b c x Hb%live_move Hc%live_move. eauto.
  - intros b Hb [->|Hin]%elem_of_cons.
    + specialize (g_nodup0 o Ho). rewrite Heq in g_nodup0.
      apply list.NoDup_cons in g_nodup0 as [Hn _]. by apply Hn, Hb.
    + apply (g_excl0 b); [|done]. apply bfree_move. by right.
Qed.

Lemma npages_move : npages F' = npages F + 2 ^ Z.of_nat o.
Proof.
  destruct Hadd as (Ho & Hne & Heq). unfold npages.
  rewrite (zsum_update (fun o => Z.of_nat (length (F o)) * 2 ^ Z.of_nat o) _ _ o).
  - rewrite Heq. cbn [length]. lia.
  - apply NoDup_seq.
  - apply elem_of_seq. unfold MAX_ORDER in *. lia.
  - intros j Hj. by rewrite Hne.
Qed.

End moves.

(** A block in use is on no free list, and its head lies in no other block. *)
Lemma not_free_elsewhere F L a o k :
  geom F ((a, o) :: L) -> (k <= MAX_ORDER)%nat -> a ∉ F k.
Proof.
  intros Hg Hk Hin. destruct (decide (k = o)) as [->|Hne].
  - eapply (g_excl _ _ Hg (a, o)); [by split|set_solver].
  - assert ((a, k) = (a, o)) as [= ?]; [|done].
    eapply (g_disj _ _ Hg _ _ a); [left; by split|right; set_solver|eauto with asd..].
Qed.

Lemma head_elsewhere F L a o b : geom F ((a, o) :: L) -> b ∈ L -> ~ in_block b a.
Proof.
  intros Hg Hb Hin. pose proof (g_nodupL _ _ Hg) as [Hnot _]%list.NoDup_cons.
  apply Hnot. replace (a, o) with b; [done|].
  eapply (g_disj _ _ Hg); [right; set_solver|right; set_solver|done|eauto with asd].
Qed.

(** ** Pushing a block onto its free list *)

Definition push (F : nat -> list Z) (a : Z) (o : nat) : nat -> list Z :=
  fun k => if decide (k = o) then a :: F o else F k.

Lemma adds_push F a o : (o <= MAX_ORDER)%nat -> adds F a o (push F a o).
Proof.
  intros Ho. split; [done|]. unfold push. split.
  - intros k Hk. by rewrite decide_False.
  - by rewrite decide_True.
Qed.

Lemma chains_push s s' F a o :
  chains s F -> (o <= MAX_ORDER)%nat -> (forall k, (k <= MAX_ORDER)%nat -> a ∉ F k) ->
  lists s' = <[o := PHYS_MAP_BASE + a]> (lists s) ->
  mem s' = <[PHYS_MAP_BASE + a := nth o (lists s) 0]> (mem s) ->
  chains s' (push F a o).
Proof.
  intros [Hlen Hc] Ho Hnf Hl Hm. unfold chains. rewrite Hl, Hm, length_insert.
  split; [done|]. intros k Hk.
  assert (Hfr : chain (<[PHYS_MAP_BASE + a := nth o (lists s) 0]> (mem s))
                  (nth k (lists s) 0) (F k)).
  { apply chain_frame; [|auto]. intros p Hp E. apply (Hnf k Hk). by replace a with p by lia. }
  unfold push. case_decide as Hko; [subst k|by rewrite nth_insert_ne].
  rewrite nth_insert_eq by lia. apply chain_cons with (nth o (lists s) 0); [|done].
  apply lookup_insert_eq.
Qed.

Lemma marks_push X X' s s' F L a o v :
  marks X (page_info s) F ((a, o) :: L) -> geom F ((a, o) :: L) -> (o <= MAX_ORDER)%nat ->
  (forall P, P ∈ X -> P = a \/ P ∈ X') ->
  pinfo s' = <[Z.shiftr a PAGE_SHIFT := v]> (pinfo s) ->
  flags v = PAGE_FREE -> order v = Z.of_nat o ->
  marks X' (page_info s') (push F a o) L.
Proof.
  intros [Hf Hm] Hg Ho HX Hpi Hv1 Hv2. pose proof (adds_push F a o Ho) as Hadd.
  assert (Hwf : forall b, live F ((a, o) :: L) b -> (PAGE_SIZE | b.1)).
  { intros b Hb. apply (g_wf _ _ Hg) in Hb as (_ & _ & Hal & _). eauto with asd. }
  assert (Ha : (PAGE_SIZE | a)) by (apply (Hwf (a, o)); right; set_solver).
  split.
  - intros c k Hck. apply (bfree_move _ _ _ _ Hadd) in Hck as [[= -> ->]|Hck].
    + by rewrite (page_info_eq _ _ _ _ Hpi).
    + rewrite (page_info_ne _ _ _ _ _ Hpi); [auto|done|apply (Hwf (c, k)); by left|].
      intros ->. apply (not_free_elsewhere _ _ _ _ k Hg (proj1 Hck)), Hck.
  - intros P HPg HPX Hfl. destruct (decide (P = a)) as [->|HPa].
    + rewrite (page_info_eq _ _ _ _ Hpi). exists o. split; [done|].
      destruct (g_wf _ _ Hg (a, o)) as (_ & _ & Hal & _); [right; set_solver|].
      split; [done|]. left. apply (bfree_move _ _ _ _ Hadd). by left.
    + rewrite (page_info_ne _ _ _ _ _ Hpi) in * by done.
      destruct (Hm P) as (k & Hk & HPk & Hc); [done| |done|].
      { intros Hx. apply HX in Hx. naive_solver. }
      exists k. split; [done|]. split; [done|]. destruct Hc as [Hc|(b & Hb & Hc)].
      * left. apply (bfree_move _ _ _ _ Hadd). by right.
      * right. exists b. by rewrite <- (live_move _ _ _ _ _ Hadd).
Qed.

Lemma push_ok X X' s F L a o :
  pinv X s F ((a, o) :: L) -> (forall P, P ∈ X -> P = a \/ P ∈ X') ->
  pinv X' (phys_free_block s a o) (push F a o) L /\ frame L s (phys_free_block s a o).
Proof.
  intros [He Hg Hch Hmk (Hc1 & Hc2 & Hc3)] HX.
  assert (Hw : wf_block (a, o)) by (apply (g_wf _ _ Hg); right; set_solver).
  destruct (virt_wf s (a, o) He Hw) as [Hv _]; simpl in Hv.
  pose proof Hw as (Ho & Ha & Hal & Hlim); simpl in *.
  pose proof (adds_push F a o Ho) as Hadd.
  assert (HaP : (PAGE_SIZE | a)) by eauto with asd.
  unfold phys_free_block. rewrite Hv. cbn zeta.
  set (s' := set_free_pages _ _).
  assert (Hpi : pinfo s' = <[Z.shiftr a PAGE_SHIFT :=
      mkPI PAGE_FREE (u8 (Z.of_nat o)) (refcount (page_info s a)) (map_count (page_info s a))]>
      (pinfo s)) by done.
  split; [split|split].
  - done.
  - by apply (geom_move _ _ _ _ _ Hadd).
  - apply (chains_push s); try done. intros. by eapply not_free_elsewhere.
  - eapply (marks_push X X' s); try done. simpl. apply Z.mod_small. unfold MAX_ORDER in *. lia.
  - unfold counts. rewrite (npages_move _ _ _ _ Hadd). rewrite bpages_cons in Hc2.
    pose proof (npages_nonneg F). pose proof (bpages_nonneg L). pose proof (pow2_nat_pos o).
    simpl. rewrite u64_small; lia.
  - intros b w Hb Hin. simpl. rewrite lookup_insert_ne; [done|]. intros <-.
    apply (head_elsewhere _ _ _ _ _ Hg Hb).
    by replace (PHYS_MAP_BASE + a - PHYS_MAP_BASE) with a in Hin by lia.
  - intros b P Hb Hin HPg. apply (page_info_ne _ _ _ _ _ Hpi); [done|done|].
    intros ->. by apply (head_elsewhere _ _ _ _ _ Hg Hb).
Qed.

(** ** Taking a block off its free list *)

Lemma marks_take X pi F F' L a o :
  adds F' a o F -> marks X pi F L -> marks (a :: X) pi F' ((a, o) :: L).
Proof.
  intros Hadd [Hf Hm]. split.
  - intros c k Hc. apply Hf, (bfree_move _ _ _ _ Hadd). by right.
  - intros P HPg HX Hfl. destruct (Hm P) as (k & Hk & HPk & Hc); [done|set_solver|done|].
    exists k. split; [done|]. split; [done|]. destruct Hc as [Hc|(b & Hb & Hc)].
    + apply (bfree_move _ _ _ _ Hadd) in Hc as [[= -> ->]|Hc]; [set_solver|by left].
    + right. exists b. by rewrite (live_move _ _ _ _ _ Hadd).
Qed.

Lemma counts_take s s' F F' L a o :
  adds F' a o F -> counts s F L -> total_pages s' = total_pages s ->
  free_pages s' = u64 (free_pages s - 2 ^ Z.of_nat o) ->
  counts s' F' ((a, o) :: L).
Proof.
  intros Hadd (Hc1 & Hc2 & Hc3) Ht Hf. pose proof (npages_move _ _ _ _ Hadd) as Hn.
  unfold counts. rewrite bpages_cons, Ht, Hf.
  pose proof (npages_nonneg F'). pose proof (bpages_nonneg L). pose proof (pow2_nat_pos o).
  rewrite u64_small; lia.
Qed.

(** ** Splitting and merging blocks in use *)

Lemma in_halves a k x :
  in_block (a, S k) x <-> in_block (a, k) x \/ in_block (a + bsize k, k) x.
Proof. unfold in_block; simpl. rewrite bsize_S. pose proof (bsize_pos k). lia. Qed.

Lemma aligned_high a k : aligned a (S k) -> aligned (a + bsize k) k.
Proof.
  intros H. apply Z.divide_add_r; [|done]. apply (aligned_le a k (S k)); [lia|done].
Qed.

Lemma halves_wf a k : aligned a (S k) ->
  wf_block (a, S k) -> wf_block (a, k) /\ wf_block (a + bsize k, k).
Proof.
  unfold wf_block; simpl. rewrite bsize_S. pose proof (bsize_pos k).
  intros Hal (Ho & Ha & _ & Hl). pose proof (aligned_high _ _ Hal).
  assert (aligned a k) by (apply (aligned_le a k (S k)); [lia|done]).
  split; split_and!; try done; lia.
Qed.

(** Two blocks that meet are equal, when one side is only known to be a half
    of a block in use. *)
Lemma geom_split F L a k :
  geom F ((a, S k) :: L) -> geom F ((a, k) :: (a + bsize k, k) :: L).
Proof.
  intros Hg. pose proof (bsize_pos k) as Hpos.
  assert (Hw : wf_block (a, S k)) by (apply (g_wf _ _ Hg); right; set_solver).
  assert (Hal : aligned a (S k)) by apply Hw.
  destruct (halves_wf a k Hal Hw) as [Hw1 Hw2].
  assert (Hold : forall c, live F L c -> live F ((a, S k) :: L) c)
    by (unfold live; set_solver).
  assert (Hout : forall c x, live F L c -> in_block c x -> ~ in_block (a, S k) x).
  { intros c x Hc Hcx Hax. assert (c = (a, S k)) as ->.
    { eapply (g_disj _ _ Hg); [by apply Hold|right; set_solver|done|done]. }
    destruct Hc as [Hc|Hc]; [by eapply (g_excl _ _ Hg), elem_of_cons; [|left]|].
    pose proof (g_nodupL _ _ Hg) as [? _]%list.NoDup_cons. done. }
  assert (Hcase : forall c, live F ((a, k) :: (a + bsize k, k) :: L) c ->
            c = (a, k) \/ c = (a + bsize k, k) \/ live F L c) by (unfold live; set_solver).
  assert (Hhalf : forall h, h = (a, k) \/ h = (a + bsize k, k) -> ~ live F L h).
  { intros h Hh Hc. eapply (Hout h h.1 Hc); [eauto with asd|]. apply in_halves.
    destruct Hh as [-> | ->]; [left|right]; eauto with asd. }
  split.
  - apply (g_nodup _ _ Hg).
  - pose proof (g_nodupL _ _ Hg) as [_ ?]%list.NoDup_cons.
    rewrite !list.NoDup_cons. split_and!; [|intros Hin; apply (Hhalf (a + bsize k, k)); [tauto|by right]|done].
    intros [[= E]|Hin]%elem_of_cons; [lia|]. apply (Hhalf (a, k)); [tauto|by right].
  - intros c Hc. destruct (Hcase c Hc) as [->|[->|Hc']]; [done|done|].
    apply (g_wf _ _ Hg), Hold, Hc'.
  - intros b c x Hb Hc Hbx Hcx.
    destruct (Hcase b Hb) as [->|[->|Hb']], (Hcase c Hc) as [->|[->|Hc']]; try done.
    all: try (exfalso; eapply Hout; [done|done|]; apply in_halves; tauto).
    + unfold in_block in *; simpl in *; lia.
    + unfold in_block in *; simpl in *; lia.
    + eapply (g_disj _ _ Hg); eauto.
  - intros c Hc Hin. apply elem_of_cons in Hin as [->|[->|Hin]%elem_of_cons].
    + apply (Hhalf (a, k)); [tauto|by left].
    + apply (Hhalf (a + bsize k, k)); [tauto|by left].
    + apply (g_excl _ _ Hg c Hc). set_solver.
Qed.

Lemma geom_merge F L a k :
  aligned a (S k) -> (S k <= MAX_ORDER)%nat ->
  geom F ((a, k) :: (a + bsize k, k) :: L) -> geom F ((a, S k) :: L).
Proof.
  intros Hal Hk Hg. pose proof (bsize_pos k) as Hpos. set (L2 := _ :: _ :: L) in Hg.
  assert (H1 : live F L2 (a, k)) by (right; set_solver).
  assert (H2 : live F L2 (a + bsize k, k)) by (right; set_solver).
  assert (Hold : forall c, live F L c -> live F L2 c) by (unfold live; set_solver).
  pose proof (g_nodupL _ _ Hg) as [Hn1 [Hn2 HnL]%list.NoDup_cons]%list.NoDup_cons.
  assert (Hout : forall c x, live F L c -> in_block c x -> ~ in_block (a, S k) x).
  { intros c x Hc Hcx [Hax|Hax]%in_halves.
    - assert (c = (a, k)) as -> by (eapply (g_disj _ _ Hg); eauto).
      destruct Hc as [Hc|Hc]; [apply (g_excl _ _ Hg _ Hc)|]; set_solver.
    - assert (c = (a + bsize k, k)) as -> by (eapply (g_disj _ _ Hg); eauto).
      destruct Hc as [Hc|Hc]; [apply (g_excl _ _ Hg _ Hc)|]; set_solver. }
  assert (Hcase : forall c, live F ((a, S k) :: L) c -> c = (a, S k) \/ live F L c)
    by (unfold live; set_solver).
  assert (Hnl : ~ live F L (a, S k)) by (intros Hc; eapply Hout; eauto with asd).
  split.
  - apply (g_nodup _ _ Hg).
  - apply list.NoDup_cons. split; [|done]. intros Hin. apply Hnl. by right.
  - intros c Hc. destruct (Hcase c Hc) as [->|Hc']; [|by apply (g_wf _ _ Hg), Hold].
    destruct (g_wf _ _ Hg _ H1) as (_ & Ha & _), (g_wf _ _ Hg _ H2) as (_ & _ & _ & Hl).
    unfold wf_block; simpl in *. rewrite bsize_S. split_and!; try done; lia.
  - intros b c x Hb Hc Hbx Hcx.
    destruct (Hcase b Hb) as [->|Hb'], (Hcase c Hc) as [->|Hc']; try done.
    + by destruct (Hout c x Hc' Hcx).
    + by destruct (Hout b x Hb' Hbx).
    + eapply (g_disj _ _ Hg); eauto.
  - intros c Hc [->|Hin]%elem_of_cons; [apply Hnl; by left|].
    apply (g_excl _ _ Hg c Hc). set_solver.
Qed.

Lemma marks_split X pi F L a k :
  aligned a (S k) -> marks X pi F ((a, S k) :: L) ->
  marks (a :: a + bsize k :: X) pi F ((a, k) :: (a + bsize k, k) :: L).
Proof.
  intros Hal [Hf Hm]. split; [done|]. intros P HPg HX Hfl.
  rewrite !not_elem_of_cons in HX. destruct HX as (HX1 & HX2 & HX).
  destruct (Hm P HPg HX Hfl) as (j & Hj & HPj & Hc). exists j. split; [done|]. split; [done|].
  destruct Hc as [Hc|(b & Hb & Hlt & Hin)]; [by left|].
  destruct (decide (b = (a, S k))) as [->|Hne].
  - right. simpl in Hlt. destruct (decide (j = k)) as [->|Hjk].
    { destruct (half_head a k P); done. }
    apply in_halves in Hin as [Hin|Hin].
    + exists (a, k). split; [right; set_solver|]. split; [simpl; lia|done].
    + exists (a + bsize k, k). split; [right; set_solver|]. split; [simpl; lia|done].
  - right. exists b. split; [|done]. destruct Hb as [Hb|Hb]; [by left|right; set_solver].
Qed.

Lemma marks_merge X X' pi F L a k :
  marks X pi F ((a, k) :: (a + bsize k, k) :: L) ->
  (forall P, P ∈ X -> P ∈ X' \/
     in_block (a, S k) P /\ exists j, order (pi P) = Z.of_nat j /\ aligned P j /\ (j <= k)%nat) ->
  marks X' pi F ((a, S k) :: L).
Proof.
  intros [Hf Hm] HX. split; [done|]. intros P HPg HPX Hfl.
  destruct (decide (P ∈ X)) as [Hin|Hnin].
  - apply HX in Hin as [?|(Hin & j & Hj & HPj & Hjk)]; [done|].
    exists j. split; [done|]. split; [done|]. right. exists (a, S k).
    split; [right; set_solver|]. split; [simpl; lia|done].
  - destruct (Hm P HPg Hnin Hfl) as (j & Hj & HPj & Hc). exists j. split; [done|].
    split; [done|]. destruct Hc as [Hc|(b & Hb & Hlt & Hbin)]; [by left|right].
    destruct (decide (b = (a, k) \/ b = (a + bsize k, k))) as [Hbk|Hbk].
    + exists (a, S k). split; [right; set_solver|]. split.
      * destruct Hbk as [-> | ->]; simpl in *; lia.
      * apply in_halves. destruct Hbk as [-> | ->]; tauto.
    + exists b. split; [|done]. destruct Hb as [Hb|Hb]; [by left|right; set_solver].
Qed.

Lemma bpages_halves a k L :
  bpages ((a, k) :: (a + bsize k, k) :: L) = bpages ((a, S k) :: L).
Proof. rewrite !bpages_cons, pow2_nat_S. lia. Qed.

Lemma managed_halves F L a k x :
  managed F ((a, k) :: (a + bsize k, k) :: L) x <-> managed F ((a, S k) :: L) x.
Proof.
  unfold managed. split.
  - intros (b & Hb & Hx). destruct (decide (b = (a, k) \/ b = (a + bsize k, k))) as [Hbk|Hbk].
    + exists (a, S k). split; [right; set_solver|]. apply in_halves.
      destruct Hbk as [-> | ->]; tauto.
    + exists b. split; [|done]. destruct Hb as [Hb|Hb]; [by left|right; set_solver].
  - intros (b & Hb & Hx). destruct (decide (b = (a, S k))) as [->|Hne].
    + apply in_halves in Hx as [Hx|Hx]; eexists; (split; [|done]); right; set_solver.
    + exists b. split; [|done]. destruct Hb as [Hb|Hb]; [by left|right; set_solver].
Qed.

Lemma split_ok X s F L a k :
  pinv X s F ((a, S k) :: L) ->
  pinv (a :: a + bsize k :: X) s F ((a, k) :: (a + bsize k, k) :: L).
Proof.
  intros [He Hg Hch Hmk (Hc1 & Hc2 & Hc3)].
  assert (Hal : aligned a (S k)) by (apply (g_wf _ _ Hg (a, S k)); right; set_solver).
  split; [done|by apply geom_split|done|by apply marks_split|].
  unfold counts. by rewrite bpages_halves.
Qed.

(** ** Writing the page info of a block in use *)

Lemma mark_alloc_ok X s s' F L a o v :
  pinv (a :: X) s F ((a, o) :: L) ->
  s' = set_pinfo s (<[Z.shiftr a PAGE_SHIFT := v]> (pinfo s)) -> flags v = PAGE_ALLOC ->
  pinv X s' F ((a, o) :: L) /\ frame L s s' /\ page_info s' a = v.
Proof.
  intros [He Hg Hch [Hf Hm] Hc] -> Hv. set (s' := set_pinfo _ _).
  assert (Hpi : pinfo s' = <[Z.shiftr a PAGE_SHIFT := v]> (pinfo s)) by done.
  assert (HaP : (PAGE_SIZE | a)).
  { destruct (g_wf _ _ Hg (a, o)) as (_ & _ & Hal & _); [right; set_solver|]. eauto with asd. }
  split_and!; [split; try done; split|split|by apply (page_info_eq s)].
  - intros c k Hck. rewrite (page_info_ne _ _ _ _ _ Hpi); [auto|done| |].
    + destruct (g_wf _ _ Hg (c, k)) as (_ & _ & Hal & _); [by left|]. eauto with asd.
    + intros ->. apply (not_free_elsewhere _ _ _ _ k Hg (proj1 Hck)), Hck.
  - intros P HPg HX Hfl. destruct (decide (P = a)) as [->|HPa].
    + rewrite (page_info_eq _ _ _ _ Hpi), Hv in Hfl. done.
    + rewrite (page_info_ne _ _ _ _ _ Hpi) in * by done. apply Hm; [done|set_solver|done].
  - done.
  - intros b P Hb Hin HPg. apply (page_info_ne _ _ _ _ _ Hpi); [done|done|].
    intros ->. by apply (head_elsewhere _ _ _ _ _ Hg Hb).
Qed.

(** ** The operations *)

Lemma pinv_weaken X X' s F L : X ⊆ X' -> pinv X s F L -> pinv X' s F L.
Proof. intros HX [? ? ? [] ?]. split; try done. split; [done|]. set_solver. Qed.

Lemma split_down_ok X ord d s F L a :
  pinv X s F ((a, ord + d)%nat :: L) -> a ∈ X ->
  exists F', pinv X (split_down s a ord d) F' ((a, ord) :: L) /\
    frame L s (split_down s a ord d) /\
    (forall x, managed F' ((a, ord) :: L) x <-> managed F ((a, ord + d)%nat :: L) x) /\
    total_pages (split_down s a ord d) = total_pages s.
Proof.
  revert s F. induction d as [|d IH]; intros s F Hp HX.
  - rewrite Nat.add_0_r in *. exists F. split_and!; try done.
  - replace (ord + S d)%nat with (S (ord + d)) in * by lia.
    set (k := (ord + d)%nat) in *. simpl.
    assert (Hal : aligned a (S k)).
    { apply (g_wf _ _ (pi_geom _ _ _ _ Hp) (a, S k)). right. set_solver. }
    fold k. rewrite buddy_low by done.
    apply split_ok in Hp. rewrite (Permutation_swap (a + bsize k, k) (a, k)) in Hp.
    assert (Hk : (k <= MAX_ORDER)%nat).
    { apply (g_wf _ _ (pi_geom _ _ _ _ Hp) (a, k)). right. set_solver. }
    destruct (push_ok _ X _ _ _ _ _ Hp) as [Hp' Hfr]; [set_solver|].
    destruct (IH _ _ Hp' HX) as (F' & HF & Hfr' & Hman & Htot).
    exists F'. split_and!.
    + done.
    + eapply frame_trans; [|done]. eapply frame_sub; [|done]. set_solver.
    + intros x. rewrite Hman. rewrite <- (managed_move F _ _ _ _ (adds_push F _ _ Hk)).
      rewrite (Permutation_swap (a, k) (a + bsize k, k)). apply managed_halves.
    + done.
Qed.

(** The free lists with the list of order [o] replaced. *)
Definition upd (F : nat -> list Z) (o : nat) (l : list Z) : nat -> list Z :=
  fun k => if decide (k = o) then l else F k.

Lemma adds_upd F a o l : (o <= MAX_ORDER)%nat -> F o ≡ₚ a :: l -> adds (upd F o l) a o F.
Proof.
  intros Ho HF. split; [done|]. unfold upd. split.
  - intros k Hk. by rewrite decide_False.
  - by rewrite decide_True.
Qed.

Lemma pop_ok s F L o a l :
  pinv [] s F L -> (o <= MAX_ORDER)%nat -> F o = a :: l ->
  nth o (lists s) 0 = PHYS_MAP_BASE + a /\ wf_block (a, o) /\
  pinv [a] (set_free_pages (set_lists s (<[o := rd (mem s) (PHYS_MAP_BASE + a)]> (lists s)))
              (u64 (free_pages s - 2 ^ Z.of_nat o)))
    (upd F o l) ((a, o) :: L).
Proof.
  intros [He Hg [Hlen Hch] Hmk Hc] Ho HF.
  assert (Hadd : adds (upd F o l) a o F) by (apply adds_upd; [done|by rewrite HF]).
  assert (Hw : wf_block (a, o)).
  { apply (g_wf _ _ Hg). left. split; [done|]. simpl. rewrite HF. set_solver. }
  pose proof (Hch o Ho) as Hcho. rewrite HF in Hcho. inversion Hcho as [|? n ? Hn Hrest]; subst.
  split_and!; [done|done|]. split.
  - done.
  - by apply (geom_move _ _ _ _ _ Hadd).
  - split; simpl; [by rewrite length_insert|]. intros k Hk.
    unfold rd. rewrite Hn. simpl. unfold upd. case_decide as Hko; [subst k|].
    + by rewrite nth_insert_eq by lia.
    + rewrite nth_insert_ne by done. auto.
  - by apply (marks_take [] _ _ _ _ _ _ Hadd).
  - eapply (counts_take s); done.
Qed.

(** What a call of [amm_phys_alloc] may return. *)
Definition alloc_fails (s : phys_state_t) (F : nat -> list Z) (ord : nat)
    (r : Z * phys_state_t) : Prop :=
  r = (0, s) /\ forall k, (ord <= k <= MAX_ORDER)%nat -> F k = [].

Definition alloc_succeeds (s : phys_state_t) (F : nat -> list Z) (A : list blk) (ord : nat)
    (r : Z * phys_state_t) : Prop :=
  0 < r.1 /\ (exists k, (ord <= k <= MAX_ORDER)%nat /\ r.1 ∈ F k) /\
  exists F', phys_ok r.2 F' ((r.1, ord) :: A) /\ frame A s r.2 /\
    (forall x, managed F' ((r.1, ord) :: A) x <-> managed F A x) /\
    total_pages r.2 = total_pages s.

Lemma alloc_scan_ok s F A ord o n :
  phys_ok s F A -> (ord <= o)%nat -> (o + n = S MAX_ORDER)%nat ->
  (forall k, (ord <= k < o)%nat -> F k = []) ->
  alloc_fails s F ord (alloc_scan s ord o n) \/ alloc_succeeds s F A ord (alloc_scan s ord o n).
Proof.
  intros [Hp Hmk] Hord. revert o Hord. induction n as [|n IH]; intros o Hord Hn Hemp.
  { left. split; [done|]. intros k Hk. apply Hemp. lia. }
  simpl. assert (Ho : (o <= MAX_ORDER)%nat) by lia.
  pose proof (proj2 (pi_chains _ _ _ _ Hp) o Ho) as Hch.
  destruct (F o) as [|a l] eqn:HF.
  { inversion Hch as [E|]. simpl. apply IH; [lia|lia|]. intros k Hk.
    destruct (decide (k = o)) as [->|]; [done|]. apply Hemp. lia. }
  right. destruct (pop_ok _ _ _ _ _ _ Hp Ho HF) as (Hhd & Hw & Hp1).
  destruct (virt_wf s (a, o) (pi_early _ _ _ _ Hp) Hw) as [_ Hvp]. simpl in Hvp.
  assert (Ha : 0 < a) by apply Hw.
  rewrite Hhd. rewrite (proj2 (Z.eqb_neq (PHYS_MAP_BASE + a) 0)) by (unfold PHYS_MAP_BASE; lia).
  rewrite Hvp. cbn zeta. set (s1 := set_free_pages _ _) in *.
  change (set_free_pages _ _) with s1.
  replace ((a, o) :: A) with ((a, ord + (o - ord))%nat :: A) in Hp1 by (do 2 f_equal; lia).
  destruct (split_down_ok _ _ _ _ _ _ _ Hp1) as (F' & Hp2 & Hfr2 & Hman & Htot); [set_solver|].
  match goal with |- context [mkPI ?f ?r ?c ?m] => set (v := mkPI f r c m) end.
  destruct (mark_alloc_ok _ _ _ _ _ _ _ v Hp2 eq_refl eq_refl) as (Hp3 & Hfr3 & Hpi).
  set (s3 := set_pinfo _ _) in *.
  assert (Hfr : frame A s s3) by (eapply frame_trans; [exact Hfr2|exact Hfr3]).
  split; [done|]. split; [exists o; split; [lia|]; simpl; rewrite HF; set_solver|].
  exists F'. split_and!.
  - split; [done|]. intros b [->|Hb]%elem_of_cons; simpl.
    + rewrite Hpi. simpl. split_and!; try done. apply Z.mod_small. unfold MAX_ORDER in *. lia.
    + revert b Hb. eapply (frame_marked A s); [done| |done|done].
      intros b Hb. apply (g_wf _ _ (pi_geom _ _ _ _ Hp)). by right.
  - done.
  - intros x. simpl. rewrite Hman.
    replace ((a, (ord + (o - ord))%nat) :: A) with ((a, o) :: A) by (do 2 f_equal; lia).
    apply managed_move, adds_upd; [done|]. by rewrite HF.
  - done.
Qed.

Lemma amm_phys_alloc_ok s F A ord :
  phys_ok s F A ->
  alloc_fails s F ord (amm_phys_alloc s ord) \/ alloc_succeeds s F A ord (amm_phys_alloc s ord).
Proof.
  intros Hok. unfold amm_phys_alloc. rewrite (pi_early _ _ _ _ (proj1 Hok)).
  destruct (Nat.ltb_spec MAX_ORDER ord).
  - left. split; [done|]. intros k Hk. lia.
  - apply alloc_scan_ok; [done|lia|lia|]. intros. lia.
Qed.

(** *** Unlinking a block from the middle of its list *)

Lemma chain_tail m h l1 a l2 :
  chain m h (l1 ++ a :: l2) -> exists n, m !! (PHYS_MAP_BASE + a) = Some n /\ chain m n l2.
Proof.
  revert h. induction l1 as [|p l1 IH]; simpl; intros h Hc; inversion Hc; subst; eauto.
Qed.

Lemma chain_unlink m h l0 q a l2 n :
  chain m h (l0 ++ q :: a :: l2) -> NoDup (l0 ++ q :: a :: l2) ->
  m !! (PHYS_MAP_BASE + a) = Some n ->
  chain (<[PHYS_MAP_BASE + q := n]> m) h (l0 ++ q :: l2).
Proof.
  revert h. induction l0 as [|p l0 IH]; simpl; intros h Hc Hnd Ha.
  - inversion Hc as [|? ? ? Hq Hc1]; subst. inversion Hc1 as [|? k ? Ha' Hc2]; subst.
    apply chain_cons with n; [apply lookup_insert_eq|].
    replace n with k by congruence. apply chain_frame; [|done].
    apply list.NoDup_cons in Hnd as [Hq' _]. intros p Hp E.
    apply Hq'. replace q with p by lia. set_solver.
  - inversion Hc as [|? k ? Hp Hc1]; subst. apply list.NoDup_cons in Hnd as [Hp' Hnd].
    apply chain_cons with k; [|by apply IH].
    rewrite lookup_insert_ne; [done|]. intros E. apply Hp'. replace p with q by lia. set_solver.
Qed.

Lemma unlink_walk_ok s a l2 l1 : forall fuel pp,
  chain (mem s) (load_link s pp) (l1 ++ a :: l2) -> a ∉ l1 ->
  (forall p, p ∈ l1 ++ [a] -> 0 < p) -> (length l1 < fuel)%nat ->
  exists pp', unlink_walk fuel s pp (PHYS_MAP_BASE + a) = Some pp' /\
    load_link s pp' = PHYS_MAP_BASE + a /\
    (l1 = [] /\ pp' = pp \/ exists l0 q, l1 = l0 ++ [q] /\ pp' = Next (PHYS_MAP_BASE + q)).
Proof.
  induction l1 as [|p l1 IH]; simpl; intros fuel pp Hc Hnin Hpos Hfuel.
  - destruct fuel as [|fuel]; [lia|]. inversion Hc as [|? ? ? Hq Hc1 E]. subst.
    exists pp. cbn [unlink_walk]. rewrite <- E. cbn zeta. rewrite Z.eqb_refl, orb_true_r. eauto.
  - destruct fuel as [|fuel]; [lia|]. inversion Hc as [|? n ? Hp Hc1 E]; subst.
    assert (0 < p) by (apply Hpos; set_solver). cbn [unlink_walk]. rewrite <- E. cbn zeta.
    rewrite (proj2 (Z.eqb_neq (PHYS_MAP_BASE + p) 0)) by (unfold PHYS_MAP_BASE; lia).
    rewrite (proj2 (Z.eqb_neq (PHYS_MAP_BASE + p) _)) by (intros ?; apply Hnin; set_solver by lia).
    simpl. destruct (IH fuel (Next (PHYS_MAP_BASE + p))) as (pp' & Hw & Hl & Hcase).
    + simpl. unfold rd. by rewrite Hp.
    + set_solver.
    + set_solver.
    + lia.
    + exists pp'. split; [done|]. split; [done|]. right.
      destruct Hcase as [[-> ->]|(l0 & q & -> & ->)]; [by exists [], p|by exists (p :: l0), q].
Qed.

(** The whole unlink of a free block: the walk ends, the block leaves its
    list, and only memory of free blocks is written. *)
Lemma unlink_ok s F L o a :
  pinv [] s F L -> bfree F (a, o) ->
  exists pp l', unlink_walk (S (size (mem s))) s (Head o) (PHYS_MAP_BASE + a) = Some pp /\
    load_link s pp <> 0 /\ adds (upd F o l') a o F /\
    let s' := set_free_pages (store_link s pp (rd (mem s) (PHYS_MAP_BASE + a)))
                (u64 (free_pages s - 2 ^ Z.of_nat o)) in
    pinv [a] s' (upd F o l') ((a, o) :: L) /\ frame L s s'.
Proof.
  intros [He Hg [Hlen Hch] Hmk Hc] [Ho Hin]; simpl in *.
  apply list_elem_of_split in Hin as (l1 & l2 & HF).
  pose proof (g_nodup _ _ Hg o Ho) as Hnd. pose proof (Hch o Ho) as Hco.
  assert (Hpos : forall p, p ∈ F o -> 0 < p).
  { intros p Hp. apply (g_wf _ _ Hg (p, o)). left. by split. }
  assert (Hadd : adds (upd F o (l1 ++ l2)) a o F).
  { apply adds_upd; [done|]. rewrite HF. symmetry. apply Permutation_middle. }
  pose proof (chain_length _ _ _ Hnd Hco) as Hsz. rewrite HF in *.
  destruct (chain_tail _ _ _ _ _ Hco) as (n & Hn & Hc2).
  destruct (unlink_walk_ok s a l2 l1 (S (size (mem s))) (Head o)) as (pp & Hw & Hl & Hcase).
  { done. }
  { intros Ha. apply list.NoDup_app in Hnd as (_ & Hd & _). apply (Hd a Ha). set_solver. }
  { intros p Hp. apply Hpos. set_solver. }
  { rewrite length_app in Hsz. simpl in Hsz. lia. }
  exists pp, (l1 ++ l2). split; [done|]. split; [rewrite Hl; unfold PHYS_MAP_BASE; specialize (Hpos a); set_solver by lia|].
  split; [done|]. unfold rd. rewrite Hn. cbn zeta. simpl default.
  assert (HgL : geom (upd F o (l1 ++ l2)) ((a, o) :: L)) by by apply (geom_move _ _ _ _ _ Hadd).
  assert (Hfree : forall q k w b, q ∈ F k -> (k <= MAX_ORDER)%nat -> b ∈ L ->
            in_block b (w - PHYS_MAP_BASE) -> w <> PHYS_MAP_BASE + q).
  { intros q k w b Hq Hk Hb Hbin ->.
    replace (PHYS_MAP_BASE + q - PHYS_MAP_BASE) with q in Hbin by lia.
    assert (b = (q, k)) as ->.
    { eapply (g_disj _ _ Hg); [by right|left; by split|done|eauto with asd]. }
    apply (g_excl _ _ Hg (q, k)); [by split|done]. }
  assert (Hmarks : marks [a] (page_info s) (upd F o (l1 ++ l2)) ((a, o) :: L))
    by by apply (marks_take [] _ _ _ _ _ _ Hadd).
  destruct Hcase as [[-> ->]|(l0 & q & -> & ->)]; simpl in *.
  - split; [|by split]. split; try done; [|by eapply (counts_take s)].
    split; simpl; [by rewrite length_insert|]. intros k Hk. unfold upd.
    case_decide as Hko; [subst k; by rewrite nth_insert_eq by lia|].
    rewrite nth_insert_ne by done. auto.
  - assert (Hq : q ∈ F o) by (rewrite HF; set_solver).
    split; [split; try done; [|by eapply (counts_take s)]|split; [|done]].
    + split; simpl; [done|]. intros k Hk. unfold upd. case_decide as Hko; [subst k|].
      * rewrite <- app_assoc in *. by apply chain_unlink with a.
      * apply chain_frame; [|auto]. intros p Hp E. assert (p = q) as -> by lia.
        apply Hko. assert ((q, k) = (q, o)) as [= ?]; [|done].
        eapply (g_disj _ _ Hg _ _ q); [left; by split|left; by split|eauto with asd..].
    + intros b w Hb Hbin. simpl. apply lookup_insert_ne. by apply not_eq_sym, (Hfree q o w b).
Qed.

(** *** Coalescing *)

(** A page marked free with the order of a block in use, at the address of
    that block's buddy, is a free block. *)
Lemma buddy_free s F L q o p b :
  pinv [] s F L -> aligned q (S o) ->
  (p = q /\ b = q + bsize o \/ p = q + bsize o /\ b = q) -> (p, o) ∈ L ->
  has_flag (flags (page_info s b)) PAGE_FREE = true ->
  order (page_info s b) = Z.of_nat o -> bfree F (b, o).
Proof.
  intros Hp Hal Hpb HpL Hfl Hord.
  assert (Hb : aligned b o).
  { destruct Hpb as [[_ ->]|[_ ->]]; [by apply aligned_high|].
    apply (aligned_le q o (S o)); [lia|done]. }
  destruct (m_mark _ _ _ _ (pi_marks _ _ _ _ Hp) b) as (j & Hj & _ & Hc);
    [eauto with asd|set_solver|done|].
  assert (j = o) as -> by lia. destruct Hc as [?|(c & Hc & Hlt & Hin)]; [done|exfalso].
  pose proof (pi_geom _ _ _ _ Hp) as Hg. destruct (g_wf _ _ Hg c Hc) as (_ & _ & Hcal & _).
  assert (Hbq : in_block (q, S o) b /\ in_block (q, S o) p).
  { unfold in_block; simpl. rewrite bsize_S. pose proof (bsize_pos o). lia. }
  assert (Hcp : in_block c p).
  { destruct c as [c k]; simpl in *.
    destruct (laminar c k q (S o) b) as [Hlo Hhi]; try done; [tauto|].
    unfold in_block in *; simpl in *. lia. }
  assert (c = (p, o)) as ->.
  { eapply (g_disj _ _ Hg); [done|by right|done|eauto with asd]. }
  simpl in Hlt. lia.
Qed.

(** One round of the loop: the block in use and its free buddy become one
    block in use of the next order. *)
Lemma coalesce_ok s F A q o p b :
  pinv [] s F ((p, o) :: A) -> aligned q (S o) -> (S o <= MAX_ORDER)%nat ->
  (p = q /\ b = q + bsize o \/ p = q + bsize o /\ b = q) -> bfree F (b, o) ->
  exists pp F', unlink_walk (S (size (mem s))) s (Head o) (PHYS_MAP_BASE + b) = Some pp /\
    load_link s pp <> 0 /\
    let s' := set_free_pages (store_link s pp (rd (mem s) (PHYS_MAP_BASE + b)))
                (u64 (free_pages s - 2 ^ Z.of_nat o)) in
    pinv [] s' F' ((q, S o) :: A) /\ frame A s s' /\
    (forall x, managed F' ((q, S o) :: A) x <-> managed F ((p, o) :: A) x).
Proof.
  intros Hp Hal Ho Hpb Hbf.
  destruct (m_free _ _ _ _ (pi_marks _ _ _ _ Hp) _ _ Hbf) as [_ Hord].
  destruct (unlink_ok _ _ _ _ _ Hp Hbf) as (pp & l' & Hw & Hl & Hadd & Hp' & Hfr).
  exists pp, (upd F o l'). split; [done|]. split; [done|]. cbn zeta in *.
  set (s' := set_free_pages _ _) in *.
  assert (HL : (b, o) :: (p, o) :: A ≡ₚ (q, o) :: (q + bsize o, o) :: A).
  { destruct Hpb as [[-> ->]|[-> ->]]; [apply Permutation_swap|done]. }
  assert (Hsame : page_info s' = page_info s) by (unfold s'; destruct pp; done).
  split_and!.
  - rewrite HL in Hp'. destruct Hp' as [He Hg Hch Hmk Hc]. split; try done.
    + by apply geom_merge.
    + eapply marks_merge; [exact Hmk|]. intros P ->%list_elem_of_singleton. right.
      split; [apply in_halves; destruct Hpb as [[_ ->]|[_ ->]]; [right|left]; eauto with asd|].
      exists o. rewrite Hsame. split; [done|]. split; [|lia].
      destruct Hpb as [[_ ->]|[_ ->]]; [by apply aligned_high|].
      apply (aligned_le q o (S o)); [lia|done].
    + unfold counts in *. by rewrite <- bpages_halves.
  - eapply frame_sub; [|done]. set_solver.
  - intros x. rewrite <- managed_halves, <- HL. apply managed_move, Hadd.
Qed.

Lemma buddy_cases p o : aligned p o ->
  exists q, aligned q (S o) /\
    (p = q /\ Z.lxor p (bsize o) = q + bsize o \/ p = q + bsize o /\ Z.lxor p (bsize o) = q).
Proof.
  intros [H|H]%half_cases.
  - exists p. split; [done|]. left. by rewrite buddy_low.
  - exists (p - bsize o). split; [done|]. right. split; [lia|].
    rewrite <- (buddy_high (p - bsize o) o) by done. f_equal. lia.
Qed.

Lemma free_loop_ok n : forall s F A p o,
  pinv [] s F ((p, o) :: A) -> (o + n = MAX_ORDER)%nat ->
  exists s' p' o' F', free_loop n s p o = Some (s', p', o') /\
    pinv [] s' F' ((p', o') :: A) /\ frame A s s' /\
    (forall x, managed F' ((p', o') :: A) x <-> managed F ((p, o) :: A) x) /\
    total_pages s' = total_pages s.
Proof.
  induction n as [|n IH]; intros s F A p o Hp Hn; [by exists s, p, o, F|].
  assert (Hwf : wf_block (p, o)).
  { apply (g_wf _ _ (pi_geom _ _ _ _ Hp)). right. set_solver. }
  destruct (buddy_cases p o) as (q & Hq & Hpb); [apply Hwf|]. simpl.
  set (b := Z.lxor p (bsize o)) in *.
  destruct (has_flag (flags (page_info s b)) PAGE_FREE) eqn:Hfl; [|by exists s, p, o, F].
  destruct (order (page_info s b) =? Z.of_nat o) eqn:Hord; [|by exists s, p, o, F].
  apply Z.eqb_eq in Hord. simpl.
  assert (Hbf : bfree F (b, o)) by (eapply buddy_free; try done; set_solver).
  destruct (virt_wf s (b, o) (pi_early _ _ _ _ Hp)) as [Hv _];
    [apply (g_wf _ _ (pi_geom _ _ _ _ Hp)); by left|]. simpl in Hv. rewrite Hv.
  destruct (coalesce_ok s F A q o p b) as (pp & F' & Hw & Hl & Hp' & Hfr & Hman); try done; [lia|].
  simpl in Hw. rewrite Hw.
  rewrite (proj2 (Z.eqb_neq (load_link s pp) 0)) by done.
  replace (if p <? b then p else b) with q.
  2: { pose proof (bsize_pos o). destruct (Z.ltb_spec p b); lia. }
  destruct (IH _ _ _ _ _ Hp') as (s' & p' & o' & F'' & Hr & Hp'' & Hfr' & Hman' & Htot); [lia|].
  exists s', p', o', F''. split; [done|]. split; [done|]. split_and!.
  - by eapply frame_trans.
  - intros x. by rewrite Hman', Hman.
  - rewrite Htot. by destruct pp.
Qed.

Lemma amm_phys_free_ok s F A A' p o :
  phys_ok s F A -> A ≡ₚ (p, o) :: A' ->
  exists s' F', amm_phys_free s p o = Some s' /\ phys_ok s' F' A' /\ frame A' s s' /\
    (forall x, managed F' A' x <-> managed F A x) /\ total_pages s' = total_pages s.
Proof.
  intros [Hp Hmk] HA. rewrite HA in Hp. pose proof (pi_geom _ _ _ _ Hp) as Hg.
  assert (Ho : (o <= MAX_ORDER)%nat) by (apply (g_wf _ _ Hg (p, o)); right; set_solver).
  destruct (free_loop_ok (MAX_ORDER - o) s F A' p o Hp) as (s1 & p1 & o1 & F1 & Hr & Hp1 & Hfr1 & Hman & Htot); [lia|].
  destruct (push_ok [] [] _ _ _ _ _ Hp1) as [Hp2 Hfr2]; [set_solver|].
  exists (phys_free_block s1 p1 o1), (push F1 p1 o1). unfold amm_phys_free. rewrite Hr.
  assert (Hfr : frame A' s (phys_free_block s1 p1 o1)) by (by eapply frame_trans).
  split_and!; try done.
  - split; [done|]. eapply (frame_marked A' s); [done| |done|].
    + intros b Hb. apply (g_wf _ _ Hg). right. set_solver.
    + intros b Hb. apply Hmk. rewrite HA. set_solver.
  - intros x. assert (o1 <= MAX_ORDER)%nat.
    { apply (g_wf _ _ (pi_geom _ _ _ _ Hp1) (p1, o1)). right. set_solver. }
    rewrite <- (managed_move F1 _ _ _ _ (adds_push F1 p1 o1 H)), Hman. by rewrite HA.
Qed.

End PhysInv.
