(* ===== verification/PhysInit.v ===== *)
(** * Building the free lists at boot

    [phys_free_range] cuts a page range into naturally aligned blocks and
    [amm_phys_init] applies it to the boot memory map; together they establish
    the allocator invariant of [PhysInv] from zeroed page info. *)

From S2P Require Import Prelude Phys PhysInv.
From stdpp Require Import base list gmap numbers.
From Stdlib Require Import ZArith Lia.
Open Scope Z_scope.

Module PhysInit.
Import Phys PhysInv.

(** ** Giving a new block to the allocator *)

Lemma geom_grow F L b :
  geom F L -> wf_block b -> (forall c x, live F L c -> in_block c x -> ~ in_block b x) ->
  geom F (b :: L).
Proof.
  intros [Hn HnL Hw Hd He] Hwb Hout.
  assert (Hnl : ~ live F L b) by (intros Hl; eapply Hout; eauto with asd).
  assert (Hcase : forall c, live F (b :: L) c -> c = b \/ live F L c)
    by (unfold live; set_solver).
  split.
  - done.
  - apply list.NoDup_cons. split; [|done]. intros ?. apply Hnl. by right.
  - intros c Hc. destruct (Hcase c Hc) as [->|?]; auto.
  - intros c d x Hc Hdl Hcx Hdx.
    destruct (Hcase c Hc) as [->|Hc'], (Hcase d Hdl) as [->|Hd']; try done.
    + by destruct (Hout d x Hd' Hdx).
    + by destruct (Hout c x Hc' Hcx).
    + eauto.
  - intros c Hc [->|Hin]%elem_of_cons; [apply Hnl; by left|by apply (He c)].
Qed.

Lemma live_cons F L b c : live F (b :: L) c <-> c = b \/ live F L c.
Proof. unfold live. rewrite elem_of_cons. tauto. Qed.

Lemma managed_cons F L b x : managed F (b :: L) x <-> in_block b x \/ managed F L x.
Proof.
  unfold managed. setoid_rewrite live_cons. split.
  - intros (c & [->|Hc] & Hx); [by left|right; eauto].
  - intros [Hx|(c & Hc & Hx)]; eauto.
Qed.

Lemma grow_ok s F L a o :
  pinv [] s F L -> wf_block (a, o) ->
  (forall c x, live F L c -> in_block c x -> ~ in_block (a, o) x) ->
  total_pages s + 2 ^ Z.of_nat o < 2 ^ 64 ->
  pinv [] (set_total_pages s (total_pages s + 2 ^ Z.of_nat o)) F ((a, o) :: L).
Proof.
  intros [He Hg Hch [Hf Hm] (Hc1 & Hc2 & Hc3)] Hw Hout Hb. split; try done.
  - by apply geom_grow.
  - split; [done|]. intros P HP HX Hfl. destruct (Hm P HP HX Hfl) as (k & Hk & Hal & Hc).
    exists k. split; [done|]. split; [done|]. destruct Hc as [?|(b & Hb' & ?)]; [by left|right].
    exists b. split; [|done]. destruct Hb'; [by left|right; set_solver].
  - unfold counts. simpl. rewrite bpages_cons. lia.
Qed.

(** ** Choosing the order of the next block *)

Lemma fit_order_ok base i pages : forall o,
  0 <= i < pages -> pages + 2 ^ 18 < 2 ^ 64 -> 0 <= base -> base + pages * PAGE_SIZE <= PHYS_LIMIT ->
  (PAGE_SIZE | base) -> (o <= MAX_ORDER)%nat ->
  let k := fit_order base i pages o in
  (k <= o)%nat /\ i + 2 ^ Z.of_nat k <= pages /\ aligned (base + i * PAGE_SIZE) k.
Proof.
  intros o Hi Hp Hb Hl Hal. unfold PHYS_LIMIT, PHYS_MAP_BASE in Hl.
  induction o as [|o IH]; intros Ho k.
  - subst k; simpl. split; [lia|]. split; [lia|]. apply Z.divide_add_r; [done|].
    unfold aligned. rewrite bsize_0. apply Z.divide_factor_r.
  - assert (Hle : 2 ^ Z.of_nat (S o) <= 2 ^ 18).
    { apply Z.pow_le_mono_r; [lia|]. unfold MAX_ORDER in Ho. lia. }
    pose proof (pow2_nat_pos (S o)) as Hpos.
    assert (HIH : (fit_order base i pages o <= S o)%nat /\
      i + 2 ^ Z.of_nat (fit_order base i pages o) <= pages /\
      aligned (base + i * PAGE_SIZE) (fit_order base i pages o)).
    { destruct IH as (? & ? & ?); [lia|]. split_and!; try done; lia. }
    subst k. cbn [fit_order]. cbv zeta. rewrite (u64_small (i + _)) by lia.
    rewrite (u64_small (base + _)) by (unfold PAGE_SIZE in *; lia).
    destruct (Z.ltb_spec pages (i + 2 ^ Z.of_nat (S o))); [done|].
    unfold truthy. destruct (Z.eqb_spec (Z.land (base + i * PAGE_SIZE)
      (2 ^ Z.of_nat (S o) * PAGE_SIZE - 1)) 0) as [E|E]; simpl; [|done].
    split; [lia|]. split; [lia|]. unfold aligned. apply Z.mod_divide; [pose proof (bsize_pos (S o)); lia|].
    rewrite bsize_pow, <- land_mask_low by lia.
    rewrite <- bsize_pow. unfold bsize. by rewrite (Z.mul_comm PAGE_SIZE).
Qed.

(** ** Freeing a range *)

Definition in_range (base i pages x : Z) : Prop :=
  base + i * PAGE_SIZE <= x < base + pages * PAGE_SIZE.

Lemma set_total_push s n a o :
  phys_free_block (set_total_pages s n) a o = set_total_pages (phys_free_block s a o) n.
Proof. done. Qed.

Lemma block_in_range base i pages k x :
  i + 2 ^ Z.of_nat k <= pages -> in_block (base + i * PAGE_SIZE, k) x -> in_range base i pages x.
Proof. unfold in_block, in_range, bsize; simpl. unfold PAGE_SIZE. lia. Qed.

Lemma range_split base i pages k x : i + 2 ^ Z.of_nat k <= pages ->
  in_range base i pages x <->
  in_block (base + i * PAGE_SIZE, k) x \/ in_range base (i + 2 ^ Z.of_nat k) pages x.
Proof.
  pose proof (pow2_nat_pos k) as Hk. unfold in_block, in_range, bsize. cbn [fst snd].
  generalize dependent (2 ^ Z.of_nat k). intros z **. unfold PAGE_SIZE in *. lia.
Qed.

Lemma live_outside F L a k i base pages :
  i + 2 ^ Z.of_nat k <= pages -> a = base + i * PAGE_SIZE ->
  (forall c x, live F L c -> in_block c x -> ~ in_range base i pages x) ->
  forall c x, live F ((a, k) :: L) c -> in_block c x ->
    ~ in_range base (i + 2 ^ Z.of_nat k) pages x.
Proof.
  intros Hfit -> Hout c x Hc Hcx Hx.
  assert (c = (base + i * PAGE_SIZE, k) \/ live F L c) as [->|Hc'] by (unfold live in *; set_solver).
  - clear Hout Hc. unfold in_block, in_range, bsize in *. cbn [fst snd] in *.
    generalize dependent (2 ^ Z.of_nat k). intros z **. unfold PAGE_SIZE in *. lia.
  - eapply Hout; [done|done|]. apply (range_split _ _ _ k); [done|by right].
Qed.

Lemma phys_free_range_loop_ok base pages L : forall fuel s F i n,
  pages + 2 ^ 18 < 2 ^ 64 -> 0 < base -> base + pages * PAGE_SIZE <= PHYS_LIMIT ->
  (PAGE_SIZE | base) -> 0 <= i <= pages -> (Z.to_nat (pages - i) <= fuel)%nat ->
  pinv [] (set_total_pages s n) F L ->
  (forall c x, live F L c -> in_block c x -> ~ in_range base i pages x) ->
  n + (pages - i) < 2 ^ 64 ->
  exists F', pinv [] (set_total_pages (phys_free_range_loop fuel s base i pages)
                        (n + (pages - i))) F' L /\
    frame L s (phys_free_range_loop fuel s base i pages) /\
    (forall x, managed F' L x <-> managed F L x \/ in_range base i pages x).
Proof.
  induction fuel as [|fuel IH]; intros s F i n Hpg Hb Hl Hal Hi Hfuel Hp Hout Htot;
    [|destruct (Z.ltb_spec i pages) as [Hlt|Hge]].
  1, 3: assert (i = pages) as -> by lia; cbn [phys_free_range_loop];
    rewrite ?Z.ltb_irrefl; exists F; rewrite Z.sub_diag, Z.add_0_r; split_and!;
      [done|done|intros x; unfold in_range; split; [by left|intros [?|?]; [done|lia]]].
  cbn [phys_free_range_loop]. rewrite (proj2 (Z.ltb_lt i pages)) by done. cbv zeta.
  destruct (fit_order_ok base i pages MAX_ORDER) as (Hk & Hfit & Halk); try done; try lia.
  set (k := fit_order base i pages MAX_ORDER) in *. pose proof (pow2_nat_pos k).
  rewrite (u64_small (base + _)) by (unfold PHYS_LIMIT, PHYS_MAP_BASE, PAGE_SIZE in *; lia).
  rewrite (u64_small (i + _)) by lia. set (a := base + i * PAGE_SIZE) in *.
  assert (Hw : wf_block (a, k)).
  { split_and!; simpl; try done; [subst a; unfold PAGE_SIZE; lia|].
    subst a. unfold bsize. unfold PAGE_SIZE in *. lia. }
  assert (Hp1 : pinv [] (set_total_pages s (n + 2 ^ Z.of_nat k)) F ((a, k) :: L)).
  { apply (grow_ok _ _ _ a k Hp); [done| |simpl; lia]. intros c x Hc Hcx Hax.
    eapply Hout; [done|done|]. by eapply block_in_range. }
  destruct (push_ok [] [] _ _ _ _ _ Hp1) as [Hp2 Hfr]; [by intros ? ?%not_elem_of_nil|].
  rewrite set_total_push in Hp2, Hfr. pose proof (adds_push F a k Hk) as Hadd.
  destruct (IH _ _ (i + 2 ^ Z.of_nat k) _ Hpg Hb Hl Hal ltac:(lia) ltac:(lia) Hp2)
    as (F' & HF1 & HF2 & HF3); [|lia|].
  { intros c x Hc. apply (live_move _ _ _ _ _ Hadd) in Hc.
    by apply (live_outside _ _ _ _ _ _ _ Hfit eq_refl Hout). }
  exists F'. split_and!.
  - by replace (n + (pages - i)) with
      (n + 2 ^ Z.of_nat k + (pages - (i + 2 ^ Z.of_nat k))) by lia.
  - by eapply frame_trans.
  - intros x. rewrite HF3, <- (managed_move _ _ _ _ _ Hadd), (range_split base i pages k x Hfit).
    fold a. rewrite managed_cons. tauto.
Qed.

Lemma range_loop_fields base pages : forall fuel s i,
  let s' := phys_free_range_loop fuel s base i pages in
  total_pages s' = total_pages s /\ g_bump_base s' = g_bump_base s /\
  g_bump_end s' = g_bump_end s.
Proof.
  induction fuel as [|fuel IH]; intros s i; [done|]. cbn [phys_free_range_loop].
  destruct (i <? pages); [|done]. cbv zeta.
  set (s1 := phys_free_block _ _ _).
  destruct (IH s1 ((i + 2 ^ Z.of_nat (fit_order base i pages MAX_ORDER)) mod 2 ^ 64)) as (-> & -> & ->).
  done.
Qed.

(** Freeing a fresh range and accounting for it, as [amm_phys_init] does. *)
Definition add_range (s : phys_state_t) (base pages : Z) : phys_state_t :=
  let s' := phys_free_range s base pages in
  set_total_pages s' (u64 (total_pages s' + pages)).

Lemma add_range_ok s F base pages :
  0 < base -> 0 <= pages -> base + pages * PAGE_SIZE <= PHYS_LIMIT -> (PAGE_SIZE | base) ->
  pinv [] s F [] -> (forall x, managed F [] x -> ~ in_range base 0 pages x) ->
  total_pages s + pages < 2 ^ 64 ->
  exists F', pinv [] (add_range s base pages) F' [] /\
    (forall x, managed F' [] x <-> managed F [] x \/ in_range base 0 pages x) /\
    total_pages (add_range s base pages) = total_pages s + pages.
Proof.
  intros Hb Hpg Hl Hal Hp Hout Ht. unfold add_range, phys_free_range.
  destruct (range_loop_fields base pages (Z.to_nat pages) s 0) as (Htot & _ & _).
  assert (0 <= total_pages s).
  { destruct (pi_counts _ _ _ _ Hp) as (_ & <- & _).
    pose proof (npages_nonneg F). pose proof (bpages_nonneg []). lia. }
  destruct (phys_free_range_loop_ok base pages [] (Z.to_nat pages) s F 0 (total_pages s))
    as (F' & HF1 & _ & HF2); try done; try lia.
  - unfold PHYS_LIMIT, PHYS_MAP_BASE, PAGE_SIZE in *. lia.
  - by destruct s.
  - intros c x Hc Hx. apply Hout. by exists c.
  - cbv zeta in *. rewrite Htot, u64_small by lia. rewrite Z.sub_0_r in HF1. exists F'.
    split_and!; done.
Qed.

(** ** Memory map entries *)

Lemma land_page_mask y : 0 <= y < 2 ^ 64 -> Z.land y PAGE_MASK = y - y mod PAGE_SIZE.
Proof.
  intros Hy. change PAGE_MASK with (Z.land (Z.ones 64) (Z.lnot (2 ^ 12 - 1))).
  rewrite Z.land_assoc, Z.land_ones, Z.mod_small by lia.
  change PAGE_SIZE with (2 ^ 12). rewrite <- ldiff_mask_low by lia. by rewrite Z.ldiff_land.
Qed.

Lemma page_floor y : (PAGE_SIZE | y - y mod PAGE_SIZE) /\ y - PAGE_SIZE < y - y mod PAGE_SIZE <= y.
Proof.
  unfold PAGE_SIZE. split; [|pose proof (Z.mod_pos_bound y 4096); lia].
  exists (y / 4096). pose proof (Z.div_mod y 4096). lia.
Qed.

Definition entry_in (m : asd_mmap_entry_t) (x : Z) : Prop :=
  me_type m = ASD_MEM_FREE /\ entry_base m <= x < entry_end m.

Definition in_bump (s : phys_state_t) (x : Z) : Prop :=
  g_bump_base s <> 0 /\ g_bump_base s <= x < g_bump_end s.

(** What the boot protocol guarantees about an entry: it lies in the part of
    physical memory the direct map covers, and not in page zero. *)
Definition entry_wf (m : asd_mmap_entry_t) : Prop :=
  0 < me_base m /\ 0 <= me_pages m /\ me_base m + me_pages m * PAGE_SIZE <= PHYS_LIMIT - PAGE_SIZE.

Definition bump_wf (s : phys_state_t) : Prop :=
  (PAGE_SIZE | g_bump_base s) /\ (PAGE_SIZE | g_bump_end s) /\
  0 <= g_bump_base s <= g_bump_end s /\ (g_bump_base s <> 0 -> g_bump_base s < g_bump_end s).

Lemma entry_bounds m : entry_wf m ->
  (PAGE_SIZE | entry_base m) /\ (PAGE_SIZE | entry_end m) /\ 0 < entry_base m /\
  entry_end m <= PHYS_LIMIT /\ entry_end m - entry_base m <= me_pages m * PAGE_SIZE.
Proof.
  intros (Hb & Hp & Hl). unfold entry_base, entry_end, PAGE_ALIGN, PAGE_ALIGN_DOWN.
  unfold PHYS_LIMIT, PHYS_MAP_BASE in *.
  rewrite (u64_small (me_pages m * _)) by (unfold PAGE_SIZE in *; lia).
  rewrite (u64_small (me_base m + me_pages m * _)) by (unfold PAGE_SIZE in *; lia).
  rewrite (u64_small (me_base m + PAGE_SIZE - 1)) by (unfold PAGE_SIZE in *; lia).
  rewrite !land_page_mask by (unfold PAGE_SIZE in *; lia).
  destruct (page_floor (me_base m + PAGE_SIZE - 1)) as [H1 H2].
  destruct (page_floor (me_base m + me_pages m * PAGE_SIZE)) as [H3 H4].
  split_and!; [done|done|lia|unfold PAGE_SIZE in *; lia|lia].
Qed.

Lemma range_pages b e : (PAGE_SIZE | b) -> (PAGE_SIZE | e) -> b <= e ->
  0 <= Z.shiftr (e - b) PAGE_SHIFT /\ b + Z.shiftr (e - b) PAGE_SHIFT * PAGE_SIZE = e.
Proof.
  unfold PAGE_SHIFT, PAGE_SIZE. intros [p ->] [q ->] H.
  rewrite Z.shiftr_div_pow2 by lia. change (2 ^ 12) with 4096.
  rewrite <- Z.mul_sub_distr_r, Z.div_mul by lia. lia.
Qed.

(** One range [b, e) of an entry. *)
Lemma add_span_ok s F b e :
  (PAGE_SIZE | b) -> (PAGE_SIZE | e) -> 0 < b <= e -> e <= PHYS_LIMIT ->
  pinv [] s F [] -> (forall x, managed F [] x -> ~ b <= x < e) ->
  total_pages s + (e - b) / PAGE_SIZE < 2 ^ 64 ->
  exists F', pinv [] (add_range s b (Z.shiftr (e - b) PAGE_SHIFT)) F' [] /\
    (forall x, managed F' [] x <-> managed F [] x \/ b <= x < e) /\
    total_pages (add_range s b (Z.shiftr (e - b) PAGE_SHIFT)) =
      total_pages s + (e - b) / PAGE_SIZE.
Proof.
  intros Hb He Hle Hl Hp Hout Ht. destruct (range_pages b e) as [H1 H2]; [done|done|lia|].
  assert (E : (e - b) / PAGE_SIZE = Z.shiftr (e - b) PAGE_SHIFT).
  { unfold PAGE_SHIFT. by rewrite Z.shiftr_div_pow2 by lia. }
  rewrite E in *. set (pg := Z.shiftr (e - b) PAGE_SHIFT) in *.
  destruct (add_range_ok s F b pg) as (F' & HF & Hman & Htot); try done; try lia.
  - intros x Hx. unfold in_range. rewrite Z.mul_0_l, Z.add_0_r, H2. by apply Hout.
  - exists F'. split_and!; try done. intros x. rewrite Hman. unfold in_range.
    by rewrite Z.mul_0_l, Z.add_0_r, H2.
Qed.

Lemma pinv_bounds X s F L b t : pinv X (set_bounds s b t) F L <-> pinv X s F L.
Proof. split; intros []; by split. Qed.

Lemma add_range_bump s b pg :
  g_bump_base (add_range s b pg) = g_bump_base s /\ g_bump_end (add_range s b pg) = g_bump_end s.
Proof.
  destruct (range_loop_fields b pg (Z.to_nat pg) s 0) as (_ & H1 & H2).
  unfold add_range, phys_free_range. simpl in *. by rewrite H1, H2.
Qed.

(** The body of an entry after the bounds are recorded. *)
Definition free_entry (s : phys_state_t) (base en : Z) : phys_state_t :=
  if truthy (g_bump_base s) && (base <? g_bump_end s) && (g_bump_base s <? en) then
    let s := if base <? g_bump_base s
             then add_range s base (Z.shiftr (g_bump_base s - base) PAGE_SHIFT) else s in
    if g_bump_end s <? en
    then add_range s (g_bump_end s) (Z.shiftr (en - g_bump_end s) PAGE_SHIFT) else s
  else add_range s base (Z.shiftr (en - base) PAGE_SHIFT).

Lemma pages_le a b c : a <= b -> b - a <= c * PAGE_SIZE -> (b - a) / PAGE_SIZE <= c.
Proof.
  intros. unfold PAGE_SIZE in *. apply Z.div_le_upper_bound; lia.
Qed.

(** What one step of initialisation establishes. *)
Definition added (s : phys_state_t) (F : nat -> list Z) (s' : phys_state_t) (In : Z -> Prop) (n : Z) : Prop :=
  exists F', pinv [] s' F' [] /\ (forall x, managed F' [] x <-> managed F [] x \/ In x) /\
    total_pages s' <= total_pages s + n /\
    g_bump_base s' = g_bump_base s /\ g_bump_end s' = g_bump_end s.

Lemma add_span_added s F b e n :
  (PAGE_SIZE | b) -> (PAGE_SIZE | e) -> 0 < b <= e -> e <= PHYS_LIMIT ->
  pinv [] s F [] -> (forall x, managed F [] x -> ~ b <= x < e) ->
  total_pages s + n < 2 ^ 64 -> (e - b) / PAGE_SIZE <= n ->
  added s F (add_range s b (Z.shiftr (e - b) PAGE_SHIFT)) (fun x => b <= x < e) n.
Proof.
  intros Hb He Hle Hl Hp Hout Ht Hn.
  destruct (add_span_ok s F b e) as (F' & HF & Hman & Htot); try done; [lia|].
  destruct (add_range_bump s b (Z.shiftr (e - b) PAGE_SHIFT)).
  exists F'. split_and!; try done. lia.
Qed.

Lemma added_trans s F s1 F1 s2 In1 In2 n1 n2 :
  (forall x, managed F1 [] x <-> managed F [] x \/ In1 x) -> total_pages s1 <= total_pages s + n1 ->
  g_bump_base s1 = g_bump_base s -> g_bump_end s1 = g_bump_end s ->
  added s1 F1 s2 In2 n2 -> added s F s2 (fun x => In1 x \/ In2 x) (n1 + n2).
Proof.
  intros H1 H2 H3 H4 (F2 & HF & Hman & Ht & Hb & He). exists F2. rewrite Hb, He.
  split_and!; [done| |lia|done|done].
  intros x. rewrite Hman, H1. tauto.
Qed.

Lemma added_ext s F s' In In' n : (forall x, In x <-> In' x) -> added s F s' In n -> added s F s' In' n.
Proof.
  intros H (F' & HF & Hman & Hr). exists F'. split_and!; try tauto.
  intros x. by rewrite Hman, H.
Qed.

Lemma added_skip s F In n : pinv [] s F [] -> 0 <= n -> (forall x, ~ In x) -> added s F s In n.
Proof.
  intros Hp Hn H. exists F. split_and!; try done; [|lia]. intros x. specialize (H x). tauto.
Qed.

Lemma free_entry_ok s F base en n :
  bump_wf s -> (PAGE_SIZE | base) -> (PAGE_SIZE | en) -> 0 < base < en -> en <= PHYS_LIMIT ->
  pinv [] s F [] -> (forall x, managed F [] x -> ~ base <= x < en) ->
  total_pages s + n < 2 ^ 64 -> en - base <= n * PAGE_SIZE ->
  added s F (free_entry s base en) (fun x => base <= x < en /\ ~ in_bump s x) n.
Proof.
  intros (Hb1 & Hb2 & Hb3 & Hb4) Hb He Hle Hl Hp Hout Ht Hn. unfold free_entry, in_bump, truthy.
  destruct (Z.eqb_spec (g_bump_base s) 0) as [E0|E0];
    [|destruct (Z.ltb_spec base (g_bump_end s)) as [E1|E1];
      [destruct (Z.ltb_spec (g_bump_base s) en) as [E2|E2]|]]; cbn [negb andb].
  1, 3, 4: eapply added_ext; [|apply (add_span_added s F base en n); try done;
    [lia|apply pages_le; lia]]; intros x; simpl; lia.
  specialize (Hb4 E0). set (n1 := (Z.max base (g_bump_base s) - base) / PAGE_SIZE).
  assert (Hn1 : 0 <= n1) by (apply Z.div_pos; [lia|done]).
  assert (Hn2 : (en - Z.min en (g_bump_end s)) / PAGE_SIZE <= n - n1).
  { subst n1. unfold PAGE_SIZE in *. destruct Hb as [p ->], He as [q ->], Hb1 as [u Hu], Hb2 as [v Hv].
    rewrite Hu, Hv in *. rewrite Z.mul_max_distr_nonneg_r, Z.mul_min_distr_nonneg_r by lia.
    rewrite <- !Z.mul_sub_distr_r, !Z.div_mul by lia. lia. }
  assert (Hn3 : 0 <= n - n1).
  { assert (0 <= (en - Z.min en (g_bump_end s)) / PAGE_SIZE) by (apply Z.div_pos; [lia|done]). lia. }
  assert (H1 : added s F (if base <? g_bump_base s
             then add_range s base (Z.shiftr (g_bump_base s - base) PAGE_SHIFT) else s)
             (fun x => base <= x < g_bump_base s) n1).
  { destruct (Z.ltb_spec base (g_bump_base s)) as [E3|E3].
    - apply add_span_added; try done; try lia; [|subst n1; rewrite Z.max_r by lia; lia].
      intros x Hx. apply Hout in Hx. lia.
    - apply added_skip; [done|done|]. intros x. lia. }
  destruct H1 as (F1 & Hp1 & Hman1 & Ht1 & Hbb & Hbe). cbv zeta.
  set (s1 := if base <? g_bump_base s then _ else _) in *. rewrite Hbe.
  replace n with (n1 + (n - n1)) by lia.
  assert (H2 : added s1 F1 (if g_bump_end s <? en
    then add_range s1 (g_bump_end s) (Z.shiftr (en - g_bump_end s) PAGE_SHIFT) else s1)
             (fun x => g_bump_end s <= x < en) (n - n1)).
  { destruct (Z.ltb_spec (g_bump_end s) en) as [E3|E3].
    - apply add_span_added; try done; try lia; [|by rewrite Z.min_r in Hn2 by lia].
      intros x Hx. apply Hman1 in Hx as [Hx|Hx]; [apply Hout in Hx|]; lia.
    - apply added_skip; [done|done|intros x; lia]. }
  eapply added_ext; [|exact (added_trans _ _ _ _ _ _ _ _ _ Hman1 Ht1 Hbb Hbe H2)]. intros x. simpl. lia.
Qed.

(** [phys_init_entry] in terms of [free_entry]. *)
Lemma phys_init_entry_eq s m :
  phys_init_entry s m =
  if negb (me_type m =? ASD_MEM_FREE) || (entry_end m <=? entry_base m) then s
  else
    let s := if entry_base m <? phys_base s then set_bounds s (entry_base m) (phys_top s) else s in
    let s := if phys_top s <? entry_end m then set_bounds s (phys_base s) (entry_end m) else s in
    free_entry s (entry_base m) (entry_end m).
Proof.
  unfold phys_init_entry, free_entry, add_range.
  destruct (negb _); [done|]. destruct (_ <=? _); [done|]. cbn [orb]. cbv zeta.
  repeat (destruct (_ <? _); try done).
Qed.

Lemma init_entry_ok s F m :
  bump_wf s -> entry_wf m -> pinv [] s F [] ->
  (forall x, managed F [] x -> ~ entry_in m x) -> total_pages s + me_pages m < 2 ^ 64 ->
  added s F (phys_init_entry s m) (fun x => entry_in m x /\ ~ in_bump s x) (me_pages m).
Proof.
  intros Hbw Hw Hp Hout Ht. rewrite phys_init_entry_eq. unfold entry_in.
  destruct (entry_bounds m Hw) as (H1 & H2 & H3 & H4 & H5).
  destruct (Z.eqb_spec (me_type m) ASD_MEM_FREE) as [Hty|Hty]; cbn [negb orb].
  2: { apply added_skip; [done|apply Hw|]. intros x. tauto. }
  destruct (Z.leb_spec (entry_end m) (entry_base m)) as [Hle|Hlt].
  { apply added_skip; [done|apply Hw|]. intros x. lia. }
  cbv zeta. set (s1 := if entry_base m <? phys_base s then _ else _).
  set (s2 := if phys_top s1 <? _ then _ else _).
  assert (E : exists b t, s2 = set_bounds s b t).
  { subst s2 s1. destruct s. repeat (destruct (_ <? _)); eexists _, _; reflexivity. }
  destruct E as (b & t & ->). clear s1.
  eapply added_ext; [|apply (free_entry_ok (set_bounds s b t) F _ _ (me_pages m)); try done].
  - intros x. unfold in_bump. simpl. tauto.
  - by apply pinv_bounds.
  - intros x Hx Hin. by apply (Hout x Hx).
Qed.

(** The entries of a memory map do not overlap. *)
Inductive mmap_disjoint : list asd_mmap_entry_t -> Prop :=
| md_nil : mmap_disjoint []
| md_cons m rest : (forall m' x, m' ∈ rest -> entry_in m x -> ~ entry_in m' x) ->
    mmap_disjoint rest -> mmap_disjoint (m :: rest).

Lemma init_fold_ok mmap : forall s F,
  bump_wf s -> Forall entry_wf mmap -> mmap_disjoint mmap -> pinv [] s F [] ->
  (forall m x, m ∈ mmap -> managed F [] x -> ~ entry_in m x) ->
  total_pages s + zsum me_pages mmap < 2 ^ 64 ->
  added s F (fold_left phys_init_entry mmap s)
    (fun x => (exists m, m ∈ mmap /\ entry_in m x) /\ ~ in_bump s x) (zsum me_pages mmap).
Proof.
  induction mmap as [|m mmap IH]; intros s F Hbw Hwf Hdis Hp Hout Ht; simpl in *.
  { apply added_skip; [done|done|]. intros x ((m & Hm & _) & _). set_solver. }
  apply list.Forall_cons in Hwf as [Hw Hwf]. inversion Hdis as [|? ? Hd Hdis']; subst.
  assert (0 <= zsum me_pages mmap).
  { apply zsum_nonneg. intros m' Hm'. rewrite list.Forall_forall in Hwf. apply Hwf, Hm'. }
  destruct (init_entry_ok s F m Hbw Hw Hp) as (F1 & Hp1 & Hman1 & Ht1 & Hbb & Hbe);
    [intros; eapply Hout; eauto; set_solver|lia|].
  assert (Hbw1 : bump_wf (phys_init_entry s m)) by (unfold bump_wf in *; by rewrite Hbb, Hbe).
  specialize (IH _ F1 Hbw1 Hwf Hdis' Hp1). eapply added_ext; [|eapply (added_trans s F _ F1 _ _ _ _ _ Hman1 Ht1 Hbb Hbe), IH].
  - intros x. cbn beta. unfold in_bump. rewrite Hbb, Hbe. setoid_rewrite elem_of_cons.
    split; [naive_solver|]. intros [(m' & [->|Hm'] & Hx) Hb]; [by left|right; eauto].
  - intros m' x Hm' Hx Hin. apply Hman1 in Hx as [Hx|[Hx _]].
    + eapply (Hout m'); eauto. set_solver.
    + by apply (Hd m' x).
  - lia.
Qed.

(** The cleared state satisfies the invariant with nothing managed. *)
Lemma clear_ok s : g_early_boot s = false -> pinfo s = ∅ ->
  pinv [] (clear_phys s) (fun _ => []) [].
Proof.
  intros He Hpi. split; [done| | | |].
  - split; try set_solver; [intros; constructor|constructor|..].
    + intros b [[_ Hb]|Hb]; set_solver.
    + intros b c x [[_ Hb]|Hb]; set_solver.
  - split; [done|]. intros o Ho.
    replace (nth o (lists (clear_phys s)) 0) with 0; [apply chain_nil|].
    change (lists (clear_phys s)) with (replicate (S MAX_ORDER) 0).
    by rewrite nth_lookup, lookup_replicate_2 by lia.
  - split; [intros a o [_ Ha]; set_solver|]. intros P _ _ Hf. exfalso.
    unfold page_info in Hf. simpl in Hf. rewrite Hpi, lookup_empty in Hf. done.
  - done.
Qed.

Lemma amm_phys_init_ok s mmap :
  g_early_boot s = false -> pinfo s = ∅ -> bump_wf s ->
  Forall entry_wf mmap -> mmap_disjoint mmap -> zsum me_pages mmap < 2 ^ 64 ->
  exists F, phys_ok (amm_phys_init s mmap) F [] /\
    forall x, managed F [] x <-> (exists m, m ∈ mmap /\ entry_in m x) /\ ~ in_bump s x.
Proof.
  intros He Hpi Hbw Hwf Hdis Ht.
  assert (Hnone : forall x, ~ managed (fun _ => []) [] x).
  { intros x (b & [[_ Hb]|Hb] & _); set_solver. }
  destruct (init_fold_ok mmap (clear_phys s) (fun _ => [])) as (F & Hp & Hman & _); try done.
  - by apply clear_ok.
  - intros m x _ Hx. by apply Hnone in Hx.
  - exists F. split.
    + split; [done|]. intros b Hb. set_solver.
    + intros x. rewrite Hman. specialize (Hnone x). unfold in_bump. simpl. tauto.
Qed.

End PhysInit.
