(* ===== verification/PhysSpec.v ===== *)
(** * What the physical allocator promises

    The theorems about kernel/mm/mm.c's buddy allocator, and the interface
    through which the page-table code uses it. *)

From S2P Require Import Prelude Phys PhysInv PhysInit.
From Stdlib Require Import ZArith Lia.
From stdpp Require Import base list gmap numbers.
Open Scope Z_scope.

Module PhysSpec.
Import Phys PhysInv PhysInit.

(** ** Clients writing to their own blocks *)

Definition write (s : phys_state_t) (w v : Z) : phys_state_t := set_mem s (<[w := v]> (mem s)).

Lemma write_ok s F A b w v :
  phys_ok s F A -> b ∈ A -> in_block b (w - PHYS_MAP_BASE) -> phys_ok (write s w v) F A.
Proof.
  intros [[He Hg [Hlen Hch] Hmk Hc] Ha] Hb Hin. split; [split; try done|done].
  split; [done|]. intros o Ho. apply chain_frame; [|by apply Hch]. intros p Hp ->.
  replace (PHYS_MAP_BASE + p - PHYS_MAP_BASE) with p in Hin by lia.
  assert (b = (p, o)) as ->.
  { eapply (g_disj _ _ Hg _ _ p); [by right|left; by split|done|eauto with asd]. }
  by apply (g_excl _ _ Hg (p, o)).
Qed.

(** ** Reachable states *)

(** Histories of the allocator after boot: allocations, frees of held blocks,
    and writes of the holders into their blocks.  [A] is the multiset of
    blocks held. *)
Inductive reach (s0 : phys_state_t) : phys_state_t -> list blk -> Prop :=
| reach_init : reach s0 s0 []
| reach_alloc s A ord p s' : reach s0 s A -> amm_phys_alloc s ord = (p, s') -> p <> 0 ->
    reach s0 s' ((p, ord) :: A)
| reach_oom s A ord s' : reach s0 s A -> amm_phys_alloc s ord = (0, s') -> reach s0 s' A
| reach_free s A A' p o s' : reach s0 s A -> A ≡ₚ (p, o) :: A' ->
    amm_phys_free s p o = Some s' -> reach s0 s' A'
| reach_write s A b w v : reach s0 s A -> b ∈ A -> in_block b (w - PHYS_MAP_BASE) ->
    reach s0 (write s w v) A.

Lemma reach_ok s0 F0 s A : phys_ok s0 F0 [] -> reach s0 s A ->
  exists F, phys_ok s F A /\ (forall x, managed F A x <-> managed F0 [] x) /\
    total_pages s = total_pages s0.
Proof.
  intros H0. induction 1 as [|s A ord p s' Hr IH Ha Hp|s A ord s' Hr IH Ha
    |s A A' p o s' Hr IH HA Hf|s A b w v Hr IH Hb Hin].
  - by exists F0.
  - destruct IH as (F & Hok & Hman & Ht).
    destruct (amm_phys_alloc_ok s F A ord Hok) as [[E _]|Hs].
    + rewrite Ha in E. congruence.
    + rewrite Ha in Hs. destruct Hs as (_ & _ & F' & Hok' & _ & Hman' & Ht'). simpl in *.
      exists F'. split_and!; [done| |congruence]. intros x. by rewrite Hman', Hman.
  - destruct IH as (F & Hok & Hman & Ht).
    destruct (amm_phys_alloc_ok s F A ord Hok) as [[E _]|Hs].
    + rewrite Ha in E. injection E as ->. by exists F.
    + rewrite Ha in Hs. destruct Hs as (H & _). simpl in H. lia.
  - destruct IH as (F & Hok & Hman & Ht).
    destruct (amm_phys_free_ok s F A A' p o Hok HA) as (s1 & F' & E & Hok' & _ & Hman' & Ht').
    assert (s1 = s') as -> by congruence.
    exists F'. split_and!; [done| |congruence]. intros x. by rewrite Hman', Hman.
  - destruct IH as (F & Hok & Hman & Ht). exists F. split_and!; [|done|done].
    by eapply write_ok.
Qed.

(** ** Properties *)

(** C1: [amm_phys_alloc] on a consistent allocator either returns 0, leaves
    the state alone, and no free list of the requested order or above has a
    block; or it returns a non-zero block that is naturally aligned, inside the
    direct map, taken from a free block, and disjoint from every block already
    handed out; the result is again consistent and no byte or page-info entry of
    a handed-out block was touched. *)
Theorem amm_phys_alloc_correct s F A ord :
  phys_ok s F A ->
  let (p, s') := amm_phys_alloc s ord in
  (p = 0 /\ s' = s /\ forall k, (ord <= k <= MAX_ORDER)%nat -> F k = []) \/
  (0 < p /\ p + bsize ord <= PHYS_LIMIT /\ (bsize ord | p) /\
   (exists k, (ord <= k <= MAX_ORDER)%nat /\ p ∈ F k) /\
   (forall b x, b ∈ A -> in_block b x -> ~ in_block (p, ord) x) /\
   (exists F', phys_ok s' F' ((p, ord) :: A)) /\
   (forall b w, b ∈ A -> in_block b (w - PHYS_MAP_BASE) -> mem s' !! w = mem s !! w) /\
   free_pages s' = free_pages s - 2 ^ Z.of_nat ord).
Proof.
  intros Hok. pose proof (amm_phys_alloc_ok s F A ord Hok) as Hcase.
  destruct (amm_phys_alloc s ord) as [p s'].
  destruct Hcase as [[[= -> ->] Hnone]|(Hp & Hex & F' & Hok' & Hfr & _ & Ht)]; [by left|right].
  simpl in *. pose proof (proj1 Hok') as [_ Hg _ _ (Hc1 & Hc2 & _)].
  pose proof (proj1 Hok) as [_ _ _ _ (Hd1 & Hd2 & _)].
  destruct (g_wf _ _ Hg (p, ord)) as (_ & _ & Hal & Hl); [right; set_solver|].
  split_and!; [done|done|done|done| |by exists F'|apply Hfr|].
  - intros b x Hb Hbx Hpx. assert (b = (p, ord)) as ->.
    { eapply (g_disj _ _ Hg); [right; set_solver|right; set_solver|done|done]. }
    pose proof (g_nodupL _ _ Hg) as [? _]%list.NoDup_cons. done.
  - rewrite bpages_cons in Hc2. lia.
Qed.

(** C2: [amm_phys_free] of a held block terminates, merges it with its free
    buddies, and gives back a consistent allocator that manages exactly the
    same memory, in which the block is no longer held, [2^order] more pages are
    free, and no byte of another held block was touched. *)
Theorem amm_phys_free_correct s F A A' p o :
  phys_ok s F A -> A ≡ₚ (p, o) :: A' ->
  exists s' F', amm_phys_free s p o = Some s' /\ phys_ok s' F' A' /\
    (forall x, managed F' A' x <-> managed F A x) /\
    (forall b w, b ∈ A' -> in_block b (w - PHYS_MAP_BASE) -> mem s' !! w = mem s !! w) /\
    free_pages s' = free_pages s + 2 ^ Z.of_nat o.
Proof.
  intros Hok HA. destruct (amm_phys_free_ok s F A A' p o Hok HA) as (s' & F' & E & Hok' & Hfr & Hman & Ht).
  exists s', F'. split_and!; [done|done|done|apply Hfr|].
  pose proof (proj1 Hok') as [_ _ _ _ (Hc1 & Hc2 & _)].
  pose proof (proj1 Hok) as [_ _ _ _ (Hd1 & Hd2 & _)].
  rewrite HA, bpages_cons in Hd2. lia.
Qed.


(** C3: In every state reached from boot by allocations, frees of held
    blocks and writes into held blocks, held blocks are aligned and pairwise
    disjoint, they lie in the memory managed since boot, and the free and held
    pages add up to [total_pages]. *)
Theorem reachable_blocks_disjoint s0 F0 s A :
  phys_ok s0 F0 [] -> reach s0 s A ->
  NoDup A /\
  (forall b, b ∈ A -> (bsize b.2 | b.1) /\ forall x, in_block b x -> managed F0 [] x) /\
  (forall b c x, b ∈ A -> c ∈ A -> in_block b x -> in_block c x -> b = c) /\
  free_pages s + bpages A = total_pages s0.
Proof.
  intros H0 Hr. destruct (reach_ok _ _ _ _ H0 Hr) as (F & [[_ Hg _ _ (Hc1 & Hc2 & _)] _] & Hman & Ht).
  split_and!.
  - apply Hg.
  - intros b Hb. split.
    + apply (g_wf _ _ Hg b). by right.
    + intros x Hx. rewrite <- Hman. exists b. split; [by right|done].
  - intros b c x Hb Hc. apply (g_disj _ _ Hg); by right.
  - lia.
Qed.

(** ** Witnesses on a small machine *)

Definition boot0 : phys_state_t :=
  mkPhys ∅ ∅ [] 0 0 0 0 false 0x302000 0x302000 0x304000.
Definition boot_mmap : list asd_mmap_entry_t :=
  [mkEntry 0x100000 24 0; mkEntry 0x200000 4 1; mkEntry 0x300000 8 0].
Definition boot1 : phys_state_t := amm_phys_init boot0 boot_mmap.

(** Evaluates the bounds of concrete memory map entries in a hypothesis. *)
Ltac eval_entry H :=
  unfold entry_in in H;
  repeat match type of H with
  | context [entry_base ?m] => let v := eval vm_compute in (entry_base m) in change (entry_base m) with v in H
  | context [entry_end ?m] => let v := eval vm_compute in (entry_end m) in change (entry_end m) with v in H
  end; cbn in H.

Lemma boot_mmap_ok : Forall entry_wf boot_mmap /\ mmap_disjoint boot_mmap /\ bump_wf boot0.
Proof.
  split_and!.
  - repeat constructor; done.
  - repeat apply md_cons; [..|apply md_nil]; intros m' x Hm' H1 H2; eval_entry H1;
      repeat (apply elem_of_cons in Hm' as [->|Hm']); try (by apply not_elem_of_nil in Hm');
      eval_entry H2; lia.
  - split_and!; [exists 0x302|exists 0x304|..]; done.
Qed.

Lemma boot1_ok : exists F, phys_ok boot1 F [] /\ exists x, managed F [] x.
Proof.
  destruct boot_mmap_ok as (H1 & H2 & H3).
  destruct (amm_phys_init_ok boot0 boot_mmap) as (F & Hok & Hman); try done.
  exists F. split; [done|]. exists 0x100000. apply Hman. split.
  - exists (mkEntry 0x100000 24 0). split; [set_solver|]. split; [done|]. vm_compute. split; congruence.
  - intros [_ H]. simpl in H. lia.
Qed.


(** Evaluated by [vm_compute] only. *)
#[local] Strategy opaque [boot1].

Lemma boot1_alloc :
  (amm_phys_alloc boot1 0).1 = 0x300000 /\ free_pages boot1 = 30 /\ total_pages boot1 = 30.
Proof. vm_compute. done. Qed.

Lemma amm_phys_alloc_correct_witness :
  exists p s', amm_phys_alloc boot1 0 = (p, s') /\ p = 0x300000 /\
    exists F', phys_ok s' F' [(p, 0%nat)].
Proof.
  destruct boot1_ok as (F & Hok & _). destruct boot1_alloc as (Hp & _).
  pose proof (amm_phys_alloc_correct boot1 F [] 0 Hok) as H.
  destruct (amm_phys_alloc boot1 0) as [p s'] eqn:E. exists p, s'. cbn [fst] in Hp. subst p.
  split; [reflexivity|]. split; [reflexivity|].
  destruct H as [(? & _)|(_ & _ & _ & _ & _ & HF & _)]; [discriminate|exact HF].
Defined.

Lemma amm_phys_free_correct_witness :
  exists s' s'' F'', amm_phys_alloc boot1 0 = (0x300000, s') /\
    amm_phys_free s' 0x300000 0 = Some s'' /\ phys_ok s'' F'' [] /\ free_pages s'' = 30.
Proof.
  destruct boot1_ok as (F & Hok & _). destruct boot1_alloc as (Hp & Hfp & _).
  destruct (amm_phys_alloc_ok boot1 F [] 0 Hok) as [[E _]|Hs].
  - exfalso. rewrite E in Hp. cbn [fst] in Hp. lia.
  - destruct (amm_phys_alloc boot1 0) as [p s']. cbn [fst] in Hp. subst p.
    destruct Hs as (_ & _ & F' & Hok' & _ & _ & Ht). cbn [fst snd] in *.
    destruct (amm_phys_free_correct s' F' [(0x300000, 0%nat)] [] 0x300000 0 Hok'
                (Permutation_refl _)) as (s'' & F'' & E & Hok'' & _).
    exists s', s'', F''. split_and!; [reflexivity|exact E|exact Hok''|].
    pose proof (pi_counts _ _ _ _ (proj1 Hok'')) as (H1 & H2 & _).
    destruct (amm_phys_free_ok s' F' _ [] _ _ Hok' (Permutation_refl _))
      as (s2 & F2 & E2 & _ & _ & _ & Ht2).
    assert (s2 = s'') as -> by congruence. destruct boot1_alloc as (_ & _ & Htot).
    unfold bpages in H2. simpl in H2. lia.
Defined.

Lemma reachable_blocks_disjoint_witness :
  exists F0 s, phys_ok boot1 F0 [] /\ reach boot1 s [(0x300000, 0%nat)] /\
    free_pages s + bpages [(0x300000, 0%nat)] = 30.
Proof.
  destruct boot1_ok as (F & Hok & _). destruct boot1_alloc as (Hp & _ & Ht).
  exists F, (amm_phys_alloc boot1 0).2. split; [exact Hok|].
  assert (Hr : reach boot1 (amm_phys_alloc boot1 0).2 [(0x300000, 0%nat)]).
  { destruct (amm_phys_alloc boot1 0) as [p s'] eqn:E. cbn [fst] in Hp. subst p.
    exact (reach_alloc boot1 boot1 [] 0 0x300000 s' (reach_init boot1) E ltac:(discriminate)). }
  split; [exact Hr|].
  destruct (reachable_blocks_disjoint boot1 F _ _ Hok Hr) as (_ & _ & _ & H).
  rewrite H. exact Ht.
Defined.

(** A memory map whose first free entry starts at physical address 0
    makes [amm_phys_alloc] hand out page 0: the caller sees the out-of-memory
    value although 127 pages are still free, and the page is lost. *)
Theorem amm_phys_alloc_page_zero :
  let s := amm_phys_init (set_bump boot0 0 0 0) [mkEntry 0 128 0] in
  free_pages s = 128 /\
  (amm_phys_alloc s 0).1 = 0 /\ free_pages (amm_phys_alloc s 0).2 = 127 /\
  (amm_phys_alloc (amm_phys_alloc s 0).2 0).1 = 0x1000.
Proof. vm_compute. done. Qed.

End PhysSpec.
