(* ===== verification/PhysFrame.v ===== *)
(** * The physical allocator writes only to the memory it manages

    Page tables built during early boot, and everything else outside the free
    lists and the blocks handed out, is left alone by [amm_phys_alloc] and
    [amm_phys_free]. *)

From S2P Require Import Prelude Phys PhysInv.
From Stdlib Require Import ZArith Lia.
From stdpp Require Import base list gmap numbers.
Open Scope Z_scope.

Module PhysFrame.
Import Phys PhysInv.

Lemma free_block_mem s p o w : g_early_boot s = false -> wf_block (p, o) -> w <> PHYS_MAP_BASE + p ->
  mem (phys_free_block s p o) !! w = mem s !! w.
Proof.
  intros He Hw Hne. unfold phys_free_block; simpl. destruct (virt_wf s (p, o) He Hw) as [E _]. simpl in E.
  rewrite E. by rewrite lookup_insert_ne.
Qed.

(** Splitting writes inside the block that is split. *)
Lemma split_down_mem ord d : forall s a w, g_early_boot s = false -> wf_block (a, ord + d)%nat ->
  ~ in_block (a, ord + d)%nat (w - PHYS_MAP_BASE) -> mem (split_down s a ord d) !! w = mem s !! w.
Proof.
  induction d as [|d IH]; intros s a w He Hw Hn; [done|]. cbn [split_down].
  replace (ord + S d)%nat with (S (ord + d)) in * by lia. set (k := (ord + d)%nat) in *.
  destruct Hw as (H1 & H2 & H3 & H4). simpl in *. pose proof (bsize_pos k). rewrite bsize_S in H4.
  rewrite buddy_low by done.
  assert (Hlo : wf_block (a, k)).
  { split_and!; simpl; [lia|lia|apply (aligned_le a k (S k)); [lia|done]|lia]. }
  assert (Hhi : wf_block (a + bsize k, k)) by (split_and!; simpl; [lia|lia|by apply aligned_high|lia]).
  unfold in_block in Hn; simpl in Hn. rewrite bsize_S in Hn.
  rewrite IH; [apply free_block_mem; [done|done|lia]|done|done|]. unfold in_block; simpl. lia.
Qed.

Lemma alloc_scan_mem s F A ord o n w : phys_ok s F A -> (ord <= o)%nat -> (o + n = S MAX_ORDER)%nat ->
  ~ managed F A (w - PHYS_MAP_BASE) -> mem (alloc_scan s ord o n).2 !! w = mem s !! w.
Proof.
  intros [Hp Hmk] Hord Hn Hm. revert o Hord Hn. induction n as [|n IH]; intros o Hord Hn; [done|]. cbn [alloc_scan].
  assert (Ho : (o <= MAX_ORDER)%nat) by lia. pose proof (proj2 (pi_chains _ _ _ _ Hp) o Ho) as Hch.
  destruct (F o) as [|a l] eqn:HF.
  { inversion Hch as [E|]. simpl. apply IH; lia. }
  destruct (pop_ok _ _ _ _ _ _ Hp Ho HF) as (Hhd & Hw & Hp1).
  destruct (virt_wf s (a, o) (pi_early _ _ _ _ Hp) Hw) as [_ Hvp]. simpl in Hvp.
  rewrite Hhd. assert (0 < a) by apply Hw.
  rewrite (proj2 (Z.eqb_neq (PHYS_MAP_BASE + a) 0)) by (unfold PHYS_MAP_BASE; lia). rewrite Hvp. simpl.
  rewrite split_down_mem; [done|apply Hp| |].
  - by replace (ord + (o - ord))%nat with o by lia.
  - replace (ord + (o - ord))%nat with o by lia. intros Hin. apply Hm. exists (a, o). split; [|done].
    left. split; [done|]. simpl. rewrite HF. set_solver.
Qed.

Lemma amm_phys_alloc_mem s F A ord w : phys_ok s F A -> ~ managed F A (w - PHYS_MAP_BASE) ->
  mem (amm_phys_alloc s ord).2 !! w = mem s !! w.
Proof.
  intros Hok Hm. unfold amm_phys_alloc. rewrite (pi_early _ _ _ _ (proj1 Hok)).
  destruct (Nat.ltb_spec MAX_ORDER ord); [done|]. by eapply alloc_scan_mem; [done|lia|lia|].
Qed.

(** Unlinking writes a list head or the first word of a free block. *)
Lemma unlink_target s F L o a pp : pinv [] s F L -> bfree F (a, o) ->
  unlink_walk (S (size (mem s))) s (Head o) (PHYS_MAP_BASE + a) = Some pp ->
  pp = Head o \/ exists q, q ∈ F o /\ pp = Next (PHYS_MAP_BASE + q).
Proof.
  intros [He Hg [Hlen Hch] Hmk Hc] [Ho Hin] E; cbn [fst snd] in Ho, Hin.
  apply list_elem_of_split in Hin as (l1 & l2 & HF).
  pose proof (g_nodup _ _ Hg o Ho) as Hnd. pose proof (Hch o Ho) as Hco.
  assert (Hpos : forall p, p ∈ F o -> 0 < p).
  { intros p Hp. apply (g_wf _ _ Hg (p, o)). left. by split. }
  pose proof (chain_length _ _ _ Hnd Hco) as Hsz. rewrite HF in *.
  destruct (unlink_walk_ok s a l2 l1 (S (size (mem s))) (Head o)) as (pp' & Hw & Hl & Hcase).
  { done. }
  { intros Ha. apply list.NoDup_app in Hnd as (_ & Hd & _). apply (Hd a Ha). set_solver. }
  { intros p Hp. apply Hpos. set_solver. }
  { rewrite length_app in Hsz. simpl in Hsz. lia. }
  rewrite E in Hw. assert (pp' = pp) as -> by congruence. destruct Hcase as [[_ ->]|(l0 & q & -> & ->)]; [by left|right].
  exists q. split; [set_solver|done].
Qed.

Lemma free_loop_mem n : forall s F A p o s' p' o',
  pinv [] s F ((p, o) :: A) -> (o + n = MAX_ORDER)%nat -> free_loop n s p o = Some (s', p', o') ->
  exists F', pinv [] s' F' ((p', o') :: A) /\
    (forall x, managed F' ((p', o') :: A) x <-> managed F ((p, o) :: A) x) /\
    (forall w, ~ managed F ((p, o) :: A) (w - PHYS_MAP_BASE) -> mem s' !! w = mem s !! w).
Proof.
  induction n as [|n IH]; intros s F A p o s' p' o' Hp Hn E; [injection E as <- <- <-; by exists F|].
  assert (Hwf : wf_block (p, o)).
  { apply (g_wf _ _ (pi_geom _ _ _ _ Hp)). right. set_solver. }
  destruct (buddy_cases p o) as (q & Hq & Hpb); [apply Hwf|]. cbn [free_loop] in E.
  set (b := Z.lxor p (bsize o)) in *.
  destruct (has_flag (flags (page_info s b)) PAGE_FREE) eqn:Hfl; [|injection E as <- <- <-; by exists F].
  destruct (order (page_info s b) =? Z.of_nat o) eqn:Hord; [|injection E as <- <- <-; by exists F].
  apply Z.eqb_eq in Hord. simpl negb in E. simpl orb in E. cbv iota in E.
  assert (Hbf : bfree F (b, o)) by (eapply buddy_free; try done; set_solver).
  destruct (virt_wf s (b, o) (pi_early _ _ _ _ Hp)) as [Hv _];
    [apply (g_wf _ _ (pi_geom _ _ _ _ Hp)); by left|]. simpl in Hv. rewrite Hv in E.
  destruct (coalesce_ok s F A q o p b) as (pp & F' & Hw & Hl & Hp' & Hfr & Hman); try done; [lia|].
  pose proof (unlink_target s F _ o b pp Hp Hbf Hw) as Htgt.
  rewrite Hw in E. rewrite (proj2 (Z.eqb_neq (load_link s pp) 0)) in E by done.
  replace (if p <? b then p else b) with q in E.
  2: { pose proof (bsize_pos o). destruct (Z.ltb_spec p b); lia. }
  destruct (IH _ _ _ _ _ _ _ _ Hp' ltac:(lia) E) as (F'' & Hp'' & Hman' & Hmem). exists F''. split_and!; [done| |].
  - intros x. by rewrite Hman', Hman.
  - intros w Hnm. rewrite Hmem by (by rewrite Hman). destruct Htgt as [->|(x & Hx & ->)]; simpl; [done|].
    apply lookup_insert_ne. intros <-. apply Hnm. exists (x, o).
    replace (PHYS_MAP_BASE + x - PHYS_MAP_BASE) with x by lia.
    split; [left; split; simpl; [lia|done]|eauto with asd].
Qed.

Lemma amm_phys_free_mem s F A A' p o s' w : phys_ok s F A -> A ≡ₚ (p, o) :: A' ->
  amm_phys_free s p o = Some s' -> ~ managed F A (w - PHYS_MAP_BASE) -> mem s' !! w = mem s !! w.
Proof.
  intros [Hp Hmk] HA E Hm. rewrite HA in Hp, Hm. unfold amm_phys_free in E.
  assert (Ho : (o <= MAX_ORDER)%nat) by (apply (g_wf _ _ (pi_geom _ _ _ _ Hp) (p, o)); right; set_solver).
  destruct (free_loop _ s p o) as [[[s1 p1] o1]|] eqn:El; [|done]. injection E as <-.
  assert (Hon : (o + (MAX_ORDER - o) = MAX_ORDER)%nat) by lia.
  destruct (free_loop_mem _ _ _ _ _ _ _ _ _ Hp Hon El) as (F1 & Hp1 & Hman & Hmem).
  assert (Hw1 : wf_block (p1, o1)) by (apply (g_wf _ _ (pi_geom _ _ _ _ Hp1)); right; set_solver).
  rewrite free_block_mem; [by apply Hmem|apply Hp1|done|]. intros ->. apply Hm, Hman. exists (p1, o1).
  replace (PHYS_MAP_BASE + p1 - PHYS_MAP_BASE) with p1 by lia. split; [right; set_solver|eauto with asd].
Qed.

(** The free lists of a state are determined by its memory. *)
Lemma chain_functional m h l l' : (forall p, p ∈ l -> 0 < p) -> (forall p, p ∈ l' -> 0 < p) ->
  chain m h l -> chain m h l' -> l = l'.
Proof.
  intros Hp Hp' Hc. revert l' Hp'. induction Hc as [|p n l Hn Hc IH]; intros l' Hp' Hc'.
  - inversion Hc' as [|q ? ? ? ? E]; [done|subst]. specialize (Hp' q ltac:(set_solver)). unfold PHYS_MAP_BASE in *. lia.
  - inversion Hc' as [E|q n' l2 Hn' Hc2 E]; subst.
    + specialize (Hp p ltac:(set_solver)). unfold PHYS_MAP_BASE in *. lia.
    + assert (q = p) as -> by lia. assert (n' = n) as -> by congruence. f_equal. apply IH; [set_solver|set_solver|done].
Qed.

Lemma managed_functional s F F' A x : phys_ok s F A -> phys_ok s F' A -> managed F A x -> managed F' A x.
Proof.
  intros [Hp _] [Hp' _] (b & [[Ho Hb]|Hb] & Hin); [|exists b; split; [by right|done]].
  exists b. split; [|done]. left. split; [done|].
  rewrite <- (chain_functional (mem s) (nth b.2 (lists s) 0) (F b.2) (F' b.2)); [done| | |by apply Hp|by apply Hp'].
  - intros p Hpp. apply (g_wf _ _ (pi_geom _ _ _ _ Hp) (p, b.2)). left. by split.
  - intros p Hpp. apply (g_wf _ _ (pi_geom _ _ _ _ Hp') (p, b.2)). left. by split.
Qed.

End PhysFrame.
