(* ===== verification/PageAlloc.v ===== *)
(** * The page allocator as the paging code sees it

    kernel/mm/mm.c's paging code uses the physical allocator through four
    things: blocks of pages, their release, and loads and stores of 64-bit
    words through the direct map.  [PageMem] names the operations and
    [PageMemOk] what they promise; the buddy allocator is an instance. *)

From S2P Require Import Prelude Phys PhysInv PhysInit PhysSpec PhysFrame.
From Stdlib Require Import ZArith Lia.
From stdpp Require Import base list gmap numbers.
Open Scope Z_scope.

Module PageAlloc.
Import Phys PhysInv.

Class PageMem (S : Type) := {
  dmap : S -> Z;                       (* base of the direct map *)
  ld : S -> Z -> Z;                    (* word at a virtual address *)
  st : S -> Z -> Z -> S;
  palloc : S -> nat -> Z * S;          (* amm_phys_alloc *)
  pfree : S -> Z -> nat -> option S    (* amm_phys_free *) }.

(** [phys_to_virt] *)
Definition p2v {S} `{PageMem S} (s : S) (p : Z) : Z := u64 (dmap s + p).

(** The words of a block. *)
Definition word_of (d : Z) (b : blk) (w : Z) : Prop := in_block b (w - d).

(** [held s A]: [s] is a consistent state in which the blocks [A] are held. *)
Class PageMemOk (S : Type) `{PageMem S} := {
  held : S -> list blk -> Prop;
  held_perm : forall s A A', held s A -> A ≡ₚ A' -> held s A';
  held_nodup : forall s A, held s A -> NoDup A;
  held_dmap : forall s A, held s A -> (8 | dmap s);   (* words are aligned *)
  held_wf : forall s A b, held s A -> b ∈ A ->
    0 < b.1 /\ b.1 + bsize b.2 <= PHYS_LIMIT /\ (bsize b.2 | b.1) /\ 0 <= dmap s <= 2 ^ 64 - PHYS_LIMIT;
  held_disj : forall s A b c x, held s A -> b ∈ A -> c ∈ A -> in_block b x -> in_block c x -> b = c;
  ld_st : forall s w v w', ld (st s w v) w' = if decide (w' = w) then v else ld s w';
  dmap_st : forall s w v, dmap (st s w v) = dmap s;
  held_st : forall s A b w v, held s A -> b ∈ A -> word_of (dmap s) b w -> held (st s w v) A;
  palloc_ok : forall s A o p s', held s A -> palloc s o = (p, s') ->
    dmap s' = dmap s /\
    ((p = 0 /\ s' = s) \/
     (p <> 0 /\ held s' ((p, o) :: A) /\
      forall b w, b ∈ A -> word_of (dmap s) b w -> ld s' w = ld s w));
  pfree_ok : forall s A A' p o, held s A -> A ≡ₚ (p, o) :: A' ->
    exists s', pfree s p o = Some s' /\ held s' A' /\ dmap s' = dmap s /\
      forall b w, b ∈ A' -> word_of (dmap s) b w -> ld s' w = ld s w;
  (* words outside everything the allocator manages *)
  foreign : S -> list blk -> Z -> Prop;
  foreign_perm : forall s A A' w, A ≡ₚ A' -> foreign s A w -> foreign s A' w;
  foreign_held : forall s A b w, held s A -> foreign s A w -> b ∈ A -> ~ word_of (dmap s) b w;
  foreign_st : forall s A b w v w', held s A -> b ∈ A -> word_of (dmap s) b w' ->
    foreign s A w -> foreign (st s w' v) A w;
  foreign_palloc : forall s A o p s' w, held s A -> palloc s o = (p, s') -> p <> 0 -> foreign s A w ->
    foreign s' ((p, o) :: A) w /\ ld s' w = ld s w;
  foreign_pfree : forall s A A' p o s' w, held s A -> A ≡ₚ (p, o) :: A' -> pfree s p o = Some s' ->
    foreign s A w -> foreign s' A' w /\ ld s' w = ld s w }.

(** ** The buddy allocator implements it *)

#[export] Instance phys_pagemem : PageMem phys_state_t := {
  dmap s := if g_early_boot s then 0 else PHYS_MAP_BASE;
  ld s w := rd (mem s) w;
  st s w v := PhysSpec.write s w v;
  palloc := amm_phys_alloc;
  pfree := amm_phys_free }.

Definition phys_held (s : phys_state_t) (A : list blk) : Prop := exists F, phys_ok s F A.

(** Words outside the managed memory. *)
Definition phys_foreign (s : phys_state_t) (A : list blk) (w : Z) : Prop :=
  forall F, phys_ok s F A -> ~ managed F A (w - PHYS_MAP_BASE).

Lemma dmap_held s A : phys_held s A -> dmap s = PHYS_MAP_BASE.
Proof. intros (F & [Hp _]). simpl. by rewrite (pi_early _ _ _ _ Hp). Qed.

Lemma p2v_phys s A p : phys_held s A -> p2v s p = phys_to_virt s p.
Proof.
  intros (F & [Hp _]). unfold p2v, phys_to_virt. simpl. by rewrite (pi_early _ _ _ _ Hp).
Qed.

Lemma phys_ok_perm s F A A' : A ≡ₚ A' -> phys_ok s F A -> phys_ok s F A'.
Proof.
  intros HP [[H1 H2 H3 H4 H5] H6].
  assert (Hl : forall b, PhysInv.live F A' b <-> PhysInv.live F A b) by (intros b; by rewrite HP).
  split; [split; [done| |done| |]|].
  - destruct H2 as [G1 G2 G3 G4 G5]. split; [done|by rewrite <- HP| | |].
    + intros b Hb. apply G3, Hl, Hb.
    + intros b c x Hb Hc. apply G4; by apply Hl.
    + intros b Hb. rewrite <- HP. auto.
  - destruct H4 as [M1 M2]. split; [done|]. intros P HP1 HP2 HP3.
    destruct (M2 P HP1 HP2 HP3) as (o & E & Ha & [Hb|(b & Hb & Hlt & Hin)]); exists o; split_and!; auto.
    right. exists b. split_and!; [by apply Hl|done|done].
  - unfold counts in *. by rewrite <- HP.
  - intros b Hb. apply H6. by rewrite HP.
Qed.

#[export] Instance phys_pagemem_ok : PageMemOk phys_state_t.
Proof.
  refine {| held := phys_held; foreign := phys_foreign |}.
  - intros s A A' (F & Hok) HP. exists F. by eapply phys_ok_perm.
  - intros s A (F & [[_ Hg _ _ _] _]). apply Hg.
  - intros s A Hh. rewrite (dmap_held s A Hh). by exists 2305835312632299520.
  - intros s A b Hh Hb. rewrite (dmap_held s A Hh). destruct Hh as (F & [[_ Hg _ _ _] _]).
    destruct (g_wf _ _ Hg b) as (_ & H1 & H2 & H3); [by right|]. split_and!; try done.
  - intros s A b c x (F & [[_ Hg _ _ _] _]) Hb Hc. apply (g_disj _ _ Hg); by right.
  - intros s w v w'. simpl. unfold rd. case_decide as E.
    + subst. by rewrite lookup_insert_eq.
    + by rewrite lookup_insert_ne.
  - done.
  - intros s A b w v Hh Hb Hw. unfold word_of in Hw. rewrite (dmap_held s A Hh) in Hw.
    destruct Hh as (F & Hok). exists F. by eapply PhysSpec.write_ok.
  - intros s A o p s' Hh E. pose proof (dmap_held s A Hh) as Hd. destruct Hh as (F & Hok).
    pose proof (amm_phys_alloc_ok s F A o Hok) as Hc. simpl in E. rewrite E in Hc.
    destruct Hc as [[[= -> ->] _]|(Hp & _ & F' & Hok' & Hfr & _)]; [auto|]. cbn [fst snd] in *.
    assert (Hh' : phys_held s' ((p, o) :: A)) by (by exists F').
    rewrite (dmap_held _ _ Hh'), Hd. split; [done|]. right. split_and!; [lia|done|].
    intros b w Hb Hw. simpl. unfold rd. f_equal. destruct Hfr as [Hfr _]. by apply (Hfr b).
  - intros s A A' p o Hh HP. pose proof (dmap_held s A Hh) as Hd. destruct Hh as (F & Hok).
    destruct (amm_phys_free_ok s F A A' p o Hok HP) as (s' & F' & E & Hok' & Hfr & _).
    assert (Hh' : phys_held s' A') by (by exists F'). exists s'. rewrite (dmap_held _ _ Hh'), Hd.
    split_and!; try done. intros b w Hb Hw. simpl. unfold rd. f_equal.
    destruct Hfr as [Hfr _]. by apply (Hfr b).
  - intros s A A' w HP Hf F Hok. rewrite <- HP. apply Hf. by eapply phys_ok_perm.
  - intros s A b w Hh Hf Hb Hw. unfold word_of in Hw. rewrite (dmap_held s A Hh) in Hw.
    destruct Hh as (F & Hok). apply (Hf F Hok). exists b. split; [by right|done].
  - intros s A b w v w' Hh Hb Hw Hf F Hok. unfold word_of in Hw. rewrite (dmap_held s A Hh) in Hw.
    destruct Hh as (F0 & Hok0). intros Hm. apply (Hf F0 Hok0).
    by eapply (PhysFrame.managed_functional (PhysSpec.write s w' v)); [|eapply PhysSpec.write_ok|].
  - intros s A o p s' w (F & Hok) E Hp Hf. simpl in E.
    pose proof (amm_phys_alloc_ok s F A o Hok) as Hc. rewrite E in Hc.
    destruct Hc as [[[= -> ->] _]|(_ & _ & F' & Hok' & _ & Hman & _)]; [done|]. cbn [fst snd] in *. split.
    + intros F2 Hok2 Hm. apply (Hf F Hok), Hman. by eapply PhysFrame.managed_functional.
    + simpl. unfold rd. f_equal. pose proof (PhysFrame.amm_phys_alloc_mem s F A o w Hok (Hf F Hok)) as Hmem.
      by rewrite E in Hmem.
  - intros s A A' p o s' w (F & Hok) HP E Hf. simpl in E.
    destruct (amm_phys_free_ok s F A A' p o Hok HP) as (s1 & F' & E1 & Hok' & _ & Hman & _).
    assert (s1 = s') as -> by congruence. split.
    + intros F2 Hok2 Hm. apply (Hf F Hok), Hman. by eapply PhysFrame.managed_functional.
    + simpl. unfold rd. f_equal. by eapply PhysFrame.amm_phys_free_mem; eauto.
Defined.

End PageAlloc.
