(* ===== verification/PageTable.v ===== *)
(** * kernel/mm/mm.c: four-level page tables

    A page table is a page of 512 words in the direct map.  [walk] reads the
    tree from memory exactly as the hardware and [amm_virt_to_kva] do; the
    invariant [owns] says that the tables reached by the paths of a domain are
    held pages, all different, so that a store into one of them changes one
    translation only. *)

From S2P Require Import Prelude Phys PhysInv PageAlloc.
From Stdlib Require Import ZArith Lia.
From stdpp Require Import base list gmap numbers.
Open Scope Z_scope.

Module PageTable.
Import PageAlloc.

Abbreviation blk := (Z * nat)%type.
Abbreviation PAGE_SIZE := Phys.PAGE_SIZE.
Abbreviation bsize := Phys.bsize.
Abbreviation PHYS_LIMIT := PhysInv.PHYS_LIMIT.
Abbreviation in_block := PhysInv.in_block.

Definition PTE_PRESENT : Z := 1.
Definition PTE_WRITE : Z := 2.
Definition PTE_USER : Z := 4.
Definition PTE_NX : Z := 2 ^ 63.
Definition PTE_PS : Z := 128.
Definition PTE_ADDR_MASK : Z := 0x000FFFFFFFFFF000.

Definition PROT_READ : Z := 1.
Definition PROT_WRITE : Z := 2.
Definition PROT_EXEC : Z := 4.

Definition PML4_IDX (v : Z) : Z := Z.land (Z.shiftr v 39) 0x1FF.
Definition PDPT_IDX (v : Z) : Z := Z.land (Z.shiftr v 30) 0x1FF.
Definition PD_IDX (v : Z) : Z := Z.land (Z.shiftr v 21) 0x1FF.
Definition PT_IDX (v : Z) : Z := Z.land (Z.shiftr v 12) 0x1FF.

Section Ops.
Context {S : Type} `{PageMem S}.

(** [table[i]] for a table at physical address [t]. *)
Definition ent_addr (s : S) (t i : Z) : Z := p2v s t + 8 * i.
Definition ent (s : S) (t i : Z) : Z := ld s (ent_addr s t i).
Definition set_ent (s : S) (t i e : Z) : S := st s (ent_addr s t i) e.

(** [k_memset(phys_to_virt(p), 0, PAGE_SIZE)] *)
Fixpoint zero_words (s : S) (a : Z) (n : nat) : S :=
  match n with
  | O => s
  | Datatypes.S n' => zero_words (st s a 0) (a + 8) n'
  end.
Definition zero_page (s : S) (p : Z) : S := zero_words s (p2v s p) 512.

(** One level of [pt_walk_alloc]: the table below entry [i] of [t], allocated
    if the entry is not present. *)
Definition walk_level (s : S) (t i : Z) : option Z * S :=
  if negb (has_flag (ent s t i) PTE_PRESENT) then
    let '(p, s) := palloc s 0 in
    if p =? 0 then (None, s)
    else
      let s := zero_page s p in
      let s := set_ent s t i (Z.lor (Z.lor (Z.lor p PTE_PRESENT) PTE_WRITE) PTE_USER) in
      (Some (Z.land (ent s t i) PTE_ADDR_MASK), s)
  else (Some (Z.land (ent s t i) PTE_ADDR_MASK), s).

(** The result is the address of the PTE; [None] is the null pointer. *)
Definition pt_walk_alloc (s : S) (cr3 va : Z) : option Z * S :=
  let pml4 := Z.land cr3 PTE_ADDR_MASK in
  match walk_level s pml4 (PML4_IDX va) with
  | (None, s) => (None, s)
  | (Some pdpt, s) =>
      match walk_level s pdpt (PDPT_IDX va) with
      | (None, s) => (None, s)
      | (Some pd, s) =>
          match walk_level s pd (PD_IDX va) with
          | (None, s) => (None, s)
          | (Some pt, s) => (Some (ent_addr s pt (PT_IDX va)), s)
          end
      end
  end.

Definition pte_flags (prot : Z) : Z :=
  let flags := Z.lor PTE_PRESENT PTE_USER in
  let flags := if has_flag prot PROT_WRITE then Z.lor flags PTE_WRITE else flags in
  if negb (has_flag prot PROT_EXEC) then Z.lor flags PTE_NX else flags.

Definition map_page (s : S) (cr3 va pa prot : Z) : S :=
  match pt_walk_alloc s cr3 va with
  | (None, s) => s
  | (Some pte, s) => st s pte (Z.lor (Z.land pa PTE_ADDR_MASK) (pte_flags prot))
  end.

(** 0 is the null pointer. *)
Definition amm_virt_to_kva (s : S) (cr3 va : Z) : Z :=
  let pml4 := Z.land cr3 PTE_ADDR_MASK in
  let e := ent s pml4 (PML4_IDX va) in
  if negb (has_flag e PTE_PRESENT) then 0
  else
    let e := ent s (Z.land e PTE_ADDR_MASK) (PDPT_IDX va) in
    if negb (has_flag e PTE_PRESENT) then 0
    else
      let e := ent s (Z.land e PTE_ADDR_MASK) (PD_IDX va) in
      if negb (has_flag e PTE_PRESENT) then 0
      else
        let e := ent s (Z.land e PTE_ADDR_MASK) (PT_IDX va) in
        if negb (has_flag e PTE_PRESENT) then 0
        else p2v s (Z.lor (Z.land e PTE_ADDR_MASK) (Z.land va (PAGE_SIZE - 1))).

(** ** The tree in memory *)

Definition pte_child (e : Z) : option Z :=
  if has_flag e PTE_PRESENT then Some (Z.land e PTE_ADDR_MASK) else None.
Definition child (s : S) (t i : Z) : option Z := pte_child (ent s t i).

Fixpoint walk (s : S) (t : Z) (path : list Z) : option Z :=
  match path with
  | [] => Some t
  | i :: rest => match child s t i with Some c => walk s c rest | None => None end
  end.

End Ops.

Definition idx (va : Z) : list Z := [PML4_IDX va; PDPT_IDX va; PD_IDX va; PT_IDX va].

(** ** Entries *)

Lemma mask_page p : 0 <= p < 2 ^ 52 -> (PAGE_SIZE | p) -> Z.land p PTE_ADDR_MASK = p.
Proof.
  intros Hp [q ->]. replace PTE_ADDR_MASK with (Z.shiftl (Z.ones 40) 12) by reflexivity.
  change PAGE_SIZE with (2 ^ 12). rewrite <- Z.shiftl_mul_pow2, <- Z.shiftl_land by lia. f_equal.
  rewrite Z.land_ones by lia. apply Z.mod_small. change PAGE_SIZE with 4096 in Hp. lia.
Qed.

Lemma entry_child p f : 0 <= p < 2 ^ 52 -> (PAGE_SIZE | p) ->
  Z.land f PTE_ADDR_MASK = 0 -> Z.testbit f 0 = true -> pte_child (Z.lor p f) = Some p.
Proof.
  intros Hp Hd Hf Hb. unfold pte_child, has_flag, PTE_PRESENT.
  assert (Z.testbit (Z.land (Z.lor p f) 1) 0 = true) as H1.
  { rewrite Z.land_spec, Z.lor_spec, Hb, orb_true_r. done. }
  destruct (truthy (Z.land (Z.lor p f) 1)) eqn:E.
  - f_equal. rewrite Z.land_lor_distr_l, Hf, Z.lor_0_r. by apply mask_page.
  - unfold truthy in E. zbool. rewrite E, Z.bits_0 in H1. done.
Qed.

Lemma table_entry_child p : 0 <= p < 2 ^ 52 -> (PAGE_SIZE | p) ->
  pte_child (Z.lor (Z.lor (Z.lor p PTE_PRESENT) PTE_WRITE) PTE_USER) = Some p.
Proof. intros. rewrite <- !Z.lor_assoc. by apply entry_child. Qed.

Lemma leaf_entry_child p prot : 0 <= p < 2 ^ 52 -> (PAGE_SIZE | p) ->
  pte_child (Z.lor (Z.land p PTE_ADDR_MASK) (pte_flags prot)) = Some p.
Proof.
  intros Hp Hd. rewrite mask_page by done. apply entry_child; [done|done| |];
    unfold pte_flags; destruct (has_flag prot PROT_WRITE), (has_flag prot PROT_EXEC); done.
Qed.

Lemma idx_bounds va : 0 <= va -> Forall (fun i => 0 <= i < 512) (idx va).
Proof.
  intros. unfold idx, PML4_IDX, PDPT_IDX, PD_IDX, PT_IDX.
  repeat constructor; try (apply Z.land_nonneg; lia);
    rewrite (land_mask_low _ 9) by lia; apply Z.mod_pos_bound; lia.
Qed.

Section Tree.
Context {S : Type} `{HM : PageMem S} `{HO : !PageMemOk S}.
Implicit Types (s : S) (A : list blk).

Lemma virt_to_kva_walk s cr3 va :
  amm_virt_to_kva s cr3 va =
  match walk s (Z.land cr3 PTE_ADDR_MASK) (idx va) with
  | Some pa => p2v s (Z.lor pa (Z.land va (PAGE_SIZE - 1)))
  | None => 0
  end.
Proof.
  unfold amm_virt_to_kva, idx. cbn [walk]. unfold child, pte_child.
  repeat (destruct (has_flag _ PTE_PRESENT); cbn [negb]; [|done]). done.
Qed.

Lemma walk_app s t pi rho : walk s t (pi ++ rho) =
  match walk s t pi with Some c => walk s c rho | None => None end.
Proof.
  revert t. induction pi as [|i pi IH]; intros t; cbn [walk app]; [done|].
  destruct (child s t i); [apply IH|done].
Qed.

(** ** Held pages *)

Definition page_ok (d p : Z) : Prop := 0 < p < 2 ^ 46 /\ (PAGE_SIZE | p) /\ 0 <= d /\ d + p + PAGE_SIZE <= 2 ^ 64.

Lemma held_page s A p : held s A -> (p, 0%nat) ∈ A -> page_ok (dmap s) p.
Proof.
  intros Hh Hp. destruct (held_wf s A _ Hh Hp) as (H1 & H2 & H3 & H4). cbn [fst snd] in *.
  rewrite PhysInv.bsize_0 in *. unfold page_ok. change PHYS_LIMIT with 61572651155456 in *.
  change PAGE_SIZE with 4096 in *. split_and!; try done; lia.
Qed.

Lemma ent_addr_eq s A p i : held s A -> (p, 0%nat) ∈ A -> ent_addr s p i = dmap s + p + 8 * i.
Proof.
  intros Hh Hp. destruct (held_page s A p Hh Hp) as (H1 & _ & H3 & H4). unfold ent_addr, p2v.
  change PAGE_SIZE with 4096 in *. rewrite u64_small by lia. lia.
Qed.

Lemma word_ent s A p i : held s A -> (p, 0%nat) ∈ A -> 0 <= i < 512 ->
  word_of (dmap s) (p, 0%nat) (ent_addr s p i).
Proof.
  intros Hh Hp Hi. rewrite (ent_addr_eq s A) by done. unfold word_of, in_block, PhysInv.in_block. cbn [fst snd].
  rewrite PhysInv.bsize_0. change PAGE_SIZE with 4096. lia.
Qed.

Lemma set_ent_held s A p i e : held s A -> (p, 0%nat) ∈ A -> 0 <= i < 512 -> held (set_ent s p i e) A.
Proof. intros. eapply held_st; [done|done|]. by eapply word_ent. Qed.

Lemma ent_set s A p i e q j : held s A -> (p, 0%nat) ∈ A -> (q, 0%nat) ∈ A -> 0 <= i < 512 -> 0 <= j < 512 ->
  ent (set_ent s p i e) q j = if decide (q = p /\ j = i) then e else ent s q j.
Proof.
  intros Hh Hp Hq Hi Hj. unfold ent, set_ent. 
  assert (E : ent_addr (st s (ent_addr s p i) e) q j = ent_addr s q j)
    by (unfold ent_addr, p2v; by rewrite dmap_st).
  rewrite E, ld_st. rewrite !(ent_addr_eq s A) by done.
  destruct (decide (q = p)) as [->|Hne].
  - destruct (decide (j = i)) as [->|]; [by rewrite !decide_True|rewrite !decide_False; [done|tauto|lia]].
  - rewrite !decide_False; [done|tauto|]. intros Ea.
    assert (X : (q, 0%nat) = (p, 0%nat)); [|congruence].
    apply (held_disj s A _ _ (q + 8 * j) Hh); [done|done| |];
      unfold PhysInv.in_block; cbn [fst snd]; rewrite PhysInv.bsize_0; change PAGE_SIZE with 4096; lia.
Qed.

(** ** Zeroing a page *)

Lemma zero_words_ok n : forall s A b a, held s A -> b ∈ A ->
  (forall k, 0 <= k < Z.of_nat n -> word_of (dmap s) b (a + 8 * k)) ->
  held (zero_words s a n) A /\ dmap (zero_words s a n) = dmap s /\
  (forall k, 0 <= k < Z.of_nat n -> ld (zero_words s a n) (a + 8 * k) = 0) /\
  (forall w, (forall k, 0 <= k < Z.of_nat n -> w <> a + 8 * k) -> ld (zero_words s a n) w = ld s w).
Proof.
  induction n as [|n IH]; intros s A b a Hh Hb Hw; cbn [zero_words].
  { split_and!; try done. intros; lia. }
  assert (H0 : word_of (dmap s) b a) by (replace a with (a + 8 * 0) by lia; apply Hw; lia).
  destruct (IH (st s a 0) A b (a + 8)) as (I1 & I2 & I3 & I4).
  { by eapply held_st. } { done. }
  { intros k Hk. rewrite dmap_st. replace (a + 8 + 8 * k) with (a + 8 * (k + 1)) by lia. apply Hw. lia. }
  rewrite dmap_st in I2. split_and!; [done|done| |].
  - intros k Hk. destruct (decide (k = 0)) as [->|].
    + rewrite I4 by (intros; lia). rewrite ld_st, decide_True by lia. done.
    + replace (a + 8 * k) with (a + 8 + 8 * (k - 1)) by lia. apply I3. lia.
  - intros w Hne. rewrite I4.
    + rewrite ld_st, decide_False; [done|]. specialize (Hne 0). lia.
    + intros k Hk. specialize (Hne (k + 1)). lia.
Qed.

Lemma zero_page_ok s A p : held s A -> (p, 0%nat) ∈ A ->
  held (zero_page s p) A /\ dmap (zero_page s p) = dmap s /\
  (forall i, 0 <= i < 512 -> ent (zero_page s p) p i = 0) /\
  (forall b w, b ∈ A -> b <> (p, 0%nat) -> word_of (dmap s) b w -> ld (zero_page s p) w = ld s w).
Proof.
  intros Hh Hp.
  assert (Hwd : forall k, 0 <= k < Z.of_nat 512 -> word_of (dmap s) (p, 0%nat) (p2v s p + 8 * k)).
  { intros k Hk. apply (word_ent s A p k Hh Hp). lia. }
  destruct (zero_words_ok 512 s A (p, 0%nat) (p2v s p) Hh Hp Hwd) as (I1 & I2 & I3 & I4).
  fold (zero_page s p) in *. split_and!; [done|done| |].
  - intros i Hi. unfold ent, ent_addr, p2v. rewrite I2. apply I3. lia.
  - intros b w Hb Hne Hw. apply I4. intros k Hk ->. apply Hne.
    apply (held_disj s A _ _ (p2v s p + 8 * k - dmap s) Hh); [done|done|apply Hw|apply Hwd, Hk].
Qed.

(** Words of a page seen as entries. *)
Lemma ent_frame s s' A p : held s A -> (p, 0%nat) ∈ A -> dmap s' = dmap s ->
  (forall w, word_of (dmap s) (p, 0%nat) w -> ld s' w = ld s w) ->
  forall i, 0 <= i < 512 -> ent s' p i = ent s p i.
Proof.
  intros Hh Hp Hd Hf i Hi. unfold ent. assert (E : ent_addr s' p i = ent_addr s p i)
    by (unfold ent_addr, p2v; by rewrite Hd).
  rewrite E. apply Hf. by eapply word_ent.
Qed.

(** ** Ownership of a tree of tables *)

(** A domain of paths: closed under prefixes, at most four levels deep. *)
Record domain (D : list Z -> Prop) : Prop := {
  d_nil : D [];
  d_prefix : forall pi i, D (pi ++ [i]) -> D pi;
  d_idx : forall pi i, D (pi ++ [i]) -> 0 <= i < 512;
  d_len : forall pi, D pi -> (length pi <= 4)%nat }.

Record owns (D : list Z -> Prop) s (r : Z) A : Prop := {
  ow_held : forall pi p, D pi -> walk s r pi = Some p -> (p, 0%nat) ∈ A;
  ow_inj : forall pi rho p, D pi -> D rho -> walk s r pi = Some p -> walk s r rho = Some p -> pi = rho;
  (* in a page directory, the large-page entries are those outside the domain *)
  ow_pd : forall pi t i, D pi -> length pi = 2%nat -> walk s r pi = Some t -> 0 <= i < 512 ->
    has_flag (ent s t i) PTE_PRESENT = true -> has_flag (ent s t i) PTE_PS = false <-> D (pi ++ [i]) }.

Lemma prefix_snoc_cases {X} (pi rho : list X) i j : pi ++ [i] `prefix_of` rho ++ [j] ->
  pi ++ [i] `prefix_of` rho \/ (pi = rho /\ i = j).
Proof.
  intros [k E]. destruct k as [|x k] using rev_ind.
  - rewrite app_nil_r in E. apply app_inj_tail in E as [-> ->]. by right.
  - rewrite app_assoc in E. apply app_inj_tail in E as [-> ->]. left. by exists k.
Qed.

(** Walks when the tables read on the way have kept their entries, except
    entry [i] of the table [t] at path [pi]. *)
Lemma walk_change D s s' r A pi t i : domain D -> owns D s r A -> D (pi ++ [i]) -> walk s r pi = Some t ->
  (forall q j, (q, 0%nat) ∈ A -> 0 <= j < 512 -> (q <> t \/ j <> i) -> child s' q j = child s q j) ->
  forall rho, D rho -> ~ (pi ++ [i] `prefix_of` rho) -> walk s' r rho = walk s r rho.
Proof.
  intros HD HO' Hpi Ht Hch rho. induction rho as [|j rho IH] using rev_ind; intros Hr Hnp; [done|].
  pose proof (d_prefix _ HD _ _ Hr) as Hr'. rewrite !walk_app. rewrite IH; [|done|].
  2: { intros Hp. apply Hnp. by apply prefix_app_r. }
  destruct (walk s r rho) as [q|] eqn:Eq; [|done]. cbn [walk].
  rewrite Hch; [done|by eapply ow_held|by eapply d_idx|].
  destruct (decide (q = t)) as [->|]; [|by left]. right. intros ->. apply Hnp.
  assert (rho = pi) as ->; [|done]. eapply (ow_inj D s r A); [done|done|by eapply d_prefix|done|done].
Qed.

(** Ownership after the fresh, zeroed page [c] has been put below entry [i] of
    the table [t] at path [pi]. *)
Lemma owns_update D s s' r A pi t i c : owns D s r A -> (c, 0%nat) ∉ A -> D pi -> D (pi ++ [i]) ->
  walk s r pi = Some t ->
  (forall rho, D rho -> walk s' r rho = if decide (rho = pi ++ [i]) then Some c else walk s r rho) ->
  (forall q j, (q, 0%nat) ∈ A -> 0 <= j < 512 -> (q <> t \/ j <> i) -> ent s' q j = ent s q j) ->
  (forall j, 0 <= j < 512 -> ent s' c j = 0) -> has_flag (ent s' t i) PTE_PS = false ->
  owns D s' r ((c, 0%nat) :: A).
Proof.
  intros Ho Hc Hpi Hpii Ht Hw He Hz Hps. split.
  - intros rho p Hr E. rewrite Hw in E by done. case_decide; simplify_eq; apply elem_of_cons;
      [by left|right; by eapply ow_held].
  - intros p1 p2 p Hr1 Hr2 E1 E2. rewrite Hw in E1, E2 by done.
    destruct (decide (p1 = pi ++ [i])) as [->|], (decide (p2 = pi ++ [i])) as [->|]; [done| | |].
    + injection E1 as <-. exfalso. by apply Hc, (ow_held _ _ _ _ Ho p2).
    + injection E2 as <-. exfalso. by apply Hc, (ow_held _ _ _ _ Ho p1).
    + by apply (ow_inj _ _ _ _ Ho p1 p2 p).
  - intros rho q j Hr Hl E Hj Hp. rewrite Hw in E by done. case_decide; [simplify_eq; by rewrite Hz in Hp|].
    destruct (decide (q = t /\ j = i)) as [[-> ->]|Hne].
    + assert (rho = pi) as -> by (by apply (ow_inj _ _ _ _ Ho rho pi t)). done.
    + assert (HqA : (q, 0%nat) ∈ A) by (by apply (ow_held _ _ _ _ Ho rho)).
      rewrite He in Hp |- * by (done || tauto || (destruct (decide (q = t)), (decide (j = i)); tauto)).
      by apply (ow_pd _ _ _ _ Ho).
Qed.

Lemma table_entry_ps p : (PAGE_SIZE | p) ->
  has_flag (Z.lor (Z.lor (Z.lor p PTE_PRESENT) PTE_WRITE) PTE_USER) PTE_PS = false.
Proof.
  intros [q ->]. unfold has_flag. rewrite <- !Z.lor_assoc, Z.land_lor_distr_l.
  change (Z.land (Z.lor PTE_PRESENT (Z.lor PTE_WRITE PTE_USER)) PTE_PS) with 0. rewrite Z.lor_0_r.
  replace (Z.land (q * PAGE_SIZE) PTE_PS) with 0; [done|]. symmetry. apply Z.bits_inj'. intros n Hn.
  rewrite Z.land_spec, Z.bits_0. change PTE_PS with (2 ^ 7). destruct (Z.eq_dec n 7) as [->|].
  - change PAGE_SIZE with (2 ^ 12). by rewrite Z.mul_pow2_bits_low.
  - rewrite Z.pow2_bits_false by lia. by rewrite andb_false_r.
Qed.

Lemma domain_mid D : domain D -> forall pi j k, D (pi ++ [j] ++ k) -> D (pi ++ [j]).
Proof.
  intros HD pi j k. induction k as [|x k IH] using rev_ind; [by rewrite app_nil_r|].
  intros H. apply IH. eapply d_prefix; [done|]. rewrite <- !app_assoc in *. exact H.
Qed.

(** A fresh page hung below entry [i] of table [t]. *)
Lemma hang_table D s s1 r A pi t i p : domain D -> held s A -> owns D s r A -> D (pi ++ [i]) ->
  walk s r pi = Some t -> child s t i = None -> held s1 ((p, 0%nat) :: A) -> dmap s1 = dmap s ->
  (forall b w, b ∈ A -> word_of (dmap s) b w -> ld s1 w = ld s w) ->
  let s3 := set_ent (zero_page s1 p) t i (Z.lor (Z.lor (Z.lor p PTE_PRESENT) PTE_WRITE) PTE_USER) in
  held s3 ((p, 0%nat) :: A) /\ dmap s3 = dmap s /\ child s3 t i = Some p /\ owns D s3 r ((p, 0%nat) :: A) /\
  (forall rho, D rho -> walk s3 r rho = if decide (rho = pi ++ [i]) then Some p else walk s r rho) /\
  (forall b w, b ∈ A -> b <> (t, 0%nat) -> word_of (dmap s) b w -> ld s3 w = ld s w).
Proof.
  intros HD Hh Ho Hpi Ht Hnone Hh1 Hd1 Hf s3. set (A1 := (p, 0%nat) :: A) in *.
  assert (HtA : (t, 0%nat) ∈ A) by (eapply ow_held; [done|by eapply d_prefix|done]).
  assert (HA1 : forall b, b ∈ A -> b ∈ A1) by (intros b Hb; apply elem_of_cons; by right).
  assert (Hp1 : (p, 0%nat) ∈ A1) by (apply elem_of_cons; by left).
  assert (Ht1 : (t, 0%nat) ∈ A1) by auto.
  assert (Hi : 0 <= i < 512) by (by eapply d_idx).
  assert (Hnp : (p, 0%nat) ∉ A) by (by apply (held_nodup _ _), list.NoDup_cons in Hh1 as [? _]).
  assert (Hpt : p <> t) by (intros ->; done).
  destruct (zero_page_ok s1 A1 p Hh1 Hp1) as (Hh2 & Hd2 & Hz & Hf2).
  assert (Hent : forall q j, (q, 0%nat) ∈ A -> 0 <= j < 512 -> ent (zero_page s1 p) q j = ent s q j).
  { intros q j Hq Hj. apply (ent_frame s _ A q); [done|done|congruence| |done].
    intros w Hw. rewrite (Hf2 (q, 0%nat)); [by apply (Hf (q, 0%nat))|by auto|congruence|by rewrite Hd1]. }
  pose proof (held_page _ _ _ Hh2 Hp1) as (Hpr & Hpd & _).
  assert (Hset := ent_set (zero_page s1 p) A1 t i
    (Z.lor (Z.lor (Z.lor p PTE_PRESENT) PTE_WRITE) PTE_USER)). fold s3 in Hset.
  assert (Hci : child s3 t i = Some p).
  { unfold child. rewrite Hset, decide_True by done. apply table_entry_child; [lia|done]. }
  assert (Hcz : forall j, 0 <= j < 512 -> child s3 p j = None).
  { intros j Hj. unfold child. rewrite Hset, decide_False, Hz by (done || tauto). done. }
  assert (Hch : forall q j, (q, 0%nat) ∈ A -> 0 <= j < 512 -> (q <> t \/ j <> i) -> child s3 q j = child s q j).
  { intros q j Hq Hj Hne. unfold child. rewrite Hset, decide_False, Hent by (done || by auto || tauto). done. }
  assert (Hwalk := walk_change D s s3 r A pi t i HD Ho Hpi Ht Hch).
  assert (Hpi3 : walk s3 r pi = Some t).
  { rewrite Hwalk; [done|by eapply d_prefix|]. intros [k E]. apply (f_equal length) in E.
    rewrite !length_app in E. simpl in E. lia. }
  assert (Hw3 : forall rho, D rho -> walk s3 r rho = if decide (rho = pi ++ [i]) then Some p else walk s r rho).
  { intros rho Hrho. case_decide as Er; [subst; rewrite walk_app, Hpi3; cbn [walk]; by rewrite Hci|].
    destruct (decide (pi ++ [i] `prefix_of` rho)) as [[k ->]|Hn]; [|by apply Hwalk].
    rewrite <- app_assoc, !walk_app, Hpi3, Ht. cbn [walk app]. rewrite Hci, Hnone.
    destruct k as [|j k]; [by rewrite app_nil_r in Er|]. cbn [walk]. rewrite Hcz; [done|].
    eapply (d_idx D HD (pi ++ [i])), (domain_mid D HD (pi ++ [i]) j k).
    rewrite <- app_assoc in Hrho |- *. exact Hrho. }
  split_and!; [by apply set_ent_held| |done| |done|].
  - unfold s3, set_ent. rewrite dmap_st. congruence.
  - eapply (owns_update D s s3 r A pi t i p); try done; [by eapply d_prefix| | |].
    + intros q j Hq Hj Hne. rewrite Hset, decide_False, Hent by (done || by auto || tauto). done.
    + intros j Hj. rewrite Hset, decide_False, Hz by (done || tauto). done.
    + rewrite Hset, decide_True by done. by apply table_entry_ps.
  - intros b w Hb Hne Hw. unfold s3, set_ent. rewrite ld_st, decide_False.
    + rewrite (Hf2 b); [by apply (Hf b)|by auto| |by rewrite Hd1]. intros ->. done.
    + intros ->. apply Hne. eapply (held_disj s A); [done|done|done|exact Hw|].
      rewrite <- Hd1, <- Hd2. by apply (word_ent _ A1).
Qed.

(** What a walk that allocates tables on the way may do: tables are added, no
    translation of four levels changes, and only words of tables are written. *)
Record grows (D : list Z -> Prop) (r : Z) s A s' A' : Prop := {
  gr_dmap : dmap s' = dmap s;
  gr_held : held s' A';
  gr_owns : owns D s' r A';
  gr_sub : A ⊆ A';
  gr_mono : forall rho p, D rho -> walk s r rho = Some p -> walk s' r rho = Some p;
  gr_back : forall rho p, D rho -> walk s' r rho = Some p -> (p, 0%nat) ∈ A -> walk s r rho = Some p;
  gr_leaf : forall rho, D rho -> length rho = 4%nat -> walk s' r rho = walk s r rho;
  gr_frame : forall b w, b ∈ A ->
    (forall rho t, D rho -> (length rho <= 2)%nat -> walk s' r rho = Some t -> b <> (t, 0%nat)) ->
    word_of (dmap s) b w -> ld s' w = ld s w }.

Lemma grows_refl D r s A : held s A -> owns D s r A -> grows D r s A s A.
Proof. intros. split; try done. Qed.

Lemma grows_trans D r s A s1 A1 s2 A2 : grows D r s A s1 A1 -> grows D r s1 A1 s2 A2 -> grows D r s A s2 A2.
Proof.
  intros [a1 a2 a3 a4 a5 a6 a7 a8] [b1 b2 b3 b4 b5 b6 b7 b8]. split; try done.
  - congruence.
  - set_solver.
  - auto.
  - intros rho p Hr E Hp. apply a6; [done| |done]. apply b6; auto.
  - intros rho Hr Hl. by rewrite b7, a7.
  - intros b w Hb Hnt Hw. rewrite (b8 b w); [apply (a8 b w); [done| |done]|by apply a4|done|by rewrite a1].
    intros rho t Hr Hl E. eapply Hnt; eauto.
Qed.

Lemma walk_level_ok D s r A pi t i : domain D -> held s A -> owns D s r A -> D (pi ++ [i]) ->
  (length pi <= 2)%nat -> walk s r pi = Some t ->
  let '(res, s') := walk_level s t i in
  match res with
  | None => s' = s /\ fst (palloc s 0) = 0
  | Some c => (exists A', grows D r s A s' A') /\ walk s' r (pi ++ [i]) = Some c
  end.
Proof.
  intros HD Hh Ho Hpi Hlen Ht. unfold walk_level.
  assert (Hc : child s t i = if has_flag (ent s t i) PTE_PRESENT then Some (Z.land (ent s t i) PTE_ADDR_MASK) else None) by done.
  destruct (has_flag (ent s t i) PTE_PRESENT); cbn [negb].
  - split; [exists A; by apply grows_refl|]. rewrite walk_app, Ht. cbn [walk]. by rewrite Hc.
  - destruct (palloc s 0) as [p s1] eqn:Ep. destruct (palloc_ok s A 0 p s1 Hh Ep) as (Hd1 & [[-> ->]|(Hp & Hh1 & Hf)]); [done|].
    rewrite (proj2 (Z.eqb_neq _ _)) by done.
    destruct (hang_table D s s1 r A pi t i p) as (I1 & I2 & I3 & I3o & I4 & I5); try done.
    assert (Hnp : (p, 0%nat) ∉ A) by (by apply (held_nodup _ _), list.NoDup_cons in Hh1 as [? _]).
    unfold child, pte_child in I3. destruct (has_flag _ PTE_PRESENT); [|done]. injection I3 as E. rewrite E.
    assert (Hnone : walk s r (pi ++ [i]) = None) by (rewrite walk_app, Ht; cbn [walk]; by rewrite Hc).
    split; [|by rewrite I4, decide_True]. exists ((p, 0%nat) :: A). split; try done.
    + set_solver.
    + intros rho q Hr Eq. rewrite I4 by done. case_decide; [congruence|done].
    + intros rho q Hr Eq Hq. rewrite I4 in Eq by done. case_decide; [simplify_eq|]; done.
    + intros rho Hr Hl. rewrite I4, decide_False; [done| |done]. intros ->. rewrite length_app in Hl. simpl in Hl. lia.
    + intros b w Hb Hnt Hw. apply (I5 b); [done| |done]. apply (Hnt pi); [by eapply d_prefix|done|].
      rewrite I4, decide_False; [done| |by eapply d_prefix].
      intros Ex. apply (f_equal length) in Ex. rewrite length_app in Ex. simpl in Ex. lia.
Qed.

(** [pt_walk_alloc] finds, or builds, the path to the PTE of [va]: it adds
    page tables only, leaves every existing translation and every word outside
    the tables as it was, and returns the address of the entry that translates
    [va]; it fails only when the page allocator is exhausted. *)
Lemma pt_walk_alloc_ok D s cr3 A va : domain D -> held s A ->
  owns D s (Z.land cr3 PTE_ADDR_MASK) A -> D [PML4_IDX va; PDPT_IDX va; PD_IDX va] ->
  let r := Z.land cr3 PTE_ADDR_MASK in
  let '(res, s') := pt_walk_alloc s cr3 va in
  (exists A', grows D r s A s' A') /\
  match res with
  | None => fst (palloc s' 0) = 0
  | Some pte => exists t, walk s' r [PML4_IDX va; PDPT_IDX va; PD_IDX va] = Some t /\
      pte = ent_addr s' t (PT_IDX va)
  end.
Proof.
  intros HD Hh Ho Hva r. unfold pt_walk_alloc. fold r. fold r in Ho.
  pose proof (d_prefix _ HD [PML4_IDX va; PDPT_IDX va] (PD_IDX va) Hva) as H2.
  pose proof (d_prefix _ HD [PML4_IDX va] (PDPT_IDX va) H2) as H1.
  pose proof (walk_level_ok D s r A [] r (PML4_IDX va) HD Hh Ho H1 ltac:(simpl; lia) eq_refl) as L1.
  destruct (walk_level s r (PML4_IDX va)) as [[pdpt|] s1];
    [|destruct L1 as (-> & Hp); split; [exists A; by apply grows_refl|done]].
  destruct L1 as [(A1 & G1) W1].
  pose proof (walk_level_ok D s1 r A1 [PML4_IDX va] pdpt (PDPT_IDX va) HD (gr_held _ _ _ _ _ _ G1)
    (gr_owns _ _ _ _ _ _ G1) H2 ltac:(simpl; lia) W1) as L2.
  destruct (walk_level s1 pdpt (PDPT_IDX va)) as [[pd|] s2]; [|destruct L2 as (-> & Hp); split; [by exists A1|done]].
  destruct L2 as [(A2 & G2) W2].
  pose proof (walk_level_ok D s2 r A2 [PML4_IDX va; PDPT_IDX va] pd (PD_IDX va) HD (gr_held _ _ _ _ _ _ G2)
    (gr_owns _ _ _ _ _ _ G2) Hva ltac:(simpl; lia) W2) as L3.
  pose proof (grows_trans _ _ _ _ _ _ _ _ G1 G2) as G12.
  destruct (walk_level s2 pd (PD_IDX va)) as [[pt|] s3]; [|destruct L3 as (-> & Hp); split; [by exists A2|done]].
  destruct L3 as [(A3 & G3) W3]. split; [exists A3; by eapply grows_trans|]. by exists pt.
Qed.

(** A leaf entry written: exactly one translation changes. *)
Lemma set_leaf D s r A pi t i e pa : domain D -> held s A -> owns D s r A -> D (pi ++ [i]) ->
  length pi = 3%nat -> walk s r pi = Some t -> pte_child e = Some pa ->
  (pa, 0%nat) ∈ A -> (forall rho, D rho -> walk s r rho <> Some pa) ->
  let s' := set_ent s t i e in
  held s' A /\ owns D s' r A /\ dmap s' = dmap s /\
  (forall rho, D rho -> walk s' r rho = if decide (rho = pi ++ [i]) then Some pa else walk s r rho).
Proof.
  intros HD Hh Ho Hpi Hlen Ht He Hpa Hfresh s'.
  assert (HtA : (t, 0%nat) ∈ A) by (eapply (ow_held _ _ _ _ Ho pi); [by eapply d_prefix|done]).
  assert (Hi : 0 <= i < 512) by (by eapply d_idx).
  assert (Hset := ent_set s A t i e). fold s' in Hset.
  assert (Hch : forall q j, (q, 0%nat) ∈ A -> 0 <= j < 512 -> (q <> t \/ j <> i) -> child s' q j = child s q j).
  { intros q j Hq Hj Hne. unfold child. rewrite Hset, decide_False by (done || tauto). done. }
  assert (Hwalk := walk_change D s s' r A pi t i HD Ho Hpi Ht Hch).
  assert (Hw : forall rho, D rho -> walk s' r rho = if decide (rho = pi ++ [i]) then Some pa else walk s r rho).
  { intros rho Hr. case_decide as Er.
    - subst. rewrite walk_app, Hwalk, Ht; [|by eapply d_prefix|].
      + cbn [walk]. unfold child. by rewrite Hset, decide_True, He.
      + intros [k E]. apply (f_equal length) in E. rewrite !length_app in E. simpl in E. lia.
    - apply Hwalk; [done|]. intros [k ->]. apply Er. pose proof (d_len _ HD _ Hr) as Hl.
      rewrite !length_app in Hl. simpl in Hl. destruct k; [by rewrite app_nil_r|simpl in Hl; lia]. }
  split_and!; [by apply set_ent_held| |apply dmap_st|done]. split.
  - intros rho p Hr E. rewrite Hw in E by done. case_decide; [by simplify_eq|]. by eapply ow_held.
  - intros p1 p2 p Hr1 Hr2 E1 E2. rewrite Hw in E1, E2 by done.
    destruct (decide (p1 = pi ++ [i])) as [->|], (decide (p2 = pi ++ [i])) as [->|]; [done| | |].
    + injection E1 as <-. by apply Hfresh in E2.
    + injection E2 as <-. by apply Hfresh in E1.
    + by apply (ow_inj _ _ _ _ Ho p1 p2 p).
  - intros rho q j Hr Hl E Hj Hp. rewrite Hw in E by done.
    assert (Hne : rho <> pi ++ [i]) by (intros ->; rewrite length_app in Hl; simpl in Hl; lia).
    rewrite decide_False in E by done. assert (HqA : (q, 0%nat) ∈ A) by (by apply (ow_held _ _ _ _ Ho rho)).
    assert (Hqt : q <> t).
    { intros ->. assert (rho = pi) as -> by (apply (ow_inj _ _ _ _ Ho rho pi t); try done; by eapply d_prefix). lia. }
    rewrite Hset, decide_False in Hp |- * by (done || tauto). by apply (ow_pd _ _ _ _ Ho).
Qed.

(** The outcome of [map_page]: the new state still owns its tree, and either
    [va]'s page is now translated to [pa], every other translation being as
    before, or the allocator is exhausted and no translation has changed. *)
Definition mapped (D : list Z -> Prop) (r : Z) s A (va pa : Z) s' : Prop :=
  dmap s' = dmap s /\
  exists A', A ⊆ A' /\ held s' A' /\ owns D s' r A' /\
    (forall rho p, D rho -> walk s' r rho = Some p -> (p, 0%nat) ∈ A -> p <> pa -> walk s r rho = Some p) /\
    (forall b w, b ∈ A -> (forall rho t, D rho -> (length rho <= 3)%nat -> walk s' r rho = Some t -> b <> (t, 0%nat)) ->
       word_of (dmap s) b w -> ld s' w = ld s w) /\
    ((forall rho, D rho -> length rho = 4%nat ->
        walk s' r rho = if decide (rho = idx va) then Some pa else walk s r rho) \/
     (fst (palloc s' 0) = 0 /\ forall rho, D rho -> length rho = 4%nat -> walk s' r rho = walk s r rho)).

Lemma map_page_ok D s cr3 A va pa prot : domain D -> held s A ->
  owns D s (Z.land cr3 PTE_ADDR_MASK) A -> D (idx va) ->
  (pa, 0%nat) ∈ A -> (forall rho, D rho -> walk s (Z.land cr3 PTE_ADDR_MASK) rho <> Some pa) ->
  mapped D (Z.land cr3 PTE_ADDR_MASK) s A va pa (map_page s cr3 va pa prot).
Proof.
  intros HD Hh Ho Hva Hpa Hfresh. set (r := Z.land cr3 PTE_ADDR_MASK) in *.
  set (pi := [PML4_IDX va; PDPT_IDX va; PD_IDX va]).
  assert (HD3 : D pi) by (eapply (d_prefix _ HD pi); exact Hva).
  pose proof (pt_walk_alloc_ok D s cr3 A va HD Hh Ho HD3) as Hwk. unfold map_page.
  destruct (pt_walk_alloc s cr3 va) as [[pte|] s1]; destruct Hwk as [(A1 & G) Hres]; fold r in G, Hres.
  - destruct Hres as (t & Ht & ->). fold pi in Ht.
    destruct (held_page s A pa Hh Hpa) as (Hpr & Hpd & _).
    assert (Hpa1 : (pa, 0%nat) ∈ A1) by (by apply (gr_sub _ _ _ _ _ _ G)).
    assert (Hfresh1 : forall rho, D rho -> walk s1 r rho <> Some pa).
    { intros rho Hr E. apply (Hfresh rho Hr). by apply (gr_back _ _ _ _ _ _ G). }
    destruct (set_leaf D s1 r A1 pi t (PT_IDX va) (Z.lor (Z.land pa PTE_ADDR_MASK) (pte_flags prot)) pa)
      as (I1 & I2 & I3 & I4); try done; try apply G; [apply leaf_entry_child; [lia|done]|].
    fold (set_ent s1 t (PT_IDX va) (Z.lor (Z.land pa PTE_ADDR_MASK) (pte_flags prot))).
    set (s' := set_ent _ _ _ _) in *. split; [rewrite I3; apply G|]. exists A1. split_and!; try done; [apply G| | |].
    + intros rho p Hr E Hp Hne. rewrite I4 in E by done. case_decide; [by simplify_eq|]. by apply (gr_back _ _ _ _ _ _ G).
    + intros b w Hb Hnt Hw. unfold s', set_ent. rewrite ld_st, decide_False.
      * apply (gr_frame _ _ _ _ _ _ G b); [done| |done]. intros rho q Hr Hl E. apply (Hnt rho); [done|lia|].
        rewrite I4, decide_False; [done| |done]. intros ->. simpl in Hl. lia.
      * intros ->. apply (Hnt pi t); [done|done| |].
        { rewrite I4, decide_False; [done|done|done]. }
        apply (held_disj s1 A1 _ _ (ent_addr s1 t (PT_IDX va) - dmap s)); [apply G|by apply (gr_sub _ _ _ _ _ _ G)| |exact Hw|].
        { by apply (ow_held _ _ _ _ (gr_owns _ _ _ _ _ _ G) pi). }
        rewrite <- (gr_dmap _ _ _ _ _ _ G). apply (word_ent s1 A1); [apply G| |].
        { by apply (ow_held _ _ _ _ (gr_owns _ _ _ _ _ _ G) pi). }
        by apply (d_idx _ HD pi).
    + left. intros rho Hr Hl. rewrite I4 by done. change (pi ++ [PT_IDX va]) with (idx va).
      case_decide; [done|]. by apply (gr_leaf _ _ _ _ _ _ G).
  - split; [apply G|]. exists A1. split_and!; try apply G.
    + intros rho p Hr E Hp _. by apply (gr_back _ _ _ _ _ _ G).
    + intros b w Hb Hnt Hw. apply (gr_frame _ _ _ _ _ _ G b); [done| |done]. intros rho t Hr Hl. apply Hnt; [done|lia].
    + right. split; [done|]. apply G.
Qed.

End Tree.
End PageTable.
