(* ===== verification/Region.v ===== *)
(** * kernel/mm/mm.c: the regions of an address space

    Regions live in a fixed pool and are linked, sorted by base address, into
    the doubly linked list of their [vmap_t].  A pointer to a region is its
    index in the pool, [None] is NULL. *)

From S2P Require Import Prelude.
From Stdlib Require Import ZArith Lia Sorted.
From stdpp Require Import base list gmap numbers.
Open Scope Z_scope.

Module Region.

Record vregion_t := mkRegion {
  base : Z; size : Z; prot : Z; kind : Z; fd : Z;
  prev : option nat; next : option nat }.

Record vmap_t := mkVmap { head : option nat; cr3 : Z; region_count : Z }.

Definition MAX_REGIONS : nat := 128 * 128. (* 1024 * 16 *)

Record pool_t := mkPool { g_region_pool : gmap nat vregion_t; g_region_next : nat }.

Definition region0 : vregion_t := mkRegion 0 0 0 0 0 None None.
Definition reg (p : pool_t) (i : nat) : vregion_t := default region0 (g_region_pool p !! i).
Definition set_reg (p : pool_t) (i : nat) (r : vregion_t) : pool_t :=
  mkPool (<[i := r]> (g_region_pool p)) (g_region_next p).
Definition set_next (r : vregion_t) (n : option nat) : vregion_t :=
  mkRegion (base r) (size r) (prot r) (kind r) (fd r) (prev r) n.
Definition set_prev (r : vregion_t) (n : option nat) : vregion_t :=
  mkRegion (base r) (size r) (prot r) (kind r) (fd r) n (next r).
Definition set_head (m : vmap_t) (h : option nat) : vmap_t := mkVmap h (cr3 m) (region_count m).
Definition set_count (m : vmap_t) (n : Z) : vmap_t := mkVmap (head m) (cr3 m) n.

(** The slots of the pool are handed out once and never returned. *)
Definition region_alloc (p : pool_t) : option nat * pool_t :=
  if (MAX_REGIONS <=? g_region_next p)%nat then (None, p)
  else
    let i := g_region_next p in
    (Some i, mkPool (<[i := mkRegion 0 0 0 0 (-1) None None]> (g_region_pool p)) (S i)).

(** List walks carry a bound on their number of steps; [None] means that the
    walk has not ended within it.  A list has no more elements than the pool. *)
Definition FUEL : nat := S (S MAX_REGIONS).

Fixpoint overlaps_walk (fuel : nat) (p : pool_t) (r : option nat) (b en : Z) : option Z :=
  match fuel with
  | O => None
  | S fuel' =>
      match r with
      | None => Some 0
      | Some i =>
          let r := reg p i in
          let r_end := u64 (base r + size r) in
          if r_end <=? base r then Some 1
          else if (b <? r_end) && (base r <? en) then Some 1
          else if en <=? base r then Some 0
          else overlaps_walk fuel' p (next r) b en
      end
  end.

Definition amm_region_overlaps (p : pool_t) (map : option vmap_t) (b sz : Z) : option Z :=
  match map with
  | None => Some 0
  | Some m =>
      if sz =? 0 then Some 0
      else
        let en := u64 (b + sz) in
        if en <=? b then Some 1
        else overlaps_walk FUEL p (head m) b en
  end.

(** [while (cur->next && cur->next->base < base) cur = cur->next;] *)
Fixpoint insert_walk (fuel : nat) (p : pool_t) (cur : nat) (b : Z) : option nat :=
  match fuel with
  | O => None
  | S fuel' =>
      match next (reg p cur) with
      | None => Some cur
      | Some n => if base (reg p n) <? b then insert_walk fuel' p n b else Some cur
      end
  end.

(** The result code, the pool and the map; the outer [None] is a walk that
    does not end. *)
Definition amm_region_add (p : pool_t) (map : option vmap_t) (b sz pr kd f : Z)
    : option (Z * pool_t * option vmap_t) :=
  match map with
  | None => Some (-1, p, map)
  | Some m =>
      if sz =? 0 then Some (-1, p, map)
      else match amm_region_overlaps p map b sz with
      | None => None
      | Some o =>
          if truthy o then Some (-1, p, map)
          else match region_alloc p with
          | (None, p) => Some (-1, p, map)
          | (Some nr, p) =>
              let p := set_reg p nr (mkRegion b sz pr kd f None None) in
              let front := match head m with None => true | Some h => b <? base (reg p h) end in
              if front then
                let p := set_reg p nr (set_next (reg p nr) (head m)) in
                let p := match head m with
                         | Some h => set_reg p h (set_prev (reg p h) (Some nr)) | None => p end in
                Some (0, p, Some (set_count (set_head m (Some nr)) (u32 (region_count m + 1))))
              else match head m with
              | None => None
              | Some h =>
                  match insert_walk FUEL p h b with
                  | None => None
                  | Some cur =>
                      let p := set_reg p nr (set_next (reg p nr) (next (reg p cur))) in
                      let p := set_reg p nr (set_prev (reg p nr) (Some cur)) in
                      let p := match next (reg p cur) with
                               | Some n => set_reg p n (set_prev (reg p n) (Some nr)) | None => p end in
                      let p := set_reg p cur (set_next (reg p cur) (Some nr)) in
                      Some (0, p, Some (set_count m (u32 (region_count m + 1))))
                  end
              end
          end
      end
  end.

(** [while (r && r->base != base) r = r->next;] *)
Fixpoint remove_walk (fuel : nat) (p : pool_t) (r : option nat) (b : Z) : option (option nat) :=
  match fuel with
  | O => None
  | S fuel' =>
      match r with
      | None => Some None
      | Some i => if negb (base (reg p i) =? b) then remove_walk fuel' p (next (reg p i)) b else Some r
      end
  end.

Definition amm_region_remove (p : pool_t) (m : vmap_t) (b : Z) : option (Z * pool_t * vmap_t) :=
  match remove_walk FUEL p (head m) b with
  | None => None
  | Some None => Some (-1, p, m)
  | Some (Some i) =>
      let r := reg p i in
      let '(p, m) := match prev r with
                     | Some q => (set_reg p q (set_next (reg p q) (next r)), m)
                     | None => (p, set_head m (next r)) end in
      let p := match next r with
               | Some n => set_reg p n (set_prev (reg p n) (prev r)) | None => p end in
      Some (0, p, set_count m (u32 (region_count m - 1)))
  end.

Fixpoint amm_region_find_walk (fuel : nat) (p : pool_t) (r : option nat) (addr : Z) : option (option nat) :=
  match fuel with
  | O => None
  | S fuel' =>
      match r with
      | None => Some None
      | Some i =>
          let r' := reg p i in
          if (base r' <=? addr) && (addr <? u64 (base r' + size r')) then Some (Some i)
          else if addr <? base r' then Some None
          else amm_region_find_walk fuel' p (next r') addr
      end
  end.
Definition amm_region_find (p : pool_t) (m : vmap_t) (addr : Z) : option (option nat) :=
  amm_region_find_walk FUEL p (head m) addr.

(** ** Abstract view: the sorted list of regions *)

(** A region without its links. *)
Definition data (r : vregion_t) : vregion_t := mkRegion (base r) (size r) (prot r) (kind r) (fd r) None None.
Definition abs (p : pool_t) (l : list nat) : list vregion_t := map (fun i => data (reg p i)) l.

Definition region_ok (r : vregion_t) : Prop := 0 <= base r /\ 0 < size r /\ base r + size r < 2 ^ 64.
Definition before (r q : vregion_t) : Prop := base r + size r <= base q.
Definition wf (L : list vregion_t) : Prop := Forall region_ok L /\ StronglySorted before L.

(** Region [r] meets the interval from [b] to [en]; and contains [a]. *)
Definition meets (b en : Z) (r : vregion_t) : bool := (b <? base r + size r) && (base r <? en).
Definition contains (a : Z) (r : vregion_t) : bool := (base r <=? a) && (a <? base r + size r).

(** ** Doubly linked segments *)

(** [dseg p pv h l pv' h']: from pointer [h], with [pv] before it, the nodes
    [l] are linked both ways, [pv'] being the last one and [h'] what follows. *)
Fixpoint dseg (p : pool_t) (pv h : option nat) (l : list nat) (pv' h' : option nat) : Prop :=
  match l with
  | [] => pv = pv' /\ h = h'
  | i :: l' => h = Some i /\ prev (reg p i) = pv /\ dseg p (Some i) (next (reg p i)) l' pv' h'
  end.

Record vm_ok (p : pool_t) (m : vmap_t) (l : list nat) : Prop := {
  vo_list : exists pv, dseg p None (head m) l pv None;
  vo_nodup : NoDup l;
  vo_pool : Forall (fun i => i < g_region_next p)%nat l;
  vo_max : (g_region_next p <= MAX_REGIONS)%nat;
  vo_wf : wf (abs p l);
  vo_count : region_count m = Z.of_nat (length l) }.

Lemma reg_set p i r j : reg (set_reg p i r) j = if decide (j = i) then r else reg p j.
Proof.
  unfold reg, set_reg; simpl. case_decide.
  - subst. by rewrite lookup_insert_eq.
  - by rewrite lookup_insert_ne.
Qed.

Lemma reg_set_eq p i r : reg (set_reg p i r) i = r.
Proof. by rewrite reg_set, decide_True. Qed.
Lemma reg_set_ne p i r j : j <> i -> reg (set_reg p i r) j = reg p j.
Proof. intros. by rewrite reg_set, decide_False. Qed.

Lemma dseg_app p l1 : forall pv h l2 pv' h',
  dseg p pv h (l1 ++ l2) pv' h' <-> exists pv1 h1, dseg p pv h l1 pv1 h1 /\ dseg p pv1 h1 l2 pv' h'.
Proof.
  induction l1 as [|i l1 IH]; intros pv h l2 pv' h'; simpl.
  - split; [intros; by exists pv, h|]. by intros (? & ? & (-> & ->) & ?).
  - rewrite IH. split.
    + intros (? & ? & pv1 & h1 & ? & ?). exists pv1, h1. done.
    + intros (pv1 & h1 & (? & ? & ?) & ?). split_and!; [done|done|]. by exists pv1, h1.
Qed.

Lemma dseg_frame p p' l : forall pv h pv' h',
  (forall i, i ∈ l -> reg p' i = reg p i) -> dseg p pv h l pv' h' -> dseg p' pv h l pv' h'.
Proof.
  induction l as [|i l IH]; intros pv h pv' h' Hf; simpl; [done|].
  intros (? & ? & ?). rewrite Hf by set_solver. split_and!; [done|done|]. apply IH; [|done]. set_solver.
Qed.

(** Redirecting the last [next] or the first [prev] of a segment. *)
Lemma dseg_set_last p pv h l c pv' h' x : c ∉ l -> dseg p pv h (l ++ [c]) pv' h' ->
  dseg (set_reg p c (set_next (reg p c) x)) pv h (l ++ [c]) (Some c) x.
Proof.
  intros Hc. rewrite !dseg_app. intros (pv1 & h1 & H1 & H2). exists pv1, h1. split.
  - eapply dseg_frame; [|done]. intros i Hi. apply reg_set_ne. by intros ->.
  - simpl in *. rewrite reg_set_eq. simpl. destruct H2 as (? & ? & _). done.
Qed.

Lemma dseg_set_first p pv h n l pv' h' x : n ∉ l -> dseg p pv h (n :: l) pv' h' ->
  dseg (set_reg p n (set_prev (reg p n) x)) x h (n :: l) pv' h'.
Proof.
  intros Hn (-> & Hp & Hr). simpl. rewrite reg_set_eq. simpl. split_and!; [done|done|].
  eapply dseg_frame; [|done]. intros i Hi. apply reg_set_ne. by intros ->.
Qed.

Lemma dseg_last p pv h l c pv' h' : dseg p pv h (l ++ [c]) pv' h' -> pv' = Some c /\ next (reg p c) = h'.
Proof. rewrite dseg_app. by intros (pv1 & h1 & _ & -> & _ & -> & ->). Qed.

Lemma dseg_head p pv h l pv' : dseg p pv h l pv' None -> h = hd_error l.
Proof. destruct l; simpl; [by intros [_ ->]|by intros [-> _]]. Qed.

Lemma data_set_next r x : data (set_next r x) = data r.
Proof. done. Qed.
Lemma data_set_prev r x : data (set_prev r x) = data r.
Proof. done. Qed.

Lemma abs_ext p p' l : (forall i, i ∈ l -> data (reg p' i) = data (reg p i)) -> abs p' l = abs p l.
Proof. intros Hd. apply map_ext_in. intros i Hi. apply Hd. by apply list_elem_of_In. Qed.

Lemma length_pool p m l : vm_ok p m l -> (length l <= MAX_REGIONS)%nat.
Proof.
  intros Ho. transitivity (g_region_next p); [|apply Ho].
  rewrite <- (length_seq (g_region_next p) 0). apply submseteq_length, NoDup_submseteq; [apply Ho|].
  intros i Hi. apply elem_of_seq. pose proof (vo_pool _ _ _ Ho) as Hf. rewrite Forall_forall in Hf.
  apply list_elem_of_In in Hi. apply Hf in Hi. lia.
Qed.

(** ** The walks *)

Lemma wf_cons r L : wf (r :: L) <-> region_ok r /\ Forall (before r) L /\ wf L.
Proof.
  unfold wf. rewrite list.Forall_cons. split.
  - intros [[H1 H2] H3]. inversion H3; subst. done.
  - intros (H1 & H2 & H3 & H4). split; [done|]. by constructor.
Qed.

Lemma wf_end p i : region_ok (data (reg p i)) -> u64 (base (reg p i) + size (reg p i)) = base (reg p i) + size (reg p i).
Proof. intros (H1 & H2 & H3). simpl in *. apply u64_small. lia. Qed.

Lemma overlaps_walk_ok p b en l : forall fuel pv h pv', (length l < fuel)%nat ->
  dseg p pv h l pv' None -> wf (abs p l) ->
  overlaps_walk fuel p h b en = Some (if existsb (meets b en) (abs p l) then 1 else 0).
Proof.
  induction l as [|i l IH]; intros fuel pv h pv' Hl Hd Hw; (destruct fuel as [|fuel]; [simpl in Hl; lia|]); simpl in Hd.
  - destruct Hd as [_ ->]. done.
  - destruct Hd as (-> & _ & Hd). cbn [abs map] in Hw. apply wf_cons in Hw as (Hr & Hb & Hw).
    cbn [overlaps_walk]. rewrite (wf_end p i Hr). pose proof Hr as (Hr1 & Hr2 & Hr3). simpl in Hr1, Hr2, Hr3.
    rewrite (proj2 (Z.leb_gt _ _)) by lia. cbn [abs map existsb]. unfold meets at 1. cbn [base size data].
    destruct ((b <? _) && _) eqn:Em; [done|]. cbn [orb].
    destruct (Z.leb_spec en (base (reg p i))) as [Hle|Hgt]; [|by eapply IH; [simpl in Hl; lia|..]].
    replace (existsb (meets b en) (map (fun j => data (reg p j)) l)) with false; [done|].
    symmetry. apply not_true_iff_false. intros Hex. apply existsb_exists in Hex as (r & Hin & Hm).
    rewrite Forall_forall in Hb. specialize (Hb r Hin). unfold before in Hb. simpl in Hb.
    unfold meets in Hm. zbool. lia.
Qed.

Lemma insert_walk_ok p b l : forall fuel pv c pv', (length l < fuel)%nat ->
  dseg p pv (Some c) (c :: l) pv' None -> base (reg p c) < b ->
  exists l1 cur l2, c :: l = l1 ++ cur :: l2 /\ insert_walk fuel p c b = Some cur /\
    Forall (fun i => base (reg p i) < b) (l1 ++ [cur]) /\
    match l2 with n :: _ => b <= base (reg p n) | [] => True end.
Proof.
  induction l as [|n l IH]; intros fuel pv c pv' Hl Hd Hc; (destruct fuel as [|fuel]; [simpl in Hl; lia|]).
  - destruct Hd as (_ & _ & _ & Hn). cbn [insert_walk]. rewrite Hn. exists [], c, []. split_and!; try done.
    by repeat constructor.
  - destruct Hd as (_ & _ & Hd). assert (Hn : next (reg p c) = Some n) by (by destruct Hd).
    cbn [insert_walk]. rewrite Hn in Hd |- *. destruct (Z.ltb_spec (base (reg p n)) b).
    + destruct (IH fuel (Some c) n pv') as (l1 & cur & l2 & E & Hw & Hf & Hm); [simpl in Hl; lia|done|done|].
      exists (c :: l1), cur, l2. rewrite E. split_and!; try done. by constructor.
    + exists [], c, (n :: l). split_and!; try done. by repeat constructor.
Qed.

Lemma remove_walk_ok p b l : forall fuel pv h pv', (length l < fuel)%nat -> dseg p pv h l pv' None ->
  (remove_walk fuel p h b = Some None /\ Forall (fun i => base (reg p i) <> b) l) \/
  (exists l1 i l2, l = l1 ++ i :: l2 /\ remove_walk fuel p h b = Some (Some i) /\ base (reg p i) = b /\
     Forall (fun j => base (reg p j) <> b) l1).
Proof.
  induction l as [|i l IH]; intros fuel pv h pv' Hl Hd; (destruct fuel as [|fuel]; [simpl in Hl; lia|]); simpl in Hd.
  - destruct Hd as [_ ->]. left. done.
  - destruct Hd as (-> & _ & Hd). cbn [remove_walk]. destruct (Z.eqb_spec (base (reg p i)) b) as [E|E]; cbn [negb].
    + right. exists [], i, l. done.
    + destruct (IH fuel (Some i) (next (reg p i)) pv') as [[H1 H2]|(l1 & j & l2 & -> & H1 & H2 & H3)]; [simpl in Hl; lia|done| |].
      * left. split; [done|]. by constructor.
      * right. exists (i :: l1), j, l2. split_and!; try done. by constructor.
Qed.

Lemma find_walk_ok p a l : forall fuel pv h pv', (length l < fuel)%nat ->
  dseg p pv h l pv' None -> wf (abs p l) ->
  exists r, amm_region_find_walk fuel p h a = Some r /\
    match r with
    | Some i => i ∈ l /\ contains a (data (reg p i)) = true
    | None => forall i, i ∈ l -> contains a (data (reg p i)) = false
    end.
Proof.
  induction l as [|i l IH]; intros fuel pv h pv' Hl Hd Hw; (destruct fuel as [|fuel]; [simpl in Hl; lia|]); simpl in Hd.
  - destruct Hd as [_ ->]. exists None. split; [done|]. set_solver.
  - destruct Hd as (-> & _ & Hd). cbn [abs map] in Hw. apply wf_cons in Hw as (Hr & Hb & Hw).
    cbn [amm_region_find_walk]. rewrite (wf_end p i Hr).
    change ((base (reg p i) <=? a) && (a <? base (reg p i) + size (reg p i))) with (contains a (data (reg p i))).
    destruct (contains a (data (reg p i))) eqn:Ec; [exists (Some i); split; [done|]; set_solver|].
    destruct (Z.ltb_spec a (base (reg p i))) as [Hlt|Hge].
    + exists None. split; [done|]. intros j Hj. apply elem_of_cons in Hj as [->|Hj]; [done|].
      rewrite Forall_forall in Hb. assert (Hbj : before (data (reg p i)) (data (reg p j))).
      { apply Hb. apply (in_map (fun i => data (reg p i))). by apply list_elem_of_In. }
      unfold before in Hbj. destruct Hr as (_ & Hs & _). simpl in *. apply not_true_iff_false. unfold contains. simpl. intros Hc. zbool. lia.
    + destruct (IH fuel (Some i) (next (reg p i)) pv') as (r & E & Hr'); [simpl in Hl; lia|done|done|].
      exists r. split; [done|]. destruct r as [j|]; [set_solver|]. intros j Hj. apply elem_of_cons in Hj as [->|Hj]; auto.
Qed.

(** ** Insertion *)

(** The links after a new node [nr] has been put between [l1] and [l2]; data
    and nodes of other lists are untouched. *)
Definition linked (p p' : pool_t) (m m' : vmap_t) (l1 l2 : list nat) (nr : nat) (d : vregion_t) : Prop :=
  (exists pv, dseg p' None (head m') (l1 ++ nr :: l2) pv None) /\
  g_region_next p' = S (g_region_next p) /\ data (reg p' nr) = d /\
  (forall i, i <> nr -> data (reg p' i) = data (reg p i)) /\
  (forall i, i ∉ l1 ++ l2 -> i <> nr -> reg p' i = reg p i) /\
  cr3 m' = cr3 m /\ region_count m' = u32 (region_count m + 1).

Lemma insert_front p p0 m l pv nr d : NoDup l -> nr ∉ l -> dseg p None (head m) l pv None ->
  (forall i, i <> nr -> reg p0 i = reg p i) -> g_region_next p0 = S (g_region_next p) ->
  data (reg p0 nr) = d -> prev (reg p0 nr) = None ->
  let p1 := set_reg p0 nr (set_next (reg p0 nr) (head m)) in
  let p2 := match head m with Some h => set_reg p1 h (set_prev (reg p1 h) (Some nr)) | None => p1 end in
  linked p p2 m (set_count (set_head m (Some nr)) (u32 (region_count m + 1))) [] l nr d.
Proof.
  intros Hnd Hnr Hd H0 Hnx Hdat Hpv p1 p2.
  assert (Hd1 : dseg p1 None (head m) l pv None).
  { eapply dseg_frame; [|done]. intros i Hi. unfold p1. rewrite reg_set_ne by (by intros ->). apply H0. by intros ->. }
  assert (E1 : reg p1 nr = set_next (reg p0 nr) (head m)) by apply reg_set_eq.
  assert (D1 : forall i, i <> nr -> reg p1 i = reg p i).
  { intros i Hi. unfold p1. by rewrite reg_set_ne, H0. }
  destruct l as [|h l].
  - destruct Hd1 as [_ Hh]. unfold p2. rewrite Hh in *. split_and!; try done.
    + exists (Some nr). simpl. rewrite E1. simpl. done.
    + by rewrite E1.
    + intros i Hi. by rewrite D1.
    + intros i _ Hi. by apply D1.
  - assert (Hh : head m = Some h) by (by destruct Hd1). unfold p2. rewrite Hh in *.
    assert (Hhn : h <> nr) by set_solver. apply list.NoDup_cons in Hnd as [Hhl Hnd].
    split_and!; try done.
    + exists pv. simpl app. cbn [dseg]. rewrite reg_set_ne, E1 by done. split; [done|]. split; [done|].
      change (next (set_next (reg p0 nr) (Some h))) with (Some h).
      exact (dseg_set_first p1 None (Some h) h l pv None (Some nr) Hhl Hd1).
    + by rewrite reg_set_ne, E1.
    + intros i Hi. rewrite reg_set. case_decide; [subst; rewrite D1 by done; done|by rewrite D1].
    + intros i Hi Hin. rewrite reg_set_ne, D1 by set_solver. done.
Qed.

Lemma insert_middle p p0 m l1 cur l2 pv nr d : NoDup (l1 ++ cur :: l2) -> nr ∉ l1 ++ cur :: l2 ->
  dseg p None (head m) (l1 ++ cur :: l2) pv None ->
  (forall i, i <> nr -> reg p0 i = reg p i) -> g_region_next p0 = S (g_region_next p) ->
  data (reg p0 nr) = d ->
  let p1 := set_reg p0 nr (set_next (reg p0 nr) (next (reg p0 cur))) in
  let p2 := set_reg p1 nr (set_prev (reg p1 nr) (Some cur)) in
  let p3 := match next (reg p2 cur) with Some n => set_reg p2 n (set_prev (reg p2 n) (Some nr)) | None => p2 end in
  let p4 := set_reg p3 cur (set_next (reg p3 cur) (Some nr)) in
  linked p p4 m (set_count m (u32 (region_count m + 1))) (l1 ++ [cur]) l2 nr d.
Proof.
  intros Hnd Hnr Hd H0 Hnx Hdat p1 p2 p3 p4.
  replace (l1 ++ cur :: l2) with ((l1 ++ [cur]) ++ l2) in * by (by rewrite <- app_assoc).
  apply list.NoDup_app in Hnd as (Hnd1 & Hdis & Hnd2). pose proof Hnd1 as (_ & Hc1 & _)%list.NoDup_app.
  assert (Hcur : cur ∈ l1 ++ [cur]) by (apply elem_of_app; right; by apply list_elem_of_singleton).
  assert (Hcnr : cur <> nr) by (intros ->; apply Hnr, elem_of_app; by left).
  assert (Hcl1 : cur ∉ l1) by (intros Hin; apply (Hc1 cur Hin); by apply list_elem_of_singleton).
  assert (D2 : forall i, i <> nr -> reg p2 i = reg p i).
  { intros i Hi. unfold p2, p1. by rewrite !reg_set_ne, H0. }
  assert (E2 : reg p2 nr = mkRegion (base (reg p0 nr)) (size (reg p0 nr)) (prot (reg p0 nr)) (kind (reg p0 nr))
    (fd (reg p0 nr)) (Some cur) (next (reg p cur))).
  { unfold p2, p1. rewrite reg_set_eq, reg_set_eq, (H0 cur) by done. done. }
  apply dseg_app in Hd as (pv1 & h1 & Hs1 & Hs2).
  destruct (dseg_last _ _ _ _ _ _ _ Hs1) as [-> Hnext].
  assert (Hs1' : dseg p2 None (head m) (l1 ++ [cur]) (Some cur) h1).
  { eapply dseg_frame; [|done]. intros i Hi. apply D2. intros ->. apply Hnr, elem_of_app. by left. }
  assert (Hs2' : dseg p2 (Some cur) h1 l2 pv None).
  { eapply dseg_frame; [|done]. intros i Hi. apply D2. intros ->. apply Hnr, elem_of_app. by right. }
  assert (Hn2 : next (reg p2 cur) = h1) by (by rewrite D2).
  assert (H3 : (exists pv3, dseg p3 (Some nr) h1 l2 pv3 None) /\ (forall i, i ∉ l2 -> reg p3 i = reg p2 i) /\
    (forall i, data (reg p3 i) = data (reg p2 i)) /\ g_region_next p3 = g_region_next p0).
  { unfold p3. rewrite Hn2. destruct l2 as [|n l2].
    - destruct Hs2' as [_ ->]. split_and!; try done. by exists (Some nr).
    - assert (Hh1 : h1 = Some n) by (by destruct Hs2'). rewrite Hh1 in *. apply list.NoDup_cons in Hnd2 as [Hn _].
      split_and!; [|intros i Hi; apply reg_set_ne; set_solver| |done].
      + exists pv. exact (dseg_set_first p2 (Some cur) (Some n) n l2 pv None (Some nr) Hn Hs2').
      + intros i. rewrite reg_set. case_decide; [by subst|done]. }
  destruct H3 as ((pv3 & Hs3) & F3 & D3 & N3).
  assert (Hcl2 : cur ∉ l2) by (intros Hin; by apply (Hdis cur)).
  assert (Hnl2 : nr ∉ l2) by (intros Hin; apply Hnr, elem_of_app; by right).
  split_and!; try done.
  - exists pv3. rewrite dseg_app. exists (Some cur), (Some nr). split.
    + apply (dseg_set_last p3 None _ l1 cur (Some cur) h1 (Some nr) Hcl1).
      eapply dseg_frame; [|exact Hs1']. intros i Hi. apply F3. intros Hin. by apply (Hdis i).
    + cbn [dseg]. assert (E4 : reg p4 nr = reg p2 nr) by (unfold p4; rewrite reg_set_ne, F3; done).
      rewrite E4, E2. cbn [prev next]. rewrite Hnext. split; [done|]. split; [done|].
      eapply dseg_frame; [|exact Hs3]. intros i Hi. apply reg_set_ne. by intros ->.
  - unfold p4. by rewrite <- Hnx, <- N3.
  - unfold p4. rewrite reg_set_ne, D3, E2 by done. by rewrite <- Hdat.
  - intros i Hi. unfold p4. rewrite reg_set. case_decide; [subst i; rewrite data_set_next|]; by rewrite D3, D2.
  - intros i Hi Hin. rewrite <- app_assoc in Hi. unfold p4. rewrite reg_set_ne, F3, D2; [done|done|set_solver|set_solver].
Qed.

Lemma abs_app p l1 l2 : abs p (l1 ++ l2) = abs p l1 ++ abs p l2.
Proof. apply map_app. Qed.

Lemma wf_app L1 L2 : wf (L1 ++ L2) <-> wf L1 /\ wf L2 /\ forall r q, In r L1 -> In q L2 -> before r q.
Proof.
  induction L1 as [|r L1 IH]; simpl.
  - split; [|tauto]. intros Hw. split_and!; [split; constructor|done|by intros].
  - rewrite !wf_cons, IH, Forall_app, !Forall_forall. split.
    + intros (H1 & [H2 H3] & H4 & H5 & H6). split_and!; auto. intros x q [<-|Hx] Hq; auto.
    + intros ((H1 & H2 & H3) & H4 & H5). split_and!; auto.
Qed.

(** A region that meets no other one fits between those below and those above. *)
Lemma wf_insert L1 L2 d : wf (L1 ++ L2) -> region_ok d ->
  existsb (meets (base d) (base d + size d)) (L1 ++ L2) = false ->
  Forall (fun r => base r < base d) L1 -> Forall (fun r => base d <= base r) L2 ->
  wf (L1 ++ d :: L2).
Proof.
  intros Hw Hd Hm H1 H2. pose proof Hw as Hw0. apply wf_app in Hw as (W1 & W2 & Hb).
  rewrite Forall_forall in H1, H2.
  assert (Hno : forall r, In r (L1 ++ L2) -> ~ (base d < base r + size r /\ base r < base d + size d)).
  { intros r Hr [Ha Hb']. apply not_true_iff_false in Hm. apply Hm. apply existsb_exists. exists r.
    split; [done|]. unfold meets. rewrite (proj2 (Z.ltb_lt _ _)), (proj2 (Z.ltb_lt _ _)) by lia. done. }
  assert (Hpos : forall r, In r (L1 ++ L2) -> region_ok r) by (destruct Hw0 as [Hf _]; rewrite Forall_forall in Hf; done).
  destruct Hd as (D1 & D2 & D3). apply wf_app. split_and!; [done| |].
  - apply wf_cons. split_and!; [done| |done]. rewrite Forall_forall. intros r Hr.
    assert (Hin : In r (L1 ++ L2)) by (apply in_app_iff; by right).
    specialize (Hno r Hin). specialize (H2 r Hr). destruct (Hpos r Hin) as (_ & ? & _). unfold before. lia.
  - intros r q Hr [<-|Hq]; [|by apply Hb]. assert (Hin : In r (L1 ++ L2)) by (apply in_app_iff; by left).
    specialize (Hno r Hin). specialize (H1 r Hr). unfold before. lia.
Qed.

Definition refused (p : pool_t) (l : list nat) (b sz : Z) : bool :=
  (sz =? 0) || (2 ^ 64 <=? b + sz) || existsb (meets b (b + sz)) (abs p l) ||
  (MAX_REGIONS <=? g_region_next p)%nat.

Definition inserted (p p' : pool_t) (m m' : vmap_t) (l1 l2 : list nat) (d : vregion_t) : Prop :=
  vm_ok p' m' (l1 ++ g_region_next p :: l2) /\
  abs p' (l1 ++ g_region_next p :: l2) = abs p l1 ++ d :: abs p l2 /\
  (forall i, i ∉ l1 ++ l2 -> i <> g_region_next p -> reg p' i = reg p i) /\
  (forall i, i <> g_region_next p -> data (reg p' i) = data (reg p i)) /\
  g_region_next p' = S (g_region_next p) /\ cr3 m' = cr3 m.

Lemma linked_inserted p p' m m' l1 l2 d : vm_ok p m (l1 ++ l2) ->
  linked p p' m m' l1 l2 (g_region_next p) d -> (g_region_next p < MAX_REGIONS)%nat ->
  region_ok d -> existsb (meets (base d) (base d + size d)) (abs p (l1 ++ l2)) = false ->
  Forall (fun i => base (reg p i) < base d) l1 -> Forall (fun i => base d <= base (reg p i)) l2 ->
  inserted p p' m m' l1 l2 d.
Proof.
  intros Ho (Hd & Hn & Hdat & Hda & Hfr & Hcr & Hct) Hlt Hok Hm H1 H2.
  set (nr := g_region_next p) in *.
  assert (Hni : forall l, l ⊆ l1 ++ l2 -> nr ∉ l).
  { intros l Hs Hin. apply Hs in Hin. pose proof (vo_pool _ _ _ Ho) as Hf. rewrite Forall_forall in Hf.
    apply list_elem_of_In in Hin. apply Hf in Hin. unfold nr in Hin. lia. }
  assert (Ha : abs p' (l1 ++ nr :: l2) = abs p l1 ++ d :: abs p l2).
  { rewrite abs_app. cbn [abs map]. rewrite Hdat. f_equal; [|f_equal]; apply abs_ext; intros i Hi; apply Hda;
      intros ->; [apply (Hni l1)|apply (Hni l2)]; set_solver. }
  unfold inserted. fold nr. split_and!; try done. split; try done.
  - pose proof (vo_nodup _ _ _ Ho) as Hnd. rewrite <- Permutation_middle.
    apply list.NoDup_cons. split; [by apply Hni|done].
  - pose proof (vo_pool _ _ _ Ho) as Hf. apply Forall_app in Hf as [Hf1 Hf2]. rewrite Hn.
    apply Forall_app. split; [|apply Forall_cons; [unfold nr; lia|]]; eapply Forall_impl; try done; simpl; intros; lia.
  - rewrite Hn. unfold nr in *. lia.
  - rewrite Ha. apply wf_insert; [rewrite <- abs_app; apply Ho|done|by rewrite <- abs_app| |];
      apply Forall_map; eapply Forall_impl; try done; intros i Hi; exact Hi.
  - rewrite Hct, (vo_count _ _ _ Ho). pose proof (length_pool _ _ _ Ho) as Hl. rewrite !length_app in *. simpl.
    assert (Z.of_nat MAX_REGIONS = 16384) by (vm_compute; done). rewrite u32_small; lia.
Qed.

Lemma FUEL_enough p m l : vm_ok p m l -> (length l < FUEL)%nat.
Proof. intros Ho. pose proof (length_pool _ _ _ Ho). unfold FUEL. lia. Qed.

Lemma overlaps_ok p m l b sz : vm_ok p m l -> 0 <= b < 2 ^ 64 -> 0 < sz < 2 ^ 64 ->
  amm_region_overlaps p (Some m) b sz =
  Some (if (2 ^ 64 <=? b + sz) || existsb (meets b (b + sz)) (abs p l) then 1 else 0).
Proof.
  intros Ho Hb Hs. unfold amm_region_overlaps. rewrite (proj2 (Z.eqb_neq _ _)) by lia.
  destruct (Z.leb_spec (2 ^ 64) (b + sz)); cbn [orb].
  - replace (u64 (b + sz)) with (b + sz - 2 ^ 64) by (apply (Zmod_unique _ _ 1); lia).
    by rewrite (proj2 (Z.leb_le _ _)) by lia.
  - rewrite u64_small by lia. rewrite (proj2 (Z.leb_gt _ _)) by lia.
    destruct (vo_list _ _ _ Ho) as [pv Hd].
    eapply overlaps_walk_ok; [by eapply FUEL_enough|done|apply Ho].
Qed.

Lemma region_add_ok p m l b sz pr kd f : vm_ok p m l -> 0 <= b < 2 ^ 64 -> 0 <= sz < 2 ^ 64 ->
  if refused p l b sz
  then amm_region_add p (Some m) b sz pr kd f = Some (-1, p, Some m)
  else exists l1 l2 p' m', l = l1 ++ l2 /\
    amm_region_add p (Some m) b sz pr kd f = Some (0, p', Some m') /\
    inserted p p' m m' l1 l2 (mkRegion b sz pr kd f None None).
Proof.
  intros Ho Hb Hs. unfold refused, amm_region_add. destruct (Z.eqb_spec sz 0) as [|Hz]; [done|]. cbn [orb].
  rewrite (overlaps_ok p m l) by (done || lia).
  destruct (Z.leb_spec (2 ^ 64) (b + sz)) as [|Hov]; [done|]. cbn [orb].
  destruct (existsb (meets b (b + sz)) (abs p l)) eqn:Em; [done|]. cbn [orb]. change (truthy 0) with false. cbv iota.
  unfold region_alloc. destruct (Nat.leb_spec MAX_REGIONS (g_region_next p)) as [|Hmax]; [done|].
  set (nr := g_region_next p). set (d := mkRegion b sz pr kd f None None).
  set (p0 := set_reg (mkPool _ _) nr d).
  assert (Hreg : forall i, i <> nr -> reg p0 i = reg p i).
  { intros i Hi. unfold p0. rewrite reg_set_ne by done. unfold reg; simpl. by rewrite lookup_insert_ne. }
  assert (Hnr : reg p0 nr = d) by apply reg_set_eq.
  assert (Hni : nr ∉ l).
  { intros Hin. pose proof (vo_pool _ _ _ Ho) as Hf. rewrite Forall_forall in Hf.
    apply list_elem_of_In in Hin. apply Hf in Hin. unfold nr in Hin. lia. }
  assert (Hd : region_ok d) by (unfold region_ok, d; simpl; lia).
  destruct (vo_list _ _ _ Ho) as [pv Hdl]. pose proof (dseg_head _ _ _ _ _ Hdl) as Hhd.
  destruct l as [|h l].
  - assert (Hh : head m = None) by exact Hhd. rewrite Hh.
    exists [], []. do 2 eexists. split; [done|]. split; [done|].
    apply (linked_inserted p _ m _ [] [] d Ho); try done.
    pose proof (insert_front p p0 m [] pv nr d NoDup_nil_2 Hni Hdl Hreg eq_refl
      (f_equal data Hnr) (f_equal prev Hnr)) as HL. cbv zeta in HL. rewrite Hh in HL. exact HL.
  - assert (Hh : head m = Some h) by exact Hhd. rewrite Hh.
    assert (Hhn : h <> nr) by set_solver. rewrite (Hreg h Hhn).
    pose proof (vo_wf _ _ _ Ho) as Hw. cbn [abs map] in Hw. apply wf_cons in Hw as (Hrh & Hbef & Hwl).
    rewrite Forall_map in Hbef.
    destruct (Z.ltb_spec b (base (reg p h))) as [Hlt|Hge].
    + exists [], (h :: l). do 2 eexists. split; [done|]. split; [done|].
      apply (linked_inserted p _ m _ [] (h :: l) d Ho); try done.
      * pose proof (insert_front p p0 m (h :: l) pv nr d (vo_nodup _ _ _ Ho) Hni Hdl Hreg eq_refl
          (f_equal data Hnr) (f_equal prev Hnr)) as HL. cbv zeta in HL. rewrite Hh in HL. exact HL.
      * apply Forall_cons; [simpl; lia|]. eapply Forall_impl; [|exact Hbef]. intros j Hj. unfold before in Hj.
        destruct Hrh as (_ & ? & _). simpl in *. lia.
    + assert (Hne : base (reg p h) < b).
      { cbn [abs map existsb] in Em. apply orb_false_iff in Em as [Em _]. destruct Hrh as (? & ? & ?).
        unfold meets in Em. simpl in *. apply andb_false_iff in Em as [Em|Em]; zbool; lia. }
      assert (Hdl0 : dseg p0 None (Some h) (h :: l) pv None).
      { rewrite <- Hh. eapply dseg_frame; [|exact Hdl]. intros i Hi. apply Hreg. by intros ->. }
      destruct (insert_walk_ok p0 b l FUEL None h pv) as (l1 & cur & l2 & E & -> & Hf & Hm);
        [pose proof (FUEL_enough _ _ _ Ho); simpl in *; lia|done|by rewrite Hreg|].
      assert (Hreg' : forall i, i ∈ h :: l -> reg p0 i = reg p i) by (intros i Hi; apply Hreg; by intros ->).
      exists (l1 ++ [cur]), l2. do 2 eexists. split; [by rewrite <- app_assoc|]. split; [done|].
      rewrite E in *. pose proof (insert_middle p p0 m l1 cur l2 pv nr d (vo_nodup _ _ _ Ho) Hni Hdl Hreg eq_refl
        (f_equal data Hnr)) as HL. cbv zeta in HL.
      apply (linked_inserted p _ m _ (l1 ++ [cur]) l2 d); try done; try (by rewrite <- app_assoc).
      * rewrite Forall_forall in Hf |- *. intros i Hi. rewrite <- Hreg'; [by apply Hf|].
        apply list_elem_of_In in Hi. set_solver.
      * destruct l2 as [|n l2]; [constructor|]. rewrite Hreg' in Hm by set_solver.
        pose proof (vo_wf _ _ _ Ho) as Hw. rewrite abs_app in Hw. apply wf_app in Hw as (_ & Hw & _).
        cbn [abs map] in Hw. apply wf_cons in Hw as (_ & _ & Hw). apply wf_cons in Hw as ((_ & ? & _) & Hb2 & _).
        rewrite Forall_map in Hb2. apply Forall_cons; [done|]. eapply Forall_impl; [|exact Hb2].
        intros j Hj. unfold before in Hj. simpl in *. lia.
Qed.

(** ** Removal *)

Lemma rev_case {X} (l : list X) : l = [] \/ exists l' x, l = l' ++ [x].
Proof. destruct l as [|x l _] using rev_ind; eauto. Qed.

(** The second half of the unlinking: the node after the hole gets its new
    predecessor. *)
Lemma relink_prev p pv h l pv' x : NoDup l -> dseg p pv h l pv' None ->
  let p' := match h with Some n => set_reg p n (set_prev (reg p n) x) | None => p end in
  (exists pv2, dseg p' x h l pv2 None) /\ (forall i, i ∉ l -> reg p' i = reg p i) /\
  (forall i, data (reg p' i) = data (reg p i)) /\ g_region_next p' = g_region_next p.
Proof.
  intros Hnd Hd. destruct l as [|n l].
  - destruct Hd as [_ ->]. split_and!; try done. by exists x.
  - assert (h = Some n) as -> by (by destruct Hd). apply list.NoDup_cons in Hnd as [Hn _]. split_and!; try done.
    + exists pv'. by eapply dseg_set_first.
    + intros i Hi. apply reg_set_ne. set_solver.
    + intros i. rewrite reg_set. by case_decide; subst.
Qed.

Lemma region_unlink_ok p m l1 i l2 pv : NoDup (l1 ++ i :: l2) -> dseg p None (head m) (l1 ++ i :: l2) pv None ->
  let r := reg p i in
  let '(p1, m1) := match prev r with
                   | Some q => (set_reg p q (set_next (reg p q) (next r)), m)
                   | None => (p, set_head m (next r)) end in
  let p2 := match next r with Some n => set_reg p1 n (set_prev (reg p1 n) (prev r)) | None => p1 end in
  (exists pv2, dseg p2 None (head m1) (l1 ++ l2) pv2 None) /\
  (forall j, j ∉ l1 ++ l2 -> reg p2 j = reg p j) /\
  (forall j, data (reg p2 j) = data (reg p j)) /\ g_region_next p2 = g_region_next p /\
  cr3 m1 = cr3 m /\ region_count m1 = region_count m.
Proof.
  intros Hnd Hd r. apply list.NoDup_app in Hnd as (Hnd1 & Hdis & Hnd2). apply list.NoDup_cons in Hnd2 as [Hil2 Hnd2].
  apply dseg_app in Hd as (pv1 & h1 & Hs1 & -> & Hpv & Hs2). fold r in Hpv, Hs2.
  destruct (rev_case l1) as [->|(l1' & q & ->)].
  - destruct Hs1 as [<- Hh]. rewrite Hpv. simpl app.
    destruct (relink_prev p (Some i) (next r) l2 pv None Hnd2 Hs2) as (H1 & H2 & H3 & H4).
    split_and!; done.
  - destruct (dseg_last _ _ _ _ _ _ _ Hs1) as [-> Hq]. rewrite Hpv.
    pose proof Hnd1 as (_ & Hq1 & _)%list.NoDup_app.
    assert (Hql1 : q ∉ l1') by (intros Hin; apply (Hq1 q Hin); by apply list_elem_of_singleton).
    assert (Hqin : q ∈ l1' ++ [q]) by (apply elem_of_app; right; by apply list_elem_of_singleton).
    assert (Hql2 : q ∉ l2) by (intros Hin; apply (Hdis q Hqin); by right).
    set (p1 := set_reg p q _).
    assert (Hs2' : dseg p1 (Some i) (next r) l2 pv None).
    { eapply dseg_frame; [|exact Hs2]. intros j Hj. apply reg_set_ne. by intros ->. }
    destruct (relink_prev p1 (Some i) (next r) l2 pv (Some q) Hnd2 Hs2') as ((pv2 & H1) & H2 & H3 & H4).
    split_and!; try done.
    + exists pv2. apply dseg_app. exists (Some q), (next r). split; [|exact H1].
      eapply dseg_frame; [|apply (dseg_set_last p None (head m) l1' q (Some q) (Some i) (next r) Hql1 Hs1)].
      intros j Hj. apply H2. intros Hin. apply (Hdis j Hj). by right.
    + intros j Hj. rewrite H2 by set_solver. apply reg_set_ne. set_solver.
    + intros j. rewrite H3. unfold p1. rewrite reg_set. by case_decide; subst.
Qed.

Lemma region_remove_ok p m l b : vm_ok p m l ->
  (amm_region_remove p m b = Some (-1, p, m) /\ Forall (fun i => base (reg p i) <> b) l) \/
  (exists l1 i l2 p' m', l = l1 ++ i :: l2 /\ base (reg p i) = b /\
     amm_region_remove p m b = Some (0, p', m') /\ vm_ok p' m' (l1 ++ l2) /\
     abs p' (l1 ++ l2) = abs p (l1 ++ l2) /\ g_region_next p' = g_region_next p /\ cr3 m' = cr3 m /\
     (forall j, j ∉ l1 ++ l2 -> reg p' j = reg p j)).
Proof.
  intros Ho. unfold amm_region_remove. destruct (vo_list _ _ _ Ho) as [pv Hd].
  destruct (remove_walk_ok p b l FUEL None (head m) pv (FUEL_enough _ _ _ Ho) Hd)
    as [[-> Hf]|(l1 & i & l2 & -> & -> & Hb & Hf)]; [by left|right].
  pose proof (vo_nodup _ _ _ Ho) as Hnd. pose proof (region_unlink_ok p m l1 i l2 pv Hnd Hd) as Hu. cbv zeta in Hu.
  destruct (match prev (reg p i) with Some q => _ | None => _ end) as [p1 m1].
  set (p2 := match next (reg p i) with Some n => _ | None => _ end) in *.
  destruct Hu as (U1 & U2 & U3 & U4 & U5 & U6). exists l1, i, l2. do 2 eexists. split; [done|]. split; [done|]. split; [done|].
  assert (Ha : abs p2 (l1 ++ l2) = abs p (l1 ++ l2)) by (by apply abs_ext).
  split_and!; try done. split; simpl; try done.
  - rewrite <- Permutation_middle in Hnd. by apply list.NoDup_cons in Hnd as [_ ?].
  - rewrite U4. pose proof (vo_pool _ _ _ Ho) as Hp. apply Forall_app in Hp as [? Hp].
    apply Forall_app. split; [done|]. by apply Forall_inv_tail in Hp.
  - rewrite U4. apply Ho.
  - rewrite Ha, abs_app. pose proof (vo_wf _ _ _ Ho) as Hw. rewrite abs_app in Hw. apply wf_app in Hw as (W1 & W2 & W3).
    cbn [abs map] in W2. apply wf_cons in W2 as (_ & _ & W2). apply wf_app. split_and!; [done|done|].
    intros r q Hr Hq. apply W3; [done|]. by right.
  - rewrite U6, (vo_count _ _ _ Ho). pose proof (length_pool _ _ _ Ho) as Hl. rewrite !length_app in *. simpl in *.
    assert (Z.of_nat MAX_REGIONS = 16384) by (vm_compute; done). rewrite u32_small; lia.
Qed.

(** ** Properties *)

(** C17: [amm_region_add] on a consistent map terminates; it refuses an empty,
    wrapping or overlapping region, or any region once the pool is used up,
    and changes nothing then; otherwise the new region takes its place in the
    sorted list, the list stays sorted, disjoint and doubly linked, and neither
    the other regions nor the nodes of other maps are changed. *)
Theorem amm_region_add_correct p m l b sz pr kd f : vm_ok p m l -> 0 <= b < 2 ^ 64 -> 0 <= sz < 2 ^ 64 ->
  if (sz =? 0) || (2 ^ 64 <=? b + sz) || existsb (meets b (b + sz)) (abs p l) ||
     (MAX_REGIONS <=? g_region_next p)%nat
  then amm_region_add p (Some m) b sz pr kd f = Some (-1, p, Some m)
  else exists l1 l2 p' m', l = l1 ++ l2 /\
    amm_region_add p (Some m) b sz pr kd f = Some (0, p', Some m') /\
    vm_ok p' m' (l1 ++ g_region_next p :: l2) /\
    abs p' (l1 ++ g_region_next p :: l2) = abs p l1 ++ mkRegion b sz pr kd f None None :: abs p l2 /\
    (forall i, i ∉ l -> i <> g_region_next p -> reg p' i = reg p i).
Proof.
  intros Ho Hb Hs. pose proof (region_add_ok p m l b sz pr kd f Ho Hb Hs) as H. unfold refused in H.
  destruct (_ || _ || _ || _); [done|]. destruct H as (l1 & l2 & p' & m' & -> & E & H1 & H2 & H3 & _).
  exists l1, l2, p', m'. done.
Qed.

(** [amm_region_remove] unlinks the region that starts at the given base,
    if there is one, and [amm_region_find] returns the region that contains an
    address exactly when one does; both walks end.  The removed node is not
    given back to the pool. *)
Theorem amm_region_remove_find_correct p m l : vm_ok p m l ->
  (forall b, (amm_region_remove p m b = Some (-1, p, m) /\ Forall (fun r => base r <> b) (abs p l)) \/
     exists l1 i l2 p' m', l = l1 ++ i :: l2 /\ base (reg p i) = b /\
       amm_region_remove p m b = Some (0, p', m') /\ vm_ok p' m' (l1 ++ l2) /\
       abs p' (l1 ++ l2) = abs p l1 ++ abs p l2 /\ g_region_next p' = g_region_next p) /\
  (forall a, exists r, amm_region_find p m a = Some r /\
     match r with
     | Some i => i ∈ l /\ contains a (reg p i) = true
     | None => Forall (fun r => contains a r = false) (abs p l)
     end).
Proof.
  intros Ho. split.
  - intros b. destruct (region_remove_ok p m l b Ho) as [[E Hf]|(l1 & i & l2 & p' & m' & -> & Hb & E & H1 & H2 & H3 & _)].
    + left. split; [done|]. by apply Forall_map.
    + right. exists l1, i, l2, p', m'. split_and!; try done. by rewrite H2, abs_app.
  - intros a. destruct (vo_list _ _ _ Ho) as [pv Hd].
    destruct (find_walk_ok p a l FUEL None (head m) pv (FUEL_enough _ _ _ Ho) Hd (vo_wf _ _ _ Ho)) as (r & E & Hr).
    exists r. split; [done|]. destruct r as [i|]; [done|]. apply Forall_map, Forall_forall.
    intros i Hi. apply Hr. by apply list_elem_of_In.
Qed.

(** ** A small address space *)

Definition pool0 : pool_t := mkPool ∅ 0.
Definition vmap0 : vmap_t := mkVmap None 0 0.

Lemma vmap0_ok : vm_ok pool0 vmap0 [].
Proof. split; try done; [by exists None|apply NoDup_nil_2|simpl; lia|split; constructor]. Qed.

Lemma amm_region_add_correct_witness :
  exists p' m', amm_region_add pool0 (Some vmap0) 0x400000 0x1000 5 0 (-1) = Some (0, p', Some m') /\
    vm_ok p' m' [0%nat] /\ abs p' [0%nat] = [mkRegion 0x400000 0x1000 5 0 (-1) None None].
Proof.
  pose proof (amm_region_add_correct pool0 vmap0 [] 0x400000 0x1000 5 0 (-1) vmap0_ok ltac:(lia) ltac:(lia)) as H.
  change (_ || _ || _ || _) with false in H. cbv iota in H.
  destruct H as (l1 & l2 & p' & m' & E & Ea & H1 & H2 & _).
  symmetry in E. apply app_nil in E as [-> ->]. exists p', m'. split; [exact Ea|]. split; [exact H1|exact H2].
Defined.

Definition add1 : pool_t * vmap_t :=
  match amm_region_add pool0 (Some vmap0) 0x400000 0x1000 5 0 (-1) with
  | Some (_, p, Some m) => (p, m) | _ => (pool0, vmap0) end.

Lemma add1_ok : vm_ok (fst add1) (snd add1) [0%nat].
Proof.
  pose proof (region_add_ok pool0 vmap0 [] 0x400000 0x1000 5 0 (-1) vmap0_ok ltac:(lia) ltac:(lia)) as H.
  change (refused pool0 [] 0x400000 0x1000) with false in H. destruct H as (l1 & l2 & p' & m' & E & Ea & H1 & _).
  symmetry in E. apply app_nil in E as [-> ->]. unfold add1. rewrite Ea. exact H1.
Qed.

Lemma amm_region_remove_find_correct_witness :
  amm_region_find (fst add1) (snd add1) 0x400123 = Some (Some 0%nat) /\
  exists r, amm_region_find (fst add1) (snd add1) 0x400123 = Some r /\
    match r with Some i => i ∈ [0%nat] | None => False end.
Proof.
  assert (E1 : amm_region_find (fst add1) (snd add1) 0x400123 = Some (Some 0%nat)) by (vm_compute; reflexivity).
  split; [exact E1|].
  destruct (proj2 (amm_region_remove_find_correct (fst add1) (snd add1) [0%nat] add1_ok) 0x400123) as (r & E & Hr).
  exists r. split; [exact E|]. rewrite E1 in E. injection E as <-. exact (proj1 Hr).
Defined.

End Region.
