(* ===== verification/AddrSpace.v ===== *)
(** * kernel/mm/mm.c: address spaces

    Creation and destruction of a [vmap_t], demand paging and eager
    population, over the page tables of PageTable and the regions of Region.
    [user_path] is the part of the tree a vmap owns: the lower half without the
    low kernel window that [amm_vmap_create] shares with the kernel tables. *)

From S2P Require Import Prelude Phys PhysInv PhysInit PageAlloc PageTable Region.
From Stdlib Require Import ZArith Lia.
From stdpp Require Import base list gmap numbers.
Open Scope Z_scope.

Module AddrSpace.
Import PageAlloc PageTable.

Abbreviation vmap_t := Region.vmap_t.
Definition MAX_VMAPS : nat := 64 * 64. (* MAX_PROCS *)

Section Ops.
Context {S : Type} `{PageMem S}.

Record as_state := mkAS {
  pm : S;
  pool : Region.pool_t;
  g_vmap_pool : gmap nat vmap_t;
  g_vmap_next : nat;
  g_kernel_cr3 : Z }.

Definition set_pm (a : as_state) (s : S) : as_state :=
  mkAS s (pool a) (g_vmap_pool a) (g_vmap_next a) (g_kernel_cr3 a).
Definition set_vmap (a : as_state) (i : nat) (m : vmap_t) : as_state :=
  mkAS (pm a) (pool a) (<[i := m]> (g_vmap_pool a)) (g_vmap_next a) (g_kernel_cr3 a).

(** [for (int i = lo; ...; i++) dst[i] = src[i];] for [n] entries. *)
Fixpoint copy_entries (s : S) (dst src i : Z) (n : nat) : S :=
  match n with
  | O => s
  | Datatypes.S n' => copy_entries (set_ent s dst i (ent s src i)) dst src (i + 1) n'
  end.

Definition table_pte (p : Z) : Z := Z.lor (Z.lor (Z.lor p PTE_PRESENT) PTE_WRITE) PTE_USER.

(** The second half of [amm_vmap_create]: the tables of the low window. *)
Definition map_low_kernel (s : S) (kcr3 pml4 pdpt pd0 : Z) : S :=
  let s := zero_page s pdpt in
  let s := zero_page s pd0 in
  let s := set_ent s pml4 0 (table_pte pdpt) in
  let s := set_ent s pdpt 0 (table_pte pd0) in
  if has_flag (ent s kcr3 0) PTE_PRESENT then
    let kpdpt := Z.land (ent s kcr3 0) PTE_ADDR_MASK in
    let s := set_ent s pdpt 1 (ent s kpdpt 1) in
    let s := set_ent s pdpt 2 (ent s kpdpt 2) in
    let s := set_ent s pdpt 3 (ent s kpdpt 3) in
    if has_flag (ent s kpdpt 0) PTE_PRESENT then
      copy_entries s pd0 (Z.land (ent s kpdpt 0) PTE_ADDR_MASK) 32 480
    else s
  else s.

(** The vmap slot, or [None] for NULL; slots are never reused, and on failure
    the pages already allocated are not given back. *)
Definition amm_vmap_create (a : as_state) : option nat * as_state :=
  if (MAX_VMAPS <=? g_vmap_next a)%nat then (None, a)
  else
    let m := g_vmap_next a in
    let a := mkAS (pm a) (pool a) (<[m := Region.mkVmap None 0 0]> (g_vmap_pool a)) (Datatypes.S m) (g_kernel_cr3 a) in
    let '(pml4, s) := palloc (pm a) 0 in
    if pml4 =? 0 then (None, set_pm a s)
    else
      let s := zero_page s pml4 in
      let s := copy_entries s pml4 (g_kernel_cr3 a) 256 256 in
      let '(pdpt, s) := palloc s 0 in
      let '(pd0, s) := palloc s 0 in
      if (pdpt =? 0) || (pd0 =? 0) then (None, set_pm a s)
      else
        let s := map_low_kernel s (g_kernel_cr3 a) pml4 pdpt pd0 in
        (Some m, set_vmap (set_pm a s) m (Region.mkVmap None pml4 0)).

(** ** Destruction *)

(** [for (i = lo; ...; i++) body] for [n] rounds; [None]: a call in the body
    does not return. *)
Fixpoint for_range (f : S -> Z -> option S) (i : Z) (n : nat) (s : S) : option S :=
  match n with
  | O => Some s
  | Datatypes.S n' => match f s i with None => None | Some s => for_range f (i + 1) n' s end
  end.

Definition destroy_pt (s : S) (pt : Z) : option S :=
  match for_range (fun s i => if has_flag (ent s pt i) PTE_PRESENT
                              then pfree s (Z.land (ent s pt i) PTE_ADDR_MASK) 0 else Some s) 0 512 s with
  | None => None
  | Some s => pfree s pt 0
  end.

Definition destroy_pd (s : S) (pd : Z) : option S :=
  match for_range (fun s i =>
          if negb (has_flag (ent s pd i) PTE_PRESENT) then Some s
          else if has_flag (ent s pd i) PTE_PS then Some s
          else destroy_pt s (Z.land (ent s pd i) PTE_ADDR_MASK)) 0 512 s with
  | None => None
  | Some s => pfree s pd 0
  end.

Definition destroy_pdpt (pml4i : Z) (s : S) (pdpt : Z) : option S :=
  match for_range (fun s i =>
          if negb (has_flag (ent s pdpt i) PTE_PRESENT) then Some s
          else if (pml4i =? 0) && (1 <=? i) && (i <=? 3) then Some s
          else destroy_pd s (Z.land (ent s pdpt i) PTE_ADDR_MASK)) 0 512 s with
  | None => None
  | Some s => pfree s pdpt 0
  end.

(** The page-table part of [amm_vmap_destroy]. *)
Definition destroy_tables (s : S) (cr3 : Z) : option S :=
  let pml4 := Z.land cr3 PTE_ADDR_MASK in
  match for_range (fun s i =>
          if negb (has_flag (ent s pml4 i) PTE_PRESENT) then Some s
          else destroy_pdpt i s (Z.land (ent s pml4 i) PTE_ADDR_MASK)) 0 256 s with
  | None => None
  | Some s => pfree s (Z.land cr3 PTE_ADDR_MASK) 0
  end.

Definition amm_vmap_destroy (a : as_state) (map : option nat) : option as_state :=
  match map with
  | None => Some a
  | Some i =>
      let m := default (Region.mkVmap None 0 0) (g_vmap_pool a !! i) in
      if Region.cr3 m =? 0 then Some a
      else match destroy_tables (pm a) (Region.cr3 m) with
           | None => None
           | Some s => Some (set_vmap (set_pm a s) i (Region.mkVmap None 0 0))
           end
  end.

(** ** Demand paging and population *)

(** Result code and state; the outer [None] is a region walk without end. *)
Definition amm_page_fault (p : Region.pool_t) (m : vmap_t) (s : S) (fault_addr : Z) (write : bool) : option (Z * S) :=
  match Region.amm_region_find p m fault_addr with
  | None => None
  | Some None => Some (-1, s)
  | Some (Some i) =>
      let r := Region.reg p i in
      if write && negb (has_flag (Region.prot r) PROT_WRITE) then Some (-1, s)
      else
        let '(pa, s) := palloc s 0 in
        if pa =? 0 then Some (-1, s)
        else
          let s := zero_page s pa in
          Some (0, map_page s (Region.cr3 m) (Z.land fault_addr Phys.PAGE_MASK) pa (Region.prot r))
  end.

(** [n] rounds of the loop of [amm_region_populate]; [false] is "out of
    memory". *)
Fixpoint populate_loop (n : nat) (s : S) (cr3 va prot : Z) : bool * S :=
  match n with
  | O => (true, s)
  | Datatypes.S n' =>
      if truthy (amm_virt_to_kva s cr3 va) then populate_loop n' s cr3 (va + PAGE_SIZE) prot
      else
        let '(pa, s) := palloc s 0 in
        if pa =? 0 then (false, s)
        else
          let s := zero_page s pa in
          populate_loop n' (map_page s cr3 va pa prot) cr3 (va + PAGE_SIZE) prot
  end.

Definition amm_region_populate (s : S) (map : option vmap_t) (b sz prot : Z) : Z * S :=
  match map with
  | None => (0, s)
  | Some m =>
      if sz =? 0 then (0, s)
      else
        let aligned_base := Z.land b Phys.PAGE_MASK in
        let aligned_end := Phys.PAGE_ALIGN (u64 (b + sz)) in
        if aligned_end <=? aligned_base then (0, s)
        else match populate_loop (Z.to_nat ((aligned_end - aligned_base) / PAGE_SIZE)) s (Region.cr3 m) aligned_base prot with
             | (false, s) => (0, s)
             | (true, s) => (amm_virt_to_kva s (Region.cr3 m) b, s)
             end
  end.

End Ops.
Arguments as_state S : clear implicits.

(** ** The part of the tree that belongs to the process *)

Definition in_table (i : Z) : bool := (0 <=? i) && (i <? 512).

(** Lower half; not the 1 GB to 4 GB entries of the first PDPT, nor the entries
    from 64 MB on of the first PD, which are the kernel's. *)
Definition user_path (pi : list Z) : bool :=
  match pi with
  | [] => true
  | i :: rest => (0 <=? i) && (i <? 256) &&
      match rest with
      | [] => true
      | j :: rest => in_table j && negb ((i =? 0) && (1 <=? j) && (j <=? 3)) &&
          match rest with
          | [] => true
          | k :: rest => in_table k && negb ((i =? 0) && (j =? 0) && (32 <=? k)) &&
              match rest with
              | [] => true
              | [l] => in_table l
              | _ => false
              end
          end
      end
  end.

Definition user (pi : list Z) : Prop := user_path pi = true.

Lemma user_len pi : user pi -> (length pi <= 4)%nat.
Proof.
  unfold user. destruct pi as [|a [|b [|c [|d [|e pi]]]]]; simpl; lia.
Qed.

Lemma user_snoc pi i : user (pi ++ [i]) -> user pi /\ 0 <= i < 512.
Proof.
  intros Hu. pose proof (user_len _ Hu) as Hl. rewrite length_app in Hl. simpl in Hl. unfold user in *.
  destruct pi as [|a [|b [|c [|d pi]]]]; simpl in Hu, Hl |- *; [| | | |lia]; unfold in_table in *;
    rewrite ?andb_true_r in *; zbool; rewrite ?andb_true_iff, ?negb_true_iff, ?Z.leb_le, ?Z.ltb_lt;
    (split; [tauto|lia]).
Qed.

Lemma user_domain : domain user.
Proof.
  split; [done|intros pi i Hu; apply user_snoc in Hu; tauto|intros pi i Hu; apply user_snoc in Hu; tauto|apply user_len].
Qed.

(** Addresses whose translation the process owns. *)
Definition user_va (va : Z) : Prop := 0 <= va < 2 ^ 47 /\ ~ (0x4000000 <= va < 0x100000000).

Lemma idx_arith va : 0 <= va ->
  idx va = [(va / 2 ^ 39) mod 512; (va / 2 ^ 30) mod 512; (va / 2 ^ 21) mod 512; (va / 2 ^ 12) mod 512].
Proof.
  intros. unfold idx, PML4_IDX, PDPT_IDX, PD_IDX, PT_IDX.
  rewrite !Z.shiftr_div_pow2 by lia. rewrite !(land_mask_low _ 9) by lia. done.
Qed.

Lemma user_va_path va : user_va va -> user (idx va).
Proof.
  intros [Hr Hw]. rewrite idx_arith by lia. unfold user; simpl. unfold in_table.
  change (2 ^ 47) with 140737488355328 in Hr. change (Z.pow_pos 2 39) with 549755813888.
  change (Z.pow_pos 2 30) with 1073741824. change (Z.pow_pos 2 21) with 2097152. change (Z.pow_pos 2 12) with 4096.
  rewrite !andb_true_iff, !negb_true_iff, !Z.leb_le, !Z.ltb_lt, <- !not_true_iff_false, !andb_true_iff,
    !Z.leb_le, !Z.eqb_eq.
  split_and!; Z.div_mod_to_equations; lia.
Qed.

(** Two user addresses have the same path exactly when they are in the same page. *)
Lemma idx_inj va va' : 0 <= va < 2 ^ 48 -> 0 <= va' < 2 ^ 48 ->
  idx va = idx va' <-> va / PAGE_SIZE = va' / PAGE_SIZE.
Proof.
  intros H1 H2. rewrite !idx_arith by lia. change PAGE_SIZE with (2 ^ 12). split.
  - intros E. injection E as E1 E2 E3 E4. change (2 ^ 48) with 281474976710656 in *.
    change (2 ^ 39) with 549755813888 in *. change (2 ^ 30) with 1073741824 in *.
    change (2 ^ 21) with 2097152 in *. change (2 ^ 12) with 4096 in *. Z.div_mod_to_equations. lia.
  - intros E. assert (Hd : forall v n, 12 <= n -> v / 2 ^ n = v / 2 ^ 12 / 2 ^ (n - 12)).
    { intros v n Hn. rewrite Z.div_div by (try apply Z.pow_pos_nonneg; lia). rewrite <- Z.pow_add_r by lia. do 2 f_equal. lia. }
    rewrite !(Hd _ 39), !(Hd _ 30), !(Hd _ 21), E by lia. done.
Qed.

(** ** Mapping pages *)

Section Proofs.
Context {S : Type} `{HM : PageMem S} `{HO : !PageMemOk S}.
Implicit Types (s : S) (A : list blk).

(** States that agree on the held pages have the same tree. *)
Lemma walk_agree D s s' r A : domain D -> owns D s r A ->
  (forall q j, (q, 0%nat) ∈ A -> 0 <= j < 512 -> ent s' q j = ent s q j) ->
  forall rho, D rho -> walk s' r rho = walk s r rho.
Proof.
  intros HD Ho He rho. induction rho as [|j rho IH] using rev_ind; intros Hr; [done|].
  pose proof (d_prefix _ HD _ _ Hr). rewrite !walk_app, IH by done. destruct (walk s r rho) as [q|] eqn:Eq; [|done].
  cbn [walk]. unfold child. rewrite He; [done|by eapply ow_held|by eapply d_idx].
Qed.

Lemma owns_agree D s s' r A A' : domain D -> owns D s r A -> A ⊆ A' ->
  (forall q j, (q, 0%nat) ∈ A -> 0 <= j < 512 -> ent s' q j = ent s q j) -> owns D s' r A'.
Proof.
  intros HD Ho Hs He. pose proof (walk_agree D s s' r A HD Ho He) as Hw. split.
  - intros pi p Hpi E. rewrite Hw in E by done. apply Hs. by eapply ow_held.
  - intros pi rho p Hpi Hrho E1 E2. rewrite Hw in E1, E2 by done. by apply (ow_inj _ _ _ _ Ho pi rho p).
  - intros pi t i Hpi Hl E Hi Hp. rewrite Hw in E by done.
    assert (HtA : (t, 0%nat) ∈ A) by (by apply (ow_held _ _ _ _ Ho pi)).
    rewrite He in Hp |- * by done. by apply (ow_pd _ _ _ _ Ho).
Qed.

(** A new zeroed page. *)
Lemma new_page_ok s A p s1 : held s A -> palloc s 0 = (p, s1) -> p <> 0 ->
  let s2 := zero_page s1 p in
  held s2 ((p, 0%nat) :: A) /\ dmap s2 = dmap s /\ ((p, 0%nat) ∉ A) /\
  (forall j, 0 <= j < 512 -> ent s2 p j = 0) /\
  (forall q j, (q, 0%nat) ∈ A -> 0 <= j < 512 -> ent s2 q j = ent s q j) /\
  (forall b w, b ∈ A -> word_of (dmap s) b w -> ld s2 w = ld s w).
Proof.
  intros Hh E Hp s2. destruct (palloc_ok s A 0 p s1 Hh E) as (Hd & [[? _]|(_ & Hh1 & Hf)]); [done|].
  assert (Hin : (p, 0%nat) ∈ (p, 0%nat) :: A) by set_solver.
  destruct (zero_page_ok s1 _ p Hh1 Hin) as (H1 & H2 & H3 & H4).
  assert (Hn : (p, 0%nat) ∉ A) by (by apply (held_nodup _ _), list.NoDup_cons in Hh1 as [? _]).
  assert (Hfr : forall b w, b ∈ A -> word_of (dmap s) b w -> ld s2 w = ld s w).
  { intros b w Hb Hw. unfold s2. rewrite (H4 b); [by apply (Hf b)|set_solver|congruence|by rewrite Hd]. }
  split_and!; try done; [unfold s2; congruence|].
  intros q j Hq Hj. apply (ent_frame s _ A q); [done|done|unfold s2; congruence| |done]. intros w Hw. by apply (Hfr (q, 0%nat)).
Qed.

Lemma root_mask s r A : held s A -> owns user s r A -> Z.land r PTE_ADDR_MASK = r.
Proof.
  intros Hh Ho. assert (Hr : (r, 0%nat) ∈ A) by (by apply (ow_held _ _ _ _ Ho [])).
  destruct (held_page s A r Hh Hr) as (H1 & H2 & _). apply mask_page; [lia|done].
Qed.

Lemma lor_offset pa va : (PAGE_SIZE | pa) -> Z.lor pa (Z.land va (PAGE_SIZE - 1)) = pa + va mod PAGE_SIZE.
Proof.
  intros [q ->]. change (PAGE_SIZE - 1) with (2 ^ 12 - 1). rewrite land_mask_low by lia. change PAGE_SIZE with (2 ^ 12).
  symmetry. apply Z.add_nocarry_lor. apply Z.bits_inj'. intros n Hn. rewrite Z.land_spec, Z.bits_0.
  destruct (Z_lt_le_dec n 12); [by rewrite Z.mul_pow2_bits_low|by rewrite Z.mod_pow2_bits_high, andb_false_r].
Qed.

(** A translation by [amm_virt_to_kva] in terms of the tree. *)
Lemma kva_walk s A r va : held s A -> owns user s r A -> user_va va ->
  amm_virt_to_kva s r va =
  match walk s r (idx va) with Some pa => dmap s + pa + va mod PAGE_SIZE | None => 0 end.
Proof.
  intros Hh Ho Hv. rewrite virt_to_kva_walk, (root_mask s r A) by done.
  destruct (walk s r (idx va)) as [pa|] eqn:E; [|done].
  assert (Hpa : (pa, 0%nat) ∈ A) by (apply (ow_held _ _ _ _ Ho (idx va)); [by apply user_va_path|done]).
  destruct (held_page s A pa Hh Hpa) as (H1 & H2 & H3 & H4). rewrite lor_offset by done.
  unfold p2v. pose proof (Z.mod_pos_bound va PAGE_SIZE ltac:(done)). rewrite u64_small by lia. lia.
Qed.

(** Present translations are not null. *)
Lemma kva_present s A r va : held s A -> owns user s r A -> user_va va ->
  truthy (amm_virt_to_kva s r va) = bool_decide (is_Some (walk s r (idx va))).
Proof.
  intros Hh Ho Hv. rewrite (kva_walk s A) by done.
  destruct (walk s r (idx va)) as [pa|] eqn:E.
  - rewrite bool_decide_eq_true_2 by eauto.
    assert (Hpa : (pa, 0%nat) ∈ A) by (apply (ow_held _ _ _ _ Ho (idx va)); [by apply user_va_path|done]).
    destruct (held_page s A pa Hh Hpa) as (H1 & H2 & H3 & H4).
    pose proof (Z.mod_pos_bound va PAGE_SIZE ltac:(done)). unfold truthy. rewrite (proj2 (Z.eqb_neq _ _)) by lia. done.
  - rewrite bool_decide_eq_false_2; [done|]. intros [? ?]. done.
Qed.

(** [map_page] of a held page nothing maps yet, at a process address: the
    page tables stay a tree of distinct held pages, and afterwards
    [amm_virt_to_kva] translates exactly the addresses of that virtual page to
    the given physical page, every other process address as before; or, when
    the allocator has no page left for a table, no translation changes. *)
Theorem map_page_correct s A r va pa prot : held s A -> owns user s r A -> user_va va ->
  (pa, 0%nat) ∈ A -> (forall rho, user rho -> walk s r rho <> Some pa) ->
  let s' := map_page s r va pa prot in
  exists A', A ⊆ A' /\ held s' A' /\ owns user s' r A' /\
    ((forall va', user_va va' -> amm_virt_to_kva s' r va' =
        if va' / PAGE_SIZE =? va / PAGE_SIZE then dmap s + pa + va' mod PAGE_SIZE
        else amm_virt_to_kva s r va') \/
     (fst (palloc s' 0) = 0 /\ forall va', user_va va' -> amm_virt_to_kva s' r va' = amm_virt_to_kva s r va')).
Proof.
  intros Hh Ho Hv Hpa Hf s'. pose proof (root_mask s r A Hh Ho) as Hr.
  pose proof (map_page_ok user s r A va pa prot user_domain Hh) as Hm. rewrite Hr in Hm.
  destruct (Hm Ho (user_va_path va Hv) Hpa Hf) as (Hd & A' & Hs & Hh' & Ho' & _ & _ & Hcase).
  fold s' in Hd, Hh', Ho', Hcase. exists A'. split_and!; try done.
  destruct Hcase as [Hw|[Hoom Hw]]; [left|right; split; [done|]]; intros va' Hv';
    rewrite (kva_walk s' A'), Hw by (done || by apply user_va_path); rewrite Hd.
  - destruct (Z.eqb_spec (va' / PAGE_SIZE) (va / PAGE_SIZE)) as [E|E].
    + rewrite decide_True; [done|]. apply idx_inj; [destruct Hv'; lia|destruct Hv; lia|done].
    + rewrite decide_False; [by rewrite (kva_walk s A)|]. intros Ei. apply E.
      apply idx_inj in Ei; [done|destruct Hv'; lia|destruct Hv; lia].
  - by rewrite (kva_walk s A).
Qed.

(** ** Isolation *)

(** Work on the tree at [r] that concerns nobody else: of the blocks [A] it
    takes none into the tree, and it writes only to those in the tree. *)
Definition keeps_others (r : Z) s A s' : Prop :=
  (forall rho t, user rho -> walk s' r rho = Some t -> (t, 0%nat) ∈ A -> walk s r rho = Some t) /\
  (forall b w, b ∈ A -> (forall rho t, user rho -> walk s r rho = Some t -> b <> (t, 0%nat)) ->
     word_of (dmap s) b w -> ld s' w = ld s w).

Lemma keeps_refl r s A : keeps_others r s A s.
Proof. by split. Qed.

Lemma keeps_trans r s A s1 A1 s2 : A ⊆ A1 -> dmap s1 = dmap s ->
  keeps_others r s A s1 -> keeps_others r s1 A1 s2 -> keeps_others r s A s2.
Proof.
  intros HA Hd [a1 a2] [b1 b2]. split.
  - intros rho t Hr E Ht. apply a1; [done| |done]. apply b1; auto.
  - intros b w Hb Hn Hw. rewrite (b2 b); [by apply (a2 b)|by apply HA| |by rewrite Hd].
    intros rho t Hr E ->. by apply (Hn rho t Hr (a1 rho t Hr E Hb)).
Qed.

(** ** A fresh zeroed page mapped at [va] *)

Lemma map_new_page s A r va prot p s1 : held s A -> owns user s r A -> user_va va ->
  palloc s 0 = (p, s1) -> p <> 0 ->
  let s3 := map_page (zero_page s1 p) r va p prot in
  dmap s3 = dmap s /\ keeps_others r s A s3 /\ exists A', A ⊆ A' /\ held s3 A' /\ owns user s3 r A' /\
    (forall rho q, user rho -> length rho = 4%nat -> rho <> idx va -> walk s r rho = Some q ->
       forall j, 0 <= j < 512 -> ent s3 q j = ent s q j) /\
    (((forall rho, user rho -> length rho = 4%nat ->
         walk s3 r rho = if decide (rho = idx va) then Some p else walk s r rho) /\
      forall j, 0 <= j < 512 -> ent s3 p j = 0) \/
     (fst (palloc s3 0) = 0 /\ forall rho, user rho -> length rho = 4%nat -> walk s3 r rho = walk s r rho)).
Proof.
  intros Hh Ho Hv E Hp s3. destruct (new_page_ok s A p s1 Hh E Hp) as (Hh2 & Hd2 & Hn & Hz & He & Hf2).
  set (s2 := zero_page s1 p) in *. pose proof user_domain as HD.
  assert (Hsub : A ⊆ (p, 0%nat) :: A) by set_solver.
  pose proof (owns_agree user s s2 r A _ HD Ho Hsub He) as Ho2.
  pose proof (walk_agree user s s2 r A HD Ho He) as Hw2.
  assert (Hf : forall rho, user rho -> walk s2 r rho <> Some p).
  { intros rho Hr Ew. rewrite Hw2 in Ew by done. apply Hn. by eapply ow_held. }
  pose proof (root_mask s2 r _ Hh2 Ho2) as Hrm. pose proof (map_page_ok user s2 r _ va p prot HD Hh2) as Hm.
  rewrite Hrm in Hm. destruct (Hm Ho2 (user_va_path va Hv) ltac:(set_solver) Hf) as (Hd & A' & Hs & Hh' & Ho' & Hbk & Hfr & Hcase).
  fold s3 in Hd, Hh', Ho', Hbk, Hfr, Hcase.
  (* words of a page mapped at a leaf *)
  assert (Hleaf : forall rho q, user rho -> length rho = 4%nat -> walk s3 r rho = Some q -> (q, 0%nat) ∈ (p, 0%nat) :: A ->
    forall j, 0 <= j < 512 -> ent s3 q j = ent s2 q j).
  { intros rho q Hr Hl Eq Hq. apply (ent_frame s2 s3 _ q Hh2 Hq Hd). intros w Hw. apply (Hfr (q, 0%nat)); [done| |done].
    intros rho' t Hr' Hl' Et Eb. assert (q = t) as -> by congruence.
    assert (rho = rho') as -> by (by apply (ow_inj _ _ _ _ Ho' rho rho' t)). lia. }
  assert (Hback : forall rho t, user rho -> walk s3 r rho = Some t -> (t, 0%nat) ∈ A -> walk s r rho = Some t).
  { intros rho t Hr Et HtA. rewrite <- Hw2 by done. apply Hbk; [done|done|set_solver|]. intros ->. done. }
  split; [congruence|]. split.
  { split; [done|]. intros b w Hb Hnb Hw. rewrite (Hfr b); [by apply (Hf2 b)|set_solver| |by rewrite Hd2].
    intros rho t Hr _ Et ->. by apply (Hnb rho t Hr (Hback rho t Hr Et Hb)). }
  exists A'. split_and!; [set_solver|done|done| |].
  - intros rho q Hr Hl Hne Eq j Hj. assert (HqA : (q, 0%nat) ∈ A) by (by apply (ow_held _ _ _ _ Ho rho)).
    rewrite (Hleaf rho); [by apply He|done|done| |set_solver|done].
    destruct Hcase as [Hw|[_ Hw]]; rewrite Hw by done; [rewrite decide_False by done|]; by rewrite Hw2.
  - destruct Hcase as [Hw|[Hoom Hw]]; [left|right].
    + split.
      * intros rho Hr Hl. rewrite Hw by done. case_decide; [done|by apply Hw2].
      * intros j Hj. rewrite (Hleaf (idx va)); [by apply Hz|by apply user_va_path|done| |set_solver|done].
        rewrite Hw by (done || by apply user_va_path). by rewrite decide_True.
    + split; [done|]. intros rho Hr Hl. rewrite Hw by done. by apply Hw2.
Qed.

Lemma page_fault_ok p m l s A addr wr : Region.vm_ok p m l -> held s A ->
  owns user s (Region.cr3 m) A -> 0 <= addr -> user_va (addr - addr mod PAGE_SIZE) ->
  let r := Region.cr3 m in
  exists rc s', amm_page_fault p m s addr wr = Some (rc, s') /\
    ((rc = -1 /\ s' = s /\
      (Forall (fun q => Region.contains addr q = false) (Region.abs p l) \/
       (wr = true /\ exists i, i ∈ l /\ Region.contains addr (Region.reg p i) = true /\
          has_flag (Region.prot (Region.reg p i)) PROT_WRITE = false) \/
       fst (palloc s 0) = 0)) \/
     (rc = 0 /\ (exists i, i ∈ l /\ Region.contains addr (Region.reg p i) = true) /\
      dmap s' = dmap s /\ keeps_others r s A s' /\ exists A', A ⊆ A' /\ held s' A' /\ owns user s' r A' /\
      (forall rho q, user rho -> length rho = 4%nat -> rho <> idx (addr - addr mod PAGE_SIZE) ->
         walk s r rho = Some q -> forall j, 0 <= j < 512 -> ent s' q j = ent s q j) /\
      ((exists pa, (forall rho, user rho -> length rho = 4%nat ->
          walk s' r rho = if decide (rho = idx (addr - addr mod PAGE_SIZE)) then Some pa else walk s r rho) /\
         forall j, 0 <= j < 512 -> ent s' pa j = 0) \/
       (fst (palloc s' 0) = 0 /\ forall rho, user rho -> length rho = 4%nat -> walk s' r rho = walk s r rho)))).
Proof.
  intros Hvm Hh Ho Ha Hv r. unfold amm_page_fault, Region.amm_region_find.
  destruct (Region.vo_list _ _ _ Hvm) as [pv Hd].
  destruct (Region.find_walk_ok p addr l Region.FUEL None (Region.head m) pv (Region.FUEL_enough _ _ _ Hvm) Hd (Region.vo_wf _ _ _ Hvm))
    as (res & -> & Hres). destruct res as [i|].
  2: { exists (-1), s. split; [done|]. left. split_and!; try done. left. apply Forall_map, Forall_forall.
       intros i Hi. apply Hres. by apply list_elem_of_In. }
  destruct Hres as [Hi Hc]. destruct (wr && negb (has_flag (Region.prot (Region.reg p i)) PROT_WRITE)) eqn:Ew.
  { apply andb_true_iff in Ew as [-> Ew]. apply negb_true_iff in Ew. do 2 eexists. split; [done|]. left.
    split_and!; try done. right. left. split; [done|]. by exists i. }
  destruct (palloc s 0) as [pa s1] eqn:Ep. destruct (Z.eqb_spec pa 0) as [->|Hpa].
  { destruct (palloc_ok s A 0 0 s1 Hh Ep) as (_ & [[_ ->]|[? _]]); [|done]. do 2 eexists. split; [done|]. left. auto. }
  assert (Hmask : Z.land addr Phys.PAGE_MASK = addr - addr mod PAGE_SIZE).
  { apply PhysInit.land_page_mask. destruct Hv. pose proof (Z.mod_pos_bound addr PAGE_SIZE ltac:(done)).
    change PAGE_SIZE with 4096 in *. lia. }
  rewrite Hmask. destruct (map_new_page s A r _ (Region.prot (Region.reg p i)) pa s1 Hh Ho Hv Ep Hpa) as (Hdm & Hko & A' & H1 & H2 & H3 & H4 & H5).
  do 2 eexists. split; [done|]. right. split; [done|]. split; [by exists i|]. split; [done|]. split; [done|]. exists A'. split_and!; try done.
  destruct H5 as [[H5 H6]|H5]; [left; exists pa; done|by right].
Qed.

(** [amm_page_fault] on a consistent address space.  An address outside
    every region, or a write to a read-only region, is refused without any
    effect.  Otherwise the faulting page is backed by a fresh page of zeros and
    every other page keeps its translation and its contents; when the
    allocator runs dry either -1 is returned, or, if only the page tables could
    not be extended, 0 is returned although nothing has been mapped. *)
Theorem amm_page_fault_correct p m l s A addr wr : Region.vm_ok p m l -> held s A ->
  owns user s (Region.cr3 m) A -> 0 <= addr -> user_va (addr - addr mod PAGE_SIZE) ->
  let r := Region.cr3 m in
  exists rc s', amm_page_fault p m s addr wr = Some (rc, s') /\
    ((rc = -1 /\ s' = s /\
      (Forall (fun q => Region.contains addr q = false) (Region.abs p l) \/
       (wr = true /\ exists i, i ∈ l /\ Region.contains addr (Region.reg p i) = true /\
          has_flag (Region.prot (Region.reg p i)) PROT_WRITE = false) \/
       fst (palloc s 0) = 0)) \/
     (rc = 0 /\ (exists i, i ∈ l /\ Region.contains addr (Region.reg p i) = true) /\
      exists A', A ⊆ A' /\ held s' A' /\ owns user s' r A' /\
      (forall rho q, user rho -> length rho = 4%nat -> rho <> idx (addr - addr mod PAGE_SIZE) ->
         walk s r rho = Some q -> forall j, 0 <= j < 512 -> ent s' q j = ent s q j) /\
      ((exists pa, (forall rho, user rho -> length rho = 4%nat ->
          walk s' r rho = if decide (rho = idx (addr - addr mod PAGE_SIZE)) then Some pa else walk s r rho) /\
         forall j, 0 <= j < 512 -> ent s' pa j = 0) \/
       (fst (palloc s' 0) = 0 /\ forall rho, user rho -> length rho = 4%nat -> walk s' r rho = walk s r rho)))).
Proof.
  intros Hvm Hh Ho Ha Hv r. destruct (page_fault_ok p m l s A addr wr Hvm Hh Ho Ha Hv) as (rc & s' & E & Hc).
  exists rc, s'. split; [done|]. destruct Hc as [Hc|(H1 & H2 & _ & _ & H3)]; [by left|right; done].
Qed.

(** ** Population *)

(** What [populate_loop] guarantees on the [n] pages from [va] on. *)
Definition populated (n : nat) s A (r va : Z) (ok : bool) s' : Prop :=
  dmap s' = dmap s /\ keeps_others r s A s' /\ exists A', A ⊆ A' /\ held s' A' /\ owns user s' r A' /\
    (forall rho q, user rho -> length rho = 4%nat -> walk s r rho = Some q ->
       walk s' r rho = Some q /\ forall j, 0 <= j < 512 -> ent s' q j = ent s q j) /\
    (forall rho, user rho -> length rho = 4%nat ->
       (forall k, 0 <= k < Z.of_nat n -> rho <> idx (va + k * PAGE_SIZE)) -> walk s' r rho = walk s r rho) /\
    (forall rho q, user rho -> length rho = 4%nat -> walk s r rho = None -> walk s' r rho = Some q ->
       forall j, 0 <= j < 512 -> ent s' q j = 0) /\
    (if ok then (forall k, 0 <= k < Z.of_nat n -> is_Some (walk s' r (idx (va + k * PAGE_SIZE)))) \/ fst (palloc s' 0) = 0
     else fst (palloc s' 0) = 0).

Lemma populated_stop n s A r va : held s A -> owns user s r A -> fst (palloc s 0) = 0 -> populated n s A r va false s.
Proof. intros. split; [done|]. split; [apply keeps_refl|]. exists A. split_and!; try done. intros. congruence. Qed.

(** One page already mapped, then the rest. *)
Lemma populated_skip n s A r va ok s' : is_Some (walk s r (idx va)) -> user_va va ->
  populated n s A r (va + PAGE_SIZE) ok s' -> populated (Datatypes.S n) s A r va ok s'.
Proof.
  intros [q Hq] Hv (Hd & Hko & A' & H1 & H2 & H3 & H4 & H5 & H6 & H7). split; [done|]. split; [done|]. exists A'. split_and!; try done.
  - intros rho Hr Hl Hk. apply H5; [done|done|]. intros k Hk'. specialize (Hk (k + 1) ltac:(lia)).
    by replace (va + (k + 1) * PAGE_SIZE) with (va + PAGE_SIZE + k * PAGE_SIZE) in Hk by lia.
  - destruct ok; [|done]. destruct H7 as [H7|H7]; [left|by right]. intros k Hk.
    destruct (decide (k = 0)) as [->|].
    + replace (va + 0 * PAGE_SIZE) with va by lia. exists q.
      by apply (H4 (idx va) q (user_va_path va Hv) eq_refl Hq).
    + replace (va + k * PAGE_SIZE) with (va + PAGE_SIZE + (k - 1) * PAGE_SIZE) by lia. apply H7. lia.
Qed.

(** One page mapped now, then the rest. *)
Lemma populated_step n s A r va prot p s1 ok s' A1 :
  held s A -> owns user s r A -> user_va va -> walk s r (idx va) = None ->
  let s3 := map_page (zero_page s1 p) r va p prot in
  dmap s3 = dmap s -> keeps_others r s A s3 -> A ⊆ A1 ->
  (forall rho q, user rho -> length rho = 4%nat -> rho <> idx va -> walk s r rho = Some q ->
     forall j, 0 <= j < 512 -> ent s3 q j = ent s q j) ->
  (((forall rho, user rho -> length rho = 4%nat ->
       walk s3 r rho = if decide (rho = idx va) then Some p else walk s r rho) /\
    forall j, 0 <= j < 512 -> ent s3 p j = 0) \/
   (fst (palloc s3 0) = 0 /\ forall rho, user rho -> length rho = 4%nat -> walk s3 r rho = walk s r rho)) ->
  populated n s3 A1 r (va + PAGE_SIZE) ok s' ->
  (fst (palloc s3 0) = 0 -> fst (palloc s' 0) = 0) ->
  populated (Datatypes.S n) s A r va ok s'.
Proof.
  intros Hh Ho Hv Hnone s3 Hd3 Hk3 Hs1 Hkeep Hcase (Hd & Hko & A' & H1 & H2 & H3 & H4 & H5 & H6 & H7) Hdry.
  pose proof (user_va_path va Hv) as Hu.
  assert (Hw3 : forall rho q, user rho -> length rho = 4%nat -> walk s r rho = Some q -> walk s3 r rho = Some q).
  { intros rho q Hr Hl E. destruct Hcase as [[Hw _]|[_ Hw]]; rewrite Hw by done; [|done].
    rewrite decide_False; [done|]. intros ->. congruence. }
  split; [congruence|]. split; [by eapply keeps_trans|]. exists A'. split_and!; [set_solver|done|done| | | |].
  - intros rho q Hr Hl E. destruct (H4 rho q Hr Hl (Hw3 _ _ Hr Hl E)) as [E' Hj]. split; [done|].
    intros j Hj'. rewrite Hj by done. apply (Hkeep rho); [done|done| |done|done]. intros ->. congruence.
  - intros rho Hr Hl Hk. assert (Hne : rho <> idx va).
    { specialize (Hk 0 ltac:(lia)). by replace (va + 0 * PAGE_SIZE) with va in Hk by lia. }
    rewrite H5; [|done|done|].
    + destruct Hcase as [[Hw _]|[_ Hw]]; rewrite Hw by done; [by rewrite decide_False|done].
    + intros k Hk'. specialize (Hk (k + 1) ltac:(lia)).
      by replace (va + (k + 1) * PAGE_SIZE) with (va + PAGE_SIZE + k * PAGE_SIZE) in Hk by lia.
  - intros rho q Hr Hl E0 E1 j Hj. destruct (walk s3 r rho) as [q3|] eqn:E3; [|by apply (H6 rho)].
    destruct (H4 rho q3 Hr Hl E3) as [E4 He]. assert (q3 = q) as -> by congruence. rewrite He by done.
    destruct Hcase as [[Hw Hz]|[_ Hw]]; rewrite Hw in E3 by done; [|congruence].
    case_decide; [|congruence]. injection E3 as <-. by apply Hz.
  - destruct ok; [|done]. destruct H7 as [H7|H7]; [|by right].
    destruct Hcase as [[Hw _]|[Hoom _]]; [left|right; auto]. intros k Hk. destruct (decide (k = 0)) as [->|].
    + replace (va + 0 * PAGE_SIZE) with va by lia. exists p.
      apply (H4 (idx va) p Hu eq_refl). rewrite Hw by done. by rewrite decide_True.
    + replace (va + k * PAGE_SIZE) with (va + PAGE_SIZE + (k - 1) * PAGE_SIZE) by lia. apply H7. lia.
Qed.

Lemma populate_dry n : forall s A r va prot, held s A -> fst (palloc s 0) = 0 ->
  snd (populate_loop n s r va prot) = s.
Proof.
  induction n as [|n IH]; intros s A r va prot Hh Hdry; cbn [populate_loop]; [done|].
  destruct (truthy _); [by eapply IH|]. destruct (palloc s 0) as [p s1] eqn:Ep. simpl in Hdry. subst p.
  destruct (palloc_ok s A 0 0 s1 Hh Ep) as (_ & [[_ ->]|[? _]]); done.
Qed.

Lemma populate_loop_ok n : forall s A r va prot, held s A -> owns user s r A ->
  (forall k, 0 <= k < Z.of_nat n -> user_va (va + k * PAGE_SIZE)) ->
  populated n s A r va (fst (populate_loop n s r va prot)) (snd (populate_loop n s r va prot)).
Proof.
  induction n as [|n IH]; intros s A r va prot Hh Ho Hv; cbn [populate_loop].
  { cbn [fst snd]. split; [done|]. split; [apply keeps_refl|]. exists A. split_and!; [done|done|done|done|done|intros; congruence|left; intros; lia]. }
  assert (Hva : user_va va) by (replace va with (va + 0 * PAGE_SIZE) by lia; apply Hv; lia).
  assert (Hvn : forall k, 0 <= k < Z.of_nat n -> user_va (va + PAGE_SIZE + k * PAGE_SIZE)).
  { intros k Hk. replace (va + PAGE_SIZE + k * PAGE_SIZE) with (va + (k + 1) * PAGE_SIZE) by lia. apply Hv. lia. }
  rewrite (kva_present s A) by done. case_bool_decide as Hsome.
  - apply populated_skip; [done|done|]. by apply IH.
  - destruct (palloc s 0) as [p s1] eqn:Ep. destruct (Z.eqb_spec p 0) as [->|Hp].
    + destruct (palloc_ok s A 0 0 s1 Hh Ep) as (_ & [[_ ->]|[? _]]); [|done]. apply populated_stop; [done|done|exact (f_equal fst Ep)].
    + destruct (map_new_page s A r va prot p s1 Hh Ho Hva Ep Hp) as (Hd3 & Hk3 & A1 & H1 & H2 & H3 & H4 & H5).
      eapply (populated_step n s A r va prot p s1); try done.
      * destruct (walk s r (idx va)); [exfalso; apply Hsome; eauto|done].
      * by apply IH.
      * intros Hdry. by rewrite (populate_dry n _ A1).
Qed.

Lemma region_populate_ok s A m b sz prot : held s A -> owns user s (Region.cr3 m) A ->
  0 <= b -> 0 < sz -> b + sz <= 2 ^ 47 ->
  (forall x, b - b mod PAGE_SIZE <= x < b + sz -> user_va x) ->
  let r := Region.cr3 m in
  let '(k, s') := amm_region_populate s (Some m) b sz prot in
  dmap s' = dmap s /\ keeps_others r s A s' /\ (exists A', A ⊆ A' /\ held s' A' /\ owns user s' r A') /\
  (forall rho q, user rho -> length rho = 4%nat -> walk s r rho = Some q ->
     walk s' r rho = Some q /\ forall j, 0 <= j < 512 -> ent s' q j = ent s q j) /\
  (forall rho q, user rho -> length rho = 4%nat -> walk s r rho = None -> walk s' r rho = Some q ->
     (exists x, b <= x < b + sz /\ rho = idx x) /\ forall j, 0 <= j < 512 -> ent s' q j = 0) /\
  ((forall x, b <= x < b + sz -> is_Some (walk s' r (idx x))) /\ k = amm_virt_to_kva s' r b /\ k <> 0 \/
   fst (palloc s' 0) = 0).
Proof.
  intros Hh Ho Hb Hs Hlim Hva r. unfold amm_region_populate.
  rewrite (proj2 (Z.eqb_neq _ _)) by lia. set (lo := Z.land b Phys.PAGE_MASK). set (hi := Phys.PAGE_ALIGN (u64 (b + sz))).
  assert (Elo : lo = b - b mod PAGE_SIZE) by (apply PhysInit.land_page_mask; lia).
  assert (Ehi : hi = b + sz + PAGE_SIZE - 1 - (b + sz + PAGE_SIZE - 1) mod PAGE_SIZE).
  { unfold hi, Phys.PAGE_ALIGN. rewrite (u64_small (b + sz)) by lia. change Phys.PAGE_SIZE with 4096.
    rewrite u64_small by lia. apply PhysInit.land_page_mask. lia. }
  change PAGE_SIZE with 4096 in *.
  rewrite (proj2 (Z.leb_gt _ _)) by (rewrite Elo, Ehi; Z.div_mod_to_equations; lia).
  set (n := Z.to_nat ((hi - lo) / 4096)).
  assert (Hn : lo + Z.of_nat n * 4096 = hi) by (unfold n; rewrite Elo, Ehi; Z.div_mod_to_equations; lia).
  assert (Hpage : forall k, 0 <= k < Z.of_nat n -> user_va (lo + k * 4096)).
  { intros k Hk. apply Hva. rewrite <- Elo. split; [lia|]. rewrite Ehi in Hn. Z.div_mod_to_equations. lia. }
  assert (Hcover : forall x, b <= x < b + sz -> exists k, 0 <= k < Z.of_nat n /\ idx x = idx (lo + k * 4096)).
  { intros x Hx. exists ((x - lo) / 4096). assert (0 <= (x - lo) / 4096 < Z.of_nat n) by (rewrite Ehi in Hn; Z.div_mod_to_equations; lia).
    split; [done|]. apply idx_inj; [lia| |].
    - specialize (Hpage _ H). destruct Hpage. lia.
    - change PAGE_SIZE with 4096. rewrite Elo. Z.div_mod_to_equations. lia. }
  pose proof (populate_loop_ok n s A r lo prot Hh Ho Hpage) as Hp. fold r.
  destruct (populate_loop n s r lo prot) as [ok s']; cbn [fst snd] in Hp.
  destruct Hp as (Hd & Hko & A' & H1 & H2 & H3 & H4 & H5 & H6 & H7).
  assert (Hnew : forall rho q, user rho -> length rho = 4%nat -> walk s r rho = None -> walk s' r rho = Some q ->
    exists x, b <= x < b + sz /\ rho = idx x).
  { intros rho q Hr Hl E0 E1. destruct (decide (Exists (fun k => rho = idx (lo + k * 4096)) (seqZ 0 (Z.of_nat n)))) as [He|He].
    - apply list.Exists_exists in He as (k & Hk & ->). apply elem_of_seqZ in Hk. exists (Z.max b (lo + k * 4096)).
      split; [rewrite Ehi in Hn; Z.div_mod_to_equations; lia|]. destruct (Hpage k ltac:(lia)).
      apply idx_inj; change PAGE_SIZE with 4096; [lia|lia|rewrite Elo; Z.div_mod_to_equations; lia].
    - exfalso. rewrite H5 in E1; [congruence|done|done|]. intros k Hk Ek. apply He, list.Exists_exists.
      exists k. split; [apply elem_of_seqZ; lia|done]. }
  assert (Hrest : dmap s' = dmap s /\ keeps_others r s A s' /\ (exists A', A ⊆ A' /\ held s' A' /\ owns user s' r A') /\
    (forall rho q, user rho -> length rho = 4%nat -> walk s r rho = Some q ->
       walk s' r rho = Some q /\ forall j, 0 <= j < 512 -> ent s' q j = ent s q j) /\
    (forall rho q, user rho -> length rho = 4%nat -> walk s r rho = None -> walk s' r rho = Some q ->
       (exists x, b <= x < b + sz /\ rho = idx x) /\ forall j, 0 <= j < 512 -> ent s' q j = 0)).
  { split_and!; [done|apply Hko|by exists A'|done|]. intros rho q Hr Hl E0 E1. split; [by apply (Hnew rho q)|by apply (H6 rho)]. }
  destruct Hrest as (R1 & R0 & R2 & R3 & R4).
  destruct ok; split_and!; try done; [|by right].
  destruct H7 as [H7|H7]; [left|by right].
  assert (Hall : forall x, b <= x < b + sz -> is_Some (walk s' r (idx x))).
  { intros x Hx. destruct (Hcover x Hx) as (k & Hk & ->). by apply H7. }
  split_and!; [done|done|]. assert (Hvb : user_va b) by (apply Hva; Z.div_mod_to_equations; lia).
  pose proof (kva_present s' A' r b H2 H3 Hvb) as Hkp. rewrite bool_decide_eq_true_2 in Hkp by (apply Hall; lia).
  intros E. rewrite E in Hkp. done.
Qed.

(** C16: [amm_region_populate] on a range of process addresses.  Pages already
    backed keep their frame and contents, pages outside the range are not
    touched, nor is any block outside the tables and pages of the process;
    pages newly backed read as zeros; the call returns the kernel
    address of [base] with the whole range backed, unless the page allocator is
    exhausted. *)
Theorem amm_region_populate_correct s A m b sz prot : held s A -> owns user s (Region.cr3 m) A ->
  0 <= b -> 0 < sz -> b + sz <= 2 ^ 47 ->
  (forall x, b - b mod PAGE_SIZE <= x < b + sz -> user_va x) ->
  let r := Region.cr3 m in
  let '(k, s') := amm_region_populate s (Some m) b sz prot in
  dmap s' = dmap s /\ keeps_others r s A s' /\ (exists A', A ⊆ A' /\ held s' A' /\ owns user s' r A') /\
  (forall rho q, user rho -> length rho = 4%nat -> walk s r rho = Some q ->
     walk s' r rho = Some q /\ forall j, 0 <= j < 512 -> ent s' q j = ent s q j) /\
  (forall rho q, user rho -> length rho = 4%nat -> walk s r rho = None -> walk s' r rho = Some q ->
     (exists x, b <= x < b + sz /\ rho = idx x) /\ forall j, 0 <= j < 512 -> ent s' q j = 0) /\
  ((forall x, b <= x < b + sz -> is_Some (walk s' r (idx x))) /\ k = amm_virt_to_kva s' r b /\ k <> 0 \/
   fst (palloc s' 0) = 0).
Proof. apply region_populate_ok. Qed.

End Proofs.
End AddrSpace.
