(* ===== verification/AddrLife.v ===== *)
(** * kernel/mm/mm.c: the life of an address space

    [amm_vmap_create] builds an empty process tree that shares the kernel's
    mappings, and [amm_vmap_destroy] gives back every page of the tree exactly
    once. *)

From S2P Require Import Prelude Phys PhysInv PhysInit PageAlloc PageTable Region AddrSpace.
From Stdlib Require Import ZArith Lia.
From stdpp Require Import base list gmap numbers.
Open Scope Z_scope.

Module AddrLife.
Import PageAlloc PageTable AddrSpace.

Section Create.
Context {S : Type} `{HM : PageMem S} `{HO : !PageMemOk S}.
Implicit Types (s : S) (A W : list blk).

(** [s'] extends [s]: the blocks [A] are still held, only words of [W] were
    written among them, and no foreign word. *)
Record ext W s A s' A' : Prop := {
  ex_dmap : dmap s' = dmap s;
  ex_held : held s' A';
  ex_sub : A ⊆ A';
  ex_frame : forall b w, b ∈ A -> b ∉ W -> word_of (dmap s) b w -> ld s' w = ld s w;
  ex_foreign : forall w, foreign s A w -> foreign s' A' w /\ ld s' w = ld s w }.

Lemma ext_trans W s A s1 A1 s2 A2 : ext W s A s1 A1 -> ext W s1 A1 s2 A2 -> ext W s A s2 A2.
Proof.
  intros [a1 a2 a3 a4 a5] [b1 b2 b3 b4 b5]. split; [congruence|done|set_solver| |].
  - intros b w Hb Hn Hw. rewrite (b4 b); [by apply (a4 b)|by apply a3|done|by rewrite a1].
  - intros w Hw. destruct (a5 w Hw) as [f1 e1]. destruct (b5 w f1) as [f2 e2]. split; [done|congruence].
Qed.

Lemma ext_refl W s A : held s A -> ext W s A s A.
Proof. by split. Qed.

Lemma ext_palloc W s A p s' : held s A -> palloc s 0 = (p, s') -> p <> 0 -> ext W s A s' ((p, 0%nat) :: A).
Proof.
  intros Hh E Hp. destruct (palloc_ok s A 0 p s' Hh E) as (Hd & [[? _]|(_ & Hh' & Hf)]); [done|].
  split; [done|done|set_solver| |]; [intros; by eapply Hf|]. intros w Hw. by eapply foreign_palloc.
Qed.

Lemma ext_set_ent W s A p i e : held s A -> (p, 0%nat) ∈ A -> (p, 0%nat) ∈ W -> 0 <= i < 512 ->
  ext W s A (set_ent s p i e) A.
Proof.
  intros Hh Hp HW Hi. pose proof (word_ent s A p i Hh Hp Hi) as Hw0.
  split; [apply dmap_st|by apply set_ent_held|done| |].
  - intros b w Hb Hn Hw. unfold set_ent. rewrite ld_st, decide_False; [done|]. intros ->. apply Hn.
    assert (b = (p, 0%nat)) as ->; [|done]. by apply (held_disj s A _ _ _ Hh Hb Hp Hw).
  - intros w Hw. split; [by eapply foreign_st|]. unfold set_ent. rewrite ld_st, decide_False; [done|].
    intros ->. by apply (foreign_held s A _ _ Hh Hw Hp).
Qed.

Lemma ext_zero_words W b n : forall s A a, held s A -> b ∈ A -> b ∈ W ->
  (forall k, 0 <= k < Z.of_nat n -> word_of (dmap s) b (a + 8 * k)) -> ext W s A (zero_words s a n) A.
Proof.
  induction n as [|n IH]; intros s A a Hh Hb HW Hw; cbn [zero_words]; [by apply ext_refl|].
  assert (H0 : word_of (dmap s) b a) by (replace a with (a + 8 * 0) by lia; apply Hw; lia).
  apply (ext_trans W s A (st s a 0) A).
  - split; [apply dmap_st|by eapply held_st|done| |].
    + intros c w Hc Hn Hcw. rewrite ld_st, decide_False; [done|]. intros ->. apply Hn.
      assert (c = b) as ->; [|done]. by apply (held_disj s A _ _ _ Hh Hc Hb Hcw).
    + intros w Hf. split; [by eapply foreign_st|]. rewrite ld_st, decide_False; [done|].
      intros ->. by apply (foreign_held s A _ _ Hh Hf Hb).
  - apply IH; [by eapply held_st|done|done|]. intros k Hk. rewrite dmap_st.
    replace (a + 8 + 8 * k) with (a + 8 * (k + 1)) by lia. apply Hw. lia.
Qed.

Lemma ext_zero_page W s A p : held s A -> (p, 0%nat) ∈ A -> (p, 0%nat) ∈ W -> ext W s A (zero_page s p) A.
Proof.
  intros Hh Hp HW. apply (ext_zero_words W (p, 0%nat)); [done|done|done|].
  intros k Hk. apply (word_ent s A p k Hh Hp). lia.
Qed.

(** Entries of held tables outside [W], and of foreign tables, are kept. *)
Lemma ext_ent W s A s' A' q j : ext W s A s' A' -> held s A -> (q, 0%nat) ∈ A -> (q, 0%nat) ∉ W ->
  0 <= j < 512 -> ent s' q j = ent s q j.
Proof.
  intros Hx Hh Hq Hn Hj. apply (ent_frame s s' A q Hh Hq (ex_dmap _ _ _ _ _ Hx)); [|done].
  intros w Hw. by apply (ex_frame _ _ _ _ _ Hx (q, 0%nat)).
Qed.

Definition foreign_table s A (t : Z) : Prop := forall j, 0 <= j < 512 -> foreign s A (ent_addr s t j).

Lemma ext_foreign_ent W s A s' A' t j : ext W s A s' A' -> foreign_table s A t -> 0 <= j < 512 ->
  foreign_table s' A' t /\ ent s' t j = ent s t j.
Proof.
  intros Hx Hf Hj. assert (Ea : forall i, ent_addr s' t i = ent_addr s t i)
    by (intros i; unfold ent_addr, p2v; by rewrite (ex_dmap _ _ _ _ _ Hx)).
  split.
  - intros i Hi. rewrite Ea. by apply (ex_foreign _ _ _ _ _ Hx), Hf.
  - unfold ent. rewrite Ea. by apply (ex_foreign _ _ _ _ _ Hx), Hf.
Qed.

(** Copying entries from a foreign table into a held one. *)
Lemma copy_entries_ok W dst src n : forall s A i, held s A -> (dst, 0%nat) ∈ A -> (dst, 0%nat) ∈ W ->
  foreign_table s A src -> 0 <= i -> i + Z.of_nat n <= 512 ->
  let s' := copy_entries s dst src i n in
  ext W s A s' A /\
  (forall j, 0 <= j < 512 -> ent s' dst j = if decide (i <= j < i + Z.of_nat n) then ent s src j else ent s dst j).
Proof.
  induction n as [|n IH]; intros s A i Hh Hd HW Hs Hi Hn; cbn [copy_entries].
  { split; [by apply ext_refl|]. intros j Hj. rewrite decide_False by lia. done. }
  set (s1 := set_ent s dst i (ent s src i)).
  assert (X1 : ext W s A s1 A) by (apply ext_set_ent; (done || lia)).
  assert (Hs1 : foreign_table s1 A src) by (apply (ext_foreign_ent W s A s1 A src 0 X1 Hs); lia).
  destruct (IH s1 A (i + 1)) as [X2 He]; try done; try lia; [apply X1|].
  split; [by eapply ext_trans|]. intros j Hj. rewrite He by done.
  pose proof (ent_set s A dst i (ent s src i) dst j Hh Hd Hd ltac:(lia) Hj) as Hset. fold s1 in Hset.
  destruct (decide (i + 1 <= j < i + 1 + Z.of_nat n)).
  - rewrite decide_True by lia. by apply (ext_foreign_ent W s A s1 A).
  - rewrite Hset. destruct (decide (j = i)) as [->|].
    + rewrite decide_True, decide_True by lia. done.
    + rewrite decide_False, decide_False by lia. done.
Qed.

(** The kernel's low tables: outside the allocator's memory, and with large
    pages only from 64 MB on. *)
Definition kernel_low s A (kcr3 : Z) : Prop :=
  foreign_table s A kcr3 /\
  (has_flag (ent s kcr3 0) PTE_PRESENT = true ->
   let kpdpt := Z.land (ent s kcr3 0) PTE_ADDR_MASK in
   foreign_table s A kpdpt /\
   (has_flag (ent s kpdpt 0) PTE_PRESENT = true ->
    let kpd := Z.land (ent s kpdpt 0) PTE_ADDR_MASK in
    foreign_table s A kpd /\
    forall k, 32 <= k < 512 -> has_flag (ent s kpd k) PTE_PRESENT = true -> has_flag (ent s kpd k) PTE_PS = true)).

Lemma kernel_low_ext W s A s' A' kcr3 : ext W s A s' A' -> kernel_low s A kcr3 -> kernel_low s' A' kcr3.
Proof.
  intros Hx [H1 H2]. unfold kernel_low. assert (E0 := fun t Ht => ext_foreign_ent W s A s' A' t 0 Hx Ht ltac:(lia)).
  destruct (E0 kcr3 H1) as [F1 ->]. split; [done|]. intros Hp. destruct (H2 Hp) as [H3 H4].
  destruct (E0 _ H3) as [F3 ->]. split; [done|]. intros Hp'. destruct (H4 Hp') as [H5 H6].
  split; [by apply E0|]. intros k Hk. destruct (ext_foreign_ent W s A s' A' _ k Hx H5 ltac:(lia)) as [_ ->]. by apply H6.
Qed.

(** The entries of the three tables of a new address space. *)
Record fresh_tables s (pml4 pdpt pd0 : Z) : Prop := {
  ft_0 : ent s pml4 0 = table_pte pdpt;
  ft_pml4 : forall j, 0 < j < 256 -> ent s pml4 j = 0;
  ft_00 : ent s pdpt 0 = table_pte pd0;
  ft_pdpt : forall j, 4 <= j < 512 -> ent s pdpt j = 0;
  ft_pd : forall j, 0 <= j < 32 -> ent s pd0 j = 0;
  ft_ps : forall j, 32 <= j < 512 -> has_flag (ent s pd0 j) PTE_PRESENT = true -> has_flag (ent s pd0 j) PTE_PS = true }.

(** The first four stores of [map_low_kernel]. *)
Lemma low_stores W s A kcr3 pml4 pdpt pd0 :
  held s A -> (pml4, 0%nat) ∈ A -> (pdpt, 0%nat) ∈ A -> (pd0, 0%nat) ∈ A ->
  pml4 <> pdpt -> pml4 <> pd0 -> pdpt <> pd0 ->
  (pml4, 0%nat) ∈ W -> (pdpt, 0%nat) ∈ W -> (pd0, 0%nat) ∈ W ->
  kernel_low s A kcr3 -> (forall j, 0 < j < 256 -> ent s pml4 j = 0) ->
  let s' := set_ent (set_ent (zero_page (zero_page s pdpt) pd0) pml4 0 (table_pte pdpt)) pdpt 0 (table_pte pd0) in
  ext W s A s' A /\ (forall j, 0 <= j < 512 -> ent s' pml4 j = if decide (j = 0) then table_pte pdpt else ent s pml4 j) /\
  (forall j, 0 <= j < 512 -> ent s' pdpt j = if decide (j = 0) then table_pte pd0 else 0) /\
  (forall j, 0 <= j < 512 -> ent s' pd0 j = 0).
Proof.
  intros Hh P1 P2 P3 N1 N2 N3 W1 W2 W3 Hk Hz s'.
  destruct (zero_page_ok s A pdpt Hh P2) as (h1 & d1 & z1 & f1). set (s1 := zero_page s pdpt) in *.
  destruct (zero_page_ok s1 A pd0 h1 P3) as (h2 & d2 & z2 & f2). set (s2 := zero_page s1 pd0) in *.
  set (s3 := set_ent s2 pml4 0 (table_pte pdpt)). assert (h3 : held s3 A) by (apply set_ent_held; (done || lia)).
  assert (He : forall q j, (q, 0%nat) ∈ A -> 0 <= j < 512 ->
    ent s' q j = if decide (q = pdpt /\ j = 0) then table_pte pd0
                 else if decide (q = pml4 /\ j = 0) then table_pte pdpt else ent s2 q j).
  { intros q j Hq Hj. unfold s'. rewrite (ent_set s3 A) by (done || lia). case_decide; [done|].
    unfold s3. by rewrite (ent_set s2 A) by (done || lia). }
  assert (E2 : forall q j, (q, 0%nat) ∈ A -> 0 <= j < 512 -> q <> pd0 -> ent s2 q j = ent s1 q j).
  { intros q j Hq Hj Hne. apply (ent_frame s1 s2 A q h1 Hq d2); [|done]. intros w Hw.
    apply (f2 (q, 0%nat)); [done|congruence|done]. }
  assert (E1 : forall q j, (q, 0%nat) ∈ A -> 0 <= j < 512 -> q <> pdpt -> ent s1 q j = ent s q j).
  { intros q j Hq Hj Hne. apply (ent_frame s s1 A q Hh Hq d1); [|done]. intros w Hw.
    apply (f1 (q, 0%nat)); [done|congruence|done]. }
  split_and!.
  - eapply ext_trans; [by apply (ext_zero_page W s A pdpt)|]. fold s1.
    eapply ext_trans; [by apply (ext_zero_page W s1 A pd0)|]. fold s2.
    eapply ext_trans; [apply (ext_set_ent W s2 A pml4 0 (table_pte pdpt)); (done || lia)|].
    apply ext_set_ent; (done || lia).
  - intros j Hj. rewrite He by done. rewrite decide_False by tauto. destruct (decide (j = 0)) as [->|].
    + by rewrite decide_True.
    + rewrite decide_False by tauto. by rewrite E2, E1.
  - intros j Hj. rewrite He by done. destruct (decide (j = 0)) as [->|]; [by rewrite decide_True|].
    rewrite !decide_False by (intros [? ?]; congruence). by rewrite E2, z1.
  - intros j Hj. rewrite He, !decide_False, z2 by (done || (intros [? ?]; congruence)). done.
Qed.

(** Storing the kernel's entries 1 to 3 into the new PDPT. *)
Lemma pdpt_stores W s A pdpt e1 (f2 f3 : S -> Z) : held s A -> (pdpt, 0%nat) ∈ A -> (pdpt, 0%nat) ∈ W ->
  let s1 := set_ent s pdpt 1 e1 in
  let s2 := set_ent s1 pdpt 2 (f2 s1) in
  let s3 := set_ent s2 pdpt 3 (f3 s2) in
  ext W s A s3 A /\
  (forall q j, (q, 0%nat) ∈ A -> 0 <= j < 512 -> q <> pdpt \/ j = 0 \/ 4 <= j -> ent s3 q j = ent s q j).
Proof.
  intros Hh Hp HW s1 s2 s3.
  assert (X1 : ext W s A s1 A) by (apply ext_set_ent; (done || lia)).
  assert (X2 : ext W s1 A s2 A) by (apply ext_set_ent; (apply X1 || done || lia)).
  assert (X3 : ext W s2 A s3 A) by (apply ext_set_ent; (apply X2 || done || lia)).
  split; [eapply ext_trans; [done|]; by eapply ext_trans|]. intros q j Hq Hj Hne.
  assert (Hn : forall i, 1 <= i <= 3 -> ~ (q = pdpt /\ j = i)) by (intros; lia).
  unfold s3. rewrite (ent_set s2 A), decide_False by (apply X2 || done || lia || (apply Hn; lia)).
  unfold s2. rewrite (ent_set s1 A), decide_False by (apply X1 || done || lia || (apply Hn; lia)).
  unfold s1. by rewrite (ent_set s A), decide_False by (done || lia || (apply Hn; lia)).
Qed.

Lemma map_low_kernel_ok W s A kcr3 pml4 pdpt pd0 :
  held s A -> (pml4, 0%nat) ∈ A -> (pdpt, 0%nat) ∈ A -> (pd0, 0%nat) ∈ A ->
  pml4 <> pdpt -> pml4 <> pd0 -> pdpt <> pd0 ->
  (pml4, 0%nat) ∈ W -> (pdpt, 0%nat) ∈ W -> (pd0, 0%nat) ∈ W ->
  kernel_low s A kcr3 -> (forall j, 0 < j < 256 -> ent s pml4 j = 0) ->
  let s' := map_low_kernel s kcr3 pml4 pdpt pd0 in
  ext W s A s' A /\ fresh_tables s' pml4 pdpt pd0 /\ (forall j, 0 < j < 512 -> ent s' pml4 j = ent s pml4 j).
Proof.
  intros Hh P1 P2 P3 N1 N2 N3 W1 W2 W3 Hk Hz. unfold map_low_kernel.
  destruct (low_stores W s A kcr3 pml4 pdpt pd0 Hh P1 P2 P3 N1 N2 N3 W1 W2 W3 Hk Hz) as (X4 & Q1 & Q2 & Q3).
  set (s4 := set_ent (set_ent _ pml4 0 _) pdpt 0 _) in *. cbv zeta.
  pose proof (ex_held _ _ _ _ _ X4) as h4. pose proof (kernel_low_ext _ _ _ _ _ _ X4 Hk) as K4.
  pose proof K4 as [Kf Kp].
  assert (Hbase : fresh_tables s4 pml4 pdpt pd0).
  { split; [by rewrite Q1 by lia| |by rewrite Q2 by lia| | |].
    - intros j Hj. rewrite Q1, decide_False by lia. by apply Hz.
    - intros j Hj. by rewrite Q2, decide_False by lia.
    - intros j Hj. by rewrite Q3 by lia.
    - intros j Hj Hp. rewrite Q3 in Hp by lia. done. }
  assert (Hp4 : forall j, 0 < j < 512 -> ent s4 pml4 j = ent s pml4 j) by (intros; by rewrite Q1, decide_False by lia).
  destruct (has_flag (ent s4 kcr3 0) PTE_PRESENT) eqn:Hpr; [|done].
  destruct (Kp eq_refl) as [Kf2 Kp2]. set (kpdpt := Z.land (ent s4 kcr3 0) PTE_ADDR_MASK) in *.
  destruct (pdpt_stores W s4 A pdpt (ent s4 kpdpt 1) (fun s => ent s kpdpt 2) (fun s => ent s kpdpt 3) h4 P2 W2) as [X7 Q7].
  set (s7 := set_ent (set_ent (set_ent s4 pdpt 1 _) pdpt 2 _) pdpt 3 _) in *.
  assert (Hpd7 : forall j, 0 <= j < 512 -> ent s7 pd0 j = 0) by (intros; rewrite Q7, Q3 by (done || lia); done).
  assert (Hb7 : fresh_tables s7 pml4 pdpt pd0).
  { destruct Hbase as [t1 t2 t3 t4 t5 t6].
    split; [by rewrite Q7 by (done || lia)| |by rewrite Q7 by (done || lia)| | |].
    - intros j Hj. rewrite Q7 by (done || lia). by apply t2.
    - intros j Hj. rewrite Q7 by (done || lia). by apply t4.
    - intros j Hj. by rewrite Hpd7 by lia.
    - intros j Hj Hp. rewrite Hpd7 in Hp by lia. done. }
  assert (Hp7 : forall j, 0 < j < 512 -> ent s7 pml4 j = ent s pml4 j) by (intros; rewrite Q7, Hp4 by (done || lia); done).
  assert (X17 : ext W s A s7 A) by (by eapply ext_trans).
  pose proof (kernel_low_ext _ _ _ _ _ _ X7 K4) as [Kf' Kp'].
  assert (Ek : ent s7 kcr3 0 = ent s4 kcr3 0) by (apply (ext_foreign_ent W s4 A s7 A); (done || lia)).
  rewrite Ek in Kp'. destruct (Kp' Hpr) as [Kf7 Kp7]. fold kpdpt in Kf7, Kp7.
  destruct (has_flag (ent s7 kpdpt 0) PTE_PRESENT) eqn:Hpr2; [|done].
  destruct (Kp7 eq_refl) as [Kf8 Kps]. set (kpd := Z.land (ent s7 kpdpt 0) PTE_ADDR_MASK) in *.
  destruct (copy_entries_ok W pd0 kpd 480 s7 A 32 (ex_held _ _ _ _ _ X17) P3 W3 Kf8 ltac:(lia) ltac:(lia)) as [X8 Q8].
  set (s8 := copy_entries s7 pd0 kpd 32 480) in *.
  assert (Hx : forall q j, (q, 0%nat) ∈ A -> 0 <= j < 512 -> q <> pd0 -> ent s8 q j = ent s7 q j).
  { intros q j Hq Hj Hne. destruct (copy_entries_ok [(pd0, 0%nat)] pd0 kpd 480 s7 A 32 (ex_held _ _ _ _ _ X17) P3
      (proj2 (list_elem_of_singleton _ _) eq_refl) Kf8 ltac:(lia) ltac:(lia)) as [X9 _].
    apply (ext_ent _ _ _ _ _ q j X9 (ex_held _ _ _ _ _ X17) Hq); [|done]. intros Hin%list_elem_of_singleton. congruence. }
  split; [by eapply ext_trans|]. split.
  - destruct Hb7 as [t1 t2 t3 t4 t5 t6]. split; [by rewrite Hx by (done || lia)| |by rewrite Hx by (done || lia)| | |].
    + intros j Hj. rewrite Hx by (done || lia). by apply t2.
    + intros j Hj. rewrite Hx by (done || lia). by apply t4.
    + intros j Hj. rewrite Q8, decide_False by lia. by apply t5.
    + intros j Hj. rewrite Q8, decide_True by lia. by apply Kps.
  - intros j Hj. rewrite Hx by (done || lia). by apply Hp7.
Qed.

(** Three fresh tables make an empty process tree. *)
Lemma fresh_tables_owns s A pml4 pdpt pd0 : held s A -> fresh_tables s pml4 pdpt pd0 ->
  (pml4, 0%nat) ∈ A -> (pdpt, 0%nat) ∈ A -> (pd0, 0%nat) ∈ A ->
  pml4 <> pdpt -> pml4 <> pd0 -> pdpt <> pd0 ->
  owns user s pml4 A /\ forall rho, user rho -> length rho = 4%nat -> walk s pml4 rho = None.
Proof.
  intros Hh [t1 t2 t3 t4 t5 t6] P1 P2 P3 N1 N2 N3.
  assert (Hent : forall p, (p, 0%nat) ∈ A -> pte_child (table_pte p) = Some p).
  { intros p Hp. destruct (held_page s A p Hh Hp) as (H1 & H2 & _). apply table_entry_child; [lia|done]. }
  assert (C1 : child s pml4 0 = Some pdpt) by (unfold child; rewrite t1; by apply Hent).
  assert (C2 : child s pdpt 0 = Some pd0) by (unfold child; rewrite t3; by apply Hent).
  assert (Z1 : forall j, 0 < j < 256 -> child s pml4 j = None) by (intros j Hj; unfold child; by rewrite t2).
  assert (Z2 : forall j, 4 <= j < 512 -> child s pdpt j = None) by (intros j Hj; unfold child; by rewrite t4).
  assert (Z3 : forall j, 0 <= j < 32 -> child s pd0 j = None) by (intros j Hj; unfold child; by rewrite t5).
  assert (Hsh : forall rho p, user rho -> walk s pml4 rho = Some p ->
    (rho = [] /\ p = pml4) \/ (rho = [0] /\ p = pdpt) \/ (rho = [0; 0] /\ p = pd0)).
  { intros rho p Hu E. unfold user in Hu. destruct rho as [|i rho]; [simpl in E; left; by simplify_eq|].
    simpl in Hu. cbn [walk] in E. destruct (decide (i = 0)) as [->|Hi].
    2: { apply andb_true_iff in Hu as [Hu _]. zbool. rewrite Z1 in E by lia. done. }
    rewrite C1 in E. destruct rho as [|j rho]; [simpl in E; right; left; by simplify_eq|].
    cbn [walk] in E. simpl in Hu. apply andb_true_iff in Hu as [Hj Hu].
    destruct (decide (j = 0)) as [->|Hj0].
    2: { unfold in_table in Hj. apply andb_true_iff in Hj as [Hj1 Hj2]. zbool. simpl in Hj2.
         rewrite Z2 in E; [done|]. apply andb_false_iff in Hj2 as [?|?]; zbool; lia. }
    rewrite C2 in E. destruct rho as [|k rho]; [simpl in E; right; right; by simplify_eq|].
    cbn [walk] in E. apply andb_true_iff in Hu as [Hk _]. unfold in_table in Hk. simpl in Hk. zbool.
    rewrite Z3 in E by lia. done. }
  split.
  - split.
    + intros rho p Hu E. destruct (Hsh rho p Hu E) as [[_ ->]|[[_ ->]|[_ ->]]]; done.
    + intros r1 r2 p U1 U2 E1 E2. destruct (Hsh r1 p U1 E1) as [[-> ->]|[[-> ->]|[-> ->]]],
        (Hsh r2 _ U2 E2) as [[-> ?]|[[-> ?]|[-> ?]]]; congruence.
    + intros rho t i Hu Hl E Hi Hp. destruct (Hsh rho t Hu E) as [[-> _]|[[-> _]|[-> ->]]]; [done|done|].
      destruct (decide (i < 32)); [rewrite t5 in Hp by lia; done|]. rewrite t6 by (done || lia).
      split; [done|]. unfold user; simpl. rewrite (proj2 (Z.leb_le 32 i)) by lia. by rewrite andb_false_r.
  - intros rho Hu Hl. destruct (walk s pml4 rho) as [p|] eqn:E; [|done].
    destruct (Hsh rho p Hu E) as [[-> _]|[[-> _]|[-> _]]]; done.
Qed.

Lemma vmap_create_ok (a : as_state S) A : held (pm a) A -> kernel_low (pm a) A (g_kernel_cr3 a) ->
  let '(res, a') := amm_vmap_create a in
  match res with
  | None => (MAX_VMAPS <= g_vmap_next a)%nat /\ a' = a \/
      fst (palloc (pm a') 0) = 0 /\ exists A', A ⊆ A' /\ held (pm a') A'
  | Some m => m = g_vmap_next a /\ g_vmap_next a' = Datatypes.S m /\ exists A' r, A ⊆ A' /\ held (pm a') A' /\
      g_vmap_pool a' !! m = Some (Region.mkVmap None r 0) /\ owns user (pm a') r A' /\
      (forall rho, user rho -> length rho = 4%nat -> walk (pm a') r rho = None) /\
      (forall i, 256 <= i < 512 -> ent (pm a') r i = ent (pm a) (g_kernel_cr3 a) i) /\
      (forall b w, b ∈ A -> word_of (dmap (pm a)) b w -> ld (pm a') w = ld (pm a) w)
  end.
Proof.
  intros Hh Hk. unfold amm_vmap_create. destruct (Nat.leb_spec MAX_VMAPS (g_vmap_next a)) as [|Hmx]; [by left|].
  cbn [pm g_kernel_cr3 set_pm]. set (k := g_kernel_cr3 a) in *. set (s0 := pm a) in *.
  destruct (palloc s0 0) as [r s1] eqn:E1. destruct (Z.eqb_spec r 0) as [->|Hr].
  { destruct (palloc_ok s0 A 0 0 s1 Hh E1) as (_ & [[_ ->]|[? _]]); [|done]. right. split; [exact (f_equal fst E1)|by exists A]. }
  set (A1 := (r, 0%nat) :: A).
  assert (X1 : ext [] s0 A s1 A1) by (by apply ext_palloc).
  assert (rA1 : (r, 0%nat) ∈ A1) by (apply elem_of_cons; by left).
  destruct (zero_page_ok s1 A1 r (ex_held _ _ _ _ _ X1) rA1) as (h2 & _ & z2 & _).
  assert (X2 : ext [(r, 0%nat)] s1 A1 (zero_page s1 r) A1)
    by (apply ext_zero_page; [apply X1|done|apply list_elem_of_singleton; done]).
  set (s2 := zero_page s1 r) in *. clearbody s2.
  pose proof (kernel_low_ext _ _ _ _ _ _ X2 (kernel_low_ext _ _ _ _ _ _ X1 Hk)) as K2.
  destruct (copy_entries_ok [(r, 0%nat)] r k 256 s2 A1 256 h2 rA1 (proj2 (list_elem_of_singleton _ _) eq_refl)
    (proj1 K2) ltac:(lia) ltac:(lia)) as [X3 Q3].
  set (s3 := copy_entries s2 r k 256 256) in *. pose proof (ex_held _ _ _ _ _ X3) as h3. clearbody s3.
  destruct (palloc s3 0) as [p s4] eqn:E4. destruct (palloc s4 0) as [d s5] eqn:E5.
  assert (SA1 : A ⊆ A1) by (intros x Hx; apply elem_of_cons; by right).
  destruct (Z.eqb_spec p 0) as [->|Hp].
  { right. destruct (palloc_ok s3 A1 0 0 s4 h3 E4) as (_ & [[_ E3]|[? _]]); [|done]. subst s4.
    assert (s5 = s3) as -> by (rewrite E4 in E5; injection E5; done).
    split; [exact (f_equal fst E4)|]. by exists A1. }
  assert (X4 : ext [] s3 A1 s4 ((p, 0%nat) :: A1)) by (by apply ext_palloc).
  set (A4 := (p, 0%nat) :: A1) in *. assert (SA4 : A ⊆ A4) by (intros x Hx; apply elem_of_cons; right; by apply SA1).
  destruct (Z.eqb_spec d 0) as [->|Hd].
  { right. destruct (palloc_ok s4 _ 0 0 s5 (ex_held _ _ _ _ _ X4) E5) as (_ & [[_ E4']|[? _]]); [|done]. subst s5.
    split; [exact (f_equal fst E5)|]. exists A4. split; [done|apply X4]. }
  cbn [orb]. set (A5 := (d, 0%nat) :: A4).
  assert (X5 : ext [] s4 A4 s5 A5) by (apply ext_palloc; [apply X4|done|done]).
  clear E1 E4 E5. assert (X35 : ext [] s3 A1 s5 A5) by (by eapply ext_trans).
  pose proof (ex_held _ _ _ _ _ X5) as h5. pose proof (held_nodup _ _ h5) as Hnd.
  unfold A5, A4, A1 in Hnd. rewrite !list.NoDup_cons, !not_elem_of_cons in Hnd.
  destruct Hnd as ((Ndp & Ndr & NdA) & (Npr & NpA) & Nr & _).
  set (W := [(r, 0%nat); (p, 0%nat); (d, 0%nat)]).
  assert (r5 : (r, 0%nat) ∈ A5) by (do 2 right; left).
  assert (p5 : (p, 0%nat) ∈ A5) by (right; left).
  assert (d5 : (d, 0%nat) ∈ A5) by left.
  assert (K3 : kernel_low s3 A1 k) by (by eapply kernel_low_ext).
  assert (Er : forall j, 0 <= j < 512 -> ent s5 r j = ent s3 r j)
    by (intros j Hj; apply (ext_ent _ _ _ _ _ r j X35); [done|done|apply not_elem_of_nil|done]).
  destruct (map_low_kernel_ok W s5 A5 k r p d h5 r5 p5 d5) as (X6 & F6 & Q6); try congruence;
    [left|right; left|do 2 right; left|by eapply kernel_low_ext| |].
  { intros j Hj. rewrite Er, Q3, decide_False, z2 by lia. done. }
  set (s6 := map_low_kernel s5 k r p d) in *. clearbody s6. pose proof (ex_held _ _ _ _ _ X6) as h6.
  destruct (fresh_tables_owns s6 A5 r p d h6 F6) as [Ho Hw]; try done; try congruence.
  split; [done|]. split; [done|]. exists A5, r. cbn [pm set_pm set_vmap g_vmap_pool].
  split_and!; [intros x Hx; apply elem_of_cons; right; by apply SA4|done|apply lookup_insert_eq|done|done| |].
  - intros i Hi. rewrite Q6, Er, Q3, decide_True by lia.
    destruct (ext_foreign_ent _ _ _ _ _ k i X1 (proj1 Hk)) as [F1 <-]; [lia|].
    apply (ext_foreign_ent _ _ _ _ _ k i X2 F1). lia.
  - intros b w Hb Hbw.
    assert (Xr : ext [(r, 0%nat)] s1 A1 s3 A1) by (by eapply ext_trans).
    rewrite (ex_frame _ _ _ _ _ X6 b w); [|by apply elem_of_cons; right; apply SA4| |by rewrite (ex_dmap _ _ _ _ _ X35),
      (ex_dmap _ _ _ _ _ Xr), (ex_dmap _ _ _ _ _ X1)].
    2: { unfold W. rewrite !elem_of_cons, elem_of_nil. intros [->|[->|[->|[]]]]; done. }
    rewrite (ex_frame _ _ _ _ _ X35 b w); [|by apply SA1|apply not_elem_of_nil|by rewrite
      (ex_dmap _ _ _ _ _ Xr), (ex_dmap _ _ _ _ _ X1)].
    rewrite (ex_frame _ _ _ _ _ Xr b w); [|by apply SA1| |by rewrite (ex_dmap _ _ _ _ _ X1)].
    2: { intros E%list_elem_of_singleton. subst b. exact (Nr Hb). }
    apply (ex_frame _ _ _ _ _ X1 b w Hb (not_elem_of_nil _) Hbw).
Qed.

(** C15: [amm_vmap_create] with the kernel's tables outside the page allocator:
    on success the new [vmap_t] has an empty process half, whose three page
    tables are fresh held pages, and the kernel's upper half entry by entry;
    no page held before is touched.  It fails only when the 4096 slots are used
    up or the page allocator is exhausted. *)
Theorem amm_vmap_create_correct (a : as_state S) A : held (pm a) A -> kernel_low (pm a) A (g_kernel_cr3 a) ->
  let '(res, a') := amm_vmap_create a in
  match res with
  | None => (MAX_VMAPS <= g_vmap_next a)%nat /\ a' = a \/
      fst (palloc (pm a') 0) = 0 /\ exists A', A ⊆ A' /\ held (pm a') A'
  | Some m => m = g_vmap_next a /\ g_vmap_next a' = Datatypes.S m /\ exists A' r, A ⊆ A' /\ held (pm a') A' /\
      g_vmap_pool a' !! m = Some (Region.mkVmap None r 0) /\ owns user (pm a') r A' /\
      (forall rho, user rho -> length rho = 4%nat -> walk (pm a') r rho = None) /\
      (forall i, 256 <= i < 512 -> ent (pm a') r i = ent (pm a) (g_kernel_cr3 a) i) /\
      (forall b w, b ∈ A -> word_of (dmap (pm a)) b w -> ld (pm a') w = ld (pm a) w)
  end.
Proof. apply vmap_create_ok. Qed.

End Create.
End AddrLife.
