(* ===== verification/AddrDestroy.v ===== *)
(** * kernel/mm/mm.c: [amm_vmap_destroy] gives back every page exactly once

    The nested loops of [amm_vmap_destroy] free the data pages, then the table
    that listed them, level by level.  [reached] is the list of the pages a
    process tree consists of, in the order of the loops; [reaps] says that a
    step of the code frees exactly a list of pages. *)

From S2P Require Import Prelude Phys PhysInv PhysInit PageAlloc PageTable Region AddrSpace.
From Stdlib Require Import ZArith Lia.
From stdpp Require Import base list gmap numbers.
Open Scope Z_scope.

Module AddrDestroy.
Import PageAlloc PageTable AddrSpace.

Section Destroy.
Context {S : Type} `{HM : PageMem S} `{HO : !PageMemOk S}.
Implicit Types (s : S) (A R : list blk) (P T : list Z).

(** The pages below [t], a table [n] levels above the data pages at path
    [pi], each with its path; [n = 0] is a data page. *)
Fixpoint reached (n : nat) s (t : Z) (pi : list Z) : list (list Z * Z) :=
  match n with
  | O => [(pi, t)]
  | Datatypes.S n' =>
      (seqZ 0 512 ≫= fun i => if user_path (pi ++ [i])
                              then match child s t i with Some c => reached n' s c (pi ++ [i]) | None => [] end
                              else []) ++ [(pi, t)]
  end.

Definition pages_of (l : list (list Z * Z)) : list Z := map snd l.
Definition pg (p : Z) : blk := (p, 0%nat).

(** [f] frees exactly the pages [P], in any state that has the tables of [s0]
    and still holds the pages [T]. *)
Definition reaps (s0 : S) T (f : S -> option S) P : Prop := forall s A R,
  held s A -> A ≡ₚ map pg P ++ R -> dmap s = dmap s0 -> (forall t, t ∈ T -> pg t ∈ R) ->
  (forall q j, pg q ∈ A -> 0 <= j < 512 -> ent s q j = ent s0 q j) ->
  exists s', f s = Some s' /\ held s' R /\ dmap s' = dmap s /\
    forall b w, b ∈ R -> word_of (dmap s) b w -> ld s' w = ld s w.

Lemma reaps_skip s0 T : reaps s0 T Some [].
Proof. intros s A R Hh HP _ _ _. exists s. split_and!; try done. by eapply held_perm. Qed.

Lemma reaps_free s0 T p : reaps s0 T (fun s => pfree s p 0) [p].
Proof.
  intros s A R Hh HP _ _ _. destruct (pfree_ok s A R p 0 Hh HP) as (s' & E & Hh' & Hd & Hf). by exists s'.
Qed.

Lemma reaps_seq s0 T T' f g P1 P2 : reaps s0 T' f P1 -> reaps s0 T g P2 ->
  (forall t, t ∈ T' -> t ∈ P2 \/ t ∈ T) ->
  reaps s0 T (fun s => match f s with None => None | Some s => g s end) (P1 ++ P2).
Proof.
  intros Hf Hg HT s A R Hh HP Hd HTR He. rewrite map_app, <- app_assoc in HP.
  destruct (Hf s A (map pg P2 ++ R) Hh HP Hd) as (s1 & -> & Hh1 & Hd1 & Hf1); [|done|].
  { intros t Ht. apply elem_of_app. destruct (HT t Ht) as [?|?]; [left|right; auto].
    apply list_elem_of_fmap. eauto. }
  destruct (Hg s1 (map pg P2 ++ R) R Hh1 ltac:(done) ltac:(congruence) HTR) as (s2 & -> & Hh2 & Hd2 & Hf2).
  { intros q j Hq Hj. assert (HqA : pg q ∈ A) by (rewrite HP; apply elem_of_app; by right).
    rewrite <- (He q j HqA Hj). apply (ent_frame s s1 A q Hh HqA Hd1); [|done]. intros w Hw. by apply (Hf1 (pg q)). }
  exists s2. split_and!; [done|done|congruence|]. intros b w Hb Hw.
  rewrite (Hf2 b); [|done|by rewrite Hd1]. apply (Hf1 b); [|done]. apply elem_of_app. by right.
Qed.

Lemma reaps_for s0 T f (F : Z -> list Z) n : forall i,
  (forall j, i <= j < i + Z.of_nat n -> reaps s0 T (fun s => f s j) (F j)) ->
  reaps s0 T (for_range f i n) (seqZ i (Z.of_nat n) ≫= F).
Proof.
  induction n as [|n IH]; intros i HF.
  { change (seqZ i (Z.of_nat 0) ≫= F) with (@nil Z). apply reaps_skip. }
  rewrite seqZ_cons by lia. replace (Z.pred (Z.of_nat (Datatypes.S n))) with (Z.of_nat n) by lia.
  cbn [mbind list_bind for_range]. replace (Z.succ i) with (i + 1) by lia.
  apply (reaps_seq s0 T T (fun s => f s i) (for_range f (i + 1) n)); [apply HF; lia| |by right].
  apply IH. intros j Hj. apply HF. lia.
Qed.

(** A step that may look at the tables it is given to keep. *)
Lemma reaps_read s0 T f g P t : t ∈ T -> reaps s0 T g P ->
  (forall s, (forall j, 0 <= j < 512 -> ent s t j = ent s0 t j) -> f s = g s) -> reaps s0 T f P.
Proof.
  intros Ht Hg E s A R Hh HP Hd HTR He. rewrite (E s).
  - by apply (Hg s A R).
  - intros j Hj. apply He; [|done]. rewrite HP. apply elem_of_app. right. by apply HTR.
Qed.

Lemma reaps_weaken s0 T f P : reaps s0 [] f P -> reaps s0 T f P.
Proof. intros Hf s A R Hh HP Hd _ He. apply (Hf s A R); try done. intros t []%elem_of_nil. Qed.

(** One table: a loop over its entries, then the table itself. *)
Lemma reaps_table s0 n t pi (body : S -> Z -> option S) (N : nat) :
  (forall i, 0 <= i < Z.of_nat N -> reaps s0 [t] (fun s => body s i)
     (if user_path (pi ++ [i]) then match child s0 t i with Some c => pages_of (reached n s0 c (pi ++ [i])) | None => [] end
      else [])) ->
  (N <= 512)%nat -> (forall i, Z.of_nat N <= i -> user_path (pi ++ [i]) = false) ->
  reaps s0 [] (fun s => match for_range body 0 N s with None => None | Some s => pfree s t 0 end)
    (pages_of (reached (Datatypes.S n) s0 t pi)).
Proof.
  intros Hb HN Hout. pose proof (reaps_for s0 [t] body _ N 0 Hb) as Hl.
  assert (E : pages_of (reached (Datatypes.S n) s0 t pi) =
    (seqZ 0 (Z.of_nat N) ≫= fun i => if user_path (pi ++ [i])
       then match child s0 t i with Some c => pages_of (reached n s0 c (pi ++ [i])) | None => [] end else []) ++ [t]).
  { unfold pages_of. cbn [reached]. rewrite map_app. f_equal.
    replace 512 with (Z.of_nat N + (512 - Z.of_nat N)) by lia. rewrite seqZ_app, bind_app, map_app by lia.
    match goal with |- _ = ?R => rewrite <- (app_nil_r R) end. f_equal.
    - clear. induction (seqZ 0 (Z.of_nat N)) as [|i l IH]; [done|]. cbn [mbind list_bind]. rewrite map_app. f_equal; [|apply IH].
      destruct (user_path (pi ++ [i])); [|done]. by destruct (child s0 t i).
    - assert (Hge : forall i, i ∈ seqZ (0 + Z.of_nat N) (512 - Z.of_nat N) -> Z.of_nat N <= i)
        by (intros i Hi%elem_of_seqZ; lia).
      induction (seqZ (0 + Z.of_nat N) _) as [|i l IH]; [done|]. cbn [mbind list_bind].
      rewrite Hout by (apply Hge; left). apply IH. intros j Hj. apply Hge. by right. }
  rewrite E. apply (reaps_seq s0 [] [t]); [done|apply reaps_free|]. intros x Hx. by left.
Qed.

(** ** The four levels *)

Lemma snoc_user4 (pi : list Z) i : length pi = 3%nat -> user pi -> 0 <= i < 512 -> user_path (pi ++ [i]) = true.
Proof.
  intros Hl Hu Hi. unfold user in Hu. destruct pi as [|a [|b [|c [|d pi]]]]; simpl in Hl; try lia.
  simpl in *. rewrite !andb_true_r in Hu. apply andb_true_iff in Hu as [-> Hu]. apply andb_true_iff in Hu as [-> ->].
  unfold in_table. cbn [andb]. rewrite (proj2 (Z.leb_le 0 i)), (proj2 (Z.ltb_lt i 512)) by lia. done.
Qed.

Lemma destroy_pt_reaps s0 t pi : length pi = 3%nat -> user pi ->
  reaps s0 [] (fun s => destroy_pt s t) (pages_of (reached 1 s0 t pi)).
Proof.
  intros Hl Hu. apply (reaps_table s0 0 t pi _ 512); [|lia|].
  - intros i Hi. rewrite snoc_user4 by (done || lia).
    apply (reaps_read s0 [t] _ (fun s => if has_flag (ent s0 t i) PTE_PRESENT
        then pfree s (Z.land (ent s0 t i) PTE_ADDR_MASK) 0 else Some s) _ t); [left| |intros s E; rewrite E by lia; done].
    unfold child, pte_child. destruct (has_flag (ent s0 t i) PTE_PRESENT); [apply reaps_free|apply reaps_skip].
  - intros i Hi. apply not_true_iff_false. intros [_ H]%user_snoc. lia.
Qed.

Lemma destroy_pd_reaps s0 r A t pi : owns user s0 r A -> walk s0 r pi = Some t -> length pi = 2%nat -> user pi ->
  reaps s0 [] (fun s => destroy_pd s t) (pages_of (reached 2 s0 t pi)).
Proof.
  intros Ho Hw Hl Hu. apply (reaps_table s0 1 t pi _ 512); [|lia|].
  - intros i Hi. apply (reaps_read s0 [t] _ (fun s => if negb (has_flag (ent s0 t i) PTE_PRESENT) then Some s
        else if has_flag (ent s0 t i) PTE_PS then Some s else destroy_pt s (Z.land (ent s0 t i) PTE_ADDR_MASK)) _ t);
      [left| |intros s E; rewrite E by lia; done].
    unfold child, pte_child. destruct (has_flag (ent s0 t i) PTE_PRESENT) eqn:Hp; cbn [negb].
    2: { destruct (user_path (pi ++ [i])); apply reaps_skip. }
    pose proof (ow_pd _ _ _ _ Ho pi t i Hu Hl Hw ltac:(lia) Hp) as Hps. unfold user in Hps.
    destruct (has_flag (ent s0 t i) PTE_PS), (user_path (pi ++ [i])) eqn:E;
      [discriminate (proj2 Hps eq_refl)|apply reaps_skip| |discriminate (proj1 Hps eq_refl)].
    apply reaps_weaken, destroy_pt_reaps; [rewrite length_app; simpl; lia|done].
  - intros i Hi. apply not_true_iff_false. intros [_ H]%user_snoc. lia.
Qed.

Lemma destroy_pdpt_reaps s0 r A t k : owns user s0 r A -> walk s0 r [k] = Some t -> user [k] ->
  reaps s0 [] (fun s => destroy_pdpt k s t) (pages_of (reached 3 s0 t [k])).
Proof.
  intros Ho Hw Hu. apply (reaps_table s0 2 t [k] _ 512); [|lia|].
  - intros i Hi. apply (reaps_read s0 [t] _ (fun s => if negb (has_flag (ent s0 t i) PTE_PRESENT) then Some s
        else if (k =? 0) && (1 <=? i) && (i <=? 3) then Some s else destroy_pd s (Z.land (ent s0 t i) PTE_ADDR_MASK)) _ t);
      [left| |intros s E; rewrite E by lia; done].
    unfold child, pte_child. destruct (has_flag (ent s0 t i) PTE_PRESENT) eqn:Hp; cbn [negb].
    2: { destruct (user_path ([k] ++ [i])); apply reaps_skip. }
    assert (E : user_path ([k] ++ [i]) = negb ((k =? 0) && (1 <=? i) && (i <=? 3))).
    { unfold user in Hu. simpl in *. rewrite !andb_true_r in *. rewrite Hu. unfold in_table.
      rewrite (proj2 (Z.leb_le 0 i)), (proj2 (Z.ltb_lt i 512)) by lia. done. }
    rewrite E. destruct ((k =? 0) && (1 <=? i) && (i <=? 3)); cbn [negb]; [apply reaps_skip|].
    apply reaps_weaken, (destroy_pd_reaps s0 r A); [done| |done|exact E].
    rewrite walk_app, Hw. cbn [walk]. unfold child, pte_child. by rewrite Hp.
  - intros i Hi. apply not_true_iff_false. intros [_ H]%user_snoc. lia.
Qed.

Lemma destroy_tables_reaps s0 r A : held s0 A -> owns user s0 r A ->
  reaps s0 [] (fun s => destroy_tables s r) (pages_of (reached 4 s0 r [])).
Proof.
  intros Hh Ho. unfold destroy_tables. rewrite (root_mask s0 r A) by done. apply (reaps_table s0 3 r [] _ 256); [|lia|].
  - intros i Hi. apply (reaps_read s0 [r] _ (fun s => if negb (has_flag (ent s0 r i) PTE_PRESENT) then Some s
        else destroy_pdpt i s (Z.land (ent s0 r i) PTE_ADDR_MASK)) _ r); [left| |intros s E; rewrite E by lia; done].
    assert (Hu : user [i]) by (unfold user; simpl; rewrite !andb_true_r; apply andb_true_iff; rewrite Z.leb_le, Z.ltb_lt; lia).
    cbn [app]. rewrite Hu. unfold child, pte_child. destruct (has_flag (ent s0 r i) PTE_PRESENT) eqn:Hp; cbn [negb]; [|apply reaps_skip].
    apply reaps_weaken, (destroy_pdpt_reaps s0 r A); [done| |done]. cbn [walk]. unfold child, pte_child. by rewrite Hp.
  - intros i Hi. simpl. rewrite (proj2 (Z.ltb_ge i 256)) by lia. by rewrite andb_false_r.
Qed.

(** ** The pages of the tree *)

Lemma elem_reached r n : forall s t pi rho p, user pi -> walk s r pi = Some t -> (length pi + n = 4)%nat ->
  (rho, p) ∈ reached n s t pi <-> exists sfx, rho = pi ++ sfx /\ user rho /\ walk s t sfx = Some p.
Proof.
  induction n as [|n IH]; intros s t pi rho p Hu Hw Hl; cbn [reached].
  - rewrite list_elem_of_singleton. split.
    + intros [= -> ->]. exists []. by rewrite app_nil_r.
    + intros (sfx & -> & Hu' & E). apply user_len in Hu'. rewrite length_app in Hu'.
      destruct sfx; [|simpl in *; lia]. simpl in E. simplify_eq. by rewrite app_nil_r.
  - rewrite elem_of_app, list_elem_of_singleton, list_elem_of_bind. split.
    + intros [(i & Hin & _)|[= -> ->]]; [|exists []; by rewrite app_nil_r].
      destruct (user_path (pi ++ [i])) eqn:Hui; [|by apply elem_of_nil in Hin].
      destruct (child s t i) as [c|] eqn:Hc; [|by apply elem_of_nil in Hin].
      apply IH in Hin as (sfx & -> & Hur & E); [|done| |rewrite length_app; simpl; lia].
      2: { rewrite walk_app, Hw. cbn [walk]. by rewrite Hc. }
      exists (i :: sfx). rewrite <- app_assoc in *. split_and!; [done|done|]. cbn [walk]. by rewrite Hc.
    + intros (sfx & -> & Hur & E). destruct sfx as [|i sfx]; [right; simpl in E; simplify_eq; by rewrite app_nil_r|].
      left. exists i. cbn [walk] in E. destruct (child s t i) as [c|] eqn:Hc; [|done].
      assert (Hi : user (pi ++ [i])).
      { change (i :: sfx) with ([i] ++ sfx) in Hur. rewrite app_assoc in Hur. clear -Hur.
        induction sfx as [|x sfx IH] using rev_ind; [by rewrite app_nil_r in Hur|].
        rewrite app_assoc in Hur. apply user_snoc in Hur as [? _]. auto. }
      split; [|apply elem_of_seqZ; apply user_snoc in Hi; lia]. rewrite Hi. apply IH; [done| |rewrite length_app; simpl; lia|].
      * rewrite walk_app, Hw. cbn [walk]. by rewrite Hc.
      * exists sfx. by rewrite <- app_assoc.
Qed.

Lemma reached_prefix n : forall s t pi rho p, (rho, p) ∈ reached n s t pi -> pi `prefix_of` rho.
Proof.
  induction n as [|n IH]; intros s t pi rho p; cbn [reached].
  - intros [= -> ->]%list_elem_of_singleton. done.
  - rewrite elem_of_app, list_elem_of_singleton, list_elem_of_bind. intros [(i & Hin & _)|[= -> ->]]; [|done].
    destruct (user_path (pi ++ [i])); [|by apply elem_of_nil in Hin].
    destruct (child s t i); [|by apply elem_of_nil in Hin]. apply IH in Hin as [k ->]. rewrite <- app_assoc. by eexists.
Qed.

Lemma reached_nodup n : forall s t pi, NoDup (reached n s t pi).
Proof.
  induction n as [|n IH]; intros s t pi; cbn [reached]; [apply NoDup_singleton|].
  assert (Hpre : forall i rho p, (rho, p) ∈ (if user_path (pi ++ [i])
    then match child s t i with Some c => reached n s c (pi ++ [i]) | None => [] end else []) -> (pi ++ [i]) `prefix_of` rho).
  { intros i rho p Hin. destruct (user_path (pi ++ [i])); [|by apply elem_of_nil in Hin].
    destruct (child s t i); [|by apply elem_of_nil in Hin]. by eapply reached_prefix. }
  apply list.NoDup_app. split_and!; [apply NoDup_bind| |apply NoDup_singleton].
  - intros i j [rho p] _ _ H1%Hpre H2%Hpre. destruct H1 as [k1 ->], H2 as [k2 E].
    rewrite <- !app_assoc in E. apply app_inv_head in E. by simplify_list_eq.
  - intros i _. destruct (user_path (pi ++ [i])); [|constructor]. destruct (child s t i); [apply IH|constructor].
  - apply NoDup_seqZ.
  - intros [rho p] (i & Hin & _)%list_elem_of_bind Heq%list_elem_of_singleton. simplify_eq.
    apply Hpre in Hin as [k E]. apply (f_equal length) in E. rewrite !length_app in E. simpl in E. lia.
Qed.

Lemma pages_elem s r p : p ∈ pages_of (reached 4 s r []) <-> exists rho, user rho /\ walk s r rho = Some p.
Proof.
  unfold pages_of. change (map snd ?l) with (snd <$> l). rewrite list_elem_of_fmap. split.
  - intros ([rho q] & -> & Hin). apply (elem_reached r) in Hin as (sfx & -> & Hu & E); [|done..]. by exists sfx.
  - intros (rho & Hu & E). exists (rho, p). split; [done|]. apply (elem_reached r); [done..|]. by exists rho.
Qed.

Lemma pages_nodup s r A : owns user s r A -> NoDup (pages_of (reached 4 s r [])).
Proof.
  intros Ho. apply NoDup_fmap_2_strong; [|apply reached_nodup]. intros [r1 p1] [r2 p2] H1 H2 E. simpl in E. subst p2.
  apply (elem_reached r) in H1 as (x1 & -> & U1 & E1); [|done..].
  apply (elem_reached r) in H2 as (x2 & -> & U2 & E2); [|done..]. f_equal. by eapply ow_inj.
Qed.

Lemma vmap_destroy_ok (a : as_state S) A i m : held (pm a) A ->
  g_vmap_pool a !! i = Some m -> owns user (pm a) (Region.cr3 m) A ->
  exists a' freed R, amm_vmap_destroy a (Some i) = Some a' /\
    A ≡ₚ map pg freed ++ R /\ held (pm a') R /\ NoDup freed /\
    (forall p, p ∈ freed <-> exists rho, user rho /\ walk (pm a) (Region.cr3 m) rho = Some p) /\
    (forall b w, b ∈ R -> word_of (dmap (pm a)) b w -> ld (pm a') w = ld (pm a) w) /\
    g_vmap_pool a' = <[i := Region.mkVmap None 0 0]> (g_vmap_pool a).
Proof.
  intros Hh Hm Ho. set (r := Region.cr3 m) in *. set (P := pages_of (reached 4 (pm a) r [])).
  assert (HP : exists R, A ≡ₚ map pg P ++ R).
  { apply submseteq_Permutation, NoDup_submseteq.
    - apply NoDup_fmap_2; [by intros ? ? [=]|]. by eapply pages_nodup.
    - intros b (p & -> & Hp)%list_elem_of_fmap. apply pages_elem in Hp as (rho & Hu & E). by eapply ow_held. }
  destruct HP as [R HP]. destruct (destroy_tables_reaps (pm a) r A Hh Ho (pm a) A R Hh HP eq_refl) as (s' & E & Hh' & _ & Hf);
    [by intros t []%elem_of_nil|done|].
  assert (Hr : r <> 0).
  { assert (Hr : (r, 0%nat) ∈ A) by (by apply (ow_held _ _ _ _ Ho [])). destruct (held_page (pm a) A r Hh Hr). lia. }
  exists (set_vmap (set_pm a s') i (Region.mkVmap None 0 0)), P, R. unfold amm_vmap_destroy. rewrite Hm. cbv beta iota zeta delta [default from_option id].
  fold r. rewrite (proj2 (Z.eqb_neq r 0) Hr), E. split_and!; try done; [by eapply pages_nodup|].
  intros p. apply pages_elem.
Qed.

(** C10: [amm_vmap_destroy] of an address space whose process tree is in
    order: it returns, every page of the tree (data pages and page tables, the
    root included) is given back exactly once, exactly those are, the shared
    kernel tables and every other held block keep their contents, and the slot
    is emptied. *)
Theorem amm_vmap_destroy_correct (a : as_state S) A i m : held (pm a) A ->
  g_vmap_pool a !! i = Some m -> owns user (pm a) (Region.cr3 m) A ->
  exists a' freed R, amm_vmap_destroy a (Some i) = Some a' /\
    A ≡ₚ map pg freed ++ R /\ held (pm a') R /\ NoDup freed /\
    (forall p, p ∈ freed <-> exists rho, user rho /\ walk (pm a) (Region.cr3 m) rho = Some p) /\
    (forall b w, b ∈ R -> word_of (dmap (pm a)) b w -> ld (pm a') w = ld (pm a) w) /\
    g_vmap_pool a' = <[i := Region.mkVmap None 0 0]> (g_vmap_pool a).
Proof. apply vmap_destroy_ok. Qed.

End Destroy.
End AddrDestroy.
