(* ===== verification/AddrWitness.v ===== *)
(** * Concrete address spaces over the buddy allocator

    The theorems on page tables and address spaces at the machine of PhysSpec
    (30 pages of memory): an empty tree, one mapped page, one created and one
    destroyed address space. *)

From S2P Require Import Prelude Phys PhysInv PhysInit PhysSpec PhysFrame PageAlloc PageTable Region AddrSpace AddrLife AddrDestroy.
From Stdlib Require Import ZArith Lia.
From stdpp Require Import base list gmap numbers.
Open Scope Z_scope.

Module AddrWitness.
Import Phys PhysInv PhysInit PhysSpec PageAlloc PageTable AddrSpace.


Lemma boot1_managed : exists F, phys_ok boot1 F [] /\ forall x, managed F [] x -> x < 0x308000.
Proof.
  destruct boot_mmap_ok as (H1 & H2 & H3).
  destruct (amm_phys_init_ok boot0 boot_mmap) as (F & Hok & Hman); try done.
  exists F. split; [exact Hok|]. intros x [(e & He & Hin) _]%Hman. unfold boot_mmap in He.
  rewrite !elem_of_cons, elem_of_nil in He.
  destruct He as [->|[->|[->|[]]]]; eval_entry Hin; lia.
Qed.
#[local] Strategy opaque [boot1].

(** A zeroed root is an empty tree. *)
Lemma zero_root_owns (s : phys_state_t) A r : (r, 0%nat) ∈ A -> (forall j, 0 <= j < 512 -> ent s r j = 0) -> owns user s r A.
Proof.
  intros Hr Hz. assert (Hw : forall rho p, user rho -> walk s r rho = Some p -> rho = [] /\ p = r).
  { intros [|i rho] p Hu E; [simpl in E; by simplify_eq|]. exfalso. cbn [walk] in E. unfold child in E.
    rewrite Hz in E; [done|]. unfold user in Hu. simpl in Hu. apply andb_true_iff in Hu as [Hu _]. zbool. lia. }
  split.
  - intros rho p Hu E. destruct (Hw rho p Hu E) as [_ ->]. done.
  - intros r1 r2 p U1 U2 E1 E2. destruct (Hw _ _ U1 E1) as [-> _], (Hw _ _ U2 E2) as [-> _]. done.
  - intros rho t i Hu Hl E. destruct (Hw _ _ Hu E) as [-> _]. done.
Qed.

Definition R0 : Z := 0x300000.
Definition boot2 : phys_state_t := (palloc boot1 0).2.
Definition boot3 : phys_state_t := zero_page boot2 R0.

Lemma boot1_held : held boot1 [].
Proof. destruct boot1_ok as (F & Hok & _). by exists F. Qed.

Lemma pair_fst {X Y} (p : X * Y) x : p.1 = x -> p = (x, p.2).
Proof. destruct p. simpl. by intros ->. Qed.

Lemma boot2_alloc : palloc boot1 0 = (R0, boot2).
Proof. apply pair_fst. exact (proj1 boot1_alloc). Qed.
#[local] Strategy opaque [boot2 boot3].

Lemma boot3_ok : held boot3 [(R0, 0%nat)] /\ owns user boot3 R0 [(R0, 0%nat)].
Proof.
  destruct (palloc_ok boot1 [] 0 R0 boot2 boot1_held boot2_alloc) as (_ & [[? _]|(_ & Hh & _)]); [done|].
  destruct (zero_page_ok boot2 [(R0, 0%nat)] R0 Hh ltac:(left)) as (H1 & _ & H3 & _).
  split; [done|]. apply zero_root_owns; [left|done].
Qed.

Lemma boot3_zero j : 0 <= j < 512 -> ent boot3 R0 j = 0.
Proof.
  destruct (palloc_ok boot1 [] 0 R0 boot2 boot1_held boot2_alloc) as (_ & [[? _]|(_ & Hh & _)]); [done|].
  apply (zero_page_ok boot2 [(R0, 0%nat)] R0 Hh ltac:(left)).
Qed.

Definition P1 : Z := 0x301000.
Definition boot4 : phys_state_t := (palloc boot3 0).2.

Lemma boot4_alloc : palloc boot3 0 = (P1, boot4).
Proof. apply pair_fst. vm_compute. reflexivity. Qed.
#[local] Strategy opaque [boot4].

Lemma boot4_ok : held boot4 [(P1, 0%nat); (R0, 0%nat)] /\ owns user boot4 R0 [(P1, 0%nat); (R0, 0%nat)] /\
  forall rho, user rho -> walk boot4 R0 rho <> Some P1.
Proof.
  destruct boot3_ok as [Hh Ho].
  destruct (palloc_ok boot3 _ 0 P1 boot4 Hh boot4_alloc) as (Hd & [[? _]|(_ & Hh4 & Hf)]); [done|].
  assert (Hz : forall j, 0 <= j < 512 -> ent boot4 R0 j = 0).
  { intros j Hj. rewrite (ent_frame boot3 boot4 [(R0, 0%nat)] R0 Hh ltac:(left) Hd).
    - destruct (palloc_ok boot1 [] 0 R0 boot2 boot1_held boot2_alloc) as (_ & [[? _]|(_ & Hh2 & _)]); [done|].
      by apply (zero_page_ok boot2 [(R0, 0%nat)] R0 Hh2 ltac:(left)).
    - intros w Hw. apply (Hf (R0, 0%nat)); [left|done].
    - done. }
  split_and!; [done|apply zero_root_owns; [right; left|done]|].
  intros [|i rho] Hu; [done|]. cbn [walk]. unfold child. rewrite Hz; [done|].
  unfold user in Hu. simpl in Hu. apply andb_true_iff in Hu as [Hu _]. zbool. lia.
Qed.

(** Mapping page [P1] at the user address 0x400000. *)
Lemma map_page_correct_witness :
  held boot4 [(P1, 0%nat); (R0, 0%nat)] /\ user_va 0x400000 /\
  amm_virt_to_kva (map_page boot4 R0 0x400000 P1 3) R0 0x400123 = dmap boot4 + P1 + 0x123.
Proof.
  destruct boot4_ok as (Hh & Ho & Hn). assert (Hv : user_va 0x400000) by (split; lia).
  split; [exact Hh|]. split; [exact Hv|].
  destruct (map_page_correct boot4 _ R0 0x400000 P1 3 Hh Ho Hv ltac:(left) Hn) as (A' & _ & _ & _ & [Hw|[Hoom _]]).
  - rewrite (Hw 0x400123) by (split; lia). reflexivity.
  - exfalso. revert Hoom. vm_compute. discriminate.
Defined.

(** One writable region over [0x400000, 0x402000). *)
Definition m0 : Region.vmap_t := Region.mkVmap None R0 0.
Definition add2 : Region.pool_t * Region.vmap_t :=
  match Region.amm_region_add Region.pool0 (Some m0) 0x400000 0x2000 3 0 (-1) with
  | Some (_, p, Some m) => (p, m) | _ => (Region.pool0, m0) end.

Lemma add2_ok : Region.vm_ok add2.1 add2.2 [0%nat] /\ Region.cr3 add2.2 = R0.
Proof.
  assert (H0 : Region.vm_ok Region.pool0 m0 []).
  { split; try done; [by exists None|apply NoDup_nil_2|simpl; lia|split; constructor]. }
  pose proof (Region.region_add_ok Region.pool0 m0 [] 0x400000 0x2000 3 0 (-1) H0 ltac:(lia) ltac:(lia)) as H.
  change (Region.refused Region.pool0 [] 0x400000 0x2000) with false in H.
  destruct H as (l1 & l2 & p' & m' & E & Ea & H1 & _).
  symmetry in E. apply app_nil in E as [-> ->]. unfold add2. rewrite Ea. split; [exact H1|].
  assert (Ec : option_map Region.cr3 (Some m') = Some R0); [|by injection Ec].
  assert (Ev : match Region.amm_region_add Region.pool0 (Some m0) 0x400000 0x2000 3 0 (-1) with
               | Some (_, _, Some m) => Some (Region.cr3 m) | _ => None end = Some R0) by (vm_compute; reflexivity).
  rewrite Ea in Ev. exact Ev.
Qed.

Lemma amm_page_fault_correct_witness :
  exists s', amm_page_fault add2.1 add2.2 boot3 0x401234 true = Some (0, s') /\
    (exists pa, forall rho, user rho -> length rho = 4%nat ->
       walk s' (Region.cr3 add2.2) rho = if decide (rho = idx 0x401000) then Some pa else walk boot3 (Region.cr3 add2.2) rho).
Proof.
  destruct boot3_ok as [Hh Ho]. destruct add2_ok as [Hv Hc].
  assert (Ho' : owns user boot3 (Region.cr3 add2.2) [(R0, 0%nat)]) by (rewrite Hc; exact Ho).
  destruct (amm_page_fault_correct add2.1 add2.2 [0%nat] boot3 _ 0x401234 true Hv Hh Ho' ltac:(lia) ltac:(split; vm_compute; intuition congruence))
    as (rc & s' & E & Hres).
  assert (Erc : match amm_page_fault add2.1 add2.2 boot3 0x401234 true with
                | Some (rc, s') => rc = 0 /\ (palloc s' 0).1 <> 0 | None => False end)
    by (vm_compute; split; [reflexivity|discriminate]).
  rewrite E in Erc. destruct Erc as [-> Hoom]. exists s'. split; [exact E|].
  destruct Hres as [[Hneg _]|(_ & _ & A' & _ & _ & _ & _ & [(pa & Hw & _)|[Ho0 _]])]; [discriminate Hneg| |].
  - exists pa. exact Hw.
  - exfalso. exact (Hoom Ho0).
Defined.

Lemma amm_region_populate_correct_witness :
  let '(k, s') := amm_region_populate boot3 (Some m0) 0x400800 0x1000 3 in
  k = amm_virt_to_kva s' R0 0x400800 /\ k <> 0 /\ is_Some (walk s' R0 (idx 0x401000)).
Proof.
  destruct boot3_ok as [Hh Ho].
  pose proof (amm_region_populate_correct boot3 _ m0 0x400800 0x1000 3 Hh Ho ltac:(lia) ltac:(lia) ltac:(lia)
    ltac:(intros x Hx; change PAGE_SIZE with 4096 in Hx; split; Z.div_mod_to_equations; lia)) as H.
  assert (Hoom : (palloc (amm_region_populate boot3 (Some m0) 0x400800 0x1000 3).2 0).1 <> 0) by (vm_compute; discriminate).
  destruct (amm_region_populate boot3 (Some m0) 0x400800 0x1000 3) as [k s'].
  destruct H as (_ & _ & _ & _ & _ & [(Hx & Hk & Hk0)|Ho0]); [|exfalso; exact (Hoom Ho0)].
  split; [exact Hk|]. split; [exact Hk0|]. apply Hx. lia.
Defined.

(** ** Creation and destruction *)

(** The kernel's tables of the machine: an empty PML4 above the memory of the
    map. *)
Definition kcr3_1 : Z := 0x10000000.
Definition as1 : as_state phys_state_t := mkAS boot1 Region.pool0 ∅ 0 kcr3_1.

Lemma boot1_foreign w : PHYS_MAP_BASE + 0x308000 <= w -> foreign boot1 [] w.
Proof.
  intros Hw F Hok Hm. destruct boot1_managed as (F0 & Hok0 & Hlt).
  pose proof (Hlt _ (PhysFrame.managed_functional boot1 F F0 [] _ Hok Hok0 Hm)). lia.
Qed.

Lemma as1_low : AddrLife.kernel_low (pm as1) [] (g_kernel_cr3 as1).
Proof.
  assert (Hd : dmap boot1 = PHYS_MAP_BASE) by (by apply (dmap_held _ [] boot1_held)).
  split.
  - intros j Hj. apply boot1_foreign. unfold ent_addr, p2v. simpl g_kernel_cr3. simpl pm. rewrite Hd.
    unfold kcr3_1, PHYS_MAP_BASE. rewrite !u64_small by lia. lia.
  - assert (E : has_flag (ent boot1 kcr3_1 0) PTE_PRESENT = false) by (vm_compute; reflexivity).
    simpl pm. simpl g_kernel_cr3. rewrite E. intros Hx. discriminate Hx.
Qed.

Lemma amm_vmap_create_correct_witness :
  exists a', amm_vmap_create as1 = (Some 0%nat, a') /\ exists A' r, held (pm a') A' /\ owns user (pm a') r A' /\
    g_vmap_pool a' !! 0%nat = Some (Region.mkVmap None r 0).
Proof.
  pose proof (AddrLife.amm_vmap_create_correct as1 [] boot1_held as1_low) as H.
  assert (E : (amm_vmap_create as1).1 = Some 0%nat) by (vm_compute; reflexivity).
  destruct (amm_vmap_create as1) as [res a']. cbn [fst] in E. subst res.
  destruct H as (_ & _ & A' & r & _ & Hh & Hp & Ho & _). exists a'. split; [reflexivity|].
  exists A', r. split; [exact Hh|]. split; [exact Ho|exact Hp].
Defined.

Definition as2 : as_state phys_state_t := mkAS boot4 Region.pool0 {[0%nat := m0]} 1 kcr3_1.

(** Destroying an address space whose tree is one root, beside one held page. *)
Lemma amm_vmap_destroy_correct_witness :
  exists a' freed R, amm_vmap_destroy as2 (Some 0%nat) = Some a' /\
    [(P1, 0%nat); (R0, 0%nat)] ≡ₚ map AddrDestroy.pg freed ++ R /\ held (pm a') R /\ R0 ∈ freed.
Proof.
  destruct boot4_ok as (Hh & Ho & _).
  destruct (AddrDestroy.amm_vmap_destroy_correct as2 [(P1, 0%nat); (R0, 0%nat)] 0 m0 Hh ltac:(reflexivity) Ho)
    as (a' & freed & R & E & HP & Hh' & _ & Hel & _).
  exists a', freed, R. split; [exact E|]. split; [exact HP|]. split; [exact Hh'|].
  apply Hel. exists []. split; reflexivity.
Defined.

End AddrWitness.
