(* ===== verification/Bytes.v ===== *)
(** * Bytes, byte-addressed memory and the kernel-heap interface

    Little-endian encodings, the byte memory of the kernel's direct map, and
    the class that states what [kmalloc]/[kfree] promise to the components
    that use them. *)

From S2P Require Import Prelude.
From Stdlib Require Import ZArith Lia.
From stdpp Require Import base list gmap numbers.
Open Scope Z_scope.

Module Bytes.

(** ** Little-endian integers *)

Fixpoint le_bytes (k : nat) (x : Z) : list Z :=
  match k with
  | O => []
  | S k' => x mod 256 :: le_bytes k' (x / 256)
  end.

Fixpoint le_val (bs : list Z) : Z :=
  match bs with
  | [] => 0
  | b :: t => b + 256 * le_val t
  end.

Definition is_byte (b : Z) : Prop := 0 <= b < 256.

Lemma length_le_bytes k : forall x, length (le_bytes k x) = k.
Proof. induction k as [|k IH]; intros; simpl; [done|]. by rewrite IH. Qed.

Lemma le_bytes_byte k : forall x, Forall is_byte (le_bytes k x).
Proof.
  induction k as [|k IH]; intros; simpl; constructor; [|done]. apply Z.mod_pos_bound. lia.
Qed.

Lemma le_val_bytes k : forall x, le_val (le_bytes k x) = x mod 256 ^ Z.of_nat k.
Proof.
  induction k as [|k IH]; intros x; simpl le_val.
  { change (256 ^ Z.of_nat 0) with 1. by rewrite Z.mod_1_r. }
  rewrite IH, Nat2Z.inj_succ, Z.pow_succ_r by lia.
  rewrite (Z.rem_mul_r x 256) by (pose proof (Z.pow_pos_nonneg 256 (Z.of_nat k)); lia). lia.
Qed.

Lemma le_val_bytes_small k x : 0 <= x < 256 ^ Z.of_nat k -> le_val (le_bytes k x) = x.
Proof. intros. rewrite le_val_bytes. by apply Z.mod_small. Qed.

Lemma le_val_bound bs : Forall is_byte bs -> 0 <= le_val bs < 256 ^ Z.of_nat (length bs).
Proof.
  induction 1 as [|b bs Hb _ IH]; simpl le_val; [simpl; lia|]. unfold is_byte in Hb.
  simpl length. rewrite Nat2Z.inj_succ, Z.pow_succ_r by lia. lia.
Qed.

Lemma le_bytes_val bs : Forall is_byte bs -> le_bytes (length bs) (le_val bs) = bs.
Proof.
  induction 1 as [|b bs Hb _ IH]; simpl; [done|]. unfold is_byte in Hb.
  rewrite (Z.mul_comm 256), Z.mod_add, Z.div_add by lia.
  rewrite Z.mod_small, Z.div_small, Z.add_0_l, IH by lia. done.
Qed.

(** ** Byte memory *)

Abbreviation mem := (gmap Z Z).

Definition rd (m : mem) (a : Z) : Z := default 0 (m !! a).

Fixpoint read_bytes (m : mem) (a : Z) (n : nat) : list Z :=
  match n with
  | O => []
  | S n' => rd m a :: read_bytes m (a + 1) n'
  end.

Fixpoint write_bytes (m : mem) (a : Z) (bs : list Z) : mem :=
  match bs with
  | [] => m
  | b :: t => write_bytes (<[a := b]> m) (a + 1) t
  end.

Lemma rd_write_bytes bs : forall m a x,
  rd (write_bytes m a bs) x =
  if decide (a <= x < a + Z.of_nat (length bs)) then nth (Z.to_nat (x - a)) bs 0 else rd m x.
Proof.
  induction bs as [|b bs IH]; intros m a x; simpl write_bytes.
  { rewrite decide_False; [done|simpl; lia]. }
  rewrite IH. simpl length. destruct (decide (x = a)) as [->|Hne].
  - rewrite decide_False, decide_True by lia. rewrite Z.sub_diag.
    unfold rd. by rewrite lookup_insert_eq.
  - case_decide.
    + rewrite decide_True by lia. replace (Z.to_nat (x - a)) with (S (Z.to_nat (x - (a + 1)))) by lia. done.
    + rewrite decide_False by lia. unfold rd. by rewrite lookup_insert_ne by lia.
Qed.

Lemma length_read_bytes n : forall m a, length (read_bytes m a n) = n.
Proof. induction n as [|n IH]; intros; simpl; [done|]. by rewrite IH. Qed.

Lemma read_bytes_ext n : forall m m' a,
  (forall x, a <= x < a + Z.of_nat n -> rd m x = rd m' x) -> read_bytes m a n = read_bytes m' a n.
Proof.
  induction n as [|n IH]; intros m m' a H; simpl; [done|].
  rewrite (H a) by lia. f_equal. apply IH. intros; apply H; lia.
Qed.

Lemma read_write_disjoint m a bs p n :
  p + Z.of_nat n <= a \/ a + Z.of_nat (length bs) <= p ->
  read_bytes (write_bytes m a bs) p n = read_bytes m p n.
Proof.
  intros H. apply read_bytes_ext. intros x Hx. rewrite rd_write_bytes. by rewrite decide_False by lia.
Qed.

Lemma read_write_same bs : forall m a, read_bytes (write_bytes m a bs) a (length bs) = bs.
Proof.
  induction bs as [|b bs IH]; intros m a; simpl; [done|]. rewrite IH. f_equal.
  rewrite rd_write_bytes, decide_False by lia. unfold rd. by rewrite lookup_insert_eq.
Qed.

Lemma read_bytes_take n k : forall m a, (k <= n)%nat -> read_bytes m a k = take k (read_bytes m a n).
Proof.
  revert k. induction n as [|n IH]; intros k m a Hk.
  - replace k with 0%nat by lia. done.
  - destruct k as [|k]; [done|]. simpl. f_equal. apply IH. lia.
Qed.

(** ** The kernel heap *)

(** The operations the rest of the kernel calls; 0 is the null pointer. *)
Class KHeap (H : Type) := {
  kmalloc : H -> Z -> Z * H;
  kfree : H -> Z -> H }.

(** What they promise: [live] gives the blocks handed out and not yet freed,
    with the size asked for.  A successful [kmalloc] returns a new block that
    overlaps no live one; [kfree] of a live block gives it back.  [hwf] is the
    heap's own invariant. *)
Class KHeapOk (H : Type) `{KHeap H} := {
  hwf : H -> Prop;
  live : H -> gmap Z Z;
  live_pos : forall h p n, hwf h -> live h !! p = Some n -> 0 < p /\ 0 < n /\ p + n <= 2 ^ 64;
  live_disjoint : forall h p n q k, hwf h ->
    live h !! p = Some n -> live h !! q = Some k -> p <> q -> p + n <= q \/ q + k <= p;
  kmalloc_ok : forall h n p h', hwf h -> 0 < n -> kmalloc h n = (p, h') ->
    hwf h' /\ ((p = 0 /\ live h' = live h) \/
               (p <> 0 /\ live h !! p = None /\ live h' = <[p := n]> (live h)));
  kfree_ok : forall h p, hwf h -> is_Some (live h !! p) ->
    hwf (kfree h p) /\ live (kfree h p) = delete p (live h) }.

End Bytes.
