(* ===== verification/CString.v ===== *)
(** * kernel/lib/string.c: memory and string routines

    A memory object is the list of its bytes (0..255) and a pointer into it is
    an offset, so overlapping copies are modelled as they happen.  A [const
    char *] argument is the list of bytes from the pointer on; reading past
    the end of the list yields 0, so a list without a 0 stands for the string
    it spells. *)

From S2P Require Import Prelude.
From Stdlib Require Import Ascii String ZArith Lia.
From stdpp Require Import base list gmap numbers.
Open Scope Z_scope.

Module CString.

(** A string literal, without its terminating zero. *)
Definition str (s : string) : list Z := map (fun c => Z.of_nat (nat_of_ascii c)) (list_ascii_of_string s).

(** ** Memory routines *)

(** [while (n--) *p++ = (unsigned char)c;] *)
Fixpoint memset (m : list Z) (p : nat) (c : Z) (n : nat) : list Z :=
  match n with
  | O => m
  | S n' => memset (<[p := u8 c]> m) (S p) c n'
  end.

(** [while (n--) *d++ = *s++;] *)
Fixpoint memcpy (m : list Z) (d s : nat) (n : nat) : list Z :=
  match n with
  | O => m
  | S n' => memcpy (<[d := nth s m 0]> m) (S d) (S s) n'
  end.

(** [while (n--) *--d = *--s;] from [d + n] and [s + n]. *)
Fixpoint memcpy_back (m : list Z) (d s : nat) (n : nat) : list Z :=
  match n with
  | O => m
  | S n' => memcpy_back (<[(d + n')%nat := nth (s + n') m 0]> m) d s n'
  end.

Definition memmove (m : list Z) (d s : nat) (n : nat) : list Z :=
  if (d <? s)%nat then memcpy m d s n else memcpy_back m d s n.

Fixpoint memcmp (s1 s2 : list Z) (n : nat) : Z :=
  match n with
  | O => 0
  | S n' =>
      let c1 := hd 0 s1 in let c2 := hd 0 s2 in
      if negb (c1 =? c2) then c1 - c2 else memcmp (tl s1) (tl s2) n'
  end.

(** ** String routines *)

Fixpoint strcmp (s1 s2 : list Z) : Z :=
  let c2 := hd 0 s2 in
  match s1 with
  | [] => 0 - c2
  | c1 :: t1 => if truthy c1 && (c1 =? c2) then strcmp t1 (tl s2) else c1 - c2
  end.

Fixpoint strncmp (s1 s2 : list Z) (n : nat) : Z :=
  match n with
  | O => 0
  | S n' =>
      let c1 := hd 0 s1 in let c2 := hd 0 s2 in
      if negb (truthy c1) || negb (truthy c2) || negb (c1 =? c2) then c1 - c2
      else strncmp (tl s1) (tl s2) n'
  end.

Fixpoint strlen (s : list Z) : nat :=
  match s with
  | [] => 0%nat
  | c :: t => if truthy c then S (strlen t) else 0%nat
  end.

(** First loop of [strncpy], then the zero fill; [d] is the offset written. *)
Fixpoint strncpy (dest : list Z) (d : nat) (src : list Z) (n : nat) : list Z :=
  match n with
  | O => dest
  | S n' =>
      if truthy (hd 0 src)
      then strncpy (<[d := hd 0 src]> dest) (S d) (tl src) n'
      else memset dest d 0 n
  end.

(** [char] is signed: the value a byte has when it is compared with an [int]. *)
Definition schar (x : Z) : Z := if x <? 128 then x else x - 256.

(** Pointers into the argument are offsets; [None] is the null pointer. *)
Fixpoint strchr (s : list Z) (c : Z) : option nat :=
  match s with
  | [] => None
  | x :: t => if truthy x then if schar x =? c then Some 0%nat else S <$> strchr t c else None
  end.

Fixpoint strrchr_from (s : list Z) (c : Z) (i : nat) (last : option nat) : option nat :=
  match s with
  | [] => last
  | x :: t => if truthy x then strrchr_from t c (S i) (if x =? u8 c then Some i else last) else last
  end.
Definition strrchr (s : list Z) (c : Z) : option nat := strrchr_from s c 0 None.

Fixpoint strncat_copy (dest : list Z) (d : nat) (src : list Z) (n : nat) : list Z :=
  match n with
  | O => <[d := 0]> dest
  | S n' =>
      if truthy (hd 0 src) then strncat_copy (<[d := hd 0 src]> dest) (S d) (tl src) n'
      else <[d := 0]> dest
  end.
Definition strncat (dest src : list Z) (n : nat) : list Z :=
  strncat_copy dest (strlen dest) src n.

(** ** The string a buffer holds *)

Fixpoint cstr (s : list Z) : list Z :=
  match s with
  | [] => []
  | c :: t => if truthy c then c :: cstr t else []
  end.

Lemma truthy_true c : truthy c = true <-> c <> 0.
Proof. unfold truthy. rewrite negb_true_iff, Z.eqb_neq. done. Qed.
Lemma truthy_false c : truthy c = false <-> c = 0.
Proof. unfold truthy. rewrite negb_false_iff, Z.eqb_eq. done. Qed.

Lemma cstr_nonzero s : Forall (fun c => c <> 0) (cstr s).
Proof.
  induction s as [|c s IH]; simpl; [constructor|].
  destruct (truthy c) eqn:E; constructor; [by apply truthy_true|done].
Qed.

Lemma cstr_idemp s : cstr (cstr s) = cstr s.
Proof.
  induction s as [|c s IH]; simpl; [done|]. destruct (truthy c) eqn:E; simpl; [|done].
  by rewrite E, IH.
Qed.

Lemma cstr_app_zero s t : Forall (fun c => c <> 0) s -> cstr (s ++ 0 :: t) = s.
Proof.
  induction s as [|c s IH]; intros H; simpl; [done|].
  apply list.Forall_cons in H as [Hc H]. apply truthy_true in Hc. by rewrite Hc, IH.
Qed.

Lemma cstr_id s : Forall (fun c => c <> 0) s -> cstr s = s.
Proof.
  induction s as [|c s IH]; intros H; simpl; [done|].
  apply list.Forall_cons in H as [Hc H]. apply truthy_true in Hc. by rewrite Hc, IH.
Qed.

Lemma strlen_cstr s : strlen s = length (cstr s).
Proof. induction s as [|c s IH]; simpl; [done|]. destruct (truthy c); simpl; by rewrite ?IH. Qed.

Lemma strlen_le s : (strlen s <= length s)%nat.
Proof. induction s as [|c s IH]; simpl; [lia|]. destruct (truthy c); lia. Qed.

(** [strcmp] and [strncmp] decide equality of the strings. *)
Lemma strcmp_eq s1 : forall s2, strcmp s1 s2 = 0 <-> cstr s1 = cstr s2.
Proof.
  induction s1 as [|c1 s1 IH]; intros s2; simpl.
  - destruct s2 as [|c2 s2]; simpl; [done|]. destruct (truthy c2) eqn:E.
    + apply truthy_true in E. split; [lia|done].
    + apply truthy_false in E. subst. done.
  - destruct (truthy c1) eqn:E1; simpl.
    + destruct s2 as [|c2 s2]; simpl.
      * apply truthy_true in E1. rewrite (proj2 (Z.eqb_neq c1 0)) by done. split; [lia|done].
      * destruct (Z.eqb_spec c1 c2) as [->|Hne].
        { rewrite E1, IH. split; [by intros ->|by intros [= ->]]. }
        split; [lia|]. destruct (truthy c2); [intros [= ? _]; done|done].
    + apply truthy_false in E1. subst. destruct s2 as [|c2 s2]; simpl; [done|].
      destruct (truthy c2) eqn:E; [apply truthy_true in E|apply truthy_false in E; subst];
        split; try done; lia.
Qed.

Lemma strncmp_eq n : forall s1 s2, strncmp s1 s2 n = 0 <-> take n (cstr s1) = take n (cstr s2).
Proof.
  induction n as [|n IH]; intros s1 s2; [by rewrite !take_0|]. cbn [strncmp].
  destruct s1 as [|c1 s1], s2 as [|c2 s2]; cbn [hd tl cstr].
  - done.
  - simpl. destruct (truthy c2) eqn:E; [apply truthy_true in E|apply truthy_false in E; subst].
    + split; [lia|done].
    + done.
  - destruct (truthy c1) eqn:E; simpl; [apply truthy_true in E|apply truthy_false in E; subst].
    + split; [lia|done].
    + done.
  - destruct (truthy c1) eqn:E1; simpl.
    + destruct (truthy c2) eqn:E2; simpl.
      * destruct (Z.eqb_spec c1 c2) as [->|Hne]; simpl.
        { rewrite IH. split; [by intros ->|by intros [= ->]]. }
        split; [lia|by intros [= ? _]].
      * apply truthy_true in E1. apply truthy_false in E2. subst. split; [lia|done].
    + apply truthy_false in E1. subst. destruct (truthy c2) eqn:E2; simpl.
      * apply truthy_true in E2. split; [lia|done].
      * apply truthy_false in E2. by subst.
Qed.

(** ** Effect of the memory routines *)

Lemma memset_inserts n : forall m p c,
  (p + n <= length m)%nat -> memset m p c n = list_inserts p (replicate n (u8 c)) m.
Proof.
  induction n as [|n IH]; intros m p c Hl; [done|]. simpl.
  rewrite IH by (rewrite length_insert; lia). by rewrite list_insert_inserts_lt by lia.
Qed.

Lemma length_memset n : forall m p c, length (memset m p c n) = length m.
Proof. induction n as [|n IH]; intros; simpl; [done|]. by rewrite IH, length_insert. Qed.

Lemma length_strncpy n : forall dest d src, length (strncpy dest d src n) = length dest.
Proof.
  induction n as [|n IH]; intros; simpl; [done|]. destruct (truthy _).
  - by rewrite IH, length_insert.
  - by rewrite length_memset, length_insert.
Qed.

Lemma memcpy_lookup n : forall m d s j,
  (d <= s \/ s + n <= d)%nat -> (s + n <= length m)%nat -> (d + n <= length m)%nat ->
  memcpy m d s n !! j = if decide (d <= j < d + n)%nat then m !! (s + (j - d))%nat else m !! j.
Proof.
  induction n as [|n IH]; intros m d s j Hov Hs Hd; simpl.
  { by rewrite decide_False by lia. }
  rewrite IH; rewrite ?length_insert; [|lia..].
  assert (Hn : Some (nth s m 0) = m !! s).
  { rewrite nth_lookup. destruct (lookup_lt_is_Some_2 m s) as [x ->]; [lia|done]. }
  destruct (decide (j = d)) as [->|Hj].
  - rewrite decide_False, decide_True by lia. rewrite list_lookup_insert_eq by lia.
    rewrite Hn. f_equal. lia.
  - case_decide.
    + rewrite decide_True by lia. rewrite list_lookup_insert_ne by lia. f_equal. lia.
    + rewrite decide_False by lia. by rewrite list_lookup_insert_ne by lia.
Qed.

Lemma memcpy_back_lookup n : forall m d s j,
  (s <= d)%nat -> (s + n <= length m)%nat -> (d + n <= length m)%nat ->
  memcpy_back m d s n !! j = if decide (d <= j < d + n)%nat then m !! (s + (j - d))%nat else m !! j.
Proof.
  induction n as [|n IH]; intros m d s j Hov Hs Hd; simpl.
  { by rewrite decide_False by lia. }
  rewrite IH; rewrite ?length_insert; [|lia..].
  assert (Hn : Some (nth (s + n) m 0) = m !! (s + n)%nat).
  { rewrite nth_lookup. destruct (lookup_lt_is_Some_2 m (s + n)) as [x ->]; [lia|done]. }
  destruct (decide (j = d + n)%nat) as [->|Hj].
  - rewrite decide_False, decide_True by lia. rewrite list_lookup_insert_eq by lia.
    rewrite Hn. f_equal. lia.
  - case_decide.
    + rewrite decide_True by lia. by rewrite list_lookup_insert_ne by lia.
    + rewrite decide_False by lia. by rewrite list_lookup_insert_ne by lia.
Qed.

(** The block of [n] bytes at offset [p]. *)
Definition slice (m : list Z) (p n : nat) : list Z := take n (drop p m).

Lemma lookup_slice m p n i :
  slice m p n !! i = if decide (i < n)%nat then m !! (p + i)%nat else None.
Proof.
  unfold slice. case_decide.
  - by rewrite lookup_take_lt, lookup_drop by lia.
  - by rewrite lookup_take_ge by lia.
Qed.

Lemma length_slice m p n : (p + n <= length m)%nat -> length (slice m p n) = n.
Proof. intros. unfold slice. rewrite length_take, length_drop. lia. Qed.

Lemma inserts_slice m m' d s n :
  (s + n <= length m)%nat -> (d + n <= length m)%nat ->
  (forall j, m' !! j = if decide (d <= j < d + n)%nat then m !! (s + (j - d))%nat else m !! j) ->
  m' = list_inserts d (slice m s n) m.
Proof.
  intros Hs Hd H. apply list_eq. intros j. rewrite H. case_decide as Hj.
  - rewrite list_lookup_inserts by (rewrite ?length_slice by done; lia).
    by rewrite lookup_slice, decide_True by lia.
  - destruct (decide (j < d)%nat).
    + by rewrite list_lookup_inserts_lt by lia.
    + by rewrite list_lookup_inserts_ge by (rewrite length_slice by done; lia).
Qed.

(** The [n] bytes [strncpy] writes: the string, cut or padded with zeros. *)
Definition strncpy_image (src : list Z) (n : nat) : list Z :=
  take n (cstr src) ++ replicate (n - length (cstr src)) 0.

Lemma length_strncpy_image src n : length (strncpy_image src n) = n.
Proof. unfold strncpy_image. rewrite length_app, length_take, length_replicate. lia. Qed.

Lemma strncpy_inserts n : forall dest d src,
  (d + n <= length dest)%nat -> strncpy dest d src n = list_inserts d (strncpy_image src n) dest.
Proof.
  induction n as [|n IH]; intros dest d src Hl; [done|]. cbn [strncpy].
  destruct src as [|c src]; cbn [hd tl].
  - simpl truthy. cbv iota. by rewrite memset_inserts by done.
  - unfold strncpy_image. cbn [cstr]. destruct (truthy c) eqn:E; cbv iota.
    + rewrite IH by (rewrite length_insert; lia). simpl.
      by rewrite list_insert_inserts_lt by lia.
    + by rewrite memset_inserts by done.
Qed.

Lemma cstr_app_stop s t : cstr s = s -> hd 0 t = 0 -> cstr (s ++ t) = s.
Proof.
  intros Hs Ht. rewrite <- Hs at 2. clear Hs.
  induction s as [|c s IH]; simpl.
  - destruct t as [|c t]; [done|]. simpl in *. by subst.
  - destruct (truthy c); [by rewrite IH|done].
Qed.

(** A name stored in a zeroed array of [n + 1] bytes with
    [strncpy(dst, src, n)] reads back as its first [n] characters. *)
Lemma cstr_strncpy_zeroed src n k : (n < k)%nat ->
  cstr (strncpy (replicate k 0) 0 src n) = take n (cstr src).
Proof.
  intros Hk. rewrite strncpy_inserts by (rewrite length_replicate; lia).
  rewrite <- (take_drop n (replicate k 0)).
  rewrite list_inserts_0_r by (rewrite length_strncpy_image, length_take, length_replicate; lia).
  unfold strncpy_image. rewrite <- app_assoc. apply cstr_app_stop.
  - apply cstr_id. apply Forall_take, cstr_nonzero.
  - rewrite drop_replicate. destruct (n - length (cstr src))%nat; simpl; [|done].
    destruct (k - n)%nat eqn:E; [lia|done].
Qed.

(** ** Properties *)

(** [memmove] copies the [n] source bytes as they were before the call,
    however source and destination overlap, and changes nothing else. *)
Theorem memmove_correct m d s n :
  (s + n <= length m)%nat -> (d + n <= length m)%nat ->
  memmove m d s n = list_inserts d (slice m s n) m.
Proof.
  intros Hs Hd. apply inserts_slice; [done|done|]. intros j. unfold memmove.
  destruct (Nat.ltb_spec d s).
  - by rewrite memcpy_lookup by lia.
  - by rewrite memcpy_back_lookup by lia.
Qed.

Lemma memmove_correct_witness :
  memmove [1; 2; 3; 4; 5] 1 0 4 = list_inserts 1 (slice [1; 2; 3; 4; 5] 0 4) [1; 2; 3; 4; 5] /\
  memmove [1; 2; 3; 4; 5] 1 0 4 = [1; 1; 2; 3; 4].
Proof.
  split; [|reflexivity]. apply (memmove_correct [1; 2; 3; 4; 5] 1 0 4); simpl; lia.
Defined.

(** [strcmp] is 0 exactly on equal strings and [strncmp] exactly on
    strings that agree on their first [n] characters; a name stored with
    [strncpy] into a zeroed array one byte longer reads back as its first [n]
    characters. *)
Theorem string_compare_correct :
  (forall s1 s2, strcmp s1 s2 = 0 <-> cstr s1 = cstr s2) /\
  (forall n s1 s2, strncmp s1 s2 n = 0 <-> take n (cstr s1) = take n (cstr s2)) /\
  (forall src n k, (n < k)%nat -> cstr (strncpy (replicate k 0) 0 src n) = take n (cstr src)).
Proof.
  split_and!; [intros; apply strcmp_eq|intros; apply strncmp_eq|intros; by apply cstr_strncpy_zeroed].
Qed.

End CString.
