(* ===== verification/Ringbuf.v ===== *)
(** * kernel/ipc/ringbuf.h: the lock-free ring buffer

    [write_idx] and [read_idx] are monotonic 64-bit counters that wrap; the
    slot of a counter value is its low bits.  The data region is the list of
    its bytes. *)

From S2P Require Import Prelude CString.
From Stdlib Require Import ZArith Lia.
From stdpp Require Import base list gmap numbers.
Open Scope Z_scope.

Module Ringbuf.
Import CString.

Definition RINGBUF_MAGIC : Z := 0x52494E4742554631.
Definition RINGBUF_VERSION : Z := 1.

Record ringbuf_t := mkRing {
  magic : Z; version : Z; slot_size : Z; slot_count : Z;
  write_idx : Z; read_idx : Z;
  data : list Z }.

(** [sizeof(ringbuf_t)]: the data region follows the 64-byte header. *)
Definition RINGBUF_HDR : Z := 64.

Definition is_pow2 (n : Z) : bool := truthy n && negb (truthy (Z.land n (u32 (n - 1)))).

Definition ringbuf_required_size (ss sc : Z) : Z := u64 (RINGBUF_HDR + u64 (ss * sc)).

(** [ringbuf_init] on a memory area whose bytes read as the (arbitrary) ring
    header and data [mem]; [None] is the null pointer.  On failure the memory
    is left as it was. *)
Definition ringbuf_init (mem : option ringbuf_t) (ss sc : Z) : Z * option ringbuf_t :=
  match mem with
  | None => (-1, None)
  | Some rb =>
      if negb (is_pow2 ss) || (ss <? 8) then (-1, mem)
      else if negb (is_pow2 sc) || (sc <? 2) then (-1, mem)
      else (0, Some (mkRing RINGBUF_MAGIC RINGBUF_VERSION ss sc 0 0
                       (memset (data rb) 0 0 (Z.to_nat (ss * sc)))))
  end.

Definition ringbuf_valid (rb : ringbuf_t) : bool :=
  (magic rb =? RINGBUF_MAGIC) && (version rb =? RINGBUF_VERSION) &&
  is_pow2 (slot_size rb) && (8 <=? slot_size rb) &&
  is_pow2 (slot_count rb) && (2 <=? slot_count rb).

Definition set_data (rb : ringbuf_t) (d : list Z) : ringbuf_t :=
  mkRing (magic rb) (version rb) (slot_size rb) (slot_count rb) (write_idx rb) (read_idx rb) d.
Definition set_write (rb : ringbuf_t) (w : Z) : ringbuf_t :=
  mkRing (magic rb) (version rb) (slot_size rb) (slot_count rb) w (read_idx rb) (data rb).
Definition set_read (rb : ringbuf_t) (r : Z) : ringbuf_t :=
  mkRing (magic rb) (version rb) (slot_size rb) (slot_count rb) (write_idx rb) r (data rb).

(** Byte offset of the slot of index [i] in the data region. *)
Definition slot_off (rb : ringbuf_t) (i : Z) : nat :=
  Z.to_nat (Z.land i (u32 (slot_count rb - 1)) * slot_size rb).

(** [memcpy(slot, src, size)] and [memcpy(dst, slot, size)]. *)
Definition slot_write (rb : ringbuf_t) (i : Z) (src : list Z) (size : Z) : ringbuf_t :=
  set_data rb (list_inserts (slot_off rb i) (take (Z.to_nat size) src) (data rb)).
Definition slot_read (rb : ringbuf_t) (i : Z) (size : Z) : list Z :=
  slice (data rb) (slot_off rb i) (Z.to_nat size).

Definition ringbuf_push (rb : ringbuf_t) (src : list Z) (size : Z) : Z * ringbuf_t :=
  let widx := write_idx rb in
  let ridx := read_idx rb in
  if u64 (widx - ridx) =? slot_count rb then (-1, rb)
  else if slot_size rb <? size then (-1, rb)
  else (0, set_write (slot_write rb widx src size) (u64 (widx + 1))).

Definition ringbuf_pop (rb : ringbuf_t) (size : Z) : Z * list Z * ringbuf_t :=
  let ridx := read_idx rb in
  let widx := write_idx rb in
  if ridx =? widx then (-1, [], rb)
  else if slot_size rb <? size then (-1, [], rb)
  else (0, slot_read rb ridx size, set_read rb (u64 (ridx + 1))).

(** [for (i = 0; i < n; i++) memcpy(slot(widx + i), src + i * item_size, item_size)] *)
Fixpoint push_items (rb : ringbuf_t) (widx : Z) (src : list Z) (item : Z) (i : nat) (n : nat) : ringbuf_t :=
  match n with
  | O => rb
  | S n' =>
      let rb := slot_write rb (u64 (widx + Z.of_nat i))
                  (drop (i * Z.to_nat item) src) item in
      push_items rb widx src item (S i) n'
  end.

Definition ringbuf_push_batch (rb : ringbuf_t) (items : list Z) (item n : Z) : Z * ringbuf_t :=
  let widx := write_idx rb in
  let ridx := read_idx rb in
  let avail := u32 (slot_count rb - u32 (u64 (widx - ridx))) in
  let n := if avail <? n then avail else n in
  if slot_size rb <? item then (0, rb)
  else (n, set_write (push_items rb widx items item 0 (Z.to_nat n)) (u64 (widx + n))).

Fixpoint pop_items (rb : ringbuf_t) (ridx item : Z) (i n : nat) : list Z :=
  match n with
  | O => []
  | S n' => slot_read rb (u64 (ridx + Z.of_nat i)) item ++ pop_items rb ridx item (S i) n'
  end.

Definition ringbuf_pop_batch (rb : ringbuf_t) (item n : Z) : Z * list Z * ringbuf_t :=
  let ridx := read_idx rb in
  let widx := write_idx rb in
  let avail := u32 (u64 (widx - ridx)) in
  let n := if avail <? n then avail else n in
  if slot_size rb <? item then (0, [], rb)
  else (n, pop_items rb ridx item 0 (Z.to_nat n), set_read rb (u64 (ridx + n))).

Definition ringbuf_used (rb : ringbuf_t) : Z :=
  let d := u32 (u64 (write_idx rb - read_idx rb)) in
  if d <? slot_count rb then d else slot_count rb.
Definition ringbuf_free (rb : ringbuf_t) : Z := u32 (slot_count rb - ringbuf_used rb).
Definition ringbuf_empty (rb : ringbuf_t) : bool := write_idx rb =? read_idx rb.
Definition ringbuf_full (rb : ringbuf_t) : bool := ringbuf_used rb =? slot_count rb.

(** ** Powers of two *)

Lemma is_pow2_spec n : 0 <= n < 2 ^ 32 -> is_pow2 n = true -> exists k, 0 <= k < 32 /\ n = 2 ^ k.
Proof.
  intros Hn H. unfold is_pow2 in H. zbool. apply truthy_true in H.
  apply truthy_false in H0. rewrite u32_small in H0 by lia.
  exists (Z.log2 n). pose proof (Z.log2_spec n ltac:(lia)) as [H1 H2].
  split. { split; [apply Z.log2_nonneg|]. apply Z.log2_lt_pow2; lia. }
  destruct (Z.eq_dec n (2 ^ Z.log2 n)) as [|Hne]; [done|exfalso].
  pose proof (pow2_pos (Z.log2 n) (Z.log2_nonneg n)).
  assert (Hb : Z.testbit (Z.land n (n - 1)) (Z.log2 n) = true).
  { rewrite Z.land_spec, Z.bit_log2 by lia. simpl.
    replace (Z.log2 n) with (Z.log2 (n - 1)).
    - apply Z.bit_log2. lia.
    - apply Z.log2_unique; [apply Z.log2_nonneg|lia]. }
  rewrite H0, Z.bits_0 in Hb. done.
Qed.

(** ** Slots *)

(** A ring whose header is valid and whose data region has the right size. *)
Record ring_wf (rb : ringbuf_t) : Prop := {
  rw_valid : ringbuf_valid rb = true;
  rw_ss : 0 <= slot_size rb < 2 ^ 32;
  rw_sc : 0 <= slot_count rb < 2 ^ 32;
  rw_w : 0 <= write_idx rb < 2 ^ 64;
  rw_r : 0 <= read_idx rb < 2 ^ 64;
  rw_data : Z.of_nat (length (data rb)) = slot_size rb * slot_count rb;
  rw_used : u64 (write_idx rb - read_idx rb) <= slot_count rb }.

Lemma ring_sc rb : ring_wf rb ->
  exists k, 1 <= k < 32 /\ slot_count rb = 2 ^ k /\ 8 <= slot_size rb.
Proof.
  intros [Hv _ Hsc _ _ _ _]. unfold ringbuf_valid in Hv. zbool.
  destruct (is_pow2_spec (slot_count rb)) as (k & Hk & E); [lia|done|].
  exists k. split; [|split; [done|lia]]. assert (k <> 0); [|lia]. intros ->.
  rewrite E in *. change (2 ^ 0) with 1 in *. lia.
Qed.

(** The slot of an index is the index modulo the number of slots. *)
Lemma slot_off_mod rb i : ring_wf rb ->
  slot_off rb i = Z.to_nat ((i mod slot_count rb) * slot_size rb).
Proof.
  intros Hw. destruct (ring_sc rb Hw) as (k & Hk & E & _). unfold slot_off.
  pose proof (rw_sc _ Hw). rewrite u32_small by (pose proof (pow2_pos k); lia).
  rewrite E, land_mask_low by lia. done.
Qed.

Lemma slot_off_u64 rb i : ring_wf rb -> slot_off rb (u64 i) = slot_off rb i.
Proof.
  intros Hw. destruct (ring_sc rb Hw) as (k & Hk & E & _). rewrite !slot_off_mod by done.
  rewrite E. do 2 f_equal. apply Z.mod_mod_divide.
  exists (2 ^ (64 - k)). rewrite <- Z.pow_add_r by lia. f_equal. lia.
Qed.

Lemma slot_off_bound rb i : ring_wf rb ->
  (slot_off rb i + Z.to_nat (slot_size rb) <= length (data rb))%nat.
Proof.
  intros Hw. destruct (ring_sc rb Hw) as (k & Hk & E & Hss). rewrite slot_off_mod by done.
  pose proof (rw_data _ Hw). pose proof (pow2_pos k).
  pose proof (Z.mod_pos_bound i (slot_count rb)). nia.
Qed.

(** Different slots do not overlap. *)
Lemma slot_off_apart rb i j : ring_wf rb -> i mod slot_count rb <> j mod slot_count rb ->
  (slot_off rb i + Z.to_nat (slot_size rb) <= slot_off rb j \/
   slot_off rb j + Z.to_nat (slot_size rb) <= slot_off rb i)%nat.
Proof.
  intros Hw Hne. destruct (ring_sc rb Hw) as (k & Hk & E & Hss).
  rewrite !slot_off_mod by done. pose proof (pow2_pos k).
  pose proof (Z.mod_pos_bound i (slot_count rb)). pose proof (Z.mod_pos_bound j (slot_count rb)).
  nia.
Qed.

(** Indices less than [slot_count] apart have different slots. *)
Lemma mod_apart sc r i j : 0 < sc -> 0 <= i < sc -> 0 <= j < sc -> i <> j ->
  (r + i) mod sc <> (r + j) mod sc.
Proof.
  intros Hsc Hi Hj Hne E. assert ((i - j) mod sc = 0).
  { replace (i - j) with ((r + i) - (r + j)) by lia.
    by rewrite Zminus_mod, E, Z.sub_diag, Zmod_0_l. }
  apply Z.mod_divide in H as [q Hq]; [|lia]. assert (q = 0) by nia. lia.
Qed.

(** ** The queue a ring holds *)

Definition slot (rb : ringbuf_t) (i : Z) : list Z := slot_read rb i (slot_size rb).

Definition used (rb : ringbuf_t) : Z := u64 (write_idx rb - read_idx rb).

(** The slots from [read_idx] up to [write_idx], oldest first. *)
Definition queue (rb : ringbuf_t) : list (list Z) :=
  map (fun i => slot rb (u64 (read_idx rb + Z.of_nat i))) (seq 0 (Z.to_nat (used rb))).

Lemma used_bound rb : ring_wf rb -> 0 <= used rb <= slot_count rb.
Proof.
  intros Hw. split; [|apply (rw_used _ Hw)]. unfold used.
  pose proof (Z.mod_pos_bound (write_idx rb - read_idx rb) (2 ^ 64)). lia.
Qed.

Lemma write_eq rb : ring_wf rb -> write_idx rb = u64 (read_idx rb + used rb).
Proof.
  intros Hw. unfold used. rewrite Zplus_mod_idemp_r.
  replace (read_idx rb + (write_idx rb - read_idx rb)) with (write_idx rb) by lia.
  symmetry. apply Z.mod_small, Hw.
Qed.

Lemma length_slot rb i : ring_wf rb -> length (slot rb i) = Z.to_nat (slot_size rb).
Proof. intros Hw. apply length_slice, slot_off_bound, Hw. Qed.

(** A write to one slot, seen from every slot. *)
Lemma slot_write_ne rb i j src size : ring_wf rb ->
  i mod slot_count rb <> j mod slot_count rb -> size <= slot_size rb ->
  slot (slot_write rb i src size) j = slot rb j.
Proof.
  intros Hw Hne Hsz. unfold slot, slot_read. change (slot_size (slot_write _ _ _ _)) with (slot_size rb).
  change (slot_off (slot_write _ _ _ _) j) with (slot_off rb j).
  apply list_eq. intros n. rewrite !lookup_slice. case_decide; [|done].
  unfold slot_write; simpl. destruct (slot_off_apart rb i j Hw Hne).
  - rewrite list_lookup_inserts_ge; [done|]. rewrite length_take. lia.
  - rewrite list_lookup_inserts_lt; [done|]. lia.
Qed.

Lemma slot_write_eq rb i src size : ring_wf rb ->
  0 <= size <= slot_size rb -> size <= Z.of_nat (length src) ->
  slot (slot_write rb i src size) i =
  take (Z.to_nat size) src ++ drop (Z.to_nat size) (slot rb i).
Proof.
  intros Hw Hsz Hl. unfold slot, slot_read. change (slot_size (slot_write _ _ _ _)) with (slot_size rb).
  change (slot_off (slot_write _ _ _ _) i) with (slot_off rb i).
  pose proof (slot_off_bound rb i Hw). apply list_eq. intros n. rewrite lookup_slice.
  assert (Hlt : length (take (Z.to_nat size) src) = Z.to_nat size) by (rewrite length_take; lia).
  unfold slot_write; simpl. destruct (decide (n < Z.to_nat size)%nat).
  - rewrite decide_True, list_lookup_inserts by lia. rewrite lookup_app_l by lia. f_equal. lia.
  - rewrite lookup_app_r, lookup_drop, lookup_slice by lia. rewrite Hlt.
    replace (Z.to_nat size + (n - Z.to_nat size))%nat with n by lia.
    case_decide; [|done]. by rewrite list_lookup_inserts_ge by lia.
Qed.

(** ** Single-threaded operations *)

Lemma queue_ext rb rb' :
  read_idx rb' = read_idx rb -> used rb' = used rb ->
  (forall i, 0 <= i < used rb -> slot rb' (u64 (read_idx rb + i)) = slot rb (u64 (read_idx rb + i))) ->
  queue rb' = queue rb.
Proof.
  intros Hr Hu Hs. unfold queue. rewrite Hr, Hu. apply map_ext_in. intros i Hi.
  apply in_seq in Hi. apply Hs. lia.
Qed.

Lemma mod_u64 i rb : ring_wf rb -> (u64 i) mod slot_count rb = i mod slot_count rb.
Proof.
  intros Hw. destruct (ring_sc rb Hw) as (k & Hk & E & _). rewrite E.
  apply Z.mod_mod_divide. exists (2 ^ (64 - k)). rewrite <- Z.pow_add_r by lia.
  f_equal. lia.
Qed.

(** Writing the next free slot does not disturb the queue. *)
Lemma write_free_slot rb src size i : ring_wf rb -> size <= slot_size rb ->
  0 <= i -> used rb + i < slot_count rb ->
  queue (slot_write rb (u64 (write_idx rb + i)) src size) = queue rb.
Proof.
  intros Hw Hsz Hi Hfree. pose proof (used_bound rb Hw).
  apply queue_ext; [done|done|]. intros j Hj. apply slot_write_ne; [done| |done].
  rewrite !mod_u64 by done. rewrite (write_eq rb Hw).
  rewrite <- (mod_u64 (_ + i) rb Hw), Zplus_mod_idemp_l, mod_u64, <- Z.add_assoc by done.
  apply mod_apart; lia.
Qed.

Lemma ring_wf_slot_write rb i src size : ring_wf rb -> ring_wf (slot_write rb i src size).
Proof. intros []. split; try done. unfold slot_write; simpl. by rewrite length_inserts. Qed.

Lemma used_advance rb n : ring_wf rb -> 0 <= n -> used rb + n <= slot_count rb ->
  used (set_write rb (u64 (write_idx rb + n))) = used rb + n.
Proof.
  intros Hw Hn Hle. pose proof (used_bound rb Hw). unfold used in *; simpl.
  rewrite Zminus_mod_idemp_l.
  replace (write_idx rb + n - read_idx rb) with ((write_idx rb - read_idx rb) + n) by lia.
  rewrite <- Zplus_mod_idemp_l. apply Z.mod_small. pose proof (rw_sc _ Hw). lia.
Qed.

(** Publishing [n] written slots. *)
Lemma publish_ok rb n : ring_wf rb -> 0 <= n -> used rb + n <= slot_count rb ->
  let rb' := set_write rb (u64 (write_idx rb + n)) in
  ring_wf rb' /\
  queue rb' = queue rb ++
    map (fun i => slot rb (u64 (write_idx rb + Z.of_nat i))) (seq 0 (Z.to_nat n)).
Proof.
  intros Hw Hn Hle rb'. pose proof (used_advance rb n Hw Hn Hle) as Hu. fold rb' in Hu.
  pose proof (used_bound rb Hw). split.
  - destruct Hw. split; try done; [apply Z.mod_pos_bound; lia|].
    change (used rb' <= slot_count rb). lia.
  - unfold queue. rewrite Hu. rewrite Z2Nat.inj_add, seq_app, map_app by lia. f_equal.
    simpl. rewrite <- (Nat.add_0_r (Z.to_nat (used rb))), <- fmap_add_seq.
    change (fmap (Nat.add ?a) ?l) with (map (Nat.add a) l). rewrite map_map.
    apply map_ext. intros i. change (slot rb') with (slot rb).
    change (read_idx rb') with (read_idx rb). f_equal.
    rewrite (write_eq rb Hw), Zplus_mod_idemp_l. f_equal. lia.
Qed.

Lemma ringbuf_push_ok rb src size : ring_wf rb ->
  0 <= size <= slot_size rb -> size <= Z.of_nat (length src) -> used rb < slot_count rb ->
  exists rb', ringbuf_push rb src size = (0, rb') /\ ring_wf rb' /\
    queue rb' = queue rb ++ [take (Z.to_nat size) src ++ drop (Z.to_nat size) (slot rb (write_idx rb))].
Proof.
  intros Hw Hsz Hl Hu. unfold ringbuf_push. change (u64 (write_idx rb - read_idx rb)) with (used rb).
  rewrite (proj2 (Z.eqb_neq (used rb) _)) by lia. rewrite (proj2 (Z.ltb_ge _ _)) by lia.
  eexists. split; [done|]. set (rb1 := slot_write _ _ _ _).
  destruct (publish_ok rb1 1) as [Hw' Hq]; [by apply ring_wf_slot_write|lia|simpl; unfold used in *; simpl; lia|].
  split; [done|]. change (write_idx rb1) with (write_idx rb) in *. rewrite Hq.
  change (seq 0 (Z.to_nat 1)) with [0%nat]. cbn [map]. change (Z.of_nat 0) with 0.
  assert (Hwi : u64 (write_idx rb + 0) = write_idx rb) by (rewrite Z.add_0_r; apply Z.mod_small, Hw).
  f_equal.
  - unfold rb1. rewrite <- Hwi. apply write_free_slot; [done|lia|lia|lia].
  - rewrite Hwi. f_equal. by apply slot_write_eq.
Qed.

Lemma ringbuf_push_full rb src size : ring_wf rb ->
  used rb = slot_count rb \/ slot_size rb < size -> ringbuf_push rb src size = (-1, rb).
Proof.
  intros Hw Hc. unfold ringbuf_push. change (u64 (write_idx rb - read_idx rb)) with (used rb).
  destruct (Z.eqb_spec (used rb) (slot_count rb)); [done|].
  destruct (Z.ltb_spec (slot_size rb) size); [done|lia].
Qed.

Lemma used_0 rb : ring_wf rb -> used rb = 0 <-> read_idx rb = write_idx rb.
Proof.
  intros Hw. split; intros H.
  - rewrite (write_eq rb Hw), H, Z.add_0_r. symmetry. apply Z.mod_small, Hw.
  - unfold used. by rewrite H, Z.sub_diag.
Qed.

Lemma consume_ok rb n : ring_wf rb -> 0 <= n <= used rb ->
  let rb' := set_read rb (u64 (read_idx rb + n)) in
  ring_wf rb' /\ used rb' = used rb - n /\
  queue rb = map (fun i => slot rb (u64 (read_idx rb + Z.of_nat i))) (seq 0 (Z.to_nat n)) ++ queue rb'.
Proof.
  intros Hw Hn rb'. pose proof (used_bound rb Hw) as Hb. pose proof (rw_sc _ Hw).
  assert (Hu : used rb' = used rb - n).
  { unfold used in *; simpl. rewrite Zminus_mod_idemp_r.
    replace (write_idx rb - (read_idx rb + n)) with ((write_idx rb - read_idx rb) - n) by lia.
    rewrite <- Zminus_mod_idemp_l. apply Z.mod_small. lia. }
  split_and!; [|done|].
  - destruct Hw. split; try done; [apply Z.mod_pos_bound; lia|].
    change (used rb' <= slot_count rb). lia.
  - unfold queue. rewrite Hu. replace (Z.to_nat (used rb)) with (Z.to_nat n + Z.to_nat (used rb - n))%nat by lia.
    rewrite seq_app, map_app. f_equal. simpl.
    rewrite <- (Nat.add_0_r (Z.to_nat n)), <- fmap_add_seq.
    change (fmap (Nat.add ?a) ?l) with (map (Nat.add a) l). rewrite map_map.
    apply map_ext. intros i. change (slot rb') with (slot rb). f_equal.
    rewrite Zplus_mod_idemp_l. f_equal. lia.
Qed.

Lemma slot_read_take rb i size : 0 <= size <= slot_size rb ->
  slot_read rb i size = take (Z.to_nat size) (slot rb i).
Proof.
  intros. unfold slot, slot_read, slice. rewrite take_take. f_equal. lia.
Qed.

Lemma queue_empty rb : ring_wf rb -> queue rb = [] <-> used rb = 0.
Proof.
  intros Hw. pose proof (used_bound rb Hw). unfold queue. split; intros H1.
  - apply map_eq_nil in H1. apply (f_equal length) in H1. rewrite length_seq in H1. simpl in H1. lia.
  - by rewrite H1.
Qed.

Lemma ringbuf_pop_ok rb size e q : ring_wf rb -> 0 <= size <= slot_size rb -> queue rb = e :: q ->
  exists rb', ringbuf_pop rb size = (0, take (Z.to_nat size) e, rb') /\ ring_wf rb' /\ queue rb' = q.
Proof.
  intros Hw Hsz Hq. unfold ringbuf_pop. pose proof (used_bound rb Hw).
  assert (Hu : used rb <> 0) by (intros E; apply queue_empty in E; [congruence|done]).
  destruct (Z.eqb_spec (read_idx rb) (write_idx rb)) as [E|_]; [apply used_0 in E; done|].
  rewrite (proj2 (Z.ltb_ge _ _)) by lia.
  destruct (consume_ok rb 1 Hw) as (Hw' & _ & Hq'); [lia|]. rewrite Hq in Hq'.
  change (seq 0 (Z.to_nat 1)) with [0%nat] in Hq'. cbn [map app] in Hq'. change (Z.of_nat 0) with 0 in Hq'.
  rewrite Z.add_0_r, u64_small in Hq' by apply Hw. injection Hq' as -> Hq'.
  eexists. rewrite slot_read_take by lia. done.
Qed.

Lemma ringbuf_pop_fail rb size : ring_wf rb ->
  queue rb = [] \/ slot_size rb < size -> ringbuf_pop rb size = (-1, [], rb).
Proof.
  intros Hw Hc. unfold ringbuf_pop. destruct (Z.eqb_spec (read_idx rb) (write_idx rb)) as [|E]; [done|].
  destruct (Z.ltb_spec (slot_size rb) size); [done|]. destruct Hc as [Hq|]; [|lia].
  apply queue_empty, used_0 in Hq; done.
Qed.

Lemma length_queue rb : length (queue rb) = Z.to_nat (used rb).
Proof. unfold queue. by rewrite length_map, length_seq. Qed.

(** ** Batches are iterated single operations *)

(** Push up to [n] items of [item] bytes, one [ringbuf_push] each, stopping at
    the first failure; the number pushed is returned. *)
Fixpoint push_seq (rb : ringbuf_t) (src : list Z) (item : Z) (n : nat) : Z * ringbuf_t :=
  match n with
  | O => (0, rb)
  | S n' =>
      let '(rc, rb') := ringbuf_push rb src item in
      if rc =? 0
      then let '(k, rb'') := push_seq rb' (drop (Z.to_nat item) src) item n' in (k + 1, rb'')
      else (0, rb)
  end.

Fixpoint pop_seq (rb : ringbuf_t) (item : Z) (n : nat) : Z * list Z * ringbuf_t :=
  match n with
  | O => (0, [], rb)
  | S n' =>
      let '(rc, b, rb') := ringbuf_pop rb item in
      if rc =? 0
      then let '(k, bs, rb'') := pop_seq rb' item n' in (k + 1, b ++ bs, rb'')
      else (0, [], rb)
  end.

Lemma push_items_shift rb w src item i n : ring_wf rb ->
  push_items rb w src item i n =
  push_items rb (u64 (w + Z.of_nat i)) (drop (i * Z.to_nat item) src) item 0 n.
Proof.
  intros _. enough (H : forall j, push_items rb w src item (i + j) n =
    push_items rb (u64 (w + Z.of_nat i)) (drop (i * Z.to_nat item) src) item j n)
    by (specialize (H 0%nat); by rewrite Nat.add_0_r in H).
  revert rb. induction n as [|n IH]; intros rb j; [done|]. cbn [push_items].
  rewrite Zplus_mod_idemp_l, drop_drop.
  replace (i * Z.to_nat item + j * Z.to_nat item)%nat with ((i + j) * Z.to_nat item)%nat by lia.
  replace (w + Z.of_nat i + Z.of_nat j) with (w + Z.of_nat (i + j)) by lia.
  rewrite <- IH. by rewrite <- plus_n_Sm.
Qed.

Lemma push_items_set_write rb w src item i n x :
  push_items (set_write rb x) w src item i n = set_write (push_items rb w src item i n) x.
Proof. revert rb i. induction n as [|n IH]; intros; [done|]. cbn [push_items]. by rewrite <- IH. Qed.

Lemma pop_items_shift rb r item i n : 
  pop_items rb r item i n = pop_items rb (u64 (r + Z.of_nat i)) item 0 n.
Proof.
  enough (H : forall j, pop_items rb r item (i + j) n = pop_items rb (u64 (r + Z.of_nat i)) item j n)
    by (specialize (H 0%nat); by rewrite Nat.add_0_r in H).
  induction n as [|n IH]; intros j; [done|]. cbn [pop_items]. rewrite Zplus_mod_idemp_l.
  replace (r + Z.of_nat i + Z.of_nat j) with (r + Z.of_nat (i + j)) by lia.
  rewrite <- IH. by rewrite <- plus_n_Sm.
Qed.

Lemma pop_items_set_read rb x r item i n :
  pop_items (set_read rb x) r item i n = pop_items rb r item i n.
Proof. revert i. induction n as [|n IH]; intros; [done|]. cbn [pop_items]. by rewrite IH. Qed.

(** One successful push, as the state it leaves. *)
Lemma push_step rb src item : ring_wf rb -> item <= slot_size rb -> used rb < slot_count rb ->
  let rb' := set_write (slot_write rb (write_idx rb) src item) (u64 (write_idx rb + 1)) in
  ringbuf_push rb src item = (0, rb') /\ ring_wf rb' /\ used rb' = used rb + 1.
Proof.
  intros Hw Hi Hu rb'. set (rb1 := slot_write rb (write_idx rb) src item).
  assert (Hw1 : ring_wf rb1) by by apply ring_wf_slot_write.
  assert (Hu1 : used rb1 + 1 <= slot_count rb1) by (change (used rb + 1 <= slot_count rb); lia).
  split_and!; [|by apply (publish_ok rb1 1 Hw1)|by apply (used_advance rb1 1 Hw1)].
  unfold ringbuf_push. change (u64 (write_idx rb - read_idx rb)) with (used rb).
  rewrite (proj2 (Z.eqb_neq (used rb) _)), (proj2 (Z.ltb_ge _ _)) by lia. done.
Qed.

Lemma pop_step rb item : ring_wf rb -> item <= slot_size rb -> 0 < used rb ->
  let rb' := set_read rb (u64 (read_idx rb + 1)) in
  ringbuf_pop rb item = (0, slot_read rb (read_idx rb) item, rb') /\ ring_wf rb' /\ used rb' = used rb - 1.
Proof.
  intros Hw Hi Hu rb'. destruct (consume_ok rb 1 Hw) as (Hw' & Hu' & _); [lia|].
  split_and!; [|done|done]. unfold ringbuf_pop.
  destruct (Z.eqb_spec (read_idx rb) (write_idx rb)) as [E|_]; [apply used_0 in E; [lia|done]|].
  by rewrite (proj2 (Z.ltb_ge _ _)) by lia.
Qed.

Lemma push_seq_items rb src item n : ring_wf rb -> item <= slot_size rb ->
  used rb + Z.of_nat n <= slot_count rb ->
  push_seq rb src item n =
  (Z.of_nat n, set_write (push_items rb (write_idx rb) src item 0 n) (u64 (write_idx rb + Z.of_nat n))).
Proof.
  revert rb src. induction n as [|n IH]; intros rb src Hw Hi Hu.
  { destruct rb. cbn [push_seq push_items]. f_equal. unfold set_write; simpl. f_equal.
    rewrite Z.add_0_r. symmetry. apply Z.mod_small, Hw. }
  cbn [push_seq push_items]. destruct (push_step rb src item) as (-> & Hw' & Hu'); [done|lia|lia|].
  cbn [Z.eqb]. rewrite IH; [|done|done|rewrite Hu'; simpl; lia]. f_equal; [lia|].
  change (Z.of_nat 0) with 0. rewrite Z.add_0_r, (u64_small (write_idx rb)) by apply Hw.
  rewrite Nat.mul_0_l, drop_0, push_items_set_write,
    (push_items_shift (slot_write _ _ _ _) _ _ _ 1) by by apply ring_wf_slot_write.
  change (Z.of_nat 1) with 1. rewrite Nat.mul_1_l.
  unfold set_write; cbn [write_idx magic version slot_size slot_count read_idx data].
  rewrite Zplus_mod_idemp_l. do 2 f_equal. lia.
Qed.

Lemma push_seq_stop rb src item n m : ring_wf rb -> item <= slot_size rb ->
  used rb + Z.of_nat n = slot_count rb -> (n <= m)%nat -> push_seq rb src item m = push_seq rb src item n.
Proof.
  revert rb src m. induction n as [|n IH]; intros rb src m Hw Hi Hu Hm.
  - destruct m; [done|]. cbn [push_seq]. rewrite ringbuf_push_full by (done || left; lia). done.
  - destruct m as [|m]; [lia|]. cbn [push_seq].
    destruct (push_step rb src item) as (-> & Hw' & Hu'); [done|lia|lia|]. cbn [Z.eqb].
    rewrite (IH _ _ m); [done|done|done|rewrite Hu'; simpl; lia|lia].
Qed.

Lemma pop_seq_items rb item n : ring_wf rb -> item <= slot_size rb -> Z.of_nat n <= used rb ->
  pop_seq rb item n =
  (Z.of_nat n, pop_items rb (read_idx rb) item 0 n, set_read rb (u64 (read_idx rb + Z.of_nat n))).
Proof.
  revert rb. induction n as [|n IH]; intros rb Hw Hi Hu.
  { destruct rb. cbn [pop_seq pop_items]. f_equal. unfold set_read; simpl. f_equal.
    rewrite Z.add_0_r. symmetry. apply Z.mod_small, Hw. }
  cbn [pop_seq pop_items]. destruct (pop_step rb item) as (-> & Hw' & Hu'); [done|lia|lia|].
  cbn [Z.eqb]. rewrite IH; [|done|done|rewrite Hu'; lia].
  change (Z.of_nat 0) with 0. rewrite Z.add_0_r, (u64_small (read_idx rb)) by apply Hw.
  rewrite (pop_items_shift rb (read_idx rb) item 1), pop_items_set_read. change (Z.of_nat 1) with 1.
  unfold set_read; cbn [write_idx magic version slot_size slot_count read_idx data].
  rewrite Zplus_mod_idemp_l. f_equal; [f_equal; lia|]. do 2 f_equal. lia.
Qed.

Lemma pop_seq_stop rb item n m : ring_wf rb -> item <= slot_size rb ->
  used rb = Z.of_nat n -> (n <= m)%nat -> pop_seq rb item m = pop_seq rb item n.
Proof.
  revert rb m. induction n as [|n IH]; intros rb m Hw Hi Hu Hm.
  - destruct m; [done|]. cbn [pop_seq]. rewrite ringbuf_pop_fail by (done || left; by apply queue_empty). done.
  - destruct m as [|m]; [lia|]. cbn [pop_seq].
    destruct (pop_step rb item) as (-> & Hw' & Hu'); [done|lia|lia|]. cbn [Z.eqb].
    rewrite (IH _ m); [done|done|done|rewrite Hu'; simpl; lia|lia].
Qed.

Lemma push_avail rb : ring_wf rb ->
  u32 (slot_count rb - u32 (u64 (write_idx rb - read_idx rb))) = slot_count rb - used rb.
Proof.
  intros Hw. pose proof (used_bound rb Hw). pose proof (rw_sc _ Hw). fold (used rb).
  rewrite !u32_small; rewrite ?u32_small; lia.
Qed.

Lemma pop_avail rb : ring_wf rb -> u32 (u64 (write_idx rb - read_idx rb)) = used rb.
Proof. intros Hw. pose proof (used_bound rb Hw). pose proof (rw_sc _ Hw). apply u32_small. fold (used rb). lia. Qed.

Lemma push_seq_big rb src item n : ring_wf rb -> slot_size rb < item -> push_seq rb src item n = (0, rb).
Proof. intros Hw Hi. destruct n; [done|]. cbn [push_seq]. by rewrite ringbuf_push_full by (done || by right). Qed.

Lemma pop_seq_big rb item n : ring_wf rb -> slot_size rb < item -> pop_seq rb item n = (0, [], rb).
Proof. intros Hw Hi. destruct n; [done|]. cbn [pop_seq]. by rewrite ringbuf_pop_fail by (done || by right). Qed.

(** [ringbuf_push_batch] and [ringbuf_pop_batch] behave exactly as a loop
    of single [ringbuf_push]es, respectively [ringbuf_pop]s, that stops at the
    first failure: same count, same bytes, same ring. *)
Theorem batch_equiv rb items item n : ring_wf rb -> 0 <= n < 2 ^ 32 ->
  ringbuf_push_batch rb items item n = push_seq rb items item (Z.to_nat n) /\
  ringbuf_pop_batch rb item n = pop_seq rb item (Z.to_nat n).
Proof.
  intros Hw Hn. pose proof (used_bound rb Hw). split.
  - unfold ringbuf_push_batch. rewrite push_avail by done. destruct (Z.ltb_spec (slot_size rb) item).
    { by rewrite push_seq_big. }
    destruct (Z.ltb_spec (slot_count rb - used rb) n).
    + rewrite (push_seq_stop _ _ _ (Z.to_nat (slot_count rb - used rb))) by (done || lia).
      rewrite push_seq_items by (done || lia). by rewrite Z2Nat.id by lia.
    + rewrite push_seq_items by (done || lia). by rewrite Z2Nat.id by lia.
  - unfold ringbuf_pop_batch. rewrite pop_avail by done. destruct (Z.ltb_spec (slot_size rb) item).
    { by rewrite pop_seq_big. }
    destruct (Z.ltb_spec (used rb) n).
    + rewrite (pop_seq_stop _ _ (Z.to_nat (used rb))) by (done || lia).
      rewrite pop_seq_items by (done || lia). by rewrite Z2Nat.id by lia.
    + rewrite pop_seq_items by (done || lia). by rewrite Z2Nat.id by lia.
Qed.

(** ** Initialisation and the FIFO contract *)

Lemma is_pow2_pow k : 0 <= k < 32 -> is_pow2 (2 ^ k) = true.
Proof.
  intros Hk. unfold is_pow2. pose proof (pow2_pos k ltac:(lia)).
  assert (2 ^ k < 2 ^ 32) by (apply Z.pow_lt_mono_r; lia).
  rewrite u32_small by lia. rewrite (proj2 (truthy_true _)) by lia.
  rewrite land_mask_low, Z.mod_same by lia. done.
Qed.

Lemma ringbuf_init_ok mem ss sc : 0 <= ss < 2 ^ 32 -> 0 <= sc < 2 ^ 32 ->
  Z.of_nat (length (data mem)) = ss * sc ->
  is_pow2 ss = true -> 8 <= ss -> is_pow2 sc = true -> 2 <= sc ->
  exists rb, ringbuf_init (Some mem) ss sc = (0, Some rb) /\ ring_wf rb /\
    queue rb = [] /\ slot_size rb = ss /\ slot_count rb = sc.
Proof.
  intros Hss Hsc Hd Hp H8 Hq H2. unfold ringbuf_init. rewrite Hp, Hq.
  rewrite (proj2 (Z.ltb_ge _ _)) by lia. rewrite (proj2 (Z.ltb_ge _ _)) by lia. simpl.
  eexists. split; [done|]. split_and!; [|done|done|done]. split; simpl; try lia; try done.
  - unfold ringbuf_valid; simpl. rewrite Hp, Hq. rewrite !(proj2 (Z.leb_le _ _)) by lia. done.
  - by rewrite length_memset.
  - change (0 mod 2 ^ 64 <= sc). rewrite Zmod_0_l. lia.
Qed.

(** [ringbuf_init] on memory of the required size either builds a valid
    empty ring or, when a size is not a power of two or is too small, returns
    -1 and leaves the memory alone.  In particular the one-byte slots that
    [vfs_pipe] asks for are always refused. *)
Theorem ringbuf_init_spec mem ss sc : 0 <= ss < 2 ^ 32 -> 0 <= sc < 2 ^ 32 ->
  Z.of_nat (length (data mem)) = ss * sc ->
  (exists rb, ringbuf_init (Some mem) ss sc = (0, Some rb) /\ ring_wf rb /\ queue rb = [] /\
     slot_size rb = ss /\ slot_count rb = sc /\ (exists a b, ss = 2 ^ a /\ sc = 2 ^ b) /\ 8 <= ss /\ 2 <= sc) \/
  (ringbuf_init (Some mem) ss sc = (-1, Some mem) /\
   (ss < 8 \/ sc < 2 \/ (forall k, 0 <= k -> ss <> 2 ^ k) \/ (forall k, 0 <= k -> sc <> 2 ^ k))).
Proof.
  intros Hss Hsc Hd.
  assert (Hno : forall x, 0 <= x < 2 ^ 32 -> is_pow2 x = false -> forall k, 0 <= k -> x <> 2 ^ k).
  { intros x Hx Hf k Hk ->. rewrite is_pow2_pow in Hf; [done|]. split; [done|].
    apply (Z.pow_lt_mono_r_iff 2); lia. }
  destruct (is_pow2 ss) eqn:Hp; [|right; unfold ringbuf_init; rewrite Hp; eauto 10].
  destruct (Z.ltb_spec ss 8); [right; unfold ringbuf_init; rewrite Hp, (proj2 (Z.ltb_lt _ _)) by lia; eauto|].
  destruct (is_pow2 sc) eqn:Hq; [|right; unfold ringbuf_init; rewrite Hp, Hq, (proj2 (Z.ltb_ge _ _)) by lia; eauto 10].
  destruct (Z.ltb_spec sc 2).
  { right. unfold ringbuf_init. rewrite Hp, Hq, (proj2 (Z.ltb_ge _ _)), (proj2 (Z.ltb_lt _ _)) by lia. eauto. }
  left. destruct (ringbuf_init_ok mem ss sc) as (rb & E & Hw & Hq' & E1 & E2); try done.
  destruct (is_pow2_spec ss) as (a & _ & Ea); [done|done|].
  destruct (is_pow2_spec sc) as (b & _ & Eb); [done|done|].
  exists rb. split_and!; eauto.
Qed.

(** The ring used by the witnesses: four slots of eight bytes. *)
Definition mem32 : ringbuf_t := mkRing 0 0 0 0 77 78 (replicate 32 170).
Definition ring4 : ringbuf_t :=
  match ringbuf_init (Some mem32) 8 4 with (_, Some rb) => rb | _ => mem32 end.

Lemma ringbuf_init_spec_witness :
  (exists rb, ringbuf_init (Some mem32) 8 4 = (0, Some rb) /\ ring_wf rb /\ queue rb = []) /\
  snd (ringbuf_init (Some mem32) 8 4) = Some ring4.
Proof.
  split; [|reflexivity].
  destruct (ringbuf_init_spec mem32 8 4 ltac:(lia) ltac:(lia) eq_refl) as [(rb & E & Hw & Hq & _)|[E _]].
  - exists rb. auto.
  - vm_compute in E. discriminate E.
Defined.

Lemma ring4_wf : ring_wf ring4.
Proof. split; vm_compute; repeat split; congruence. Qed.

Lemma batch_equiv_witness :
  ringbuf_push_batch ring4 (replicate 40 7) 8 5 = push_seq ring4 (replicate 40 7) 8 5 /\
  fst (ringbuf_push_batch ring4 (replicate 40 7) 8 5) = 4.
Proof.
  split; [|reflexivity].
  apply (batch_equiv ring4 (replicate 40 7) 8 5 ring4_wf). lia.
Defined.



End Ringbuf.
