(* ===== verification/RingSpsc.v ===== *)
(** * kernel/ipc/ringbuf.h under concurrency: one producer, one consumer

    [ringbuf_push] and [ringbuf_pop] as sequences of shared-memory accesses
    (each load of an index, each byte copied, the store of an index), with the
    producer and the consumer interleaved arbitrarily.  The two sides never
    touch the same byte, so the acquire/release orderings of the source reduce
    to this interleaving. *)

From S2P Require Import Prelude CString Ringbuf.
From Stdlib Require Import ZArith Lia.
From stdpp Require Import base list gmap numbers.
Open Scope Z_scope.

Module RingSpsc.
Import CString Ringbuf.

(** Program counters: what each side does next, with its local variables. *)
Inductive prod :=
  | PIdle
  | PLoadW (src : list Z)
  | PLoadR (src : list Z) (widx : Z)
  | PCopy (src : list Z) (widx : Z) (k : nat).

Inductive cons :=
  | CIdle
  | CLoadR
  | CLoadW (ridx : Z)
  | CCopy (ridx : Z) (out : list Z).

Definition byte_write (rb : ringbuf_t) (i : Z) (k : nat) (b : Z) : ringbuf_t :=
  set_data rb (<[(slot_off rb i + k)%nat := b]> (data rb)).

(** One access of [ringbuf_push rb src sz]; the event is the message a
    completed push has published. *)
Definition prod_step (sz : Z) (rb : ringbuf_t) (p : prod) : ringbuf_t * prod * option (list Z) :=
  match p with
  | PIdle => (rb, PIdle, None)
  | PLoadW src => (rb, PLoadR src (write_idx rb), None)
  | PLoadR src widx =>
      let ridx := read_idx rb in
      if u64 (widx - ridx) =? slot_count rb then (rb, PIdle, None)
      else if slot_size rb <? sz then (rb, PIdle, None)
      else (rb, PCopy src widx 0, None)
  | PCopy src widx k =>
      if (k <? Z.to_nat sz)%nat then (byte_write rb widx k (nth k src 0), PCopy src widx (S k), None)
      else (set_write rb (u64 (widx + 1)), PIdle, Some src)
  end.

(** One access of [ringbuf_pop rb buf sz]; the event is the buffer filled by a
    completed pop. *)
Definition cons_step (sz : Z) (rb : ringbuf_t) (c : cons) : ringbuf_t * cons * option (list Z) :=
  match c with
  | CIdle => (rb, CIdle, None)
  | CLoadR => (rb, CLoadW (read_idx rb), None)
  | CLoadW ridx =>
      let widx := write_idx rb in
      if ridx =? widx then (rb, CIdle, None)
      else if slot_size rb <? sz then (rb, CIdle, None)
      else (rb, CCopy ridx [], None)
  | CCopy ridx out =>
      if (length out <? Z.to_nat sz)%nat
      then (rb, CCopy ridx (out ++ [nth (slot_off rb ridx + length out) (data rb) 0]), None)
      else (set_read rb (u64 (ridx + 1)), CIdle, Some out)
  end.

Record spsc := mkSpsc {
  ring : ringbuf_t; pp : prod; cc : cons;
  pushed : list (list Z); popped : list (list Z) }.

Section Interleaving.
Context (sz : Z).

Inductive step : spsc -> spsc -> Prop :=
  | call_push s src : pp s = PIdle -> Z.of_nat (length src) = sz ->
      step s (mkSpsc (ring s) (PLoadW src) (cc s) (pushed s) (popped s))
  | call_pop s : cc s = CIdle ->
      step s (mkSpsc (ring s) (pp s) CLoadR (pushed s) (popped s))
  | prod_access s rb p ev : prod_step sz (ring s) (pp s) = (rb, p, ev) ->
      step s (mkSpsc rb p (cc s) (pushed s ++ option_list ev) (popped s))
  | cons_access s rb c ev : cons_step sz (ring s) (cc s) = (rb, c, ev) ->
      step s (mkSpsc rb (pp s) c (pushed s) (popped s ++ option_list ev)).

Definition start (rb : ringbuf_t) : spsc := mkSpsc rb PIdle CIdle [] [].

(** ** Bytes of a slot *)

Lemma byte_write_eq rb i k b : ring_wf rb -> (k < Z.to_nat (slot_size rb))%nat ->
  slot (byte_write rb i k b) i = <[k := b]> (slot rb i).
Proof.
  intros Hw Hk. pose proof (slot_off_bound rb i Hw). unfold slot, slot_read.
  change (slot_size (byte_write _ _ _ _)) with (slot_size rb).
  change (slot_off (byte_write _ _ _ _) i) with (slot_off rb i). simpl data.
  apply list_eq. intros n. rewrite lookup_slice. destruct (decide (n = k)) as [->|Hne].
  - rewrite decide_True, !list_lookup_insert_eq by (rewrite ?length_slice; lia). done.
  - rewrite !list_lookup_insert_ne by lia. by rewrite lookup_slice.
Qed.

Lemma byte_write_ne rb i j k b : ring_wf rb -> (k < Z.to_nat (slot_size rb))%nat ->
  i mod slot_count rb <> j mod slot_count rb -> slot (byte_write rb i k b) j = slot rb j.
Proof.
  intros Hw Hk Hne. unfold slot, slot_read.
  change (slot_size (byte_write _ _ _ _)) with (slot_size rb).
  change (slot_off (byte_write _ _ _ _) j) with (slot_off rb j). simpl data.
  apply list_eq. intros n. rewrite !lookup_slice. case_decide; [|done].
  apply list_lookup_insert_ne. destruct (slot_off_apart rb i j Hw Hne); lia.
Qed.

Lemma byte_write_wf rb i k b : ring_wf rb -> ring_wf (byte_write rb i k b).
Proof. intros []. split; try done. simpl. by rewrite length_insert. Qed.

Lemma byte_read rb i k : ring_wf rb -> (k < Z.to_nat (slot_size rb))%nat ->
  nth (slot_off rb i + k) (data rb) 0 = nth k (slot rb i) 0.
Proof.
  intros Hw Hk. rewrite !nth_lookup. unfold slot, slot_read. by rewrite lookup_slice, decide_True.
Qed.

Lemma slot_u64 rb i : ring_wf rb -> slot rb (u64 i) = slot rb i.
Proof. intros. unfold slot, slot_read. by rewrite slot_off_u64. Qed.

Lemma take_snoc {A} (l : list A) k d : (k < length l)%nat -> take (S k) l = take k l ++ [nth k l d].
Proof.
  intros. destruct (lookup_lt_is_Some_2 l k) as [x E]; [done|].
  by rewrite (take_S_r _ _ x), (nth_lookup_Some _ _ _ _ E).
Qed.

(** ** The invariant of the interleaving *)

Definition np (s : spsc) : Z := Z.of_nat (length (pushed s)).
Definition nc (s : spsc) : Z := Z.of_nat (length (popped s)).

Definition prod_inv (s : spsc) : Prop :=
  match pp s with
  | PIdle => True
  | PLoadW src => Z.of_nat (length src) = sz
  | PLoadR src widx => Z.of_nat (length src) = sz /\ widx = u64 (np s)
  | PCopy src widx k => Z.of_nat (length src) = sz /\ widx = u64 (np s) /\
      sz <= slot_size (ring s) /\ np s < nc s + slot_count (ring s) /\
      Z.of_nat k <= sz /\ take k (slot (ring s) (np s)) = take k src
  end.

Definition cons_inv (s : spsc) : Prop :=
  match cc s with
  | CIdle | CLoadR => True
  | CLoadW ridx => ridx = u64 (nc s)
  | CCopy ridx out => ridx = u64 (nc s) /\ sz <= slot_size (ring s) /\ nc s < np s /\
      Z.of_nat (length out) <= sz /\ out = take (length out) (slot (ring s) (nc s))
  end.

Record inv (s : spsc) : Prop := {
  iv_wf : ring_wf (ring s);
  iv_w : write_idx (ring s) = u64 (np s);
  iv_r : read_idx (ring s) = u64 (nc s);
  iv_le : nc s <= np s <= nc s + slot_count (ring s);
  iv_pre : popped s = take (length (popped s)) (pushed s);
  iv_data : forall i m, pushed s !! i = Some m -> (length (popped s) <= i)%nat ->
    Z.of_nat (length m) = sz /\ take (Z.to_nat sz) (slot (ring s) (Z.of_nat i)) = m;
  iv_prod : prod_inv s;
  iv_cons : cons_inv s }.

Lemma start_inv rb : ring_wf rb -> write_idx rb = 0 -> read_idx rb = 0 -> inv (start rb).
Proof.
  intros Hw H1 H2. destruct (ring_sc rb Hw) as (k & Hk & E & _). pose proof (pow2_pos k).
  split; try done. unfold nc, np; simpl. lia.
Qed.

Lemma in_flight s i : inv s -> nc s <= i < np s + 1 -> np s < nc s + slot_count (ring s) ->
  i <> np s -> np s mod slot_count (ring s) <> i mod slot_count (ring s).
Proof.
  intros Hi Hb Hlt Hne. replace (np s) with (nc s + (np s - nc s)) by lia.
  replace i with (nc s + (i - nc s)) by lia. pose proof (iv_le _ Hi). apply mod_apart; lia.
Qed.

Lemma used_eq s : inv s -> used (ring s) = np s - nc s.
Proof.
  intros Hi. pose proof (iv_le _ Hi). pose proof (rw_sc _ (iv_wf _ Hi)). unfold used.
  rewrite (iv_w _ Hi), (iv_r _ Hi), <- Zminus_mod. apply Z.mod_small. lia.
Qed.

(** Rebuilding the invariant after a step that moves only program counters. *)
Lemma inv_pc s p c : inv s ->
  prod_inv (mkSpsc (ring s) p (cc s) (pushed s) (popped s)) ->
  cons_inv (mkSpsc (ring s) (pp s) c (pushed s) (popped s)) ->
  inv (mkSpsc (ring s) p c (pushed s) (popped s)).
Proof. intros [] H1 H2. split; try done. Qed.

(** The producer copies one byte. *)
Lemma copy_in_inv s src widx k : inv s -> pp s = PCopy src widx k -> (k < Z.to_nat sz)%nat ->
  inv (mkSpsc (byte_write (ring s) widx k (nth k src 0)) (PCopy src widx (S k)) (cc s) (pushed s) (popped s)).
Proof.
  intros Hi Hp Hk. pose proof (iv_prod _ Hi) as P. unfold prod_inv in P. rewrite Hp in P.
  destruct P as (Hl & Hwi & Hsz & Hlt & _ & Htk). pose proof (iv_wf _ Hi) as Hw.
  assert (Hkk : (k < Z.to_nat (slot_size (ring s)))%nat) by lia.
  assert (Hoff : forall b, byte_write (ring s) widx k b = byte_write (ring s) (np s) k b).
  { intros b. unfold byte_write. by rewrite Hwi, slot_off_u64. }
  assert (Hot : forall i b, nc s <= i < np s -> slot (byte_write (ring s) widx k b) i = slot (ring s) i).
  { intros i b Hb. rewrite Hoff. apply byte_write_ne; [done|done|]. apply in_flight; [done|lia|lia|lia]. }
  destruct Hi as [_ Iw Ir Ile Ipre Idat _ Icon]. split; simpl; try done.
  - by apply byte_write_wf.
  - intros i m Hm Hge. rewrite Hot; [by apply Idat|]. apply lookup_lt_Some in Hm. unfold np, nc. lia.
  - unfold prod_inv; simpl. split_and!; try done; [lia|].
    change (np _) with (np s). rewrite Hoff, byte_write_eq by done.
    pose proof (length_slot (ring s) (np s) Hw).
    rewrite (take_snoc _ k 0) by (rewrite length_insert; lia).
    rewrite take_insert_ge, Htk, nth_insert_eq by lia.
    symmetry. apply take_snoc. lia.
  - unfold cons_inv in *; simpl. destruct (cc s) as [| | |r out]; try done.
    destruct Icon as (H1 & H2 & H3 & H4 & H5). split_and!; try done.
    change (nc _) with (nc s). rewrite Hot by lia. done.
Qed.

(** The producer publishes the slot. *)
Lemma publish_inv s src widx k : inv s -> pp s = PCopy src widx k -> (Z.to_nat sz <= k)%nat ->
  inv (mkSpsc (set_write (ring s) (u64 (widx + 1))) PIdle (cc s) (pushed s ++ [src]) (popped s)).
Proof.
  intros Hi Hp Hk. pose proof (iv_prod _ Hi) as P. unfold prod_inv in P. rewrite Hp in P.
  destruct P as (Hl & Hwi & Hsz & Hlt & Hks & Htk). pose proof (used_eq _ Hi) as Hu.
  assert (Ew : widx = write_idx (ring s)) by (by rewrite (iv_w _ Hi)).
  destruct (publish_ok (ring s) 1) as [Hw' _]; [apply Hi|lia|lia|]. rewrite <- Ew in Hw'.
  destruct Hi as [Iwf Iw Ir Ile Ipre Idat _ Icon].
  assert (Enp : forall rb p c, np (mkSpsc rb p c (pushed s ++ [src]) (popped s)) = np s + 1).
  { intros. unfold np; simpl. rewrite length_app; simpl. lia. }
  split; simpl; try done.
  - by rewrite Enp, Hwi, Zplus_mod_idemp_l.
  - rewrite Enp. change (nc _) with (nc s). lia.
  - rewrite take_app_le; [done|]. unfold np, nc in Ile. lia.
  - intros i m Hm Hge. change (slot (set_write _ _)) with (slot (ring s)).
    apply lookup_app_Some in Hm as [Hm|[Hm Hx]]; [by apply Idat|].
    apply list_lookup_singleton_Some in Hx as [Hx <-]. split; [done|].
    replace (Z.of_nat i) with (np s) by (unfold np; lia).
    replace (Z.to_nat sz) with k by lia. rewrite Htk. apply take_ge. lia.
  - unfold cons_inv in *; simpl. destruct (cc s) as [| | |r out]; try done.
    destruct Icon as (H1 & H2 & H3 & H4 & H5). rewrite Enp. split_and!; try done.
    change (nc _) with (nc s). lia.
Qed.

(** The consumer copies one byte. *)
Lemma copy_out_inv s ridx out : inv s -> cc s = CCopy ridx out -> (length out < Z.to_nat sz)%nat ->
  inv (mkSpsc (ring s) (pp s) (CCopy ridx (out ++ [nth (slot_off (ring s) ridx + length out) (data (ring s)) 0]))
         (pushed s) (popped s)).
Proof.
  intros Hi Hc Hk. pose proof (iv_cons _ Hi) as P. unfold cons_inv in P. rewrite Hc in P.
  destruct P as (Hr & Hsz & Hlt & Hle & Ho). pose proof (iv_wf _ Hi) as Hw.
  apply inv_pc; [done|by destruct Hi|]. unfold cons_inv; simpl.
  rewrite length_app; simpl. split_and!; [done|done|done|lia|].
  rewrite Hr, slot_off_u64, byte_read by (done || lia). rewrite Nat.add_1_r.
  change (nc (mkSpsc _ _ _ _ _)) with (nc s).
  rewrite (take_snoc _ (length out) 0) by (rewrite length_slot by done; lia). by rewrite <- Ho.
Qed.

(** The consumer frees the slot: what it has read is the oldest message. *)
Lemma consume_inv s ridx out : inv s -> cc s = CCopy ridx out -> (Z.to_nat sz <= length out)%nat ->
  inv (mkSpsc (set_read (ring s) (u64 (ridx + 1))) (pp s) CIdle (pushed s) (popped s ++ [out])).
Proof.
  intros Hi Hc Hk. pose proof (iv_cons _ Hi) as P. unfold cons_inv in P. rewrite Hc in P.
  destruct P as (Hr & Hsz & Hlt & Hle & Ho). pose proof (used_eq _ Hi) as Hu.
  assert (Er : ridx = read_idx (ring s)) by (by rewrite (iv_r _ Hi)).
  destruct (consume_ok (ring s) 1) as (Hw' & _ & _); [apply Hi|lia|]. rewrite <- Er in Hw'.
  destruct Hi as [Iwf Iw Ir Ile Ipre Idat Iprod _].
  assert (Enc : forall rb p c, nc (mkSpsc rb p c (pushed s) (popped s ++ [out])) = nc s + 1).
  { intros. unfold nc; simpl. rewrite length_app; simpl. lia. }
  destruct (lookup_lt_is_Some_2 (pushed s) (length (popped s))) as [m Hm]; [unfold np, nc in *; lia|].
  destruct (Idat _ _ Hm ltac:(lia)) as [Hlm Hsm]. fold (nc s) in Hsm.
  assert (out = m) as -> by (rewrite Ho, <- Hsm; f_equal; lia).
  split; simpl; try done.
  - by rewrite Enc, Hr, Zplus_mod_idemp_l.
  - rewrite Enc. change (np _) with (np s). lia.
  - rewrite length_app, Nat.add_1_r; simpl. rewrite (take_S_r _ _ m) by done. by rewrite <- Ipre.
  - intros i x Hx Hge. rewrite length_app in Hge. change (slot (set_read _ _)) with (slot (ring s)).
    apply Idat; [done|lia].
  - unfold prod_inv in *; simpl. destruct (pp s) as [| | |src w k]; try done.
    destruct Iprod as (H1 & H2 & H3 & H4 & H5 & H6). rewrite Enc. split_and!; try done.
    change (np _) with (np s). change (slot_count (ring _)) with (slot_count (ring s)). lia.
Qed.

Lemma step_inv s s' : step s s' -> inv s -> inv s'.
Proof.
  destruct 1 as [s src Hp Hl|s Hc|s rb p ev E|s rb c ev E]; intros Hi.
  - apply inv_pc; [done|done|by destruct Hi].
  - apply inv_pc; [done|by destruct Hi|done].
  - destruct (pp s) as [|src|src w|src w k] eqn:Hp; simpl in E.
    + simplify_eq. rewrite app_nil_r. apply inv_pc; [done|done|by destruct Hi].
    + simplify_eq. rewrite app_nil_r. pose proof (iv_prod _ Hi) as P. unfold prod_inv in P. rewrite Hp in P.
      apply inv_pc; [done| |by destruct Hi]. split; [done|]. apply Hi.
    + pose proof (iv_prod _ Hi) as P. unfold prod_inv in P. rewrite Hp in P. destruct P as [Hl Hwi].
      pose proof (used_eq _ Hi) as Hu. pose proof (iv_le _ Hi).
      assert (Eu : u64 (w - read_idx (ring s)) = used (ring s)).
      { unfold used. by rewrite Hwi, <- (iv_w _ Hi). }
      rewrite Eu in E. repeat zif_in E; simplify_eq; rewrite app_nil_r;
        (apply inv_pc; [done| |by destruct Hi]); [done|done|].
      unfold prod_inv; simpl. split_and!; try done; try lia.
      change (np (mkSpsc _ _ _ _ _)) with (np s). change (nc (mkSpsc _ _ _ _ _)) with (nc s). lia.
    + zif_in E; simplify_eq; rewrite ?app_nil_r; [by apply copy_in_inv|by eapply publish_inv].
  - destruct (cc s) as [| |r|r out] eqn:Hc; simpl in E.
    + simplify_eq. rewrite app_nil_r. apply inv_pc; [done|by destruct Hi|done].
    + simplify_eq. rewrite app_nil_r. apply inv_pc; [done|by destruct Hi|]. apply Hi.
    + pose proof (iv_cons _ Hi) as P. unfold cons_inv in P. rewrite Hc in P.
      repeat zif_in E; simplify_eq; rewrite app_nil_r; (apply inv_pc; [done|by destruct Hi|]); [done|done|].
      assert (nc s <> np s) by (intros Eq; rewrite (iv_w _ Hi), <- Eq in *; done).
      pose proof (iv_le _ Hi).
      destruct (lookup_lt_is_Some_2 (pushed s) (length (popped s))) as [m Hm]; [unfold np, nc in *; lia|].
      destruct (iv_data _ Hi _ _ Hm ltac:(lia)) as [Hlm _].
      unfold cons_inv; simpl. split_and!; try done; try lia.
      change (np (mkSpsc _ _ _ _ _)) with (np s). change (nc (mkSpsc _ _ _ _ _)) with (nc s). lia.
    + zif_in E; simplify_eq; rewrite ?app_nil_r; [by apply copy_out_inv|by eapply consume_inv].
Qed.

Lemma reach_inv rb s : ring_wf rb -> write_idx rb = 0 -> read_idx rb = 0 ->
  rtc step (start rb) s -> inv s.
Proof.
  intros Hw H1 H2 Hr. pose proof (start_inv rb Hw H1 H2) as Hi.
  induction Hr; [done|]. eauto using step_inv.
Qed.

(** C11: under every interleaving of a producer calling [ringbuf_push] and a
    consumer calling [ringbuf_pop] (with the message size [sz]) on a ring that
    starts empty, the messages received are a prefix of the messages sent: none
    is lost, duplicated, reordered or torn.  At most [slot_count] messages are
    in flight, and the index counters are the message counts modulo 2^64. *)
Theorem spsc_delivers_in_order rb s : ring_wf rb -> write_idx rb = 0 -> read_idx rb = 0 ->
  rtc step (start rb) s ->
  popped s `prefix_of` pushed s /\
  (length (pushed s) <= length (popped s) + Z.to_nat (slot_count (ring s)))%nat /\
  write_idx (ring s) = u64 (Z.of_nat (length (pushed s))) /\
  read_idx (ring s) = u64 (Z.of_nat (length (popped s))).
Proof.
  intros Hw H1 H2 Hr. destruct (reach_inv rb s Hw H1 H2 Hr) as [_ Iw Ir Ile Ipre _ _ _].
  split_and!; [|unfold np, nc in *; lia|done|done].
  rewrite Ipre. exists (drop (length (popped s)) (pushed s)). by rewrite take_drop.
Qed.

(** C12: the data race that the release/acquire pairs exclude does not happen:
    whenever the producer is copying into a slot while the consumer is copying
    out of one, the two slots do not overlap, and both lie in the data region. *)
Theorem spsc_no_data_race rb s src widx k ridx out :
  ring_wf rb -> write_idx rb = 0 -> read_idx rb = 0 -> rtc step (start rb) s ->
  pp s = PCopy src widx k -> cc s = CCopy ridx out ->
  let n := Z.to_nat (slot_size (ring s)) in
  let p := slot_off (ring s) widx in
  let c := slot_off (ring s) ridx in
  (p + n <= c \/ c + n <= p)%nat /\ (p + n <= length (data (ring s)))%nat /\
  (c + n <= length (data (ring s)))%nat.
Proof.
  intros Hw H1 H2 Hr Hp Hc n p c. pose proof (reach_inv rb s Hw H1 H2 Hr) as Hi.
  pose proof (iv_wf _ Hi) as Hwf. split_and!; [|by apply slot_off_bound..].
  pose proof (iv_prod _ Hi) as P. pose proof (iv_cons _ Hi) as C.
  unfold prod_inv in P; rewrite Hp in P. unfold cons_inv in C; rewrite Hc in C.
  destruct P as (_ & -> & _ & Hlt & _), C as (-> & _ & Hlt' & _).
  apply slot_off_apart; [done|]. rewrite !mod_u64 by done. apply in_flight; [done|lia|lia|lia].
Qed.

(** ** The accesses of one side, run alone, are the sequential function *)

Fixpoint prod_run (fuel : nat) (rb : ringbuf_t) (p : prod) : ringbuf_t * prod * list (list Z) :=
  match fuel with
  | O => (rb, p, [])
  | S f =>
      let '(rb, p, ev) := prod_step sz rb p in
      let '(rb, p, evs) := prod_run f rb p in (rb, p, option_list ev ++ evs)
  end.

Lemma prod_run_idle n rb : prod_run n rb PIdle = (rb, PIdle, []).
Proof. induction n as [|n IH]; [done|]. simpl. by rewrite IH. Qed.

Lemma insert_take_S (d src : list Z) off k :
  (k < length src)%nat -> (off + k < length d)%nat ->
  <[(off + k)%nat := nth k src 0]> (list_inserts off (take k src) d) = list_inserts off (take (S k) src) d.
Proof.
  intros H1 H2. rewrite (take_snoc _ k 0) by done. apply list_eq. intros i.
  assert (Hlt : length (take k src) = k) by (rewrite length_take; lia).
  assert (Hl2 : length (take k src ++ [nth k src 0]) = S k) by (rewrite length_app; simpl; lia).
  destruct (decide (i = (off + k)%nat)) as [->|Hne].
  - rewrite list_lookup_insert_eq by (rewrite length_inserts; lia).
    rewrite list_lookup_inserts by lia. rewrite lookup_app_r by lia.
    by replace (off + k - off - length (take k src))%nat with 0%nat by lia.
  - rewrite list_lookup_insert_ne by lia. destruct (decide (i < off)%nat).
    { by rewrite !list_lookup_inserts_lt. }
    destruct (decide (i < off + k)%nat).
    + rewrite !list_lookup_inserts by lia. by rewrite lookup_app_l by lia.
    + by rewrite !list_lookup_inserts_ge by lia.
Qed.

Lemma prod_run_copy n rb src w k : ring_wf rb -> Z.of_nat (length src) = sz -> sz <= slot_size rb ->
  (k + n = Z.to_nat sz)%nat ->
  prod_run (n + 1) (set_data rb (list_inserts (slot_off rb w) (take k src) (data rb))) (PCopy src w k) =
  (set_write (slot_write rb w src sz) (u64 (w + 1)), PIdle, [src]).
Proof.
  intros Hw Hl Hsz. revert k. induction n as [|n IH]; intros k Hk.
  - simpl. rewrite (proj2 (Nat.ltb_ge _ _)) by lia. simpl. unfold slot_write. by replace k with (Z.to_nat sz) by lia.
  - simpl. rewrite (proj2 (Nat.ltb_lt _ _)) by lia. simpl.
    unfold byte_write. change (slot_off (set_data rb _) w) with (slot_off rb w). simpl data.
    pose proof (slot_off_bound rb w Hw). rewrite insert_take_S by lia. change (set_data (set_data rb ?x) ?y) with (set_data rb y).
    rewrite IH by lia. done.
Qed.

(** the accesses the interleaving is made of are those of the sequential
    function: from the call of [ringbuf_push] on, [sz + 3] of them without
    interference leave exactly the ring [ringbuf_push] returns, and publish the
    message exactly when it returns 0. *)
Theorem prod_accesses_are_push rb src : ring_wf rb -> Z.of_nat (length src) = sz ->
  prod_run (Z.to_nat sz + 3) rb (PLoadW src) =
  (snd (ringbuf_push rb src sz), PIdle, if fst (ringbuf_push rb src sz) =? 0 then [src] else []).
Proof.
  intros Hw Hl. replace (Z.to_nat sz + 3)%nat with (S (S (Z.to_nat sz + 1))) by lia.
  cbn [prod_run prod_step]. unfold ringbuf_push.
  destruct (_ =? slot_count rb); [rewrite prod_run_idle; done|].
  destruct (Z.ltb_spec (slot_size rb) sz); [rewrite prod_run_idle; done|].
  pose proof (prod_run_copy (Z.to_nat sz) rb src (write_idx rb) 0 Hw Hl ltac:(lia) ltac:(lia)) as E.
  simpl list_inserts in E. replace (set_data rb (data rb)) with rb in E by by destruct rb.
  rewrite E. done.
Qed.

End Interleaving.

(** An executable scheduler: the schedule says which side moves next. *)
Inductive turn := TPush (src : list Z) | TPop | TProd | TCons.

Definition turn_step (sz : Z) (t : turn) (s : spsc) : spsc :=
  match t with
  | TPush src =>
      match pp s with
      | PIdle => if Z.of_nat (length src) =? sz
                 then mkSpsc (ring s) (PLoadW src) (cc s) (pushed s) (popped s) else s
      | _ => s
      end
  | TPop =>
      match cc s with
      | CIdle => mkSpsc (ring s) (pp s) CLoadR (pushed s) (popped s)
      | _ => s
      end
  | TProd => let '(rb, p, ev) := prod_step sz (ring s) (pp s) in
             mkSpsc rb p (cc s) (pushed s ++ option_list ev) (popped s)
  | TCons => let '(rb, c, ev) := cons_step sz (ring s) (cc s) in
             mkSpsc rb (pp s) c (pushed s) (popped s ++ option_list ev)
  end.

Fixpoint schedule (sz : Z) (ts : list turn) (s : spsc) : spsc :=
  match ts with [] => s | t :: ts => schedule sz ts (turn_step sz t s) end.

Lemma schedule_reach sz ts s : rtc (step sz) s (schedule sz ts s).
Proof.
  revert s. induction ts as [|t ts IH]; intros s; [apply rtc_refl|]. cbn [schedule].
  etrans; [|apply IH]. destruct t; simpl.
  - destruct (pp s) eqn:E; try apply rtc_refl. destruct (Z.eqb_spec (Z.of_nat (length src)) sz);
      [|apply rtc_refl]. apply rtc_once. by apply call_push.
  - destruct (cc s) eqn:E; try apply rtc_refl. apply rtc_once. by apply call_pop.
  - destruct (prod_step _ _ _) as [[rb p] ev] eqn:E. apply rtc_once. by apply prod_access.
  - destruct (cons_step _ _ _) as [[rb p] ev] eqn:E. apply rtc_once. by apply cons_access.
Qed.

(** One message sent, a second one being copied in while the first is being
    copied out. *)
Definition mid_copy : spsc :=
  schedule 1 [TPush [9]; TProd; TProd; TProd; TProd; TPush [7]; TPop; TProd; TCons; TProd; TCons]
    (start ring4).

Lemma spsc_delivers_in_order_witness :
  popped (schedule 1 [TCons; TCons] mid_copy) = [[9]] /\
  popped (schedule 1 [TCons; TCons] mid_copy) `prefix_of` pushed (schedule 1 [TCons; TCons] mid_copy).
Proof.
  split; [vm_compute; reflexivity|].
  apply (spsc_delivers_in_order 1 ring4 _ ring4_wf eq_refl eq_refl).
  etrans; apply schedule_reach.
Defined.

Lemma spsc_no_data_race_witness :
  let n := Z.to_nat (slot_size (ring mid_copy)) in
  (slot_off (ring mid_copy) 1 + n <= slot_off (ring mid_copy) 0 \/
   slot_off (ring mid_copy) 0 + n <= slot_off (ring mid_copy) 1)%nat.
Proof.
  assert (Hp : pp mid_copy = PCopy [7] 1 0) by (vm_compute; reflexivity).
  assert (Hc : cc mid_copy = CCopy 0 []) by (vm_compute; reflexivity).
  exact (proj1 (spsc_no_data_race 1 ring4 mid_copy [7] 1 0 0 [] ring4_wf eq_refl eq_refl
    (schedule_reach _ _ _) Hp Hc)).
Defined.

Lemma prod_accesses_are_push_witness :
  prod_run 3 (3 + 3) ring4 (PLoadW [4; 5; 6]) =
    (snd (ringbuf_push ring4 [4; 5; 6] 3), PIdle, [[4; 5; 6]]).
Proof. exact (prod_accesses_are_push 3 ring4 [4; 5; 6] ring4_wf eq_refl). Defined.

End RingSpsc.
