(* ===== verification/Port.v ===== *)
(** * kernel/ipc/port.c: named message ports

    The port table is the array of its 1024 slots; a port's queue is the ring
    buffer of Ringbuf in its own memory.  Messages over 56 bytes travel in a
    kernel-heap buffer, so the operations are written against the heap
    interface of Bytes.  Each call is one step: the spinlocks of the source are
    released on every path. *)

From S2P Require Import Prelude Bytes CString Ringbuf.
From Stdlib Require Import ZArith Lia.
From stdpp Require Import base list gmap numbers.
Open Scope Z_scope.

Module Port.
Import Bytes CString Ringbuf.

Definition PORT_NAME_LEN : nat := 64.
Definition PORT_MSG_MAX : Z := 4096.
Definition PORT_QUEUE_DEPTH : Z := 64.
Definition PORT_CREATE : Z := 1.
Definition PORT_OPEN : Z := 2.
Definition PORT_SLOT_SIZE : Z := 64.
Definition PORT_INLINE_MAX : Z := 56.
Definition MAX_PORTS : Z := 1024.
Definition HDR : Z := 8. (* sizeof(msg_hdr_t) *)

(** [ring] is the content of [ring_mem]; [waiter] is the waiting process. *)
Record port_obj_t := mkPort {
  name : list Z; id : Z; owner_pid : Z; refcount : Z;
  ring : ringbuf_t; waiter : option Z }.

(** [port_slot_t] as its 64 bytes: type, len, payload. *)
Definition slot_bytes (type len : Z) (payload : list Z) : list Z :=
  le_bytes 4 type ++ le_bytes 4 len ++ payload.
Definition slot_type (s : list Z) : Z := le_val (slice s 0 4).
Definition slot_len (s : list Z) : Z := le_val (slice s 4 4).
Definition slot_payload (s : list Z) : list Z := slice s 8 56.
Definition slot_ptr (s : list Z) : Z := le_val (slice (slot_payload s) 0 8).

Definition zero_ring : ringbuf_t := mkRing 0 0 0 0 0 0 (replicate 4096 0).
Definition zero_port : port_obj_t := mkPort (replicate 64 0) 0 0 0 zero_ring None.

(** [ringbuf_init(slot->ring, PORT_SLOT_SIZE, PORT_QUEUE_DEPTH)] on the zeroed
    slot; its result is not looked at. *)
Definition new_ring : ringbuf_t :=
  match ringbuf_init (Some zero_ring) PORT_SLOT_SIZE PORT_QUEUE_DEPTH with
  | (_, Some rb) => rb | (_, None) => zero_ring end.

(** ** State and operations, over any kernel heap *)

Section Port.
Context {H : Type} `{KHeap H}.

Record port_state := mkState {
  g_port_table : list port_obj_t;
  heap : H;
  kmem : mem;
  woken : list Z  (* arguments of sched_wake, latest first *) }.

Definition set_port (st : port_state) (i : nat) (p : port_obj_t) : port_state :=
  mkState (<[i := p]> (g_port_table st)) (heap st) (kmem st) (woken st).
Definition set_heap (st : port_state) (h : H) (m : mem) : port_state :=
  mkState (g_port_table st) h m (woken st).
Definition sched_wake (st : port_state) (pid : Z) : port_state :=
  mkState (g_port_table st) (heap st) (kmem st) (pid :: woken st).

Definition set_id (p : port_obj_t) (x : Z) : port_obj_t :=
  mkPort (name p) x (owner_pid p) (refcount p) (ring p) (waiter p).
Definition set_refcount (p : port_obj_t) (x : Z) : port_obj_t :=
  mkPort (name p) (id p) (owner_pid p) x (ring p) (waiter p).
Definition set_ring (p : port_obj_t) (x : ringbuf_t) : port_obj_t :=
  mkPort (name p) (id p) (owner_pid p) (refcount p) x (waiter p).
Definition set_waiter (p : port_obj_t) (x : option Z) : port_obj_t :=
  mkPort (name p) (id p) (owner_pid p) (refcount p) (ring p) x.

Definition port_subsystem_init (st : port_state) : port_state :=
  mkState (replicate (Z.to_nat MAX_PORTS) zero_port) (heap st) (kmem st) (woken st).

Definition port_find_by_name (st : port_state) (nm : list Z) : option nat :=
  find_index (fun p => negb (id p =? 0) && (strncmp (name p) nm PORT_NAME_LEN =? 0)) (g_port_table st).

Definition port_find_by_id (st : port_state) (i : Z) : option (nat * port_obj_t) :=
  if (i =? 0) || (MAX_PORTS <? i) then None
  else match g_port_table st !! Z.to_nat (i - 1) with
       | Some p => if id p =? i then Some (Z.to_nat (i - 1), p) else None
       | None => None
       end.

Definition port_open (st : port_state) (nm : option (list Z)) (flags pid : Z) : Z * port_state :=
  match nm with
  | None => (0, st)
  | Some nm =>
      if negb (truthy (hd 0 nm)) then (0, st)
      else match port_find_by_name st nm with
      | Some i =>
          match g_port_table st !! i with
          | Some p =>
              if negb (has_flag flags PORT_OPEN) then (0, st)
              else (id p, set_port st i (set_refcount p (u32 (refcount p + 1))))
          | None => (0, st)
          end
      | None =>
          if negb (has_flag flags PORT_CREATE) then (0, st)
          else match find_index (fun p => id p =? 0) (g_port_table st) with
          | None => (0, st)
          | Some i =>
              let slot_id := Z.of_nat i + 1 in
              let p := mkPort (strncpy (replicate 64 0) 0 nm (PORT_NAME_LEN - 1))
                         slot_id pid 1 new_ring None in
              (slot_id, set_port st i p)
          end
      end
  end.

Definition port_close (st : port_state) (i : Z) : port_state :=
  match port_find_by_id st i with
  | None => st
  | Some (k, p) =>
      let p := if 0 <? refcount p then set_refcount p (refcount p - 1) else p in
      if refcount p =? 0 then
        let st := match waiter p with Some w => sched_wake st w | None => st end in
        set_port st k (set_id p 0)
      else set_port st k p
  end.

(** [while (tries-- > 0) { if (ringbuf_push(...) == 0) ...; }] *)
Fixpoint push_retry (tries : nat) (rb : ringbuf_t) (slot : list Z) : option ringbuf_t :=
  match tries with
  | O => None
  | S t =>
      let '(rc, rb') := ringbuf_push rb slot PORT_SLOT_SIZE in
      if rc =? 0 then Some rb' else push_retry t rb slot
  end.

Definition send_slot (st : port_state) (k : nat) (p : port_obj_t) (slot : list Z) : Z * port_state :=
  match push_retry 1000 (ring p) slot with
  | Some rb =>
      match waiter p with
      | Some w => (0, sched_wake (set_port st k (set_waiter (set_ring p rb) None)) w)
      | None => (0, set_port st k (set_ring p rb))
      end
  | None => (-1, st)
  end.

(** [msg] is the memory from the message pointer on. *)
Definition port_send (st : port_state) (i : Z) (msg : list Z) (len : Z) : Z * port_state :=
  if (len =? 0) || (PORT_MSG_MAX <? len) then (-1, st)
  else match port_find_by_id st i with
  | None => (-1, st)
  | Some (k, p) =>
      let type := le_val (slice msg 0 4) in
      if len <=? PORT_INLINE_MAX then
        let n := if u64 (len - HDR) <? PORT_INLINE_MAX then u64 (len - HDR) else PORT_INLINE_MAX in
        let payload := list_inserts 0 (slice msg 8 (Z.to_nat n)) (replicate 56 0) in
        send_slot st k p (slot_bytes type len payload)
      else
        let '(buf, h) := kmalloc (heap st) len in
        if buf =? 0 then (-1, set_heap st h (kmem st))
        else
          let st := set_heap st h (write_bytes (kmem st) buf (slice msg 0 (Z.to_nat len))) in
          let payload := list_inserts 0 (le_bytes 8 buf) (replicate 56 0) in
          send_slot st k p (slot_bytes type len payload)
  end.

(** [RBlocked]: the caller has registered as waiter and yields; when it runs
    again it retries.  [RDone buf len] is the filled buffer and [*len_out]. *)
Inductive recv_result := RErr | RBlocked | RDone (buf : list Z) (len_out : Z).

Definition port_recv (st : port_state) (i : Z) (buf : option (list Z)) (len_out : bool) (cap cur : Z) :
    recv_result * port_state :=
  match buf with
  | None => (RErr, st)
  | Some buf =>
      if negb len_out || (cap <? PORT_SLOT_SIZE) then (RErr, st)
      else match port_find_by_id st i with
      | None => (RErr, st)
      | Some (k, p) =>
          let '(rc, slot, rb) := ringbuf_pop (ring p) PORT_SLOT_SIZE in
          if negb (rc =? 0) then (RBlocked, set_port st k (set_waiter p (Some cur)))
          else
            let st := set_port st k (set_ring p rb) in
            let payload_len := slot_len slot in
            if payload_len <=? PORT_INLINE_MAX then
              let buf := list_inserts 0 (le_bytes 4 (slot_type slot) ++ le_bytes 4 payload_len) buf in
              let copy := if payload_len <? cap - HDR then payload_len else cap - HDR in
              (RDone (list_inserts 8 (slice (slot_payload slot) 0 (Z.to_nat copy)) buf) (HDR + copy), st)
            else
              let ptr := slot_ptr slot in
              let copy := if payload_len <? cap then payload_len else cap in
              (RDone (list_inserts 0 (read_bytes (kmem st) ptr (Z.to_nat copy)) buf) copy,
               set_heap st (kfree (heap st) ptr) (kmem st))
      end
  end.

(** ** Messages in flight *)

(** What a queued slot stands for. *)
Inductive message := Inline (type len : Z) (payload : list Z) | Big (bytes : list Z).

Definition slot_msg (m : mem) (s : list Z) : message :=
  if slot_len s <=? PORT_INLINE_MAX then Inline (slot_type s) (slot_len s) (slot_payload s)
  else Big (read_bytes m (slot_ptr s) (Z.to_nat (slot_len s))).

(** The messages queued at the port with handle [i]. *)
Definition messages (st : port_state) (i : Z) : option (list message) :=
  match port_find_by_id st i with
  | Some (_, p) => Some (map (slot_msg (kmem st)) (queue (ring p)))
  | None => None
  end.

(** The heap blocks that queued messages own. *)
Definition slot_block (s : list Z) : list (Z * Z) :=
  if slot_len s <=? PORT_INLINE_MAX then [] else [(slot_ptr s, slot_len s)].
Definition port_blocks (p : port_obj_t) : list (Z * Z) :=
  if id p =? 0 then [] else concat (map slot_block (queue (ring p))).
Definition blocks (st : port_state) : list (Z * Z) := concat (map port_blocks (g_port_table st)).

End Port.
Arguments port_state H : clear implicits.

(** ** Slots *)

Lemma slice_app_l (a b : list Z) n : length a = n -> slice (a ++ b) 0 n = a.
Proof. intros <-. unfold slice. by rewrite drop_0, take_app_length. Qed.

Lemma slice_app_r (a b : list Z) p n : (length a <= p)%nat -> slice (a ++ b) p n = slice b (p - length a) n.
Proof. intros. unfold slice. rewrite drop_app_ge by done. done. Qed.

Lemma slot_bytes_decode type len payload :
  0 <= type < 2 ^ 32 -> 0 <= len < 2 ^ 32 -> length payload = 56%nat ->
  slot_type (slot_bytes type len payload) = type /\
  slot_len (slot_bytes type len payload) = len /\
  slot_payload (slot_bytes type len payload) = payload /\
  length (slot_bytes type len payload) = 64%nat.
Proof.
  intros Ht Hl Hp. unfold slot_type, slot_len, slot_payload, slot_bytes. split_and!.
  - rewrite slice_app_l by apply length_le_bytes. by apply le_val_bytes_small.
  - rewrite slice_app_r, slice_app_l by (rewrite ?length_le_bytes; lia || done).
    by apply le_val_bytes_small.
  - rewrite !slice_app_r; rewrite !length_le_bytes; try lia.
    unfold slice. simpl. rewrite drop_0. apply take_ge. lia.
  - rewrite !length_app, !length_le_bytes, Hp. done.
Qed.

Lemma inserts_0_app (a b : list Z) : (length a <= length b)%nat ->
  list_inserts 0 a b = a ++ drop (length a) b.
Proof.
  intros. apply list_eq. intros i. destruct (decide (i < length a)%nat).
  - rewrite list_lookup_inserts by lia. rewrite lookup_app_l by done. f_equal. lia.
  - rewrite list_lookup_inserts_ge by lia. rewrite lookup_app_r, lookup_drop by lia. f_equal. lia.
Qed.

Lemma ptr_payload buf : 0 <= buf < 2 ^ 64 ->
  let payload := list_inserts 0 (le_bytes 8 buf) (replicate 56 0) in
  le_val (slice payload 0 8) = buf /\ length payload = 56%nat.
Proof.
  intros Hb payload. unfold payload. rewrite length_inserts, length_replicate. split; [|done].
  rewrite inserts_0_app by (rewrite length_le_bytes, length_replicate; lia).
  rewrite slice_app_l by apply length_le_bytes. by apply le_val_bytes_small.
Qed.

(** ** Invariant *)

Record port_wf (i : nat) (p : port_obj_t) : Prop := {
  pw_id : id p <> 0 -> id p = Z.of_nat i + 1;
  pw_ring : id p <> 0 -> ring_wf (ring p) /\ slot_size (ring p) = 64 /\ slot_count (ring p) = 64;
  pw_name : id p <> 0 -> length (name p) = 64%nat /\ (length (cstr (name p)) < 64)%nat }.

Section PortProofs.
Context {H : Type} `{HK : KHeap H} `{HO : !KHeapOk H}.
Implicit Types st : port_state H.

Record inv st : Prop := {
  iv_len : length (g_port_table st) = Z.to_nat MAX_PORTS;
  iv_port : forall i p, g_port_table st !! i = Some p -> port_wf i p;
  iv_heap : hwf (heap st);
  iv_nodup : NoDup (blocks st).*1;
  iv_live : forall b, b ∈ blocks st -> live (heap st) !! b.1 = Some b.2 }.

Lemma find_by_id_Some st i k p : inv st -> port_find_by_id st i = Some (k, p) ->
  g_port_table st !! k = Some p /\ id p = i /\ i = Z.of_nat k + 1 /\ i <> 0.
Proof.
  intros Hi E. unfold port_find_by_id in E. zif_in E; [done|].
  destruct (g_port_table st !! _) as [q|] eqn:Eq; [|done]. zif_in E; simplify_eq.
  split_and!; try done. apply (iv_port _ Hi) in Eq as [Hid _ _]. by apply Hid.
Qed.

(** The port of a handle after another slot has changed. *)
Lemma find_by_id_set st k q i : inv st -> (id q <> 0 -> id q = Z.of_nat k + 1) ->
  is_Some (g_port_table st !! k) ->
  port_find_by_id (set_port st k q) i =
  if bool_decide (i = Z.of_nat k + 1 /\ id q <> 0) then Some (k, q)
  else if bool_decide (i = Z.of_nat k + 1) then None else port_find_by_id st i.
Proof.
  intros Hi Hq [p Hp]. pose proof (lookup_lt_Some _ _ _ Hp) as Hlt. rewrite (iv_len _ Hi) in Hlt.
  unfold port_find_by_id. simpl.
  destruct (Z.eqb_spec i 0); simpl; [rewrite !bool_decide_eq_false_2 by lia; done|].
  destruct (Z.ltb_spec MAX_PORTS i); [rewrite !bool_decide_eq_false_2 by lia; done|].
  destruct (decide (i = Z.of_nat k + 1)) as [->|Hne].
  - replace (Z.to_nat (Z.of_nat k + 1 - 1)) with k by lia. rewrite list_lookup_insert_eq by (by apply lookup_lt_Some in Hp).
    rewrite (bool_decide_eq_true_2 (_ = _)) by done. destruct (Z.eqb_spec (id q) (Z.of_nat k + 1)).
    + rewrite bool_decide_eq_true_2 by (split; [done|lia]). done.
    + rewrite bool_decide_eq_false_2; [done|]. intros [_ Hnz]. auto.
  - rewrite !bool_decide_eq_false_2 by tauto. destruct (decide (Z.to_nat (i - 1) = k)) as [E|E].
    + subst k. rewrite list_lookup_insert_eq by (by apply lookup_lt_Some in Hp). rewrite Hp.
      destruct (Z.eqb_spec (id q) i); [lia|].
      destruct (Z.eqb_spec (id p) i); [|done]. apply (iv_port _ Hi) in Hp as [Hid _ _]. lia.
    + by rewrite list_lookup_insert_ne by done.
Qed.

(** Replacing a port whose owned blocks change from [port_blocks p] to
    [port_blocks q]. *)
Lemma set_port_inv st k p q h m w :
  inv st -> g_port_table st !! k = Some p -> port_wf k q -> hwf h ->
  (forall r, NoDup ((port_blocks p ++ r).*1) ->
     (forall b, b ∈ port_blocks p ++ r -> live (heap st) !! b.1 = Some b.2) ->
     NoDup ((port_blocks q ++ r).*1) /\ (forall b, b ∈ port_blocks q ++ r -> live h !! b.1 = Some b.2)) ->
  inv (mkState (<[k := q]> (g_port_table st)) h m w).
Proof.
  intros Hi Hp Hq Hh Hb. destruct (concat_map_insert port_blocks _ k p q Hp) as (r & E1 & E2).
  destruct (Hb r) as [Hnd Hl].
  { rewrite <- E1. apply (iv_nodup _ Hi). }
  { intros b Hin. rewrite <- E1 in Hin. by apply (iv_live _ Hi). }
  split; simpl.
  - rewrite length_insert. apply Hi.
  - intros i x Hx. apply list_lookup_insert_Some in Hx as [(-> & -> & _)|[_ Hx]]; [done|by apply (iv_port _ Hi)].
  - done.
  - unfold blocks; simpl. by rewrite E2.
  - unfold blocks; simpl. intros b Hin. rewrite E2 in Hin. auto.
Qed.

Lemma set_port_inv_same st k p q : inv st -> g_port_table st !! k = Some p -> port_wf k q ->
  port_blocks q = port_blocks p \/ port_blocks q = [] -> forall w, inv (mkState (<[k := q]> (g_port_table st)) (heap st) (kmem st) w).
Proof.
  intros Hi Hp Hq Hb w. eapply set_port_inv; [done|done|done|apply Hi|]. intros r Hnd Hl.
  destruct Hb as [->| ->]; [done|]. simpl. rewrite fmap_app, list.NoDup_app in Hnd. split; [tauto|].
  intros b Hin. apply Hl. apply elem_of_app. by right.
Qed.

(** ** Opening and closing *)

Lemma init_inv st : hwf (heap st) -> inv (port_subsystem_init st).
Proof.
  intros Hh. assert (Hb : blocks (port_subsystem_init st) = []).
  { unfold blocks. cbn [port_subsystem_init g_port_table]. induction (Z.to_nat MAX_PORTS); simpl; done. }
  split; cbn [port_subsystem_init g_port_table heap];
    [by rewrite length_replicate| |done|by rewrite Hb; constructor|rewrite Hb; set_solver].
  intros i p Hp. apply lookup_replicate in Hp as [-> _]. split; done.
Qed.

Lemma new_ring_ok : ring_wf new_ring /\ queue new_ring = [] /\ slot_size new_ring = 64 /\ slot_count new_ring = 64.
Proof.
  unfold new_ring. 
  destruct (ringbuf_init_ok zero_ring 64 64 ltac:(lia) ltac:(lia) ltac:(vm_compute; reflexivity)
    eq_refl ltac:(lia) eq_refl ltac:(lia)) as (rb & E & Hw & Hq & E1 & E2).
  unfold PORT_SLOT_SIZE, PORT_QUEUE_DEPTH. by rewrite E.
Qed.

Opaque new_ring.

Lemma new_port_wf i nm pid :
  port_wf i (mkPort (strncpy (replicate 64 0) 0 nm 63) (Z.of_nat i + 1) pid 1 new_ring None).
Proof.
  destruct new_ring_ok as (Hw & _ & Hs & Hc). split; cbn [id ring name]; intros _; [done|done|].
  rewrite length_strncpy, length_replicate. split; [done|].
  rewrite cstr_strncpy_zeroed by lia. rewrite length_take. lia.
Qed.

Lemma port_open_inv st nm flags pid : inv st -> inv (snd (port_open st nm flags pid)).
Proof.
  intros Hi. unfold port_open. destruct nm as [nm|]; [|done]. zif; [done|].
  destruct (port_find_by_name st nm) as [i|] eqn:Ef.
  - destruct (g_port_table st !! i) as [p|] eqn:Ep; [|done]. zif; [done|].
    apply (set_port_inv_same _ _ p); [done|done| |by left].
    by destruct (iv_port _ Hi _ _ Ep).
  - zif; [done|]. destruct (find_index _ _) as [i|] eqn:Es; [|done].
    apply find_index_Some in Es as (p & Ep & _).
    change (PORT_NAME_LEN - 1)%nat with 63%nat.
    apply (set_port_inv_same _ _ p); [done|done|by apply new_port_wf|right].
    unfold port_blocks. cbn [id ring]. destruct (Z.of_nat i + 1 =? 0); [done|].
    by rewrite (proj1 (proj2 new_ring_ok)).
Qed.

Lemma port_close_inv st i : inv st -> inv (port_close st i).
Proof.
  intros Hi. unfold port_close. destruct (port_find_by_id st i) as [[k p]|] eqn:Ef; [|done].
  apply find_by_id_Some in Ef as (Ep & Eid & _); [|done]. pose proof (iv_port _ Hi _ _ Ep) as Hw.
  set (p' := if 0 <? refcount p then _ else p).
  assert (Hw' : port_wf k p') by (unfold p'; destruct (0 <? refcount p); [by destruct Hw|done]).
  assert (Hb : port_blocks p' = port_blocks p) by (unfold p'; by destruct (0 <? refcount p)).
  destruct (refcount p' =? 0).
  - assert (Hz : port_wf k (set_id p' 0)) by (split; done).
    destruct (waiter p'); (apply (set_port_inv_same st k p (set_id p' 0)); [done|done|done|by right]).
  - apply (set_port_inv_same _ _ p); auto.
Qed.

(** ** The queue of a port *)

Lemma push_retry_ok rb slot n : ring_wf rb -> slot_size rb = 64 -> slot_count rb = 64 ->
  length slot = 64%nat ->
  if decide (length (queue rb) < 64)%nat
  then exists rb', push_retry (S n) rb slot = Some rb' /\ ring_wf rb' /\
         slot_size rb' = 64 /\ slot_count rb' = 64 /\ queue rb' = queue rb ++ [slot]
  else push_retry (S n) rb slot = None.
Proof.
  intros Hw Hs Hc Hl. pose proof (used_bound rb Hw) as Hu. rewrite length_queue.
  case_decide as Hd.
  - destruct (push_step rb slot 64) as (E & _ & _); [done|lia|lia|].
    destruct (ringbuf_push_ok rb slot 64) as (rb' & E' & Hw' & Hq); [done|lia|lia|lia|].
    rewrite E in E'. simplify_eq. eexists. cbn [push_retry].
    change PORT_SLOT_SIZE with 64. rewrite E. split; [done|].
    split_and!; [done|done|done|]. rewrite Hq. do 2 f_equal.
    rewrite take_ge by lia. rewrite drop_ge; [by rewrite app_nil_r|]. rewrite length_slot by done. lia.
  - assert (Hf : ringbuf_push rb slot PORT_SLOT_SIZE = (-1, rb)) by (apply ringbuf_push_full; [done|left; lia]).
    induction n as [|n IH]; [cbn [push_retry]; by rewrite Hf|].
    rewrite <- IH at 1. cbn [push_retry]. by rewrite Hf.
Qed.

Lemma pop_64 rb : ring_wf rb -> slot_size rb = 64 ->
  match queue rb with
  | [] => ringbuf_pop rb 64 = (-1, [], rb)
  | s :: q => exists rb', ringbuf_pop rb 64 = (0, s, rb') /\ ring_wf rb' /\ queue rb' = q /\
      slot_size rb' = 64 /\ slot_count rb' = slot_count rb
  end.
Proof.
  intros Hw Hs. destruct (queue rb) as [|s q] eqn:Hq; [apply ringbuf_pop_fail; auto|].
  assert (Hu : 0 < used rb).
  { pose proof (used_bound rb Hw). assert (used rb <> 0); [|lia].
    intros E. apply queue_empty in E; [congruence|done]. }
  destruct (pop_step rb 64) as (E & _ & _); [done|lia|done|].
  destruct (ringbuf_pop_ok rb 64 s q) as (rb' & E' & Hw' & Hq'); [done|lia|done|].
  rewrite E in E'. injection E' as E1 E2. eexists. rewrite E, E1, E2. split_and!; try done.
  - f_equal. f_equal. apply take_ge. assert (Hin : s ∈ queue rb) by (rewrite Hq; set_solver).
    unfold queue in Hin. apply list_elem_of_In, in_map_iff in Hin as (i & <- & _).
    rewrite length_slot by done. lia.
  - by rewrite <- E2.
  - by rewrite <- E2.
Qed.

(** ** Ownership of heap blocks *)

Lemma open_block st k p s : g_port_table st !! k = Some p -> id p <> 0 -> s ∈ queue (ring p) ->
  PORT_INLINE_MAX < slot_len s -> (slot_ptr s, slot_len s) ∈ blocks st.
Proof.
  intros Hp Hid Hs Hl. unfold blocks. apply list_elem_of_In, in_concat.
  exists (port_blocks p). split; [apply in_map, list_elem_of_In; by eapply list_elem_of_lookup_2|].
  unfold port_blocks. rewrite (proj2 (Z.eqb_neq _ _)) by done. apply in_concat.
  exists (slot_block s). split; [by apply in_map, list_elem_of_In|].
  unfold slot_block. rewrite (proj2 (Z.leb_gt _ _)) by done. by left.
Qed.

(** A memory that agrees on the owned blocks holds the same messages. *)
Lemma messages_mem st st' i :
  g_port_table st' = g_port_table st -> inv st ->
  (forall b, b ∈ blocks st -> read_bytes (kmem st') b.1 (Z.to_nat b.2) = read_bytes (kmem st) b.1 (Z.to_nat b.2)) ->
  messages st' i = messages st i.
Proof.
  intros Ht Hi Hm. unfold messages. assert (E : port_find_by_id st' i = port_find_by_id st i)
    by (unfold port_find_by_id; by rewrite Ht).
  rewrite E. destruct (port_find_by_id st i) as [[k p]|] eqn:Ef; [|done].
  apply find_by_id_Some in Ef as (Ep & Eid & _ & Hnz); [|done]. f_equal. apply map_ext_in.
  intros s Hs. unfold slot_msg. destruct (Z.leb_spec (slot_len s) PORT_INLINE_MAX); [done|].
  f_equal. apply (Hm (_, _)). eapply open_block; [done|congruence|by apply list_elem_of_In|lia].
Qed.

Lemma kmalloc_inv st n buf h msg : inv st -> 0 < n -> kmalloc (heap st) n = (buf, h) ->
  Z.of_nat (length msg) = n -> buf <> 0 ->
  let st' := set_heap st h (write_bytes (kmem st) buf msg) in
  inv st' /\ blocks st' = blocks st /\ live h !! buf = Some n /\ (buf ∉ (blocks st).*1) /\
  0 <= buf < 2 ^ 64 /\
  (forall b, b ∈ blocks st -> read_bytes (kmem st') b.1 (Z.to_nat b.2) = read_bytes (kmem st) b.1 (Z.to_nat b.2)).
Proof.
  intros Hi Hn E Hl Hb st'. destruct (kmalloc_ok _ _ _ _ (iv_heap _ Hi) Hn E) as (Hh & [[? _]|(_ & Hnone & Hlv)]); [done|].
  assert (Hbl : live h !! buf = Some n) by (by rewrite Hlv, lookup_insert_eq).
  assert (Hni : buf ∉ (blocks st).*1).
  { intros Hin. apply list_elem_of_fmap in Hin as ([q k] & -> & Hin). apply (iv_live _ Hi) in Hin. simpl in *. congruence. }
  assert (Hold : forall b, b ∈ blocks st -> b.1 <> buf /\ live h !! b.1 = Some b.2).
  { intros b Hin. assert (b.1 <> buf).
    { intros Eb. apply Hni. rewrite <- Eb. apply list_elem_of_fmap. eauto. }
    split; [done|]. rewrite Hlv, lookup_insert_ne by congruence. by apply (iv_live _ Hi). }
  split_and!; try done.
  - split; try apply Hi; [done|]. intros b Hin. by apply Hold.
  - apply (live_pos h buf n Hh) in Hbl. lia.
  - apply (live_pos h buf n Hh) in Hbl. lia.
  - intros b Hin. destruct (Hold b Hin) as [Hne Hlb]. apply read_write_disjoint.
    pose proof (live_disjoint h _ _ _ _ Hh Hlb Hbl Hne). apply (live_pos _ _ _ Hh) in Hlb. lia.
Qed.

(** Replacing the ring of port [k], seen through the message queues. *)
Lemma messages_set st k p q j : inv st -> g_port_table st !! k = Some p -> id p = Z.of_nat k + 1 ->
  id q = id p ->
  messages (set_port st k q) j =
  if decide (j = id p) then Some (map (slot_msg (kmem st)) (queue (ring q))) else messages st j.
Proof.
  intros Hi Hp Hid Hq. unfold messages. rewrite find_by_id_set by (done || (intros; lia)).
  case_decide.
  - rewrite bool_decide_eq_true_2 by lia. done.
  - rewrite !bool_decide_eq_false_2 by lia. done.
Qed.

Definition fresh_block st (s : list Z) : Prop :=
  forall b, b ∈ slot_block s -> (b.1 ∉ (blocks st).*1) /\ live (heap st) !! b.1 = Some b.2.

Lemma port_wf_set_ring k p rb w : port_wf k p -> ring_wf rb -> slot_size rb = 64 -> slot_count rb = 64 ->
  port_wf k (set_waiter (set_ring p rb) w).
Proof. intros [H1 H2 H3] Hw Hs Hc. split; simpl; auto. Qed.

Lemma push_inv st k p rb slot w wk : inv st -> g_port_table st !! k = Some p -> id p <> 0 ->
  ring_wf rb -> slot_size rb = 64 -> slot_count rb = 64 -> queue rb = queue (ring p) ++ [slot] ->
  fresh_block st slot ->
  inv (mkState (<[k := set_waiter (set_ring p rb) w]> (g_port_table st)) (heap st) (kmem st) wk).
Proof.
  intros Hi Hp Hid Hw Hs Hc Hq Hf. pose proof (iv_port _ Hi _ _ Hp) as Hpw.
  destruct (concat_map_insert port_blocks _ k p (set_waiter (set_ring p rb) w) Hp) as (r & E1 & E2).
  assert (Eb : port_blocks (set_waiter (set_ring p rb) w) = port_blocks p ++ slot_block slot).
  { unfold port_blocks; simpl. rewrite (proj2 (Z.eqb_neq _ _)) by done.
    rewrite Hq, map_app, concat_app. simpl. by rewrite app_nil_r. }
  rewrite Eb in E2.
  assert (Eall : blocks (mkState (<[k := set_waiter (set_ring p rb) w]> (g_port_table st)) (heap st) (kmem st) wk)
    ≡ₚ slot_block slot ++ blocks st).
  { unfold blocks; simpl. rewrite E2, E1. rewrite <- app_assoc, !app_assoc.
    apply Permutation_app_tail, Permutation_app_comm. }
  split.
  - simpl. rewrite length_insert. apply Hi.
  - simpl. intros i x Hx. apply list_lookup_insert_Some in Hx as [(<- & <- & _)|[_ Hx]];
      [by apply port_wf_set_ring|by apply (iv_port _ Hi)].
  - apply Hi.
  - rewrite Eall, fmap_app. apply list.NoDup_app. split_and!; [| |apply Hi].
    + unfold slot_block. destruct (_ <=? _); simpl; [constructor|apply NoDup_singleton].
    + intros x Hx. apply list_elem_of_fmap in Hx as (b & -> & Hb). by apply Hf.
  - intros b Hb. rewrite Eall in Hb. apply elem_of_app in Hb as [Hb|Hb]; [by apply Hf|by apply (iv_live _ Hi)].
Qed.

Lemma send_slot_ok st k p slot : inv st -> g_port_table st !! k = Some p -> id p <> 0 ->
  length slot = 64%nat -> fresh_block st slot ->
  let '(rc, st') := send_slot st k p slot in
  if decide (length (queue (ring p)) < 64)%nat
  then rc = 0 /\ inv st' /\ heap st' = heap st /\ kmem st' = kmem st /\
       woken st' = option_list (waiter p) ++ woken st /\
       (forall j, messages st' j =
          if decide (j = id p) then Some (map (slot_msg (kmem st)) (queue (ring p) ++ [slot]))
          else messages st j)
  else rc = -1 /\ st' = st.
Proof.
  intros Hi Hp Hid Hl Hf. pose proof (iv_port _ Hi _ _ Hp) as Hpw.
  destruct (pw_ring _ _ Hpw Hid) as (Hw & Hs & Hc). unfold send_slot.
  pose proof (push_retry_ok (ring p) slot 999 Hw Hs Hc Hl) as Hpr. change (S 999) with 1000%nat in Hpr.
  destruct (decide _) as [Hlt|]; [|by rewrite Hpr].
  destruct Hpr as (rb & -> & Hw' & Hs' & Hc' & Hq).
  assert (Hm : forall w wk j, messages (mkState (<[k := set_waiter (set_ring p rb) w]> (g_port_table st)) (heap st) (kmem st) wk) j
    = if decide (j = id p) then Some (map (slot_msg (kmem st)) (queue (ring p) ++ [slot])) else messages st j).
  { intros w wk j. transitivity (messages (set_port st k (set_waiter (set_ring p rb) w)) j); [done|].
    rewrite (messages_set st k p _ j) by (try done; by apply Hpw). simpl. by rewrite Hq. }
  destruct (waiter p) as [w|] eqn:Ew; simpl.
  - split_and!; try done; [by apply (push_inv st k p rb slot None)|]. intros j. apply (Hm None).
  - replace (set_ring p rb) with (set_waiter (set_ring p rb) None) by (unfold set_waiter, set_ring; simpl; by rewrite Ew).
    split_and!; try done; [by apply (push_inv st k p rb slot None)|]. intros j. apply (Hm None).
Qed.

(** ** Sending *)

(** The message a successful [port_send] puts into the queue. *)
Definition sent_msg (msg : list Z) (len : Z) : message :=
  if len <=? PORT_INLINE_MAX
  then Inline (le_val (slice msg 0 4)) len
         (list_inserts 0 (slice msg 8 (Z.to_nat (if u64 (len - HDR) <? PORT_INLINE_MAX
                                                 then u64 (len - HDR) else PORT_INLINE_MAX)))
            (replicate 56 0))
  else Big (slice msg 0 (Z.to_nat len)).

Definition port_full st (i : Z) : Prop :=
  exists ms, messages st i = Some ms /\ (64 <= length ms)%nat.

Lemma type_bound msg : Forall is_byte msg -> 0 <= le_val (slice msg 0 4) < 2 ^ 32.
Proof.
  intros Hb. assert (Hs : Forall is_byte (slice msg 0 4)) by (by apply Forall_take, Forall_drop).
  apply le_val_bound in Hs. assert ((length (slice msg 0 4) <= 4)%nat) by (unfold slice; rewrite length_take; lia).
  assert (256 ^ Z.of_nat (length (slice msg 0 4)) <= 256 ^ 4) by (apply Z.pow_le_mono_r; lia).
  change (256 ^ 4) with (2 ^ 32) in *. lia.
Qed.

(** The contract of [port_send]: either the message is appended to the queue
    of its port, or nothing is queued, for one of the reasons listed. *)
Definition send_post st (i : Z) (msg : list Z) (len rc : Z) st' : Prop :=
  inv st' /\
  ((rc = 0 /\ 1 <= len <= PORT_MSG_MAX /\
    exists ms, messages st i = Some ms /\ (length ms < 64)%nat /\
      forall j, messages st' j = if decide (j = i) then Some (ms ++ [sent_msg msg len]) else messages st j) \/
   (rc = -1 /\ woken st' = woken st /\ (forall j, messages st' j = messages st j) /\
    (len = 0 \/ PORT_MSG_MAX < len \/ messages st i = None \/ port_full st i \/
     (PORT_INLINE_MAX < len /\ fst (kmalloc (heap st) len) = 0)))).

(** Queueing a slot in a state [st1] with the same messages as [st]. *)
Lemma send_slot_post st st1 i k p slot msg len :
  inv st1 -> g_port_table st1 = g_port_table st -> (forall j, messages st1 j = messages st j) ->
  woken st1 = woken st -> inv st -> port_find_by_id st i = Some (k, p) ->
  1 <= len <= PORT_MSG_MAX -> length slot = 64%nat -> fresh_block st1 slot ->
  slot_msg (kmem st1) slot = sent_msg msg len ->
  send_post st i msg len (fst (send_slot st1 k p slot)) (snd (send_slot st1 k p slot)).
Proof.
  intros Hi1 Ht Hmm Hwk Hi Ef Hlen Hl Hfr Hsm.
  pose proof (find_by_id_Some st i k p Hi Ef) as (Ep & Eid & Eik & Hnz). rewrite <- Ht in Ep.
  assert (Hms : messages st1 i = Some (map (slot_msg (kmem st1)) (queue (ring p)))).
  { unfold messages, port_find_by_id. rewrite Ht. fold (port_find_by_id st i). by rewrite Ef. }
  assert (Hms' := Hms). rewrite Hmm in Hms'.
  pose proof (send_slot_ok st1 k p slot Hi1 Ep ltac:(congruence) Hl Hfr) as Hsend.
  destruct (send_slot st1 k p slot) as [rc st']; simpl. case_decide as Hd.
  - destruct Hsend as (-> & Hi' & _ & _ & _ & Hm). split; [done|]. left. split_and!; [done|lia|lia|].
    eexists. split_and!; [done|by rewrite length_map|].
    intros j. rewrite Hm, Eid, map_app. simpl. rewrite Hsm. case_decide; [done|by rewrite Hmm].
  - destruct Hsend as [-> ->]. split; [done|]. right. split_and!; try done.
    right; right; right; left. eexists. split; [done|]. rewrite length_map. lia.
Qed.

Lemma send_inline_ok st i k p msg len : inv st -> port_find_by_id st i = Some (k, p) ->
  Forall is_byte msg -> 1 <= len <= PORT_INLINE_MAX ->
  let n := if u64 (len - HDR) <? PORT_INLINE_MAX then u64 (len - HDR) else PORT_INLINE_MAX in
  let slot := slot_bytes (le_val (slice msg 0 4)) len
                (list_inserts 0 (slice msg 8 (Z.to_nat n)) (replicate 56 0)) in
  send_post st i msg len (fst (send_slot st k p slot)) (snd (send_slot st k p slot)).
Proof.
  intros Hi Ef Hb Hl n slot. unfold PORT_INLINE_MAX in Hl.
  set (payload := list_inserts 0 _ (replicate 56 0)) in slot.
  assert (Hpl : length payload = 56%nat) by (unfold payload; by rewrite length_inserts, length_replicate).
  destruct (slot_bytes_decode (le_val (slice msg 0 4)) len payload) as (D1 & D2 & D3 & D4);
    [by apply type_bound|lia|done|].
  assert (Hle : (len <=? PORT_INLINE_MAX) = true) by (apply Z.leb_le; unfold PORT_INLINE_MAX; lia).
  apply send_slot_post; try done; [unfold PORT_MSG_MAX; lia| |].
  - intros b Hbk. unfold slot_block in Hbk. fold slot in D2. rewrite D2, Hle in Hbk. set_solver.
  - unfold slot_msg, sent_msg. fold slot in D1, D2, D3. by rewrite D1, D2, D3, Hle.
Qed.

Lemma send_big_ok st i k p msg len buf h : inv st -> port_find_by_id st i = Some (k, p) ->
  Forall is_byte msg -> PORT_INLINE_MAX < len <= PORT_MSG_MAX -> len <= Z.of_nat (length msg) ->
  kmalloc (heap st) len = (buf, h) -> buf <> 0 ->
  let st1 := set_heap st h (write_bytes (kmem st) buf (slice msg 0 (Z.to_nat len))) in
  let slot := slot_bytes (le_val (slice msg 0 4)) len
                (list_inserts 0 (le_bytes 8 buf) (replicate 56 0)) in
  send_post st i msg len (fst (send_slot st1 k p slot)) (snd (send_slot st1 k p slot)).
Proof.
  intros Hi Ef Hb Hl Hlm Ek Hbuf st1 slot. assert (Hl2 : 56 < len <= 4096) by exact Hl.
  assert (Hls : Z.of_nat (length (slice msg 0 (Z.to_nat len))) = len) by (rewrite length_slice; lia).
  pose proof (kmalloc_inv st len buf h _ Hi ltac:(lia) Ek Hls Hbuf) as (Hi1 & Hbl & Hlive & Hni & Hbr & Hmem).
  fold st1 in Hi1, Hbl, Hmem. destruct (ptr_payload buf Hbr) as [Hptr Hpl].
  set (payload := list_inserts 0 (le_bytes 8 buf) (replicate 56 0)) in *.
  destruct (slot_bytes_decode (le_val (slice msg 0 4)) len payload) as (D1 & D2 & D3 & D4);
    [by apply type_bound|lia|done|]. fold slot in D1, D2, D3, D4.
  assert (Dp : slot_ptr slot = buf) by (unfold slot_ptr; by rewrite D3).
  assert (Hgt : (len <=? PORT_INLINE_MAX) = false) by (apply Z.leb_gt; apply Hl).
  apply send_slot_post; try done; [|lia| |].
  - intros j. by apply messages_mem.
  - intros b Hbk. unfold slot_block in Hbk. rewrite D2, Dp, Hgt in Hbk.
    apply list_elem_of_singleton in Hbk as ->. rewrite Hbl. done.
  - unfold slot_msg, sent_msg. rewrite D2, Dp, Hgt. f_equal.
    replace (Z.to_nat len) with (length (slice msg 0 (Z.to_nat len))) at 1 by lia.
    apply read_write_same.
Qed.

Lemma port_send_ok st i msg len : inv st -> 0 <= len -> Forall is_byte msg ->
  len <= Z.of_nat (length msg) ->
  send_post st i msg len (fst (port_send st i msg len)) (snd (port_send st i msg len)).
Proof.
  intros Hi Hl0 Hb Hlm. unfold port_send.
  assert (Hfail : forall h, hwf h -> live h = live (heap st) ->
    len = 0 \/ PORT_MSG_MAX < len \/ messages st i = None \/ port_full st i \/
     (PORT_INLINE_MAX < len /\ fst (kmalloc (heap st) len) = 0) ->
    send_post st i msg len (-1) (set_heap st h (kmem st))).
  { intros h Hh Hlv Hr. split; [|right; by split_and!].
    split; try apply Hi; [done|]. simpl. rewrite Hlv. apply Hi. }
  assert (Hst : set_heap st (heap st) (kmem st) = st) by by destruct st.
  assert (Hfail0 := Hfail (heap st) (iv_heap _ Hi) eq_refl). rewrite Hst in Hfail0.
  destruct (Z.eqb_spec len 0); [simpl; auto|]. destruct (Z.ltb_spec PORT_MSG_MAX len); [simpl; auto|]. simpl orb; cbv iota.
  destruct (port_find_by_id st i) as [[k p]|] eqn:Ef.
  2: { apply Hfail0. right; right; left. unfold messages. by rewrite Ef. }
  destruct (Z.leb_spec len PORT_INLINE_MAX) as [Hin|Hin]; [apply send_inline_ok; (done || lia)|].
  destruct (kmalloc (heap st) len) as [buf h] eqn:Ek.
  assert (Hpos : 0 < len) by lia.
  destruct (Z.eqb_spec buf 0) as [->|Hbuf]; [|apply send_big_ok; (done || lia)].
  destruct (kmalloc_ok _ _ _ _ (iv_heap _ Hi) Hpos Ek) as (Hh & [[_ Hlv]|[? _]]); [|done].
  apply Hfail; [done|done|]. simpl. auto 10.
Qed.

(** ** Receiving *)

(** The buffer and the length a receiver gets for a queued message. *)
Definition delivered (m : message) (buf : list Z) (cap : Z) : list Z * Z :=
  match m with
  | Inline type len payload =>
      (list_inserts 8 (slice payload 0 (Z.to_nat len))
         (list_inserts 0 (le_bytes 4 type ++ le_bytes 4 len) buf), HDR + len)
  | Big bytes =>
      let n := Z.min (Z.of_nat (length bytes)) cap in
      (list_inserts 0 (take (Z.to_nat n) bytes) buf, n)
  end.

Definition recv_post st (i : Z) (buf : option (list Z)) (ok : bool) (cap cur : Z) (r : recv_result) st' : Prop :=
  inv st' /\ woken st' = woken st /\
  match r with
  | RErr => st' = st /\ (buf = None \/ ok = false \/ cap < PORT_SLOT_SIZE \/ messages st i = None)
  | RBlocked => messages st i = Some [] /\ (forall j, messages st' j = messages st j) /\
      exists k p, port_find_by_id st' i = Some (k, p) /\ waiter p = Some cur
  | RDone out n => exists b m ms, buf = Some b /\ messages st i = Some (m :: ms) /\
      (out, n) = delivered m b cap /\
      (forall j, messages st' j = if decide (j = i) then Some ms else messages st j)
  end.

(** Taking the oldest slot out of port [k], and freeing its block. *)
Lemma pop_inv st k p rb slot q : inv st -> g_port_table st !! k = Some p -> id p <> 0 ->
  ring_wf rb -> slot_size rb = 64 -> slot_count rb = 64 -> queue (ring p) = slot :: q -> queue rb = q ->
  inv (mkState (<[k := set_ring p rb]> (g_port_table st))
         (if slot_len slot <=? PORT_INLINE_MAX then heap st else kfree (heap st) (slot_ptr slot))
         (kmem st) (woken st)).
Proof.
  intros Hi Hp Hid Hw Hs Hc Hq Hq'. pose proof (iv_port _ Hi _ _ Hp) as Hpw.
  assert (Hwf : port_wf k (set_ring p rb)) by (destruct Hpw; split; simpl; auto).
  assert (Hfree : PORT_INLINE_MAX < slot_len slot ->
    hwf (kfree (heap st) (slot_ptr slot)) /\
    live (kfree (heap st) (slot_ptr slot)) = delete (slot_ptr slot) (live (heap st))).
  { intros Hgt. apply kfree_ok; [apply Hi|].
    assert (Hin : (slot_ptr slot, slot_len slot) ∈ blocks st) by (eapply open_block; eauto; rewrite Hq; set_solver).
    apply (iv_live _ Hi) in Hin. eauto. }
  apply (set_port_inv st k p); [done|done|done| |].
  { destruct (Z.leb_spec (slot_len slot) PORT_INLINE_MAX); [apply Hi|by apply Hfree]. }
  intros r. unfold port_blocks at 1 2; cbn [id set_ring ring]. rewrite (proj2 (Z.eqb_neq _ _)) by done.
  unfold port_blocks; cbn [id set_ring ring]. rewrite (proj2 (Z.eqb_neq _ _)) by done.
  rewrite Hq, Hq'. cbn [map concat]. unfold slot_block at 1 3. 
  destruct (Z.leb_spec (slot_len slot) PORT_INLINE_MAX) as [|Hgt]; [done|].
  cbn [app]. rewrite fmap_cons, list.NoDup_cons. intros [Hni Hnd] Hl. split; [done|].
  intros b Hb. rewrite (proj2 (Hfree Hgt)). rewrite lookup_delete_ne.
  - apply Hl. set_solver.
  - intros E. apply Hni. simpl. rewrite E. apply list_elem_of_fmap. eauto.
Qed.

Lemma port_recv_ok st i buf ok cap cur : inv st ->
  recv_post st i buf ok cap cur (fst (port_recv st i buf ok cap cur)) (snd (port_recv st i buf ok cap cur)).
Proof.
  intros Hi. assert (Herr : buf = None \/ ok = false \/ cap < PORT_SLOT_SIZE \/ messages st i = None ->
    recv_post st i buf ok cap cur RErr st) by (intros; by split_and!).
  unfold port_recv. destruct buf as [b|]; [|by auto].
  destruct ok; [|by auto]. destruct (Z.ltb_spec cap PORT_SLOT_SIZE) as [|Hcap]; [simpl; by auto|].
  simpl orb; cbv iota. destruct (port_find_by_id st i) as [[k p]|] eqn:Ef.
  2: { apply Herr. right; right; right. unfold messages. by rewrite Ef. }
  clear Herr.
  pose proof (find_by_id_Some st i k p Hi Ef) as (Ep & Eid & Eik & Hnz).
  pose proof (iv_port _ Hi _ _ Ep) as Hpw.
  destruct (pw_ring _ _ Hpw ltac:(congruence)) as (Hw & Hs & Hc).
  assert (Hms : messages st i = Some (map (slot_msg (kmem st)) (queue (ring p)))) by (unfold messages; by rewrite Ef).
  pose proof (pop_64 (ring p) Hw Hs) as Hpop. unfold PORT_SLOT_SIZE in Hcap |- *.
  destruct (queue (ring p)) as [|s q] eqn:Hq.
  - rewrite Hpop. simpl negb; cbv iota. assert (Hiv : inv (set_port st k (set_waiter p (Some cur)))).
    { apply (set_port_inv_same st k p); [done|done|by destruct Hpw|by left]. }
    split; [exact Hiv|]. split; [done|]. split; [exact Hms|]. cbn [fst snd]. split.
    + intros j. rewrite (messages_set st k p) by (done || congruence). simpl. rewrite Hq.
      case_decide; [|done]. subst j. by rewrite Eid, Hms.
    + exists k, (set_waiter p (Some cur)). split; [|done].
      rewrite find_by_id_set by (simpl; eauto || congruence). rewrite bool_decide_eq_true_2; [done|].
      simpl. split; congruence.
  - destruct Hpop as (rb & -> & Hw' & Hq' & Hs' & Hc'). simpl negb; cbv iota.
    pose proof (pop_inv st k p rb s q Hi Ep ltac:(congruence) Hw' Hs' ltac:(lia) Hq Hq') as Hiv.
    assert (Hm : forall j, messages (set_port st k (set_ring p rb)) j =
      if decide (j = i) then Some (map (slot_msg (kmem st)) q) else messages st j).
    { intros j. rewrite (messages_set st k p) by (done || congruence). simpl. by rewrite Hq', Eid. }
    simpl in Hms. unfold slot_msg at 1 in Hms.
    destruct (Z.leb_spec (slot_len s) PORT_INLINE_MAX) as [Hin|Hin].
    + split; [exact Hiv|]. split; [done|]. cbn [fst]. exists b. do 2 eexists. split_and!; [done|exact Hms| |exact Hm].
      simpl. unfold PORT_INLINE_MAX, HDR in *. destruct (Z.ltb_spec (slot_len s) (cap - 8)); [done|].
      by replace (cap - 8) with (slot_len s) by lia.
    + split; [exact Hiv|]. split; [done|]. cbn [fst]. exists b. do 2 eexists. split_and!; [done|exact Hms| |].
      * simpl. rewrite length_read_bytes, Z2Nat.id by (unfold PORT_INLINE_MAX in *; lia).
        destruct (Z.ltb_spec (slot_len s) cap).
        { rewrite Z.min_l by lia. rewrite take_ge by (rewrite length_read_bytes; lia). done. }
        rewrite Z.min_r by lia. by rewrite <- read_bytes_take by lia.
      * intros j. rewrite <- Hm. done.
Qed.

(** ** Reachable states *)

Inductive pstep : port_state H -> port_state H -> Prop :=
  | p_open st nm flags pid : pstep st (snd (port_open st nm flags pid))
  | p_close st i : pstep st (port_close st i)
  | p_send st i msg len : 0 <= len <= Z.of_nat (length msg) -> Forall is_byte msg ->
      pstep st (snd (port_send st i msg len))
  | p_recv st i buf ok cap cur : pstep st (snd (port_recv st i buf ok cap cur)).

Lemma pstep_inv st st' : pstep st st' -> inv st -> inv st'.
Proof.
  destruct 1; intros Hi.
  - by apply port_open_inv.
  - by apply port_close_inv.
  - apply port_send_ok; [done|lia|done|lia].
  - by apply port_recv_ok.
Qed.

Lemma reachable_inv st0 st : hwf (heap st0) -> rtc pstep (port_subsystem_init st0) st -> inv st.
Proof. intros Hh Hr. pose proof (init_inv st0 Hh) as Hi. induction Hr; eauto using pstep_inv. Qed.

(** in every state reached from [port_subsystem_init] by opening, closing,
    sending and receiving, [port_send] appends the message to the queue of its
    port and of no other, or queues nothing and returns -1 because the length
    is 0 or over 4096, the handle is closed, the queue holds 64 messages, or
    the heap is exhausted. *)
Theorem port_send_spec st0 st i msg len :
  hwf (heap st0) -> rtc pstep (port_subsystem_init st0) st ->
  Forall is_byte msg -> 0 <= len <= Z.of_nat (length msg) ->
  let '(rc, st') := port_send st i msg len in
  (rc = 0 /\ 1 <= len <= PORT_MSG_MAX /\
    exists ms, messages st i = Some ms /\ (length ms < 64)%nat /\
      forall j, messages st' j = if decide (j = i) then Some (ms ++ [sent_msg msg len]) else messages st j) \/
  (rc = -1 /\ woken st' = woken st /\ (forall j, messages st' j = messages st j) /\
    (len = 0 \/ PORT_MSG_MAX < len \/ messages st i = None \/ port_full st i \/
     (PORT_INLINE_MAX < len /\ fst (kmalloc (heap st) len) = 0))).
Proof.
  intros Hh Hr Hb Hl. pose proof (reachable_inv _ _ Hh Hr) as Hi.
  pose proof (port_send_ok st i msg len Hi ltac:(lia) Hb ltac:(lia)) as [_ Hs].
  by destruct (port_send st i msg len).
Qed.

(** in every reachable state [port_recv] delivers the oldest message of
    the port and removes exactly that one, or registers the caller as waiter
    when the queue is empty, or fails without any effect on bad arguments. *)
Theorem port_recv_spec st0 st i buf ok cap cur :
  hwf (heap st0) -> rtc pstep (port_subsystem_init st0) st ->
  let '(r, st') := port_recv st i buf ok cap cur in
  woken st' = woken st /\
  match r with
  | RErr => st' = st /\ (buf = None \/ ok = false \/ cap < PORT_SLOT_SIZE \/ messages st i = None)
  | RBlocked => messages st i = Some [] /\ (forall j, messages st' j = messages st j) /\
      exists k p, port_find_by_id st' i = Some (k, p) /\ waiter p = Some cur
  | RDone out n => exists b m ms, buf = Some b /\ messages st i = Some (m :: ms) /\
      (out, n) = delivered m b cap /\
      (forall j, messages st' j = if decide (j = i) then Some ms else messages st j)
  end.
Proof.
  intros Hh Hr. pose proof (reachable_inv _ _ Hh Hr) as Hi.
  pose proof (port_recv_ok st i buf ok cap cur Hi) as [_ Hs].
  by destruct (port_recv st i buf ok cap cur).
Qed.

(** The bytes [port_recv] leaves in the buffer for an inline message. *)
Lemma inline_out (hb body buf : list Z) : length hb = 8%nat -> (8 + length body <= length buf)%nat ->
  list_inserts 8 body (list_inserts 0 hb buf) = hb ++ body ++ drop (8 + length body) buf.
Proof.
  intros Hh Hl. rewrite (inserts_0_app hb buf) by lia.
  change 8%nat with (8 + 0)%nat at 1. rewrite <- Hh at 1. rewrite list_inserts_app_r. f_equal.
  rewrite inserts_0_app by (rewrite length_drop; lia). by rewrite drop_drop, Hh.
Qed.

(** The payload of an inline message: the bytes after its header, zero filled. *)
Lemma inline_payload msg len : Z.of_nat (length msg) = len -> 8 <= len <= 56 ->
  sent_msg msg len = Inline (le_val (slice msg 0 4)) len (drop 8 msg ++ replicate (Z.to_nat (64 - len)) 0).
Proof.
  intros Hm Hl. unfold sent_msg, HDR, PORT_INLINE_MAX. rewrite (proj2 (Z.leb_le _ _)) by lia.
  rewrite u64_small, (proj2 (Z.ltb_lt _ _)) by lia. f_equal.
  assert (Hld : length (drop 8 msg) = Z.to_nat (len - 8)) by (rewrite length_drop; lia).
  unfold slice. rewrite take_ge by lia. rewrite inserts_0_app by (rewrite length_replicate; lia).
  rewrite drop_replicate. do 2 f_equal. lia.
Qed.

(** What the two paths transport, as bytes. *)
Lemma transport_ok msg len cap buf : Forall is_byte msg -> Z.of_nat (length msg) = len ->
  Z.of_nat (length buf) = cap -> PORT_SLOT_SIZE <= cap -> 8 <= len <= PORT_MSG_MAX ->
  (len <= PORT_INLINE_MAX -> exists rest,
     delivered (sent_msg msg len) buf cap =
       (take 4 msg ++ le_bytes 4 len ++ drop 8 msg ++ replicate 8 0 ++ rest, len + 8)) /\
  (PORT_INLINE_MAX < len <= cap -> exists rest,
     delivered (sent_msg msg len) buf cap = (msg ++ rest, len)).
Proof.
  intros Hb Hm Hbuf Hcap Hlen. unfold PORT_SLOT_SIZE, PORT_MSG_MAX, PORT_INLINE_MAX in *.
  split; intros Hc.
  - rewrite inline_payload by lia. cbn [delivered]. unfold HDR.
    assert (Hld : length (drop 8 msg) = Z.to_nat (len - 8)) by (rewrite length_drop; lia).
    assert (Hsl : slice (drop 8 msg ++ replicate (Z.to_nat (64 - len)) 0) 0 (Z.to_nat len) = drop 8 msg ++ replicate 8 0).
    { unfold slice. rewrite drop_0, take_app_ge by lia. rewrite take_replicate. do 2 f_equal. lia. }
    assert (Ht : le_bytes 4 (le_val (slice msg 0 4)) = take 4 msg).
    { unfold slice. rewrite drop_0. replace 4%nat with (length (take 4 msg)) at 1 by (rewrite length_take; lia).
      apply le_bytes_val. by apply Forall_take. }
    rewrite Hsl, inline_out, Ht.
    + rewrite <- !app_assoc. eexists. f_equal. lia.
    + by rewrite length_app, !length_le_bytes.
    + rewrite length_app, length_replicate. lia.
  - unfold sent_msg, PORT_INLINE_MAX. rewrite (proj2 (Z.leb_gt _ _)) by lia.
    assert (Es : slice msg 0 (Z.to_nat len) = msg) by (unfold slice; rewrite drop_0; apply take_ge; lia).
    cbn [delivered]. rewrite Es. rewrite Z.min_l by lia. rewrite Hm, take_ge by lia.
    rewrite inserts_0_app by lia. eexists. done.
Qed.

(** C14: a message sent to an empty port and then received.  A message of more
    than 56 bytes comes back byte for byte when the buffer is large enough.  A
    message of 8 to 56 bytes comes back 8 bytes longer than it was sent:
    [port_send] takes [len] to include the message header and [port_recv]
    takes it not to, so the receiver is told [len + 8] and the last 8 bytes
    are zeros. *)
Theorem port_roundtrip st0 st st1 i msg len buf cap cur :
  hwf (heap st0) -> rtc pstep (port_subsystem_init st0) st -> messages st i = Some [] ->
  Forall is_byte msg -> Z.of_nat (length msg) = len -> 8 <= len <= PORT_MSG_MAX ->
  Z.of_nat (length buf) = cap -> PORT_SLOT_SIZE <= cap -> len <= cap ->
  port_send st i msg len = (0, st1) ->
  exists rest, fst (port_recv st1 i (Some buf) true cap cur) =
    if len <=? PORT_INLINE_MAX
    then RDone (take 4 msg ++ le_bytes 4 len ++ drop 8 msg ++ replicate 8 0 ++ rest) (len + 8)
    else RDone (msg ++ rest) len.
Proof.
  intros Hh Hr Hemp Hb Hm Hlen Hbuf Hcap Hlc Hsend. pose proof (reachable_inv _ _ Hh Hr) as Hi.
  pose proof (port_send_ok st i msg len Hi ltac:(lia) Hb ltac:(lia)) as [Hi1 Hs].
  rewrite Hsend in Hi1, Hs. cbn [fst snd] in *. destruct Hs as [(_ & _ & ms & E & _ & Hms)|[? _]]; [|lia].
  rewrite Hemp in E. injection E as <-. specialize (Hms i). rewrite decide_True in Hms by done. cbn [app] in Hms.
  pose proof (port_recv_ok st1 i (Some buf) true cap cur Hi1) as (_ & _ & Hrv).
  destruct (fst (port_recv st1 i (Some buf) true cap cur)) as [| |out n].
  - destruct Hrv as [_ [?|[?|[?|?]]]]; (done || lia || congruence).
  - destruct Hrv as [? _]. congruence.
  - destruct Hrv as (b & m & ms' & [= <-] & E & Hd & _). rewrite Hms in E. injection E as <- _.
    destruct (transport_ok msg len cap buf Hb Hm Hbuf Hcap Hlen) as [T1 T2].
    destruct (Z.leb_spec len PORT_INLINE_MAX) as [Hle|Hgt].
    + destruct (T1 Hle) as [rest E]. exists rest. rewrite E in Hd. by injection Hd as -> ->.
    + destruct (T2 ltac:(lia)) as [rest E]. exists rest. rewrite E in Hd. by injection Hd as -> ->.
Qed.

(** A message shorter than its header makes [len - sizeof(msg_hdr_t)] wrap:
    56 bytes are copied from beyond the header whatever the message's length. *)
Theorem port_send_short_overread msg len : 1 <= len < 8 ->
  sent_msg msg len = Inline (le_val (slice msg 0 4)) len
    (list_inserts 0 (slice msg 8 56) (replicate 56 0)).
Proof.
  intros Hl. unfold sent_msg, HDR, PORT_INLINE_MAX. rewrite (proj2 (Z.leb_le _ _)) by lia.
  replace (u64 (len - 8)) with (len - 8 + 2 ^ 64).
  - rewrite (proj2 (Z.ltb_ge _ _)) by lia. done.
  - apply (Zmod_unique _ _ (-1)); lia.
Qed.

(** A large message refused by a full queue leaves its buffer allocated, with
    nothing that refers to it. *)
Theorem port_send_full_leaks st i msg len buf h : inv st -> PORT_INLINE_MAX < len <= PORT_MSG_MAX ->
  Forall is_byte msg -> len <= Z.of_nat (length msg) ->
  port_full st i -> kmalloc (heap st) len = (buf, h) -> buf <> 0 ->
  let st' := snd (port_send st i msg len) in
  live (heap st') = <[buf := len]> (live (heap st)) /\ (buf ∉ (blocks st').*1).
Proof.
  intros Hi Hl Hb Hm (ms & Hms & Hfull) Ek Hbuf. assert (Hl2 : 56 < len <= 4096) by exact Hl.
  unfold port_send. rewrite (proj2 (Z.eqb_neq _ _)), (proj2 (Z.ltb_ge _ _)) by lia. simpl orb; cbv iota.
  unfold messages in Hms. destruct (port_find_by_id st i) as [[k p]|] eqn:Ef; [|done]. simplify_eq.
  rewrite length_map in Hfull. rewrite (proj2 (Z.leb_gt _ _)), Ek, (proj2 (Z.eqb_neq _ _)) by (done || apply Hl).
  pose proof (find_by_id_Some st i k p Hi Ef) as (Ep & Eid & Eik & Hnz).
  destruct (pw_ring _ _ (iv_port _ Hi _ _ Ep) ltac:(congruence)) as (Hw & Hs & Hc).
  assert (Hls : Z.of_nat (length (slice msg 0 (Z.to_nat len))) = len) by (rewrite length_slice; lia).
  pose proof (kmalloc_inv st len buf h _ Hi ltac:(lia) Ek Hls Hbuf) as (Hi1 & Hbl & Hlive & Hni & Hbr & Hmem).
  assert (Hlen : length (slot_bytes (le_val (slice msg 0 4)) len (list_inserts 0 (le_bytes 8 buf) (replicate 56 0))) = 64%nat).
  { apply slot_bytes_decode; [by apply type_bound|lia|by apply ptr_payload]. }
  unfold send_slot. pose proof (push_retry_ok (ring p) _ 999 Hw Hs Hc Hlen) as Hpr.
  rewrite decide_False in Hpr by lia. change (S 999) with 1000%nat in Hpr. rewrite Hpr. cbn [snd].
  split; [|by rewrite Hbl]. simpl.
  assert (Hpos : 0 < len) by lia.
  destruct (kmalloc_ok _ _ _ _ (iv_heap _ Hi) Hpos Ek) as (_ & [[? _]|(_ & _ & Hlv)]); done.
Qed.

(** ** Names *)

Definition named st (nm : list Z) (i : nat) : Prop :=
  exists p, g_port_table st !! i = Some p /\ id p <> 0 /\ cstr (name p) = cstr nm.

Definition names_unique st : Prop :=
  forall i j p q, g_port_table st !! i = Some p -> g_port_table st !! j = Some q ->
    id p <> 0 -> id q <> 0 -> cstr (name p) = cstr (name q) -> i = j.

Lemma name_match st i p nm : inv st -> g_port_table st !! i = Some p ->
  negb (id p =? 0) && (strncmp (name p) nm PORT_NAME_LEN =? 0) = true <->
  id p <> 0 /\ cstr (name p) = cstr nm /\ (length (cstr nm) < 64)%nat.
Proof.
  intros Hi Hp. rewrite andb_true_iff, negb_true_iff, Z.eqb_neq, Z.eqb_eq, strncmp_eq.
  unfold PORT_NAME_LEN. split.
  - intros [Hid E]. destruct (pw_name _ _ (iv_port _ Hi _ _ Hp) Hid) as [_ Hl].
    rewrite take_ge in E by lia. assert (Hlen := f_equal length E). rewrite length_take in Hlen.
    split; [done|]. rewrite take_ge in E by lia. split; [done|lia].
  - intros (Hid & -> & Hl). done.
Qed.

Lemma find_by_name_ok st nm : inv st -> (length (cstr nm) < 64)%nat ->
  match port_find_by_name st nm with
  | Some i => named st nm i
  | None => forall i, ~ named st nm i
  end.
Proof.
  intros Hi Hl. destruct (port_find_by_name st nm) as [i|] eqn:E.
  - apply find_index_Some in E as (p & Hp & Hf & _). apply (name_match st i) in Hf; [|done|done].
    exists p. tauto.
  - intros i (p & Hp & Hid & En). pose proof (proj1 (find_index_None _ _) E i p Hp) as Hf.
    apply not_true_iff_false in Hf. apply Hf. by apply (name_match st i).
Qed.

Lemma names_unique_set st i q : names_unique st ->
  (forall j y, g_port_table st !! j = Some y -> i <> j -> id y <> 0 -> cstr (name y) <> cstr (name q)) ->
  names_unique (set_port st i q).
Proof.
  intros Hu Hq a b x y Ha Hb. simpl in *.
  apply list_lookup_insert_Some in Ha as [(<- & <- & _)|[Hne Ha]];
    apply list_lookup_insert_Some in Hb as [(<- & <- & _)|[Hne' Hb]]; [done| | |eauto].
  - intros _ Hy E. exfalso. by apply (Hq b y).
  - intros Hx _ E. exfalso. by apply (Hq a x).
Qed.

(** Attaching to port [i]. *)
Lemma open_attach st i p r : inv st -> names_unique st -> g_port_table st !! i = Some p -> id p <> 0 ->
  names_unique (set_port st i (set_refcount p r)) /\
  (forall j, messages (set_port st i (set_refcount p r)) j = messages st j).
Proof.
  intros Hi Hu Hp Hid. pose proof (pw_id _ _ (iv_port _ Hi _ _ Hp) Hid) as Hidi. split.
  - apply names_unique_set; [done|]. intros j y Hy Hne Hyd E. apply Hne. by eapply (Hu i j p y).
  - intros j. rewrite (messages_set st i p) by done. simpl. case_decide; [|done]. subst j.
    pose proof (lookup_lt_Some _ _ _ Hp) as Hlt. rewrite (iv_len _ Hi) in Hlt. unfold messages, port_find_by_id.
    rewrite (proj2 (Z.eqb_neq _ _)), (proj2 (Z.ltb_ge _ _)) by (unfold MAX_PORTS in *; lia). simpl orb; cbv iota.
    replace (Z.to_nat (id p - 1)) with i by lia. rewrite Hp, Z.eqb_refl. done.
Qed.

(** Filling the free slot [i] with a new port. *)
Lemma open_create st i p q nm : inv st -> names_unique st -> g_port_table st !! i = Some p -> id p = 0 ->
  (forall k, ~ named st nm k) -> id q = Z.of_nat i + 1 -> queue (ring q) = [] -> cstr (name q) = cstr nm ->
  names_unique (set_port st i q) /\ messages st (Z.of_nat i + 1) = None /\ named (set_port st i q) nm i /\
  (forall j, messages (set_port st i q) j = if decide (j = Z.of_nat i + 1) then Some [] else messages st j).
Proof.
  intros Hi Hu Hp Hz Hf Hqi Hqq Hqn. split_and!.
  - apply names_unique_set; [done|]. intros j y Hy Hne Hyd E. apply (Hf j). exists y. split_and!; congruence.
  - unfold messages, port_find_by_id. destruct (_ || _); [done|].
    replace (Z.to_nat (Z.of_nat i + 1 - 1)) with i by lia. rewrite Hp.
    by rewrite (proj2 (Z.eqb_neq _ _)) by lia.
  - exists q. simpl. rewrite list_lookup_insert_eq by (by apply lookup_lt_Some in Hp). split_and!; [done|lia|done].
  - intros j. unfold messages. rewrite find_by_id_set by eauto. case_decide.
    + rewrite bool_decide_eq_true_2 by lia. by rewrite Hqq.
    + by rewrite !bool_decide_eq_false_2 by lia.
Qed.

(** opening a port by a name of at most 63 characters.  An existing port
    of that name is attached to, when the flags allow; otherwise a port is
    created in a free slot, when the flags allow, with an empty queue and that
    name; in every other case 0 is returned and nothing changes.  Names stay
    unique. *)
Theorem port_open_spec st nm flags pid : inv st -> names_unique st ->
  (0 < length (cstr nm) < 64)%nat ->
  let '(h, st') := port_open st (Some nm) flags pid in
  names_unique st' /\
  ((exists i, named st nm i /\ has_flag flags PORT_OPEN = true /\ h = Z.of_nat i + 1 /\
      (forall j, messages st' j = messages st j)) \/
   (has_flag flags PORT_CREATE = true /\ (forall i, ~ named st nm i) /\
      h <> 0 /\ messages st h = None /\ named st' nm (Z.to_nat (h - 1)) /\
      (forall j, messages st' j = if decide (j = h) then Some [] else messages st j)) \/
   (h = 0 /\ st' = st)).
Proof.
  intros Hi Hu Hl. unfold port_open.
  assert (Hhd : truthy (hd 0 nm) = true).
  { destruct nm as [|c nm]; simpl in *; [lia|]. destruct (truthy c); [done|simpl in Hl; lia]. }
  rewrite Hhd. simpl negb; cbv iota. pose proof (find_by_name_ok st nm Hi ltac:(lia)) as Hf.
  destruct (port_find_by_name st nm) as [i|].
  - destruct Hf as (p & Hp & Hid & Hn). rewrite Hp. pose proof (pw_id _ _ (iv_port _ Hi _ _ Hp) Hid) as Hidi.
    destruct (has_flag flags PORT_OPEN) eqn:Ho; simpl; [|eauto 10].
    destruct (open_attach st i p (u32 (refcount p + 1)) Hi Hu Hp Hid) as [H1 H2].
    split; [done|]. left. exists i. split_and!; [exists p; done|done|done|done].
  - destruct (has_flag flags PORT_CREATE) eqn:Hc; simpl negb; cbv iota; [|eauto 10].
    destruct (find_index _ _) as [i|] eqn:Es; [|eauto 10].
    apply find_index_Some in Es as (p & Hp & Hz & _). zbool. change (PORT_NAME_LEN - 1)%nat with 63%nat.
    destruct (open_create st i p (mkPort (strncpy (replicate 64 0) 0 nm 63) (Z.of_nat i + 1) pid 1 new_ring None) nm)
      as (H1 & H2 & H3 & H4); try done.
    { cbn [name]. rewrite cstr_strncpy_zeroed by lia. apply take_ge. lia. }
    split; [done|]. right. left. split_and!; try done; [lia|].
    by replace (Z.to_nat (Z.of_nat i + 1 - 1)) with i by lia.
Qed.

(** A name of 64 characters or more is stored cut to 63 and never found again,
    so every open of it creates another port. *)
Theorem port_long_name_not_found st nm : inv st -> (64 <= length (cstr nm))%nat ->
  port_find_by_name st nm = None.
Proof.
  intros Hi Hl. apply find_index_None. intros i p Hp.
  apply not_true_iff_false. intros Hf. apply (name_match st i) in Hf; [lia|done|done].
Qed.

End PortProofs.

(** ** Concrete instances *)

(** The simplest heap that keeps the contract: a bump pointer that never
    reuses memory. *)
Definition bump_heap : Type := Z * gmap Z Z.
Definition bump0 : bump_heap := (4096, ∅).

#[export] Instance bump_kheap : KHeap bump_heap := {
  kmalloc h n := if (n <=? 0) || (2 ^ 64 <? fst h + n) then (0, h)
                 else (fst h, (fst h + n, <[fst h := n]> (snd h)));
  kfree h p := (fst h, delete p (snd h)) }.

Definition bump_wf (h : bump_heap) : Prop :=
  0 < fst h <= 2 ^ 64 /\
  (forall p n, snd h !! p = Some n -> 0 < p /\ 0 < n /\ p + n <= fst h) /\
  (forall p n q k, snd h !! p = Some n -> snd h !! q = Some k -> p <> q -> p + n <= q \/ q + k <= p).

#[export] Instance bump_kheap_ok : KHeapOk bump_heap.
Proof.
  refine {| hwf := bump_wf; live := snd |}.
  - intros h p n (H1 & H2 & H3) Hp. apply H2 in Hp. lia.
  - intros h p n q k (H1 & H2 & H3). apply H3.
  - intros [b l] n p h' (H1 & H2 & H3) Hn E. simpl in *. zif_in E; simplify_eq; simpl.
    { split; [done|]. by left. }
    assert (Hb : l !! p = None).
    { destruct (l !! p) eqn:El; [|done]. apply H2 in El. lia. }
    split; [|right; split_and!; [lia|done|done]]. split_and!; simpl; [lia|lia| |].
    + intros q k Hq. apply lookup_insert_Some in Hq as [[<- <-]|[_ Hq]]; [lia|]. apply H2 in Hq. lia.
    + intros q k r j Hq Hr Hne.
      apply lookup_insert_Some in Hq as [[<- <-]|[_ Hq]]; apply lookup_insert_Some in Hr as [[<- <-]|[_ Hr]];
        [done| | |by eapply H3]; [apply H2 in Hr|apply H2 in Hq]; lia.
  - intros [b l] p (H1 & H2 & H3) Hp. split; [|done]. split_and!; simpl in *; [lia|lia| |].
    + intros q k Hq. apply lookup_delete_Some in Hq as [_ Hq]. by apply H2.
    + intros q k r j Hq Hr. apply lookup_delete_Some in Hq as [_ Hq]. apply lookup_delete_Some in Hr as [_ Hr].
      by apply H3.
Defined.

Lemma bump0_wf : hwf bump0.
Proof. split_and!; simpl; [lia|lia|by intros|by intros]. Qed.

(** A port "log" created in an empty table. *)
Definition st_boot : port_state bump_heap := mkState [] bump0 ∅ [].
Definition log_name : list Z := [108; 111; 103].
Definition st_log : port_state bump_heap :=
  snd (port_open (port_subsystem_init st_boot) (Some log_name) PORT_CREATE 7).
Definition big_msg : list Z := replicate 60 65.

Lemma st_log_reach : rtc pstep (port_subsystem_init st_boot) st_log.
Proof. eapply rtc_once, p_open. Qed.

Lemma big_msg_bytes : Forall is_byte big_msg.
Proof. apply Forall_replicate. unfold is_byte. lia. Qed.

Lemma port_send_spec_witness :
  fst (port_send st_log 1 big_msg 60) = 0 /\
  (fst (port_send st_log 1 big_msg 60) = 0 \/ fst (port_send st_log 1 big_msg 60) = -1).
Proof.
  split; [vm_compute; reflexivity|].
  pose proof (port_send_spec st_boot st_log 1 big_msg 60 bump0_wf st_log_reach big_msg_bytes
    ltac:(unfold big_msg; rewrite length_replicate; lia)) as Hs.
  destruct (port_send st_log 1 big_msg 60) as [rc st']. destruct Hs as [[E _]|[E _]]; [left|right]; exact E.
Defined.

Lemma port_recv_spec_witness :
  match fst (port_recv st_log 1 (Some (replicate 64 0)) true 64 9) with
  | RBlocked => messages st_log 1 = Some []
  | _ => False
  end.
Proof.
  assert (E : fst (port_recv st_log 1 (Some (replicate 64 0)) true 64 9) = RBlocked) by (vm_compute; reflexivity).
  pose proof (port_recv_spec st_boot st_log 1 (Some (replicate 64 0)) true 64 9 bump0_wf st_log_reach) as Hs.
  destruct (port_recv st_log 1 (Some (replicate 64 0)) true 64 9) as [r st']. cbn [fst] in *. subst r.
  exact (proj1 (proj2 Hs)).
Defined.

Lemma port_roundtrip_witness :
  let st1 := snd (port_send st_log 1 big_msg 60) in
  exists rest, fst (port_recv st1 1 (Some (replicate 64 0)) true 64 9) = RDone (big_msg ++ rest) 60.
Proof.
  intros st1. assert (Hl : Z.of_nat (length big_msg) = 60) by (unfold big_msg; rewrite length_replicate; lia).
  assert (Hm : messages st_log 1 = Some []) by (vm_compute; reflexivity).
  assert (Hs : port_send st_log 1 big_msg 60 = (0, st1)).
  { rewrite (surjective_pairing (port_send st_log 1 big_msg 60)). f_equal. }
  exact (port_roundtrip st_boot st_log st1 1 big_msg 60 (replicate 64 0) 64 9 bump0_wf st_log_reach Hm
    big_msg_bytes Hl ltac:(unfold PORT_MSG_MAX; lia) eq_refl ltac:(unfold PORT_SLOT_SIZE; lia) ltac:(lia) Hs).
Defined.

Lemma port_open_spec_witness :
  fst (port_open st_log (Some log_name) PORT_OPEN 8) = 1 /\
  names_unique (snd (port_open st_log (Some log_name) PORT_OPEN 8)).
Proof.
  split; [vm_compute; reflexivity|].
  assert (Hi0 : inv (port_subsystem_init st_boot)) by (apply init_inv, bump0_wf).
  assert (Hu0 : names_unique (port_subsystem_init st_boot)).
  { intros i j p q Hp _ Hid. apply lookup_replicate in Hp as [-> _]. done. }
  assert (Hu1 : names_unique st_log).
  { unfold st_log. pose proof (port_open_spec _ log_name PORT_CREATE 7 Hi0 Hu0 ltac:(simpl; lia)) as H1.
    destruct (port_open _ _ _ _). exact (proj1 H1). }
  pose proof (port_open_spec st_log log_name PORT_OPEN 8
    (reachable_inv st_boot _ bump0_wf st_log_reach) Hu1 ltac:(simpl; lia)) as H2.
  destruct (port_open st_log (Some log_name) PORT_OPEN 8) as [h2 st2]. exact (proj1 H2).
Defined.

End Port.
