(* ===== verification/Entropy.v ===== *)
(** * kernel/security/security.c: the entropy pool

    The pool is 32 words of 64 bits and an index.  The time stamp counter is
    an argument of the operation that reads it.  The spin lock around the pool
    is taken and released on every path: an operation is one step. *)

From S2P Require Import Prelude.
From Stdlib Require Import ZArith Lia.
From stdpp Require Import base list numbers.
Open Scope Z_scope.

Module Entropy.

Definition POOL_WORDS : nat := 32.

Record pool_state := mkEnt { g_pool : list Z; g_pool_idx : Z }.

Definition ROTL64 (x n : Z) : Z := u64 (Z.lor (Z.shiftl x n) (Z.shiftr x (64 - n))).

(** The four words behind the pointers [a], [b], [c], [d]. *)
Definition pool_quarter_round (a b c d : Z) : Z * Z * Z * Z :=
  let a := u64 (a + b) in let d := Z.lxor d a in let d := ROTL64 d 32 in
  let c := u64 (c + d) in let b := Z.lxor b c in let b := ROTL64 b 24 in
  let a := u64 (a + b) in let d := Z.lxor d a in let d := ROTL64 d 16 in
  let c := u64 (c + d) in let b := Z.lxor b c in let b := ROTL64 b 63 in
  (a, b, c, d).

(** [pool_quarter_round(&g[i], &g[j], &g[k], &g[l])] *)
Definition round_at (g : list Z) (i j k l : nat) : list Z :=
  let '(a, b, c, d) := pool_quarter_round (nth i g 0) (nth j g 0) (nth k g 0) (nth l g 0) in
  <[l := d]> (<[k := c]> (<[j := b]> (<[i := a]> g))).

Definition mix_step (g : list Z) (i : nat) : list Z :=
  let g := round_at g (0 + i) (4 + i) (8 + i) (12 + i) in
  round_at g (16 + i) (20 + i) (24 + i) (28 + i).

Definition pool_mix (g : list Z) : list Z := foldl mix_step g (seq 0 4).

Arguments pool_mix g : simpl never.

Definition pool_slot (s : pool_state) : nat := Z.to_nat (g_pool_idx s mod Z.of_nat POOL_WORDS).

Definition xor_at (g : list Z) (i : nat) (x : Z) : list Z := <[i := Z.lxor (nth i g 0) x]> g.

Definition entropy_mix (s : pool_state) (seed : Z) : pool_state :=
  let g := xor_at (g_pool s) (pool_slot s) seed in
  mkEnt (pool_mix g) (u32 (g_pool_idx s + 1)).

(** [tsc] is what [sec_rdtsc] returns. *)
Definition entropy_get64 (s : pool_state) (tsc : Z) : Z * pool_state :=
  let g := xor_at (g_pool s) (pool_slot s) tsc in
  let g := pool_mix g in
  let result := Z.lxor (nth 0 g 0) (nth (POOL_WORDS / 2) g 0) in
  let g := <[0%nat := u64 (nth 0 g 0 + nth 1 g 0)]> g in
  (result, mkEnt g (u32 (g_pool_idx s + 1))).

(** ** Words *)

Definition word (x : Z) : Prop := 0 <= x < 2 ^ 64.

Lemma word_u64 x : word (u64 x).
Proof. apply Z.mod_pos_bound. lia. Qed.

Lemma word_bits x : word x -> forall n, 64 <= n -> Z.testbit x n = false.
Proof. intros Hx n Hn. rewrite <- (Z.mod_small x (2 ^ 64)) by exact Hx. by apply Z.mod_pow2_bits_high. Qed.

Lemma word_lxor x y : word x -> word y -> word (Z.lxor x y).
Proof.
  intros Hx Hy. assert (E : u64 (Z.lxor x y) = Z.lxor x y); [|rewrite <- E; apply word_u64].
  apply Z.bits_inj'. intros n Hn. destruct (Z_lt_le_dec n 64).
  - by rewrite Z.mod_pow2_bits_low.
  - rewrite Z.mod_pow2_bits_high, Z.lxor_spec, !word_bits by (done || lia). done.
Qed.

Lemma lxor_inj x y z : Z.lxor x z = Z.lxor y z -> x = y.
Proof.
  intros E. apply (f_equal (fun v => Z.lxor v z)) in E.
  by rewrite !Z.lxor_assoc, Z.lxor_nilpotent, !Z.lxor_0_r in E.
Qed.

Lemma add_inj x y z : word x -> word y -> u64 (x + z) = u64 (y + z) -> x = y.
Proof.
  intros Hx Hy E. assert (E' : (x + z - z) mod 2 ^ 64 = (y + z - z) mod 2 ^ 64).
  { rewrite <- (Zminus_mod_idemp_l (x + z)), <- (Zminus_mod_idemp_l (y + z)). by rewrite E. }
  rewrite !Z.add_simpl_r in E'. rewrite !Z.mod_small in E' by done. done.
Qed.

Lemma rotl_bits x n i : word x -> 0 < n < 64 -> 0 <= i < 64 ->
  Z.testbit (ROTL64 x n) i = if i <? n then Z.testbit x (i + 64 - n) else Z.testbit x (i - n).
Proof.
  intros Hx Hn Hi. unfold ROTL64. rewrite Z.mod_pow2_bits_low by lia.
  rewrite Z.lor_spec, Z.shiftl_spec, Z.shiftr_spec by lia. destruct (Z.ltb_spec i n).
  - rewrite Z.testbit_neg_r by lia. simpl. f_equal. lia.
  - rewrite (word_bits x Hx (i + (64 - n))) by lia. apply orb_false_r.
Qed.

Lemma rotl_inj x y n : word x -> word y -> 0 < n < 64 -> ROTL64 x n = ROTL64 y n -> x = y.
Proof.
  intros Hx Hy Hn E. apply Z.bits_inj'. intros i Hi. destruct (Z_lt_le_dec i 64) as [Hlt|?].
  2: { rewrite !word_bits by done. done. }
  destruct (Z_lt_le_dec (i + n) 64) as [H|H].
  - apply (f_equal (fun v => Z.testbit v (i + n))) in E. rewrite !rotl_bits in E by (done || lia).
    destruct (Z.ltb_spec (i + n) n); [lia|]. by replace (i + n - n) with i in E by lia.
  - apply (f_equal (fun v => Z.testbit v (i + n - 64))) in E. rewrite !rotl_bits in E by (done || lia).
    destruct (Z.ltb_spec (i + n - 64) n); [|lia]. by replace (i + n - 64 + 64 - n) with i in E by lia.
Qed.
#[export] Hint Resolve word_u64 word_lxor : asd.

Lemma word_rotl x n : word (ROTL64 x n).
Proof. apply word_u64. Qed.
#[export] Hint Resolve word_rotl : asd.

(** The quarter round is a bijection on four words: it can be undone step by
    step. *)
Lemma quarter_round_inj a b c d a' b' c' d' :
  word a -> word b -> word c -> word d -> word a' -> word b' -> word c' -> word d' ->
  pool_quarter_round a b c d = pool_quarter_round a' b' c' d' -> a = a' /\ b = b' /\ c = c' /\ d = d'.
Proof.
  intros Ha Hb Hc Hd Ha' Hb' Hc' Hd'. unfold pool_quarter_round. cbv zeta.
  set (a1 := u64 (a + b)). set (a1' := u64 (a' + b')).
  set (d1 := ROTL64 (Z.lxor d a1) 32). set (d1' := ROTL64 (Z.lxor d' a1') 32).
  set (c1 := u64 (c + d1)). set (c1' := u64 (c' + d1')).
  set (b1 := ROTL64 (Z.lxor b c1) 24). set (b1' := ROTL64 (Z.lxor b' c1') 24).
  set (a2 := u64 (a1 + b1)). set (a2' := u64 (a1' + b1')).
  set (d2 := ROTL64 (Z.lxor d1 a2) 16). set (d2' := ROTL64 (Z.lxor d1' a2') 16).
  set (c2 := u64 (c1 + d2)). set (c2' := u64 (c1' + d2')).
  intros E. assert (Ea2 : a2 = a2') by congruence. assert (Ed2 : d2 = d2') by congruence.
  assert (Ec2 : c2 = c2') by congruence.
  assert (Eb2 : ROTL64 (Z.lxor b1 c2) 63 = ROTL64 (Z.lxor b1' c2') 63) by congruence. clear E.
  assert (W : word a1 /\ word a1' /\ word d1 /\ word d1' /\ word c1 /\ word c1' /\ word b1 /\ word b1' /\
    word a2' /\ word c2' /\ word c2)
    by (split_and!; first [apply word_u64|apply word_rotl]). destruct W as (? & ? & ? & ? & ? & ? & ? & ? & ? & ? & ?).
  assert (Eb1 : b1 = b1').
  { apply rotl_inj in Eb2; [|auto with asd..|lia]. rewrite Ec2 in Eb2. by apply lxor_inj in Eb2. }
  assert (Ec1 : c1 = c1') by (apply (add_inj _ _ d2); [done|done|]; rewrite Ed2 at 2; exact Ec2).
  assert (Ed1 : d1 = d1').
  { unfold d2, d2' in Ed2. rewrite Ea2 in Ed2. apply rotl_inj in Ed2; [|auto with asd..|lia]. by apply lxor_inj in Ed2. }
  assert (Ea1 : a1 = a1') by (apply (add_inj _ _ b1); [done|done|]; rewrite Eb1 at 2; exact Ea2).
  assert (Eb : b = b').
  { unfold b1, b1' in Eb1. rewrite Ec1 in Eb1. apply rotl_inj in Eb1; [|auto with asd..|lia]. by apply lxor_inj in Eb1. }
  assert (Ec : c = c') by (apply (add_inj _ _ d1); [done|done|]; rewrite Ed1 at 2; exact Ec1).
  assert (Edd : d = d').
  { unfold d1, d1' in Ed1. rewrite Ea1 in Ed1. apply rotl_inj in Ed1; [|auto with asd..|lia]. by apply lxor_inj in Ed1. }
  split_and!; try done. apply (add_inj _ _ b); [done|done|]. rewrite Eb at 2. exact Ea1.
Qed.

(** ** Pools *)

Definition pool_ok (g : list Z) : Prop := length g = POOL_WORDS /\ Forall word g.

Lemma pool_nth g i : pool_ok g -> word (nth i g 0).
Proof.
  intros [_ Hf]. destruct (nth_in_or_default i g 0) as [Hin| ->]; [|split; lia].
  rewrite List.Forall_forall in Hf. by apply Hf.
Qed.
#[export] Hint Resolve pool_nth : asd.

Lemma pool_insert g i x : pool_ok g -> word x -> pool_ok (<[i := x]> g).
Proof. intros [Hl Hf] Hx. split; [by rewrite length_insert|]. by apply Forall_insert. Qed.
#[export] Hint Resolve pool_insert : asd.

Lemma pool_ext g h : pool_ok g -> pool_ok h -> (forall i, (i < POOL_WORDS)%nat -> nth i g 0 = nth i h 0) -> g = h.
Proof.
  intros [Hg _] [Hh _] He. apply (nth_ext _ _ 0 0); [congruence|]. intros i Hi. apply He. congruence.
Qed.

Lemma round_ok g i j k l : pool_ok g -> pool_ok (round_at g i j k l).
Proof.
  intros Hg. unfold round_at, pool_quarter_round. cbv zeta. auto 10 with asd.
Qed.
#[export] Hint Resolve round_ok : asd.

Lemma nth_insert g i j x : pool_ok g -> (i < POOL_WORDS)%nat ->
  nth j (<[i := x]> g) 0 = if decide (i = j) then x else nth j g 0.
Proof.
  intros [Hl _] Hi. case_decide as E; [subst; apply nth_insert_eq; lia|by apply nth_insert_ne].
Qed.

Lemma round_inj g h i j k l : pool_ok g -> pool_ok h -> NoDup [i; j; k; l] ->
  Forall (fun x => (x < POOL_WORDS)%nat) [i; j; k; l] -> round_at g i j k l = round_at h i j k l -> g = h.
Proof.
  intros Hg Hh Hnd Hr E. rewrite !list.NoDup_cons, !not_elem_of_cons in Hnd.
  destruct Hnd as ((Nij & Nik & Nil & _) & (Njk & Njl & _) & (Nkl & _) & _).
  rewrite !list.Forall_cons in Hr. destruct Hr as (Ri & Rj & Rk & Rl & _).
  unfold round_at in E.
  destruct (pool_quarter_round (nth i g 0) (nth j g 0) (nth k g 0) (nth l g 0)) as [[[a b] c] d] eqn:Eg.
  destruct (pool_quarter_round (nth i h 0) (nth j h 0) (nth k h 0) (nth l h 0)) as [[[a' b'] c'] d'] eqn:Eh.
  assert (W : (word a /\ word b /\ word c /\ word d) /\ word a' /\ word b' /\ word c' /\ word d').
  { unfold pool_quarter_round in Eg, Eh. cbv zeta in Eg, Eh. injection Eg as <- <- <- <-. injection Eh as <- <- <- <-.
    split_and!; auto with asd. }
  destruct W as ((Wa & Wb & Wc & Wd) & Wa' & Wb' & Wc' & Wd').
  assert (He : forall n, (if decide (l = n) then d else if decide (k = n) then c else if decide (j = n) then b
      else if decide (i = n) then a else nth n g 0) =
    (if decide (l = n) then d' else if decide (k = n) then c' else if decide (j = n) then b'
      else if decide (i = n) then a' else nth n h 0)).
  { intros n. apply (f_equal (fun x => nth n x 0)) in E. rewrite !nth_insert in E by auto 10 with asd. exact E. }
  assert (E4 : a = a' /\ b = b' /\ c = c' /\ d = d').
  { pose proof (He i) as Hi. pose proof (He j) as Hj. pose proof (He k) as Hk. pose proof (He l) as Hl.
    repeat case_decide; subst; try congruence; tauto. }
  destruct E4 as (-> & -> & -> & ->). rewrite <- Eh in Eg.
  apply quarter_round_inj in Eg as (Ei & Ej & Ek & El); [|auto with asd..].
  apply pool_ext; [done|done|]. intros n Hn. specialize (He n). repeat case_decide; subst; done.
Qed.

Lemma mix_step_ok g i : pool_ok g -> pool_ok (mix_step g i).
Proof. intros Hg. unfold mix_step. auto with asd. Qed.

Lemma mix_step_inj g h i : (i < 4)%nat -> pool_ok g -> pool_ok h -> mix_step g i = mix_step h i -> g = h.
Proof.
  intros Hi Hg Hh E. unfold mix_step in E.
  assert (Hx : forall o, (o = 0 \/ o = 16)%nat -> NoDup [(o + i)%nat; (o + 4 + i)%nat; (o + 8 + i)%nat; (o + 12 + i)%nat] /\
    Forall (fun x => (x < POOL_WORDS)%nat) [(o + i)%nat; (o + 4 + i)%nat; (o + 8 + i)%nat; (o + 12 + i)%nat]).
  { intros o Ho. rewrite !list.NoDup_cons, !not_elem_of_cons, !list.Forall_cons. unfold POOL_WORDS.
    split_and!; try lia; try apply not_elem_of_nil; try apply NoDup_nil_2; constructor. }
  apply round_inj in E; [|auto with asd..|apply (Hx 16%nat); lia|apply (Hx 16%nat); lia].
  apply round_inj in E; [done|done|done|apply (Hx 0%nat); lia|apply (Hx 0%nat); lia].
Qed.

Lemma mix_steps_ok l : forall g, pool_ok g -> pool_ok (foldl mix_step g l).
Proof. induction l as [|i l IH]; intros g Hg; [done|]. apply IH, mix_step_ok, Hg. Qed.

Lemma mix_steps_inj l : Forall (fun i => (i < 4)%nat) l -> forall g h, pool_ok g -> pool_ok h ->
  foldl mix_step g l = foldl mix_step h l -> g = h.
Proof.
  induction 1 as [|i l Hi Hl IH]; intros g h Hg Hh E; [done|]. cbn [foldl] in E.
  apply IH in E; [|by apply mix_step_ok..]. by apply mix_step_inj in E.
Qed.

Lemma pool_mix_ok g : pool_ok g -> pool_ok (pool_mix g).
Proof. apply mix_steps_ok. Qed.
#[export] Hint Resolve pool_mix_ok : asd.

Lemma pool_mix_inj g h : pool_ok g -> pool_ok h -> pool_mix g = pool_mix h -> g = h.
Proof. apply mix_steps_inj. repeat constructor. Qed.

Lemma xor_at_ok g i x : pool_ok g -> word x -> pool_ok (xor_at g i x).
Proof. unfold xor_at. auto with asd. Qed.
#[export] Hint Resolve xor_at_ok : asd.

Lemma xor_at_inj g h i x : pool_ok g -> pool_ok h -> (i < POOL_WORDS)%nat -> xor_at g i x = xor_at h i x -> g = h.
Proof.
  intros Hg Hh Hi E. apply pool_ext; [done|done|]. intros n Hn.
  apply (f_equal (fun v => nth n v 0)) in E. unfold xor_at in E. rewrite !nth_insert in E by done.
  case_decide; [subst; by apply lxor_inj in E|done].
Qed.

Lemma slot_lt s : (pool_slot s < POOL_WORDS)%nat.
Proof. unfold pool_slot, POOL_WORDS. pose proof (Z.mod_pos_bound (g_pool_idx s) (Z.of_nat 32)). lia. Qed.

#[local] Opaque pool_mix.

(** No operation on the entropy pool loses entropy: for given inputs the
    new pool determines the old one, and different seeds give different pools;
    the pool stays 32 words of 64 bits. *)
Theorem entropy_no_loss s s' seed : pool_ok (g_pool s) -> pool_ok (g_pool s') -> word seed ->
  g_pool_idx s = g_pool_idx s' ->
  pool_ok (g_pool (entropy_mix s seed)) /\ pool_ok (g_pool (entropy_get64 s seed).2) /\ word (entropy_get64 s seed).1 /\
  (entropy_mix s seed = entropy_mix s' seed -> s = s') /\
  ((entropy_get64 s seed).2 = (entropy_get64 s' seed).2 -> s = s') /\
  (forall seed', word seed' -> entropy_mix s seed = entropy_mix s seed' -> seed = seed').
Proof.
  intros Hg Hh Hs Ei. assert (Eslot : pool_slot s' = pool_slot s) by (unfold pool_slot; by rewrite Ei).
  assert (Hinj : forall x, pool_mix (xor_at (g_pool s) (pool_slot s) x) = pool_mix (xor_at (g_pool s') (pool_slot s') x) -> word x -> s = s').
  { intros x E Hx. apply pool_mix_inj in E; [|auto with asd..]. rewrite Eslot in E.
    apply xor_at_inj in E; [|done|done|apply slot_lt]. destruct s, s'; simpl in *. congruence. }
  split_and!.
  - unfold entropy_mix. cbn [g_pool]. auto with asd.
  - unfold entropy_get64. cbn [g_pool snd]. auto with asd.
  - unfold entropy_get64. cbn [fst]. auto 6 with asd.
  - intros E. apply (f_equal g_pool) in E. unfold entropy_mix in E. cbn [g_pool] in E.
    exact (Hinj seed E Hs).
  - intros E. apply (f_equal g_pool) in E. unfold entropy_get64 in E. cbv zeta in E. cbn [snd g_pool] in E.
    apply (Hinj seed); [|done]. set (p := pool_mix _) in *. set (q := pool_mix (xor_at (g_pool s') _ _)) in *.
    assert (Hp : pool_ok p) by (unfold p; auto with asd). assert (Hq : pool_ok q) by (unfold q; auto with asd).
    clearbody p q. assert (En : forall n, (n < POOL_WORDS)%nat -> n <> 0%nat -> nth n p 0 = nth n q 0).
    { intros n Hn H0. apply (f_equal (fun v => nth n v 0)) in E. rewrite !nth_insert, !decide_False in E by (done || unfold POOL_WORDS; lia). done. }
    apply pool_ext; [done|done|]. intros [|n] Hn; [|by apply En].
    apply (f_equal (fun v => nth 0 v 0)) in E. rewrite !nth_insert, !decide_True in E by (done || unfold POOL_WORDS; lia).
    rewrite (En 1%nat) in E by (unfold POOL_WORDS; lia). apply add_inj in E; auto with asd.
  - intros seed' Hs' E. apply (f_equal g_pool) in E. unfold entropy_mix in E. cbn [g_pool] in E.
    apply pool_mix_inj in E; [|auto with asd..]. apply (f_equal (fun v => nth (pool_slot s) v 0)) in E.
    unfold xor_at in E. rewrite !nth_insert, !decide_True in E by (done || apply slot_lt).
    rewrite !(Z.lxor_comm (nth _ _ _)) in E. by apply lxor_inj in E.
Qed.

#[local] Transparent pool_mix.

Definition pool0 : pool_state := mkEnt (replicate 32 0) 0.

Lemma entropy_no_loss_witness :
  pool_ok (g_pool pool0) /\ pool_ok (g_pool (entropy_mix pool0 12345)) /\ entropy_mix pool0 12345 <> entropy_mix pool0 1.
Proof.
  assert (Hg : pool_ok (g_pool pool0)).
  { split; [reflexivity|]. apply Forall_replicate. split; lia. }
  destruct (entropy_no_loss pool0 pool0 12345 Hg Hg ltac:(split; lia) eq_refl) as (H1 & _ & _ & _ & _ & H).
  split; [exact Hg|]. split; [exact H1|]. intros E. specialize (H 1 ltac:(split; lia) E). discriminate H.
Defined.

End Entropy.
