(* ===== verification/Security.v ===== *)
(** * kernel/security/security.c: audit log, login rate limiter, W^X, start-up

    [pit_ticks], the time stamp counter, RDRAND and CPUID are read from the
    hardware: what they return is an argument.  Each lock is taken and released
    on every path, so an operation is one step. *)

From S2P Require Import Prelude CString Entropy.
From Stdlib Require Import String ZArith Lia.
From stdpp Require Import base list gmap numbers.
Open Scope Z_scope.

Module Security.
Import CString Entropy.

Definition AUDIT_RING_SIZE : nat := 64.
Definition AUDIT_DETAIL_LEN : nat := 48.
Definition AUDIT_LOGIN_OK : Z := 1.
Definition AUDIT_LOGIN_FAIL : Z := 2.
Definition AUDIT_SYSCALL_DENY : Z := 4.
Definition AUDIT_EXEC : Z := 5.
Definition AUDIT_STACK_SMASH : Z := 6.

Record audit_entry_t := mkAudit {
  timestamp_ns : Z; pid : Z; uid : Z; event : Z; detail : list Z }.

Record audit_state := mkAS { g_audit_ring : list audit_entry_t; g_audit_head : Z }.

(** [for (size_t i = 0; i < n; i++) d[i] = s[i];] *)
Definition sec_memcpy (d s : list Z) (n : nat) : list Z := foldl (fun d i => <[i := nth i s 0]> d) d (seq 0 n).
Definition sec_strlen (s : list Z) : nat := strlen s.

(** [detail] is [None] for a null pointer. *)
Definition audit_log (a : audit_state) (ticks p u ev : Z) (dt : option (list Z)) : audit_state :=
  let i := Z.to_nat (g_audit_head a mod Z.of_nat AUDIT_RING_SIZE) in
  let d := replicate AUDIT_DETAIL_LEN 0 in
  let d := match dt with
           | None => d
           | Some s =>
               let len := sec_strlen s in
               let len := if (AUDIT_DETAIL_LEN <=? len)%nat then (AUDIT_DETAIL_LEN - 1)%nat else len in
               sec_memcpy d s len
           end in
  mkAS (<[i := mkAudit (u64 (ticks * 10000000)) p u ev d]> (g_audit_ring a)) (u32 (g_audit_head a + 1)).

(** What is written to the serial line. *)
Inductive out := serial_puts (s : list Z) | put_u64 (n : Z).

Definition dump_entry (e : audit_entry_t) : list out :=
  [serial_puts (str "[AUDIT] ts="); put_u64 (timestamp_ns e); serial_puts (str " pid="); put_u64 (pid e);
   serial_puts (str " uid="); put_u64 (uid e); serial_puts (str " ev="); put_u64 (event e);
   serial_puts (str " "); serial_puts (cstr (detail e)); serial_puts [10]].

Definition audit0 : audit_entry_t := mkAudit 0 0 0 0 (replicate AUDIT_DETAIL_LEN 0).

Definition audit_dump (a : audit_state) : list out :=
  let n := Z.of_nat AUDIT_RING_SIZE in
  let count := if g_audit_head a <? n then g_audit_head a else n in
  let start := if n <=? g_audit_head a then g_audit_head a mod n else 0 in
  concat (map (fun i => dump_entry (nth (Z.to_nat ((start + Z.of_nat i) mod n)) (g_audit_ring a) audit0))
              (seq 0 (Z.to_nat count))).

(** ** Login rate limiter *)

Definition RATELIMIT_MAX_USERS : nat := 32.
Definition RATELIMIT_WINDOW_NS : Z := 60 * 1000000000.
Definition RATELIMIT_LOCKOUT_NS : Z := 30 * 1000000000.
Definition RATELIMIT_THRESHOLD : Z := 5.

Record ratelimit_entry_t := mkRl {
  rl_uid : Z; fail_count : Z; first_fail_ns : Z; lockout_until_ns : Z }.

Definition rl_find (t : list ratelimit_entry_t) (u : Z) : option nat :=
  find_index (fun e => (rl_uid e =? u) && (0 <? fail_count e)) t.

(** The scan for the smallest [first_fail_ns]: time so far, slot so far. *)
Fixpoint oldest (t : list ratelimit_entry_t) (i : nat) (ts : Z) (idx : nat) : nat :=
  match t with
  | [] => idx
  | e :: t' => if first_fail_ns e <? ts then oldest t' (S i) (first_fail_ns e) i else oldest t' (S i) ts idx
  end.

Definition rl_alloc (t : list ratelimit_entry_t) (u : Z) : nat * list ratelimit_entry_t :=
  match find_index (fun e => fail_count e =? 0) t with
  | Some i =>
      let e := nth i t (mkRl 0 0 0 0) in
      (i, <[i := mkRl u (fail_count e) (first_fail_ns e) (lockout_until_ns e)]> t)
  | None => let i := oldest t 0 (2 ^ 64 - 1) 0 in (i, <[i := mkRl u 0 0 0]> t)
  end.

Record sec_state := mkSec {
  pool : pool_state;
  audit : audit_state;
  g_rl_table : list ratelimit_entry_t;
  stack_chk_guard : Z }.

Definition set_audit (s : sec_state) (a : audit_state) : sec_state :=
  mkSec (pool s) a (g_rl_table s) (stack_chk_guard s).

(** The two entries of the rate limiter: result, message, table. *)
Definition rl_fail (t : list ratelimit_entry_t) (u now_ns : Z) : Z * string * list ratelimit_entry_t :=
  let '(i, t) := match rl_find t u with Some i => (i, t) | None => rl_alloc t u end in
  let e := nth i t (mkRl 0 0 0 0) in
  if now_ns <? lockout_until_ns e then (1, "login attempt during lockout"%string, t)
  else
    let '(c, f) := if RATELIMIT_WINDOW_NS <? u64 (now_ns - first_fail_ns e)
                   then (0, now_ns) else (fail_count e, first_fail_ns e) in
    let f := if c =? 0 then now_ns else f in
    let c := u32 (c + 1) in
    if RATELIMIT_THRESHOLD <=? c
    then (1, "account locked after repeated failures"%string,
          <[i := mkRl (rl_uid e) c f (u64 (now_ns + RATELIMIT_LOCKOUT_NS))]> t)
    else (0, "bad password"%string, <[i := mkRl (rl_uid e) c f (lockout_until_ns e)]> t).

Definition rl_reset (t : list ratelimit_entry_t) (u : Z) : list ratelimit_entry_t :=
  match rl_find t u with Some i => <[i := mkRl 0 0 0 0]> t | None => t end.

(** [ticks], [ticks']: the two readings of [pit_ticks]. *)
Definition auth_fail (s : sec_state) (u ticks ticks' : Z) : Z * sec_state :=
  let '(r, msg, t) := rl_fail (g_rl_table s) u (u64 (ticks * 10000000)) in
  (r, mkSec (pool s) (audit_log (audit s) ticks' 0 u AUDIT_LOGIN_FAIL (Some (str msg))) t (stack_chk_guard s)).

Definition auth_success (s : sec_state) (u ticks : Z) : sec_state :=
  mkSec (pool s) (audit_log (audit s) ticks 0 u AUDIT_LOGIN_OK (Some (str "login successful")))
    (rl_reset (g_rl_table s) u) (stack_chk_guard s).

(** ** W^X, start-up, stack smashing *)

Definition SEC_PROT_WRITE : Z := 2.
Definition SEC_PROT_EXEC : Z := 4.

Definition security_check_wx (s : sec_state) (prot ticks : Z) : Z * sec_state :=
  if has_flag prot SEC_PROT_WRITE && has_flag prot SEC_PROT_EXEC
  then (-1, set_audit s (audit_log (audit s) ticks 0 0 AUDIT_SYSCALL_DENY
              (Some (str "W^X violation: write+exec mapping rejected"))))
  else (0, s).

(** The registers CPUID returns. *)
Record cpuid_t := mkCpuid { eax : Z; ebx : Z; ecx : Z; edx : Z }.

(** Ten tries of RDRAND: the value of the first that succeeded. *)
Fixpoint rdrand_try (tries : list (option Z)) : option Z :=
  match tries with [] => None | Some v :: _ => Some v | None :: t => rdrand_try t end.
Definition sec_rdrand64 (leaf1 : cpuid_t) (tries : list (option Z)) : option Z :=
  if negb (has_flag (ecx leaf1) (2 ^ 30)) then None else rdrand_try (take 10 tries).

Definition pack (hi lo : Z) : Z := Z.lor (Z.shiftl hi 32) lo.

Record hw := mkHw {
  tsc1 : Z; tsc2 : Z; tsc3 : Z; tries : list (option Z); leaf0 : cpuid_t; leaf1 : cpuid_t; boot_ticks : Z }.

Definition canary_of (x : Z) : Z := if (x =? 0) || (x =? 2 ^ 64 - 1) then 0x596f75416c6c6f77 else x.

Definition security_init (s : sec_state) (h : hw) : sec_state :=
  let p := mkEnt (replicate POOL_WORDS 0) (g_pool_idx (pool s)) in
  let a := mkAS (replicate AUDIT_RING_SIZE audit0) (g_audit_head (audit s)) in
  let t := replicate RATELIMIT_MAX_USERS (mkRl 0 0 0 0) in
  let p := entropy_mix p (tsc1 h) in
  let p := entropy_mix p (Z.lxor (tsc1 h) 0xdeadbeefcafe0000) in
  let p := match sec_rdrand64 (leaf1 h) (tries h) with Some rnd => entropy_mix p rnd | None => p end in
  let p := entropy_mix p (pack (ebx (leaf0 h)) (edx (leaf0 h))) in
  let p := entropy_mix p (pack (ecx (leaf0 h)) (eax (leaf0 h))) in
  let p := entropy_mix p (pack (eax (leaf1 h)) (edx (leaf1 h))) in
  let p := entropy_mix p (tsc2 h) in
  let '(canary, p) := entropy_get64 p (tsc3 h) in
  mkSec p (audit_log a (boot_ticks h) 0 0 AUDIT_EXEC (Some (str "security module initialised"))) t (canary_of canary).

(** The state and the console output when the CPU halts. *)
Definition stack_chk_fail (s : sec_state) (ticks : Z) : sec_state * list out :=
  (set_audit s (audit_log (audit s) ticks 0 0 AUDIT_STACK_SMASH (Some (str "stack smashing detected — halting"))),
   [serial_puts (10 :: str "*** KERNEL PANIC: STACK SMASH DETECTED ***" ++ [10])]).

(** ** The audit log keeps the last 64 events *)

(** What a call of [audit_log] records. *)
Definition entry_of (c : Z * Z * Z * Z * option (list Z)) : audit_entry_t :=
  let '(ticks, p, u, ev, dt) := c in
  let txt := take (AUDIT_DETAIL_LEN - 1) (cstr (default [] dt)) in
  mkAudit (u64 (ticks * 10000000)) p u ev (txt ++ replicate (AUDIT_DETAIL_LEN - length txt) 0).

Definition log_call (a : audit_state) (c : Z * Z * Z * Z * option (list Z)) : audit_state :=
  let '(ticks, p, u, ev, dt) := c in audit_log a ticks p u ev dt.

Lemma nth_cstr s i : (i < length (cstr s))%nat -> nth i s 0 = nth i (cstr s) 0.
Proof.
  revert i. induction s as [|c s IH]; intros i Hi; [done|]. cbn in *. destruct (truthy c); [|cbn in Hi; lia].
  destruct i as [|i]; [done|]. cbn in *. apply IH. lia.
Qed.

Lemma sec_memcpy_eq n : forall d s, (n <= length d)%nat ->
  sec_memcpy d s n = map (fun i => nth i s 0) (seq 0 n) ++ drop n d.
Proof.
  induction n as [|n IH]; intros d s Hn; [by rewrite drop_0|]. unfold sec_memcpy.
  rewrite seq_S, foldl_app, Nat.add_0_l. cbn [foldl]. fold (sec_memcpy d s n). rewrite IH by lia.
  rewrite map_app. cbn [map]. rewrite insert_app_r_alt by (rewrite length_map, length_seq; lia).
  rewrite length_map, length_seq, Nat.sub_diag.
  destruct (lookup_lt_is_Some_2 d n ltac:(lia)) as [x Hx]. rewrite (drop_S d x n Hx). cbn.
  by rewrite <- app_assoc.
Qed.

Lemma audit_log_entry a c : log_call a c =
  mkAS (<[Z.to_nat (g_audit_head a mod Z.of_nat AUDIT_RING_SIZE) := entry_of c]> (g_audit_ring a)) (u32 (g_audit_head a + 1)).
Proof.
  destruct c as [[[[ticks p] u] ev] dt]. unfold log_call, audit_log, entry_of. do 3 f_equal.
  destruct dt as [s|]; cbn [default from_option id]; [|done].
  unfold sec_strlen. rewrite strlen_cstr. set (L := length (cstr s)).
  set (n := if (AUDIT_DETAIL_LEN <=? L)%nat then _ else _).
  assert (Hn : n = length (take (AUDIT_DETAIL_LEN - 1) (cstr s))).
  { rewrite length_take. fold L. unfold n, AUDIT_DETAIL_LEN. destruct (Nat.leb_spec 48 L); lia. }
  assert (n < AUDIT_DETAIL_LEN)%nat by (rewrite Hn, length_take; unfold AUDIT_DETAIL_LEN; lia).
  rewrite sec_memcpy_eq by (rewrite length_replicate; lia). rewrite drop_replicate. rewrite <- Hn. f_equal.
  apply (nth_ext _ _ 0 0); [by rewrite length_map, length_seq|]. intros i Hi. rewrite length_map, length_seq in Hi.
  rewrite (nth_indep _ 0 (nth 0 s 0)) by (rewrite length_map, length_seq; lia).
  rewrite (map_nth (fun i => nth i s 0)), seq_nth by lia. cbn. rewrite nth_cstr.
  - rewrite !nth_lookup, lookup_take_lt; [done|]. rewrite Hn, length_take in Hi. unfold AUDIT_DETAIL_LEN in *. lia.
  - rewrite Hn, length_take in Hi. lia.
Qed.

(** The ring after [log]: the slot of each of the last 64 events. *)
Definition ring_ok (a : audit_state) (log : list audit_entry_t) : Prop :=
  length (g_audit_ring a) = AUDIT_RING_SIZE /\ g_audit_head a = Z.of_nat (length log) /\
  forall i e, log !! i = Some e -> (length log <= i + AUDIT_RING_SIZE)%nat ->
    nth (i mod AUDIT_RING_SIZE)%nat (g_audit_ring a) audit0 = e.

Lemma ring_step a log c : ring_ok a log -> Z.of_nat (length log) + 1 < 2 ^ 32 -> ring_ok (log_call a c) (log ++ [entry_of c]).
Proof.
  intros (Hl & Hh & Hr) Hb. rewrite audit_log_entry, Hh.
  replace (Z.to_nat (Z.of_nat (length log) mod Z.of_nat AUDIT_RING_SIZE)) with (length log mod AUDIT_RING_SIZE)%nat
    by (rewrite <- Nat2Z.inj_mod; lia).
  assert (Hlt : (length log mod AUDIT_RING_SIZE < AUDIT_RING_SIZE)%nat) by (apply Nat.mod_upper_bound; done).
  split_and!; cbn [g_audit_ring g_audit_head].
  - by rewrite length_insert.
  - rewrite u32_small by lia. rewrite length_app. cbn [length]. lia.
  - intros i e He Hi. rewrite length_app in Hi. cbn [length] in Hi. apply lookup_app_Some in He as [He|[Hge He]].
    + pose proof (lookup_lt_Some _ _ _ He). rewrite nth_insert_ne; [apply Hr; [done|lia]|].
      unfold AUDIT_RING_SIZE in *. pose proof (Nat.div_mod (length log) 64). pose proof (Nat.div_mod i 64).
      pose proof (Nat.mod_upper_bound i 64). pose proof (Nat.mod_upper_bound (length log) 64).
      nia.
    + apply list_lookup_singleton_Some in He as [Hi0 <-]. replace i with (length log) by lia.
      apply nth_insert_eq. lia.
Qed.

Lemma ring_run cs : forall a log, ring_ok a log -> Z.of_nat (length log + length cs) < 2 ^ 32 ->
  ring_ok (foldl log_call a cs) (log ++ map entry_of cs).
Proof.
  induction cs as [|c cs IH]; intros a log Hr Hb; cbn [foldl map]; [by rewrite app_nil_r|].
  cbn [length] in Hb. replace (log ++ entry_of c :: map entry_of cs) with ((log ++ [entry_of c]) ++ map entry_of cs)
    by (by rewrite <- app_assoc). apply IH; [|rewrite length_app; cbn [length]; lia]. apply ring_step; [done|lia].
Qed.

Lemma dump_ring a log : ring_ok a log -> Z.of_nat (length log) < 2 ^ 32 ->
  audit_dump a = concat (map dump_entry (drop (length log - AUDIT_RING_SIZE) log)).
Proof.
  intros (Hl & Hh & Hr) Hb. unfold audit_dump. rewrite Hh. set (n := length log) in *.
  set (start := (n - AUDIT_RING_SIZE)%nat).
  assert (Hc : Z.to_nat (if Z.of_nat n <? Z.of_nat AUDIT_RING_SIZE then Z.of_nat n else Z.of_nat AUDIT_RING_SIZE) = (n - start)%nat).
  { destruct (Z.ltb_spec (Z.of_nat n) (Z.of_nat AUDIT_RING_SIZE)); unfold start; lia. }
  rewrite Hc. f_equal. rewrite <- (map_map (fun i => nth (Z.to_nat
    (((if Z.of_nat AUDIT_RING_SIZE <=? Z.of_nat n then Z.of_nat n mod Z.of_nat AUDIT_RING_SIZE else 0) + Z.of_nat i)
       mod Z.of_nat AUDIT_RING_SIZE)) (g_audit_ring a) audit0) dump_entry). f_equal.
  apply (nth_ext _ _ audit0 audit0); [rewrite length_map, length_seq, length_drop; lia|].
  intros i Hi. rewrite length_map, length_seq in Hi.
  match goal with |- nth i (map ?f _) _ = _ => rewrite (nth_indep _ audit0 (f 0%nat)) by (rewrite length_map, length_seq; lia);
    rewrite (map_nth f), seq_nth by lia end. cbn beta. rewrite Nat.add_0_l.
  destruct (lookup_lt_is_Some_2 log (start + i)) as [e He]; [lia|].
  rewrite (nth_lookup (drop _ _)), lookup_drop, He. cbn [default from_option id].
  rewrite <- (Hr _ _ He) by (unfold start in *; lia). f_equal.
  assert (Hs : (if Z.of_nat AUDIT_RING_SIZE <=? Z.of_nat n then Z.of_nat n mod Z.of_nat AUDIT_RING_SIZE else 0) =
    Z.of_nat start mod Z.of_nat AUDIT_RING_SIZE).
  { unfold start, AUDIT_RING_SIZE. destruct (Z.leb_spec (Z.of_nat 64) (Z.of_nat n)).
    - rewrite Nat2Z.inj_sub by lia. rewrite <- (Z.mod_add (Z.of_nat n - Z.of_nat 64) 1) by lia. f_equal. lia.
    - replace (n - 64)%nat with 0%nat by lia. done. }
  rewrite Hs, Zplus_mod_idemp_l, <- Nat2Z.inj_add, <- Nat2Z.inj_mod. lia.
Qed.

(** The lines [audit_dump] prints for one call of [audit_log]. *)
Definition dumped (c : Z * Z * Z * Z * option (list Z)) : list out :=
  let '(ticks, p, u, ev, dt) := c in
  [serial_puts (str "[AUDIT] ts="); put_u64 (u64 (ticks * 10000000)); serial_puts (str " pid="); put_u64 p;
   serial_puts (str " uid="); put_u64 u; serial_puts (str " ev="); put_u64 ev;
   serial_puts (str " "); serial_puts (take 47 (cstr (default [] dt))); serial_puts [10]].

Lemma dump_entry_of c : dump_entry (entry_of c) = dumped c.
Proof.
  destruct c as [[[[ticks p] u] ev] dt]. unfold dump_entry, dumped, entry_of. cbn [timestamp_ns pid uid event detail].
  change (AUDIT_DETAIL_LEN - 1)%nat with 47%nat. change AUDIT_DETAIL_LEN with 48%nat.
  do 9 f_equal. f_equal. f_equal. rewrite length_take. destruct (48 - _)%nat eqn:En; [lia|]. cbn [replicate].
  apply cstr_app_zero, Forall_take, cstr_nonzero.
Qed.

(** After any sequence of up to 2^32 events, [audit_dump] prints exactly
    the last 64 of them (all, when there are fewer), oldest first, each with its
    time, process, user, event code and the first 47 characters of its text. *)
Theorem audit_dump_correct (cs : list (Z * Z * Z * Z * option (list Z))) : Z.of_nat (length cs) < 2 ^ 32 ->
  audit_dump (foldl log_call (mkAS (replicate AUDIT_RING_SIZE audit0) 0) cs) = concat (map dumped (drop (length cs - 64) cs)).
Proof.
  intros Hb. assert (H0 : ring_ok (mkAS (replicate AUDIT_RING_SIZE audit0) 0) []) by done.
  pose proof (ring_run cs _ [] H0 Hb) as Hr. cbn [app] in Hr. rewrite (dump_ring _ _ Hr) by (by rewrite length_map).
  rewrite length_map, skipn_map, map_map. change AUDIT_RING_SIZE with 64%nat.
  f_equal. apply map_ext. intros c. apply dump_entry_of.
Qed.

Lemma audit_dump_correct_witness :
  audit_dump (foldl log_call (mkAS (replicate AUDIT_RING_SIZE audit0) 0)
    (map (fun i => (i, i, 0, 2, Some (str "x"))) (seqZ 0 70))) =
  concat (map dumped (map (fun i => (i, i, 0, 2, Some (str "x"))) (seqZ 6 64))).
Proof.
  rewrite (audit_dump_correct (map (fun i => (i, i, 0, 2, Some (str "x"))) (seqZ 0 70)) ltac:(vm_compute; reflexivity)).
  vm_compute. reflexivity.
Defined.

(** ** The rate limiter is one limiter per user *)

Abbreviation lim := (Z * Z * Z)%type. (* failures, first failure, locked until *)
Definition lim_of (e : ratelimit_entry_t) : lim := (fail_count e, first_fail_ns e, lockout_until_ns e).

(** What a failure does to one user's limiter. *)
Definition step1 (o : option lim) (now : Z) : Z * lim :=
  let '(c, f, l) := default (0, 0, 0) o in
  if now <? l then (1, (c, f, l))
  else
    let '(c, f) := if RATELIMIT_WINDOW_NS <? now - f then (0, now) else (c, f) in
    let f := if c =? 0 then now else f in
    if RATELIMIT_THRESHOLD <=? c + 1 then (1, (c + 1, f, now + RATELIMIT_LOCKOUT_NS)) else (0, (c + 1, f, l)).

Definition active (e : ratelimit_entry_t) : bool := 0 <? fail_count e.
Definition view (t : list ratelimit_entry_t) (u : Z) : option lim :=
  (fun i => lim_of (nth i t (mkRl 0 0 0 0))) <$> rl_find t u.

Definition lim_ok (l : lim) (now : Z) : Prop :=
  let '(c, f, lk) := l in
  0 < c <= 7 /\ 0 <= f <= now /\ 0 <= lk <= now + RATELIMIT_LOCKOUT_NS /\
  (RATELIMIT_THRESHOLD <= c -> f + RATELIMIT_LOCKOUT_NS * (c - 4) <= lk).

(** [now] is the time of the last call. *)
Record table_ok (t : list ratelimit_entry_t) (now : Z) : Prop := {
  to_len : length t = RATELIMIT_MAX_USERS;
  to_idle : forall i e, t !! i = Some e -> active e = false -> lim_of e = (0, 0, 0);
  to_lim : forall i e, t !! i = Some e -> active e = true -> lim_ok (lim_of e) now;
  to_uniq : forall i j e e', t !! i = Some e -> t !! j = Some e' -> active e = true -> active e' = true ->
    rl_uid e = rl_uid e' -> i = j }.

Lemma nth_of {X} (t : list X) i e d : t !! i = Some e -> nth i t d = e.
Proof. intros E. by rewrite nth_lookup, E. Qed.

Lemma find_active t now u : table_ok t now -> match rl_find t u with
  | Some i => exists e, t !! i = Some e /\ active e = true /\ rl_uid e = u /\ view t u = Some (lim_of e)
  | None => view t u = None /\ forall i e, t !! i = Some e -> active e = true -> rl_uid e <> u
  end.
Proof.
  intros Ht. unfold view. destruct (rl_find t u) as [i|] eqn:E.
  - pose proof E as Hf. unfold rl_find in Hf. apply find_index_Some in Hf as (e & He & Hb & _). zbool. exists e.
    unfold active. cbn [fmap option_fmap option_map]; rewrite (nth_of t i e _ He). split_and!; [done|by apply Z.ltb_lt|done|done].
  - split; [done|]. intros i e He Ha Hu. unfold rl_find in E. rewrite find_index_None in E. specialize (E i e He).
    unfold active in Ha. rewrite Ha, Hu, Z.eqb_refl in E. done.
Qed.

Lemma view_Some t now i e : table_ok t now -> t !! i = Some e -> active e = true -> view t (rl_uid e) = Some (lim_of e).
Proof.
  intros Ht He Ha. pose proof (find_active t now (rl_uid e) Ht) as Hf. destruct (rl_find t (rl_uid e)) as [j|].
  - destruct Hf as (e' & He' & Ha' & Hu & ->). assert (j = i) as -> by (by eapply to_uniq). congruence.
  - destruct Hf as [_ Hf]. by specialize (Hf i e He Ha).
Qed.

Lemma view_inv t now u l : table_ok t now -> view t u = Some l ->
  exists i e, t !! i = Some e /\ active e = true /\ rl_uid e = u /\ lim_of e = l.
Proof.
  intros Ht E. pose proof (find_active t now u Ht) as Hf. destruct (rl_find t u) as [i|].
  - destruct Hf as (e & He & Ha & Hu & E'). exists i, e. split_and!; try done. congruence.
  - destruct Hf as [E' _]. congruence.
Qed.

(** Replacing a slot by the limiter of [u]. *)
Lemma view_insert t now i e0 e t' : table_ok t now -> t !! i = Some e0 -> t' = <[i := e]> t -> active e = true ->
  (forall j e', j <> i -> t !! j = Some e' -> active e' = true -> rl_uid e' <> rl_uid e) -> lim_ok (lim_of e) now ->
  table_ok t' now /\ view t' (rl_uid e) = Some (lim_of e) /\
  forall v, v <> rl_uid e -> view t' v = if active e0 && (rl_uid e0 =? v) then None else view t v.
Proof.
  intros Ht He0 -> Ha Hfr Hl. pose proof (lookup_lt_Some _ _ _ He0) as Hi.
  assert (Hlk : forall j x, (<[i := e]> t) !! j = Some x -> (j = i /\ x = e) \/ (j <> i /\ t !! j = Some x)).
  { intros j x Hx. destruct (decide (j = i)) as [->|Hne].
    - rewrite list_lookup_insert_eq in Hx by done. left. by simplify_eq.
    - rewrite list_lookup_insert_ne in Hx by done. by right. }
  assert (Ht' : table_ok (<[i := e]> t) now).
  { destruct Ht as [H1 H2 H3 H4]. split.
    - by rewrite length_insert.
    - intros j x [[-> ->]|[_ Hx]]%Hlk Hx'; [congruence|by apply (H2 j)].
    - intros j x [[-> ->]|[_ Hx]]%Hlk Hx'; [done|by apply (H3 j)].
    - intros j k x y [[-> ->]|[Hj Hx]]%Hlk [[-> ->]|[Hk Hy]]%Hlk Hx' Hy' Hu; [done| | |by apply (H4 j k x y)].
      + by destruct (Hfr k y Hk Hy Hy').
      + by destruct (Hfr j x Hj Hx Hx'). }
  split_and!; [done|apply (view_Some _ now i); [done|by rewrite list_lookup_insert_eq|done]|].
  intros v Hv. destruct (view (<[i := e]> t) v) as [l|] eqn:E.
  - apply (view_inv _ now) in E as (j & x & Hx & Hax & <- & <-); [|done]. apply Hlk in Hx as [[-> ->]|[Hj Hx]]; [done|].
    destruct (active e0 && (rl_uid e0 =? rl_uid x)) eqn:Eb; [|by rewrite (view_Some t now j)].
    zbool. destruct Hj. by apply (to_uniq _ _ Ht j i x e0).
  - destruct (active e0 && (rl_uid e0 =? v)) eqn:Eb; [done|]. symmetry.
    destruct (view t v) as [l|] eqn:E'; [|done]. apply (view_inv _ now) in E' as (j & x & Hx & Hax & <- & <-); [|done].
    assert (j <> i) by (intros ->; simplify_eq; rewrite Hax, Z.eqb_refl in Eb; done).
    rewrite (view_Some _ now j x Ht') in E; [done|by rewrite list_lookup_insert_ne|done].
Qed.

Lemma lim_ok_mono l now now' : lim_ok l now -> now <= now' -> lim_ok l now'.
Proof. destruct l as [[c f] lk]. unfold lim_ok. lia. Qed.

Lemma table_ok_mono t now now' : table_ok t now -> now <= now' -> table_ok t now'.
Proof. intros [H1 H2 H3 H4] Hn. split; try done. intros i e He Ha. eapply lim_ok_mono; [by eapply H3|done]. Qed.

Definition old_lim (o : option lim) (now : Z) : Prop := match o with Some l => lim_ok l now | None => True end.

Lemma view_old t now u : table_ok t now -> old_lim (view t u) now.
Proof.
  intros Ht. destruct (view t u) as [l|] eqn:E; [|done].
  apply (view_inv _ now) in E as (i & e & He & Ha & _ & <-); [|done]. by apply (to_lim _ _ Ht i).
Qed.

Ltac rl_consts := unfold RATELIMIT_WINDOW_NS, RATELIMIT_LOCKOUT_NS, RATELIMIT_THRESHOLD in *.

Lemma step1_ok o now : 0 <= now -> old_lim o now -> lim_ok (step1 o now).2 now.
Proof.
  intros Hn Ho. unfold step1, old_lim, lim_ok in *. rl_consts.
  destruct o as [[[c f] l]|]; cbn [default from_option id]; repeat case_match; zbool; simplify_eq; cbn [snd] in *; simplify_eq; lia.
Qed.

(** The slot [auth_fail] works on. *)
Definition slot_for (t : list ratelimit_entry_t) (u : Z) : nat * list ratelimit_entry_t :=
  match rl_find t u with Some i => (i, t) | None => rl_alloc t u end.

Lemma oldest_ok t : forall i ts idx, let r := oldest t i ts idx in
  (r = idx /\ (forall e, e ∈ t -> ts <= first_fail_ns e)) \/
  exists k e, r = (i + k)%nat /\ t !! k = Some e /\ first_fail_ns e < ts /\ forall e', e' ∈ t -> first_fail_ns e <= first_fail_ns e'.
Proof.
  induction t as [|e t IH]; intros i ts idx; cbn [oldest]; [left; split; [done|]; intros e He; by apply elem_of_nil in He|].
  destruct (Z.ltb_spec (first_fail_ns e) ts) as [Hlt|Hge].
  - right. destruct (IH (S i) (first_fail_ns e) i) as [[-> Hm]|(k & x & -> & Hx & Hl & Hm)].
    + exists 0%nat, e. split_and!; [lia|done|done|]. intros e' [->|He']%elem_of_cons; [lia|auto].
    + exists (S k), x. split_and!; [lia|done|lia|]. intros e' [->|He']%elem_of_cons; [lia|auto].
  - destruct (IH (S i) ts idx) as [[-> Hm]|(k & x & -> & Hx & Hl & Hm)].
    + left. split; [done|]. intros e' [->|He']%elem_of_cons; [lia|auto].
    + right. exists (S k), x. split_and!; [lia|done|done|]. intros e' [->|He']%elem_of_cons; [lia|auto].
Qed.

(** The entry that makes room: none, or the oldest when all 32 are in use by
    others. *)
Definition evicted (t : list ratelimit_entry_t) (u : Z) (e0 : ratelimit_entry_t) : Prop :=
  active e0 = false \/ rl_uid e0 = u \/
  (view t u = None /\ (forall e, e ∈ t -> active e = true) /\ forall e, e ∈ t -> first_fail_ns e0 <= first_fail_ns e).

Lemma slot_ok t now u : table_ok t now -> now < 2 ^ 63 ->
  exists i e0 e, slot_for t u = (i, <[i := e]> t) /\ t !! i = Some e0 /\ rl_uid e = u /\
    lim_of e = default (0, 0, 0) (view t u) /\ (view t u <> None -> e = e0) /\ evicted t u e0 /\
    (forall j e', j <> i -> t !! j = Some e' -> active e' = true -> rl_uid e' <> u).
Proof.
  intros Ht Hb. unfold slot_for. pose proof (find_active t now u Ht) as Hf. destruct (rl_find t u) as [i|].
  { destruct Hf as (e & He & Ha & Hu & ->). exists i, e, e. rewrite list_insert_id by done.
    split_and!; try done; [by right; left|]. intros j e' Hj He' Ha' Hu'. destruct Hj. eapply to_uniq; eauto. congruence. }
  destruct Hf as [Ev Hn]. rewrite Ev. unfold rl_alloc. destruct (find_index _ t) as [i|] eqn:Efi.
  - apply find_index_Some in Efi as (e & He & Hz & _). zbool. rewrite (nth_of t i e _ He).
    assert (Ha : active e = false) by (unfold active; rewrite Hz; done).
    pose proof (to_idle _ _ Ht i e He Ha) as Hl. unfold lim_of in Hl.
    exists i, e. eexists. split; [done|]. split; [done|]. cbn [rl_uid]. unfold lim_of at 1. cbn.
    split_and!; try done; [by left|]. intros j e' Hj He' Ha'. by apply (Hn j).
  - rewrite find_index_None in Efi. assert (Hact : forall e, e ∈ t -> active e = true).
    { intros e [j He]%list_elem_of_lookup. destruct (active e) eqn:Ha; [done|].
      pose proof (to_idle _ _ Ht j e He Ha) as Hl. unfold lim_of in Hl. specialize (Efi j e He).
      apply Z.eqb_neq in Efi. congruence. }
    pose proof (to_len _ _ Ht) as Hlen. destruct (oldest_ok t 0 (2 ^ 64 - 1) 0) as [[_ Hm]|(k & e0 & Er & He0 & _ & Hm)].
    { exfalso. destruct t as [|e t]; [done|]. specialize (Hm e (list_elem_of_here _ _)).
      specialize (Hact e (list_elem_of_here _ _)). pose proof (to_lim _ _ Ht 0 e eq_refl Hact) as Hl. unfold lim_ok, lim_of in Hl. lia. }
    rewrite Nat.add_0_l in Er. rewrite Er. exists k, e0. eexists. split; [done|]. split; [done|]. cbn [rl_uid].
    split_and!; try done; [by right; right|]. intros j e' Hj He' Ha'. by apply (Hn j).
Qed.

Lemma rl_fail_ok t now0 u now : table_ok t now0 -> now0 <= now -> 0 <= now < 2 ^ 63 ->
  let '(r, _, t') := rl_fail t u now in
  r = (step1 (view t u) now).1 /\ table_ok t' now /\ view t' u = Some (step1 (view t u) now).2 /\
  exists e0, e0 ∈ t /\ evicted t u e0 /\
    forall v, v <> u -> view t' v = if active e0 && (rl_uid e0 =? v) then None else view t v.
Proof.
  intros Ht0 Hm Hb. pose proof (table_ok_mono _ _ now Ht0 Hm) as Ht. unfold rl_fail. fold (slot_for t u).
  destruct (slot_ok t now u Ht ltac:(lia)) as (i & e0 & e & -> & He0 & Hu & Hl & Hsame & Hev & Hfr).
  pose proof (lookup_lt_Some _ _ _ He0) as Hi. cbv beta iota zeta. rewrite nth_insert_eq by done. 
  assert (Hin : e0 ∈ t) by (by eapply list_elem_of_lookup_2).
  pose proof (view_old t now u Ht) as Hold. pose proof (step1_ok (view t u) now ltac:(lia) Hold) as Hs.
  assert (Hins : forall c f l, (step1 (view t u) now).2 = (c, f, l) ->
    table_ok (<[i := mkRl (rl_uid e) c f l]> t) now /\ view (<[i := mkRl (rl_uid e) c f l]> t) u = Some (c, f, l) /\
    exists e0, e0 ∈ t /\ evicted t u e0 /\
    forall v, v <> u -> view (<[i := mkRl (rl_uid e) c f l]> t) v = if active e0 && (rl_uid e0 =? v) then None else view t v).
  { intros c f l E. rewrite E in Hs. rewrite Hu.
    destruct (view_insert t now i e0 (mkRl u c f l) _ Ht He0 eq_refl) as (G1 & G2 & G3); [unfold active; cbn; unfold lim_ok in Hs; apply Z.ltb_lt; lia|done|done|].
    split; [done|]. split; [done|]. exists e0. done. }
  unfold step1 in *. rewrite <- Hl in *. unfold lim_of in *.
  destruct (Z.ltb_spec now (lockout_until_ns e)) as [Hlk|Hlk].
  { split; [done|]. destruct (view t u) as [l0|] eqn:Ev; [|cbn in Hl; injection Hl as ? ? ?; lia].
    assert (e = e0) as -> by (by apply Hsame). rewrite list_insert_id by done. split; [done|].
    cbn [default from_option id] in Hl. cbn [snd]. split; [by rewrite Hl|]. exists e0. split_and!; try done. intros v Hv.
    rewrite Hu, (proj2 (Z.eqb_neq u v)) by done. by rewrite andb_false_r. }
  assert (Hf : 0 <= first_fail_ns e <= now /\ 0 <= fail_count e <= 7).
  { destruct (view t u) as [[[c f] l]|]; cbn [default from_option id old_lim] in *; injection Hl as ? ? ?; [unfold lim_ok in Hold; lia|lia]. }
  rewrite (u64_small (now - first_fail_ns e)) by lia.
  destruct (RATELIMIT_WINDOW_NS <? now - first_fail_ns e).
  - cbn [Z.eqb Z.add] in *. change (u32 (0 + 1)) with 1. change (RATELIMIT_THRESHOLD <=? 1) with false in *. cbn [fst snd] in *.
    rewrite list_insert_insert_eq. split; [done|]. by apply Hins.
  - rewrite (u32_small (fail_count e + 1)) by lia. rewrite (u64_small (now + _)) by (rl_consts; lia).
    destruct (RATELIMIT_THRESHOLD <=? fail_count e + 1); cbn [fst snd] in *;
      rewrite list_insert_insert_eq; (split; [done|]); by apply Hins.
Qed.

Lemma rl_reset_ok t now u : table_ok t now ->
  table_ok (rl_reset t u) now /\ view (rl_reset t u) u = None /\ forall v, v <> u -> view (rl_reset t u) v = view t v.
Proof.
  intros Ht. unfold rl_reset. pose proof (find_active t now u Ht) as Hf. destruct (rl_find t u) as [i|]; [|tauto].
  destruct Hf as (e & He & Ha & Hu & _). pose proof (lookup_lt_Some _ _ _ He) as Hi.
  set (z := mkRl 0 0 0 0). assert (Hlk : forall j x, (<[i := z]> t) !! j = Some x -> active x = true -> j <> i /\ t !! j = Some x).
  { intros j x Hx Hax. destruct (decide (j = i)) as [->|Hne].
    - rewrite list_lookup_insert_eq in Hx by done. simplify_eq.
    - by rewrite list_lookup_insert_ne in Hx. }
  assert (Ht' : table_ok (<[i := z]> t) now).
  { destruct Ht as [H1 H2 H3 H4]. split.
    - by rewrite length_insert.
    - intros j x Hx Hax. destruct (decide (j = i)) as [->|Hne].
      + rewrite list_lookup_insert_eq in Hx by done. by simplify_eq.
      + rewrite list_lookup_insert_ne in Hx by done. by apply (H2 j).
    - intros j x Hx Hax. apply Hlk in Hx as [_ Hx]; [|done]. by apply (H3 j).
    - intros j k x y Hx Hy Hax Hay. apply Hlk in Hx as [_ Hx]; [|done]. apply Hlk in Hy as [_ Hy]; [|done]. by apply H4. }
  split; [done|]. assert (Hv : forall v l, view (<[i := z]> t) v = Some l -> v <> u /\ view t v = Some l).
  { intros v l E. apply (view_inv _ now) in E as (j & x & Hx & Hax & <- & <-); [|done].
    apply Hlk in Hx as [Hj Hx]; [|done]. split; [|by apply (view_Some _ now j)].
    intros E. apply Hj, (to_uniq _ _ Ht j i x e); try done. congruence. }
  split.
  - destruct (view (<[i := z]> t) u) as [l|] eqn:E; [|done]. by apply Hv in E as [? _].
  - intros v Hne. destruct (view (<[i := z]> t) v) as [l|] eqn:E; [by apply Hv in E as [_ ->]|]. symmetry.
    destruct (view t v) as [l|] eqn:E'; [|done]. apply (view_inv _ now) in E' as (j & x & Hx & Hax & <- & <-); [|done].
    rewrite (view_Some _ now j x Ht') in E; [done| |done]. rewrite list_lookup_insert_ne; [done|]. intros <-. congruence.
Qed.

(** C18: The shared 32-entry table behaves as one limiter per user: a failed
    login steps the limiter of its user ([step1]) and leaves every other user's
    alone, unless all 32 entries are in use by others, when the one with the
    oldest first failure is dropped; a successful login clears the user's
    limiter and nothing else. *)
Theorem auth_limiter_correct (s : sec_state) now0 u ticks ticks' :
  let now := ticks * 10000000 in
  table_ok (g_rl_table s) now0 -> now0 <= now -> 0 <= now < 2 ^ 63 ->
  let '(r, s') := auth_fail s u ticks ticks' in
  (r = (step1 (view (g_rl_table s) u) now).1 /\ table_ok (g_rl_table s') now /\
   view (g_rl_table s') u = Some (step1 (view (g_rl_table s) u) now).2 /\
   exists e0, e0 ∈ g_rl_table s /\ evicted (g_rl_table s) u e0 /\
     forall v, v <> u -> view (g_rl_table s') v = if active e0 && (rl_uid e0 =? v) then None else view (g_rl_table s) v) /\
  (table_ok (g_rl_table (auth_success s u ticks)) now0 /\ view (g_rl_table (auth_success s u ticks)) u = None /\
   forall v, v <> u -> view (g_rl_table (auth_success s u ticks)) v = view (g_rl_table s) v).
Proof.
  intros now Ht Hm Hb. unfold auth_fail. rewrite (u64_small (ticks * 10000000)) by (unfold now in *; lia). fold now.
  pose proof (rl_fail_ok (g_rl_table s) now0 u now Ht Hm Hb) as H.
  destruct (rl_fail (g_rl_table s) u now) as [[r msg] t']. cbn [g_rl_table]. split; [done|].
  by apply rl_reset_ok.
Qed.

Definition sec0 : sec_state := mkSec pool0 (mkAS (replicate AUDIT_RING_SIZE audit0) 0) (replicate RATELIMIT_MAX_USERS (mkRl 0 0 0 0)) 1.

Lemma sec0_ok now : table_ok (g_rl_table sec0) now.
Proof.
  assert (H0 : forall i e, g_rl_table sec0 !! i = Some e -> e = mkRl 0 0 0 0).
  { intros i e He. by apply lookup_replicate in He as [-> _]. }
  split; [done| | |].
  - intros i e ->%H0 _. done.
  - intros i e ->%H0 Ha. done.
  - intros i j e e' ->%H0 _ Ha. done.
Qed.

Lemma auth_limiter_correct_witness :
  (auth_fail sec0 1000 200 201).1 = 0 /\ view (g_rl_table (auth_fail sec0 1000 200 201).2) 1000 = Some (1, 2000000000, 0).
Proof.
  pose proof (auth_limiter_correct sec0 0 1000 200 201 (sec0_ok 0) ltac:(lia) ltac:(lia)) as H.
  destruct (auth_fail sec0 1000 200 201) as [r s']. destruct H as [(Hr & _ & Hv & _) _].
  split; [exact Hr|exact Hv].
Defined.

(** ** Runs of failed logins *)

(** Failed logins of several users: who, and when ([pit_ticks]). *)
Fixpoint failures (s : sec_state) (evs : list (Z * Z)) : list (Z * Z) :=
  match evs with
  | [] => []
  | (u, ticks) :: evs => let '(r, s') := auth_fail s u ticks ticks in (u, r) :: failures s' evs
  end.
Definition of_user (u : Z) (l : list (Z * Z)) : list Z := map snd (filter (fun p => p.1 = u) l).

Fixpoint run1 (o : option lim) (times : list Z) : list Z :=
  match times with
  | [] => []
  | t :: times => let '(r, l) := step1 o (t * 10000000) in r :: run1 (Some l) times
  end.

(** Times in order, from [now0] on, within 292 years. *)
Fixpoint in_order (now0 : Z) (evs : list (Z * Z)) : Prop :=
  match evs with
  | [] => True
  | (_, ticks) :: evs => now0 <= ticks * 10000000 < 2 ^ 63 /\ in_order (ticks * 10000000) evs
  end.

Lemma no_eviction t now u U e0 : table_ok t now -> NoDup U -> (length U <= RATELIMIT_MAX_USERS)%nat -> u ∈ U ->
  (forall v, view t v <> None -> v ∈ U) -> e0 ∈ t -> evicted t u e0 ->
  forall v, v <> u -> active e0 && (rl_uid e0 =? v) = false.
Proof.
  intros Ht HU Hl Hu Hv He0 Hev v Hne. destruct Hev as [->|[->|(Ev & Hall & _)]]; [done| |].
  - rewrite (proj2 (Z.eqb_neq u v)) by done. by rewrite andb_false_r.
  - exfalso. assert (Hnd : NoDup (u :: map rl_uid t)).
    { apply list.NoDup_cons. split.
      - intros (e & -> & [i He]%list_elem_of_lookup)%list_elem_of_fmap.
        rewrite (view_Some t now i) in Ev; [done|done|done|]. apply Hall. by eapply list_elem_of_lookup_2.
      - apply NoDup_alt. intros i j x Hi Hj. apply list_lookup_fmap_Some in Hi as (e & -> & He).
        apply list_lookup_fmap_Some in Hj as (e' & Hx & He').
        eapply (to_uniq _ _ Ht i j e e'); try done; apply Hall; by eapply list_elem_of_lookup_2. }
    assert (Hs : u :: map rl_uid t ⊆+ U).
    { apply NoDup_submseteq; [done|]. intros x [->|Hx]%elem_of_cons; [done|].
      apply list_elem_of_fmap in Hx as (e & -> & [i He]%list_elem_of_lookup). apply Hv.
      rewrite (view_Some t now i); [done|done|done|]. apply Hall. by eapply list_elem_of_lookup_2. }
    apply submseteq_length in Hs. cbn [length] in Hs. rewrite length_map, (to_len _ _ Ht) in Hs. lia.
Qed.

Lemma failures_isolated U u evs : forall s now0, NoDup U -> (length U <= RATELIMIT_MAX_USERS)%nat ->
  table_ok (g_rl_table s) now0 -> 0 <= now0 -> (forall v, view (g_rl_table s) v <> None -> v ∈ U) ->
  (forall v ticks, (v, ticks) ∈ evs -> v ∈ U) -> in_order now0 evs ->
  of_user u (failures s evs) = run1 (view (g_rl_table s) u) (of_user u evs).
Proof.
  induction evs as [|[v ticks] evs IH]; intros s now0 HU Hl Ht H0 Hv He Ho; [done|].
  destruct Ho as [Hb Ho]. assert (HvU : v ∈ U) by (eapply He; left). cbn [failures].
  unfold auth_fail at 1. rewrite (u64_small (ticks * 10000000)) by lia.
  pose proof (rl_fail_ok (g_rl_table s) now0 v (ticks * 10000000) Ht ltac:(lia) ltac:(lia)) as Hf.
  destruct (rl_fail (g_rl_table s) v (ticks * 10000000)) as [[r msg] t'] eqn:Ef.
  destruct Hf as (Hr & Ht' & Hvv & e0 & He0 & Hev & Hoth).
  pose proof (no_eviction _ now0 v U e0 Ht HU Hl HvU Hv He0 Hev) as Hne.
  set (s' := mkSec _ _ t' _). assert (Hsame : forall w, w <> v -> view t' w = view (g_rl_table s) w)
    by (intros w Hw; rewrite Hoth, Hne by done; done).
  assert (HIH : of_user u (failures s' evs) = run1 (view (g_rl_table s') u) (of_user u evs)).
  { apply (IH s' (ticks * 10000000)); try done; [lia| |intros w x Hw; eapply He; by right].
    intros w Hw. destruct (decide (w = v)) as [->|Hwv]; [done|]. apply Hv. by rewrite <- Hsame. }
  unfold of_user in *. rewrite !filter_cons. cbn [fst]. destruct (decide (v = u)) as [->|Hvu]; cbn [map snd].
  - cbn [run1]. destruct (step1 (view (g_rl_table s) u) (ticks * 10000000)) as [r1 l1]. cbn [fst snd] in *. subst r1.
    f_equal. rewrite HIH. cbn [g_rl_table s']. by rewrite Hvv.
  - rewrite HIH. cbn [g_rl_table s']. by rewrite Hsame.
Qed.

Lemma run1_locked c f lk ts : Forall (fun t => t * 10000000 < lk) ts -> run1 (Some (c, f, lk)) ts = replicate (length ts) 1.
Proof.
  induction ts as [|t ts IH]; intros H; [done|]. apply list.Forall_cons in H as [Ht H]. cbn [run1].
  unfold step1. cbn [default from_option id]. rewrite (proj2 (Z.ltb_lt _ _)) by done. cbv beta iota zeta. cbn [length replicate]. f_equal. exact (IH H).
Qed.

Lemma run1_lock t1 t2 t3 t4 t5 ts : 0 <= t1 <= t2 -> t2 <= t3 -> t3 <= t4 -> t4 <= t5 ->
  (t5 - t1) * 10000000 <= RATELIMIT_WINDOW_NS ->
  Forall (fun t => (t - t5) * 10000000 < RATELIMIT_LOCKOUT_NS) ts ->
  run1 None (t1 :: t2 :: t3 :: t4 :: t5 :: ts) = [0; 0; 0; 0; 1] ++ replicate (length ts) 1.
Proof.
  intros G1 G2 G3 G4 G5 G6. assert (S1 : forall o, o = None -> step1 o (t1 * 10000000) = (0, (1, t1 * 10000000, 0))).
  { intros o ->. unfold step1. cbn [default from_option id]. rewrite (proj2 (Z.ltb_ge _ _)) by lia.
    destruct (RATELIMIT_WINDOW_NS <? t1 * 10000000 - 0); done. }
  assert (Hk : forall c t, 0 < c < 4 -> t1 <= t <= t5 -> step1 (Some (c, t1 * 10000000, 0)) (t * 10000000) = (0, (c + 1, t1 * 10000000, 0))).
  { intros c t Hc Ht. unfold step1. cbn [default from_option id]. rl_consts. rewrite !(proj2 (Z.ltb_ge _ _)) by lia.
    rewrite (proj2 (Z.eqb_neq c 0)) by lia. rewrite (proj2 (Z.leb_gt 5 (c + 1))) by lia. done. }
  assert (S5 : step1 (Some (4, t1 * 10000000, 0)) (t5 * 10000000) = (1, (5, t1 * 10000000, t5 * 10000000 + RATELIMIT_LOCKOUT_NS))).
  { unfold step1. cbn [default from_option id]. rl_consts. rewrite !(proj2 (Z.ltb_ge _ _)) by lia. done. }
  cbn [run1]. rewrite S1 by done. rewrite Hk by lia. rewrite Hk by lia. rewrite Hk by lia.
  change (1 + 1 + 1 + 1) with 4. rewrite S5. cbn [app]. do 5 f_equal. apply run1_locked.
  eapply Forall_impl; [|done]. intros t Ht. cbn beta in *. rl_consts. lia.
Qed.

(** As long as at most 32 users fail to log in, five failures of a user
    within 60 seconds lock the account: the fifth and every failure in the 30
    seconds after it return 1, the first four return 0, whatever other users do
    in between. *)
Theorem five_failures_lock (s : sec_state) U u evs now0 t1 t2 t3 t4 t5 ts :
  NoDup U -> (length U <= RATELIMIT_MAX_USERS)%nat -> table_ok (g_rl_table s) now0 -> 0 <= now0 ->
  (forall v, view (g_rl_table s) v <> None -> v ∈ U) -> (forall v ticks, (v, ticks) ∈ evs -> v ∈ U) ->
  in_order now0 evs -> view (g_rl_table s) u = None ->
  of_user u evs = t1 :: t2 :: t3 :: t4 :: t5 :: ts ->
  0 <= t1 <= t2 -> t2 <= t3 -> t3 <= t4 -> t4 <= t5 ->
  (t5 - t1) * 10000000 <= RATELIMIT_WINDOW_NS -> Forall (fun t => (t - t5) * 10000000 < RATELIMIT_LOCKOUT_NS) ts ->
  of_user u (failures s evs) = [0; 0; 0; 0; 1] ++ replicate (length ts) 1.
Proof.
  intros HU Hl Ht H0 Hv He Ho Hn Hu. rewrite (failures_isolated U u evs s now0) by done. rewrite Hn, Hu. apply run1_lock.
Qed.

Lemma five_failures_lock_witness :
  of_user 7 (failures sec0 [(7, 100); (7, 200); (9, 210); (7, 300); (7, 400); (9, 450); (7, 500); (7, 900); (7, 3400)]) =
  [0; 0; 0; 0; 1; 1; 1].
Proof.
  apply (five_failures_lock sec0 [7; 9] 7 _ 0 100 200 300 400 500 [900; 3400]);
    [ |vm_compute; lia|apply sec0_ok|lia| | |cbn; lia|vm_compute; reflexivity|vm_compute; reflexivity|lia..|vm_compute; discriminate| ].
  - exact (bool_decide_unpack (NoDup [7; 9]) I).
  - intros v Hv. exfalso. apply Hv. pose proof (find_active _ 0 v (sec0_ok 0)) as Hf.
    destruct (rl_find (g_rl_table sec0) v) as [i|]; [|apply Hf]. exfalso. destruct Hf as (e & He & Ha & _).
    apply lookup_replicate in He as [-> _]. discriminate Ha.
  - intros v ticks Hin. repeat (apply elem_of_cons in Hin as [[= -> ->]|Hin]; [rewrite !elem_of_cons; auto|]).
    apply elem_of_nil in Hin. destruct Hin.
  - repeat constructor.
Defined.

(** The 60-second window is not sliding: it starts at the first failure, so
    five failures within five seconds can go unlocked. *)
Theorem auth_fail_window_not_sliding :
  failures sec0 [(7, 0); (7, 5900); (7, 6100); (7, 6200); (7, 6300); (7, 6400)] =
  [(7, 0); (7, 0); (7, 0); (7, 0); (7, 0); (7, 0)].
Proof. vm_compute. reflexivity. Qed.

(** Thirty-two failures of other users clear a lock. *)
Theorem auth_lock_evicted :
  let evs := [(7, 1); (7, 2); (7, 3); (7, 4); (7, 5)] ++ map (fun i => (100 + i, 10 + i)) (seqZ 0 32) ++ [(7, 100)] in
  of_user 7 (failures sec0 evs) = [0; 0; 0; 0; 1; 0].
Proof. vm_compute. reflexivity. Qed.

End Security.
