(* ===== verification/Usr.v ===== *)
(** * kernel/usr/usr.c: users, groups, passwords, permissions

    [g_users] and [g_groups] are the used parts of the two tables, so
    [g_user_count] is a length and a pointer into a table an index.  A [char]
    array field is always written by [u_strncpy] after being zeroed and read as
    a string: it is kept as its characters.  The random numbers come through
    the class [Rng], which the entropy pool of Entropy implements. *)

From S2P Require Import Prelude CString Entropy.
From Stdlib Require Import String ZArith Lia.
From stdpp Require Import base list numbers.
Open Scope Z_scope.

Module Usr.
Import CString.

(** [entropy_get64] as the user database sees it. *)
Class Rng (R : Type) := { rng_get64 : R -> Z * R }.

(** The entropy pool with the readings of the time stamp counter to come. *)
Record tsc_pool := mkTP { ep : Entropy.pool_state; tsc_at : nat -> Z; reads : nat }.
#[export] Instance entropy_rng : Rng tsc_pool := {
  rng_get64 r := let '(x, p) := Entropy.entropy_get64 (ep r) (tsc_at r (reads r)) in (x, mkTP p (tsc_at r) (S (reads r))) }.

Definition USR_MAX_USERS : nat := 64.
Definition USR_MAX_GROUPS : nat := 32.
Definition USR_NAME_LEN : nat := 32.
Definition USR_HOME_LEN : nat := 64.
Definition USR_SHELL_LEN : nat := 64.
Definition UID_ROOT : Z := 0.
Definition GID_ROOT : Z := 0.
Definition GID_WHEEL : Z := 1.
Definition GID_USERS : Z := 100.
Definition USR_FLAG_WHEEL : Z := 1.
Definition USR_FLAG_NOLOGIN : Z := 2.
Definition USR_FLAG_LOCKED : Z := 4.

Record asd_user_t := mkUser {
  uid : Z; gid : Z; flags : Z; pw_hash : Z; pw_salt : Z;
  name : list Z; home : list Z; shell : list Z; groups : Z }.
Record asd_group_t := mkGroup { ggid : Z; gname : list Z; member_mask : Z }.

(** ** Strings and numbers *)

Fixpoint u_strcmp (a b : list Z) : Z :=
  match a, b with
  | x :: a', y :: b' => if truthy x && truthy y && (x =? y) then u_strcmp a' b' else x - y
  | [], y :: _ => 0 - y
  | x :: _, [] => x - 0
  | [], [] => 0
  end.

(** The string in [d] after [u_strncpy(d, s, n)]. *)
Definition u_strncpy (s : list Z) (n : nat) : list Z := take (n - 1) (cstr s).

Definition u_isspace (c : Z) : bool := (c =? 32) || (c =? 9) || (c =? 10) || (c =? 13).
Definition u_isdigit (c : Z) : bool := (48 <=? c) && (c <=? 57).

Fixpoint u_atou_from (s : list Z) (v : Z) : Z :=
  match s with
  | c :: t => if u_isdigit c then u_atou_from t (u32 (u32 (v * 10) + (c - 48))) else v
  | [] => v
  end.
Definition u_atou (s : list Z) : Z := u_atou_from s 0.

(** ** Password hash *)

Definition FNV_OFFSET : Z := 14695981039346656037.
Definition FNV_PRIME : Z := 1099511628211.
Definition MUR1 : Z := 0xff51afd7ed558ccd.
Definition MUR2 : Z := 0xc4ceb9fe1a85ec53.

Definition fnv_byte (h c : Z) : Z := u64 (Z.lxor h c * FNV_PRIME).
Definition xorshift (h : Z) : Z := Z.lxor h (Z.shiftr h 33).
Definition mur_round (h : Z) : Z := xorshift (u64 (xorshift (u64 (xorshift h * MUR1)) * MUR2)).
Fixpoint mur_rounds (n : nat) (h : Z) : Z := match n with O => h | S n' => mur_rounds n' (mur_round h) end.

(** The state after steps 1 and 2. *)
Definition fnv_state (pw : list Z) (salt : Z) : Z :=
  foldl fnv_byte (u64 (Z.lxor FNV_OFFSET salt * FNV_PRIME)) (cstr pw).
Definition ROUNDS : nat := 32 * 32.
Definition pw_hash_salted (pw : list Z) (salt : Z) : Z := mur_rounds ROUNDS (fnv_state pw salt).

Definition u64_eq_safe (a b : Z) : Z := if a =? b then 1 else 0.

(** ** The database *)

Section Ops.
Context {R : Type} `{Rng R}.

Record usr_db := mkDb { g_users : list asd_user_t; g_groups : list asd_group_t; rng : R }.

Definition grp_find_by_gid (d : usr_db) (g : Z) : option nat := find_index (fun x => ggid x =? g) (g_groups d).
Definition grp_find_by_name (d : usr_db) (n : list Z) : option nat :=
  find_index (fun x => u_strcmp (gname x) n =? 0) (g_groups d).

Definition grp_add (d : usr_db) (g : Z) (n : list Z) : Z * usr_db :=
  if (USR_MAX_GROUPS <=? length (g_groups d))%nat then (-1, d)
  else if bool_decide (is_Some (grp_find_by_gid d g)) || bool_decide (is_Some (grp_find_by_name d n)) then (-1, d)
  else (0, mkDb (g_users d) (g_groups d ++ [mkGroup g (u_strncpy n USR_NAME_LEN) 0]) (rng d)).

Definition usr_find_by_uid (d : usr_db) (u : Z) : option nat := find_index (fun x => uid x =? u) (g_users d).
Definition usr_find_by_name (d : usr_db) (n : list Z) : option nat :=
  find_index (fun x => u_strcmp (name x) n =? 0) (g_users d).

Definition set_user (d : usr_db) (i : nat) (f : asd_user_t -> asd_user_t) : usr_db :=
  mkDb (alter f i (g_users d)) (g_groups d) (rng d).
Definition set_mask (d : usr_db) (i : nat) (f : Z -> Z) : usr_db :=
  mkDb (g_users d) (alter (fun g => mkGroup (ggid g) (gname g) (f (member_mask g))) i (g_groups d)) (rng d).

Definition set_groups (f : Z -> Z) (u : asd_user_t) : asd_user_t :=
  mkUser (uid u) (gid u) (flags u) (pw_hash u) (pw_salt u) (name u) (home u) (shell u) (f (groups u)).
Definition set_pw (h s : Z) (u : asd_user_t) : asd_user_t :=
  mkUser (uid u) (gid u) (flags u) h s (name u) (home u) (shell u) (groups u).

(** [x |= 1u << n], [x &= ~(1u << n)] on 32 bits, for [n < 32] *)
Definition set_bit (n x : Z) : Z := Z.lor x (Z.shiftl 1 n).
Definition clear_bit (n x : Z) : Z := Z.ldiff x (Z.shiftl 1 n).
Definition MAXG : Z := Z.of_nat USR_MAX_GROUPS.

Definition join_group (d : usr_db) (u g : Z) : usr_db :=
  match grp_find_by_gid d g with Some i => set_mask d i (set_bit u) | None => d end.

(** The group bits of a new user. *)
Definition init_groups (g fl : Z) : Z :=
  let m := if g <? MAXG then set_bit g 0 else 0 in
  if has_flag fl USR_FLAG_WHEEL then set_bit GID_WHEEL m else m.

(** Optional arguments are [None] for a null pointer. *)
Definition usr_add (d : usr_db) (u g : Z) (n : option (list Z)) (pw : option (list Z)) (fl : Z)
    (hm sh : option (list Z)) : Z * usr_db :=
  if (USR_MAX_USERS <=? length (g_users d))%nat then (-1, d)
  else if bool_decide (is_Some (usr_find_by_uid d u)) || bool_decide (is_Some (usr_find_by_name d (default [] n))) then (-1, d)
  else match n with
  | None => (-1, d)
  | Some n =>
      if negb (truthy (hd 0 n)) then (-1, d)
      else
        let '(salt, r) := rng_get64 (rng d) in
        let x := mkUser u g fl (pw_hash_salted (default [] pw) salt) salt (u_strncpy n USR_NAME_LEN)
                   (u_strncpy (default (str "/") hm) USR_HOME_LEN)
                   (u_strncpy (default (str "/bin/asdsh") sh) USR_SHELL_LEN) (init_groups g fl) in
        let d := mkDb (g_users d ++ [x]) (g_groups d) r in
        (0, if u <? 32 then
              let d := join_group d u g in
              if has_flag fl USR_FLAG_WHEEL then join_group d u GID_WHEEL else d
            else d)
  end.

Definition usr_add_to_group (d : usr_db) (u g : Z) : Z * usr_db :=
  match usr_find_by_uid d u with
  | None => (-1, d)
  | Some i =>
      let d := if g <? MAXG then set_user d i (set_groups (set_bit g)) else d in
      (0, match grp_find_by_gid d g with
          | Some j => if u <? 32 then set_mask d j (set_bit u) else d
          | None => d
          end)
  end.

Definition usr_remove_from_group (d : usr_db) (u g : Z) : Z * usr_db :=
  match usr_find_by_uid d u with
  | None => (-1, d)
  | Some i =>
      let d := if g <? MAXG then set_user d i (set_groups (clear_bit g)) else d in
      (0, match grp_find_by_gid d g with
          | Some j => if u <? 32 then set_mask d j (clear_bit u) else d
          | None => d
          end)
  end.

Definition usr_is_wheel (d : usr_db) (u : Z) : Z :=
  if u =? UID_ROOT then 1
  else match usr_find_by_uid d u with
       | None => 0
       | Some i => match g_users d !! i with
                   | Some x => if has_flag (flags x) USR_FLAG_WHEEL then 1 else 0
                   | None => 0
                   end
       end.

Definition usr_check_password (d : usr_db) (u : Z) (pw : option (list Z)) : Z :=
  match usr_find_by_uid d u ≫= fun i => g_users d !! i with
  | None => 0
  | Some x =>
      if has_flag (flags x) USR_FLAG_LOCKED then 0
      else if has_flag (flags x) USR_FLAG_NOLOGIN then 0
      else if pw_hash x =? 0 then
        match pw with None => 1 | Some p => if truthy (hd 0 p) then 0 else 1 end
      else u64_eq_safe (pw_hash x) (pw_hash_salted (default [] pw) (pw_salt x))
  end.

Definition usr_set_password (d : usr_db) (u : Z) (pw : option (list Z)) : Z * usr_db :=
  match usr_find_by_uid d u with
  | None => (-1, d)
  | Some i =>
      let '(salt, r) := rng_get64 (rng d) in
      (0, set_user (mkDb (g_users d) (g_groups d) r) i (set_pw (pw_hash_salted (default [] pw) salt) salt))
  end.

Definition usr_count (d : usr_db) : Z := Z.of_nat (length (g_users d)).
Definition usr_get (d : usr_db) (i : nat) : option asd_user_t :=
  if (length (g_users d) <=? i)%nat then None else g_users d !! i.
Definition grp_count (d : usr_db) : Z := Z.of_nat (length (g_groups d)).
Definition grp_get (d : usr_db) (i : nat) : option asd_group_t :=
  if (length (g_groups d) <=? i)%nat then None else g_groups d !! i.

(** ** Permissions *)

Definition need_bits (access r w x : Z) : Z :=
  let n := if has_flag access 1 then r else 0 in
  let n := if has_flag access 2 then Z.lor n w else n in
  if has_flag access 4 then Z.lor n x else n.

Definition usr_check_perm (u g grps fu fg mode access : Z) : Z :=
  if u =? UID_ROOT then 0
  else
    let need :=
      if u =? fu then need_bits access 0x100 0x80 0x40
      else if (g =? fg) || ((fg <? MAXG) && has_flag grps (Z.shiftl 1 fg)) then need_bits access 0x20 0x10 0x8
      else need_bits access 0x4 0x2 0x1 in
    if Z.land mode need =? need then 0 else -1.

(** ** Password and group files *)

(** A position in the text is the rest of it; the text ends with a zero. *)
Fixpoint skip_ws (p : list Z) : list Z :=
  match p with
  | c :: p' => if truthy c && u_isspace c && negb (c =? 10) then skip_ws p' else p
  | [] => []
  end.

(** At most [n] characters of a word, and what follows. *)
Fixpoint take_tok (p : list Z) (n : nat) : list Z * list Z :=
  match p, n with
  | c :: p', S n' =>
      if truthy c && negb (u_isspace c) then let '(t, r) := take_tok p' n' in (c :: t, r) else ([], p)
  | _, _ => ([], p)
  end.
Definition read_tok (p : list Z) (out_sz : nat) : list Z * list Z := take_tok (skip_ws p) (out_sz - 1).

Fixpoint next_line (p : list Z) : list Z :=
  match p with
  | c :: p' => if c =? 10 then p' else if truthy c then next_line p' else p
  | [] => []
  end.

Definition is_hexdigit (c : Z) : bool :=
  ((48 <=? c) && (c <=? 57)) || ((97 <=? c) && (c <=? 102)) || ((65 <=? c) && (c <=? 70)).
Definition is_hex64 (s : list Z) : bool := forallb (fun i => is_hexdigit (nth i s 0)) (seq 0 16).

Definition nibble (c : Z) : option Z :=
  if (48 <=? c) && (c <=? 57) then Some (c - 48)
  else if (97 <=? c) && (c <=? 102) then Some (c - 97 + 10)
  else if (65 <=? c) && (c <=? 70) then Some (c - 65 + 10) else None.
Fixpoint parse_hex (s : list Z) (n : nat) (v : Z) : Z :=
  match s, n with
  | c :: t, S n' =>
      if truthy c then match nibble c with Some nib => parse_hex t n' (u64 (Z.lor (Z.shiftl v 4) nib)) | None => v end
      else v
  | _, _ => v
  end.
Definition parse_hex64 (s : list Z) : Z := parse_hex s 16 0.

(** The eight words of a line. *)
Record pw_line := mkLine {
  l_name : list Z; l_uid : list Z; l_gid : list Z; l_flags : list Z;
  l_home : list Z; l_shell : list Z; l_salt : list Z; l_hash : list Z }.
Definition read_line (p : list Z) : pw_line * list Z :=
  let '(n, p) := read_tok p USR_NAME_LEN in
  let '(u, p) := read_tok p 16 in
  let '(g, p) := read_tok p 16 in
  let '(f, p) := read_tok p 32 in
  let '(h, p) := read_tok p USR_HOME_LEN in
  let '(s, p) := read_tok p USR_SHELL_LEN in
  let '(sl, p) := read_tok p 20 in
  let '(hs, p) := read_tok p 20 in
  (mkLine n u g f h s sl hs, p).

Definition parse_flags (s : list Z) : Z :=
  let f := if u_strcmp s (str "wheel") =? 0 then USR_FLAG_WHEEL else 0 in
  let f := if u_strcmp s (str "nologin") =? 0 then Z.lor f USR_FLAG_NOLOGIN else f in
  if u_strcmp s (str "locked") =? 0 then Z.lor f USR_FLAG_LOCKED else f.

Definition nonempty (s : list Z) : option (list Z) := if truthy (hd 0 s) then Some s else None.

(** What a complete line does to the database. *)
Definition apply_line (d : usr_db) (l : pw_line) : usr_db :=
  let u := u16 (u_atou (l_uid l)) in
  let g := u16 (u_atou (l_gid l)) in
  let fl := parse_flags (l_flags l) in
  let d := match grp_find_by_gid d g with None => (grp_add d g (str "unknown")).2 | Some _ => d end in
  let d := match usr_find_by_uid d u, usr_find_by_name d (l_name l) with
           | None, None => (usr_add d u g (Some (l_name l)) (Some []) fl (nonempty (l_home l)) (nonempty (l_shell l))).2
           | _, _ => d
           end in
  match usr_find_by_uid d u with
  | Some i =>
      set_user d i (fun x =>
        set_pw (if is_hex64 (l_hash l) then parse_hex64 (l_hash l) else pw_hash x)
               (if is_hex64 (l_salt l) then parse_hex64 (l_salt l) else pw_salt x) x)
  | None => d
  end.

(** [total] is the length of the text, [len] the length argument; [None]: out
    of fuel. *)
Fixpoint load_passwd_loop (fuel : nat) (total len : nat) (p : list Z) (loaded : nat) (d : usr_db) : option (Z * usr_db) :=
  match fuel with
  | O => None
  | S fuel =>
      if (total - length p <? len)%nat && truthy (hd 0 p) && (loaded <? USR_MAX_USERS)%nat then
        let p := skip_ws p in
        if (hd 0 p =? 35) || (hd 0 p =? 10) || negb (truthy (hd 0 p)) then load_passwd_loop fuel total len (next_line p) loaded d
        else
          let '(l, p) := read_line p in
          if negb (truthy (hd 0 (l_name l))) || negb (truthy (hd 0 (l_uid l))) || negb (truthy (hd 0 (l_gid l)))
          then load_passwd_loop fuel total len (next_line p) loaded d
          else load_passwd_loop fuel total len (next_line p) (S loaded) (apply_line d l)
      else Some (Z.of_nat loaded, d)
  end.

(** [buf]: the text up to its terminating zero, [None] for a null pointer. *)
Definition usr_load_passwd (d : usr_db) (buf : option (list Z)) (len : nat) : option (Z * usr_db) :=
  match buf with
  | None => Some (-1, d)
  | Some b => if (len =? 0)%nat then Some (-1, d) else load_passwd_loop (S (S (length b))) (length b) len b 0 d
  end.

Fixpoint load_group_loop (fuel : nat) (total len : nat) (p : list Z) (loaded : nat) (d : usr_db) : option (Z * usr_db) :=
  match fuel with
  | O => None
  | S fuel =>
      if (total - length p <? len)%nat && truthy (hd 0 p) then
        let p := skip_ws p in
        if (hd 0 p =? 35) || (hd 0 p =? 10) || negb (truthy (hd 0 p)) then load_group_loop fuel total len (next_line p) loaded d
        else
          let '(n, p) := read_tok p USR_NAME_LEN in
          let '(gs, p) := read_tok p 16 in
          let p := next_line p in
          if negb (truthy (hd 0 n)) || negb (truthy (hd 0 gs)) then load_group_loop fuel total len p loaded d
          else
            let g := u16 (u_atou gs) in
            let d := match grp_find_by_gid d g with None => (grp_add d g n).2 | Some _ => d end in
            load_group_loop fuel total len p (S loaded) d
      else Some (Z.of_nat loaded, d)
  end.
Definition usr_load_group (d : usr_db) (buf : option (list Z)) (len : nat) : option (Z * usr_db) :=
  match buf with
  | None => Some (-1, d)
  | Some b => if (len =? 0)%nat then Some (-1, d) else load_group_loop (S (S (length b))) (length b) len b 0 d
  end.

(** ** Writing the password file *)

Definition hexchar (n : Z) : Z := if n <? 10 then 48 + n else 97 + (n - 10).
(** The [n] low hexadecimal digits, the most significant first. *)
Fixpoint hex_digits (n : nat) (v : Z) (acc : list Z) : list Z :=
  match n with O => acc | S n' => hex_digits n' (Z.shiftr v 4) (hexchar (Z.land v 0xF) :: acc) end.
Definition fmt_hex64 (v : Z) : list Z := hex_digits 16 v [].

(** [while (v) { tmp[--ti] = '0' + v % 10; v /= 10; }], at most 23 digits. *)
Fixpoint dec_digits (n : nat) (v : Z) (acc : list Z) : list Z :=
  match n with O => acc | S n' => if v =? 0 then acc else dec_digits n' (v / 10) (48 + v mod 10 :: acc) end.
Definition fmt_dec (v : Z) : list Z := if v =? 0 then [48] else dec_digits 23 v [].

Definition flag_word (fl : Z) : list Z :=
  if has_flag fl USR_FLAG_WHEEL then str "wheel"
  else if has_flag fl USR_FLAG_NOLOGIN then str "nologin"
  else if has_flag fl USR_FLAG_LOCKED then str "locked" else str "-".

(** [for (j = 0; s[j] && pos < lim; j++) buf[pos++] = s[j];]: [out] are the
    bytes written so far, in order. *)
Fixpoint put_str (lim : nat) (out s : list Z) : list Z :=
  match s with
  | [] => out
  | c :: s' => if (length out <? lim)%nat then put_str lim (out ++ [c]) s' else out
  end.
(** Followed by the unconditional [buf[pos++] = ' ']. *)
Definition put_word (lim : nat) (out s : list Z) : list Z := put_str lim out s ++ [32].

Definition write_user (sz : nat) (out : list Z) (u : asd_user_t) : list Z :=
  let lim := (sz - 2)%nat in
  let out := put_word lim out (name u) in
  let out := put_word lim out (fmt_dec (uid u)) in
  let out := put_word lim out (fmt_dec (gid u)) in
  let out := put_word lim out (flag_word (flags u)) in
  let out := put_word lim out (home u) in
  let out := put_word lim out (shell u) in
  let out := put_word lim out (fmt_hex64 (pw_salt u)) in
  let out := put_str lim out (fmt_hex64 (pw_hash u)) in
  if (length out <? sz - 1)%nat then out ++ [10] else out.

(** The result and the bytes stored in the buffer, the final zero included;
    [buf = None] is a null pointer. *)
Definition usr_write_passwd (d : usr_db) (buf_sz : nat) : Z * list Z :=
  if (buf_sz <? 8)%nat then (-1, [])
  else
    let out := put_str (buf_sz - 1) [] (str "#ASDPW1" ++ [10]) in
    let out := foldl (write_user buf_sz) out (g_users d) in
    (Z.of_nat (length out), out ++ [0]).

(** ** Start-up *)

Definition usr_init (r : R) : usr_db :=
  let d := mkDb [] [] r in
  let d := (grp_add d GID_ROOT (str "root")).2 in
  let d := (grp_add d GID_WHEEL (str "wheel")).2 in
  let d := (grp_add d GID_USERS (str "users")).2 in
  let d := (usr_add d UID_ROOT GID_ROOT (Some (str "root")) (Some []) 0 (Some (str "/root")) (Some (str "/bin/asdsh"))).2 in
  match usr_find_by_uid d UID_ROOT with Some i => set_user d i (set_pw 0 0) | None => d end.

End Ops.
Arguments usr_db R : clear implicits.

(** ** The password hash *)

(** Inverses of the odd multipliers modulo 2^64. *)
Definition INVF : Z := 14886173955864302971.
Definition INV1 : Z := 5725274745694666757.
Definition INV2 : Z := 11291846944257947611.

Lemma mul_inj p q x y : u64 (p * q) = 1 -> 0 <= x < 2 ^ 64 -> 0 <= y < 2 ^ 64 -> u64 (x * p) = u64 (y * p) -> x = y.
Proof.
  intros Hi Hx Hy E. rewrite <- (Z.mod_small x (2 ^ 64)), <- (Z.mod_small y (2 ^ 64)) by done.
  assert (Hm : forall z, z mod 2 ^ 64 = (z * p mod 2 ^ 64) * q mod 2 ^ 64).
  { intros z. rewrite Zmult_mod_idemp_l, <- Z.mul_assoc, <- Zmult_mod_idemp_r, Hi, Z.mul_1_r. done. }
  rewrite (Hm x), (Hm y). by rewrite E.
Qed.

Lemma word_range x : 0 <= u64 x < 2 ^ 64.
Proof. apply Z.mod_pos_bound. lia. Qed.
#[export] Hint Resolve word_range : asd.

Lemma lxor_range x y : 0 <= x < 2 ^ 64 -> 0 <= y < 2 ^ 64 -> 0 <= Z.lxor x y < 2 ^ 64.
Proof. apply Entropy.word_lxor. Qed.

Lemma xorshift_range x : 0 <= x < 2 ^ 64 -> 0 <= xorshift x < 2 ^ 64.
Proof.
  intros Hx. apply lxor_range; [done|]. rewrite Z.shiftr_div_pow2 by lia.
  split; [apply Z.div_pos; lia|]. apply Z.div_lt_upper_bound; lia.
Qed.
#[export] Hint Resolve xorshift_range : asd.

Lemma xorshift_inj x y : 0 <= x < 2 ^ 64 -> 0 <= y < 2 ^ 64 -> xorshift x = xorshift y -> x = y.
Proof.
  intros Hx Hy E. assert (Hb : forall i, 0 <= i -> xorb (Z.testbit x i) (Z.testbit x (i + 33)) = xorb (Z.testbit y i) (Z.testbit y (i + 33))).
  { intros i Hi. apply (f_equal (fun v => Z.testbit v i)) in E. unfold xorshift in E.
    by rewrite !Z.lxor_spec, !Z.shiftr_spec in E. }
  assert (Hh : forall i, 31 <= i -> Z.testbit x i = Z.testbit y i).
  { intros i Hi. specialize (Hb i ltac:(lia)).
    rewrite (Entropy.word_bits x Hx (i + 33)), (Entropy.word_bits y Hy (i + 33)), !xorb_false_r in Hb by lia. done. }
  apply Z.bits_inj'. intros i Hi. destruct (Z_lt_le_dec i 31); [|by apply Hh].
  specialize (Hb i Hi). rewrite (Hh (i + 33)) in Hb by lia. by destruct (Z.testbit x i), (Z.testbit y i), (Z.testbit y (i + 33)).
Qed.

Lemma mur_round_ok x y : 0 <= x < 2 ^ 64 -> 0 <= y < 2 ^ 64 ->
  0 <= mur_round x < 2 ^ 64 /\ (mur_round x = mur_round y -> x = y).
Proof.
  intros Hx Hy. split; [unfold mur_round; auto with asd|]. intros E. unfold mur_round in E.
  apply xorshift_inj in E; [|auto with asd..]. apply (mul_inj MUR2 INV2) in E; [|reflexivity|auto with asd..].
  apply xorshift_inj in E; [|auto with asd..]. apply (mul_inj MUR1 INV1) in E; [|reflexivity|auto with asd..].
  by apply xorshift_inj in E.
Qed.

Lemma mur_rounds_inj n : forall x y, 0 <= x < 2 ^ 64 -> 0 <= y < 2 ^ 64 -> mur_rounds n x = mur_rounds n y -> x = y.
Proof.
  induction n as [|n IH]; intros x y Hx Hy E; [done|]. cbn [mur_rounds] in E.
  apply IH in E; [by apply mur_round_ok in E|by apply (mur_round_ok x x)|by apply (mur_round_ok y y)].
Qed.

Lemma fnv_byte_inj h h' c c' : 0 <= h < 2 ^ 64 -> 0 <= h' < 2 ^ 64 -> 0 <= c < 256 -> 0 <= c' < 256 ->
  fnv_byte h c = fnv_byte h' c' -> Z.lxor h c = Z.lxor h' c'.
Proof.
  intros Hh Hh' Hc Hc' E. unfold fnv_byte in E.
  apply (mul_inj FNV_PRIME INVF) in E; [done|reflexivity|apply lxor_range; lia..].
Qed.

Definition byte_ok (c : Z) : Prop := 0 < c < 256.

Lemma fnv_fold_inj l : forall h h', Forall byte_ok l -> 0 <= h < 2 ^ 64 -> 0 <= h' < 2 ^ 64 ->
  foldl fnv_byte h l = foldl fnv_byte h' l -> h = h'.
Proof.
  induction l as [|c l IH]; intros h h' Hl Hh Hh' E; [done|]. apply list.Forall_cons in Hl as [Hc Hl]. cbn [foldl] in E.
  apply IH in E; [|done|apply word_range..]. unfold byte_ok in Hc. apply fnv_byte_inj in E; [|lia..]. by apply Entropy.lxor_inj in E.
Qed.

Lemma fnv_fold_range l : forall h, 0 <= h < 2 ^ 64 -> 0 <= foldl fnv_byte h l < 2 ^ 64.
Proof. induction l as [|c l IH]; intros h Hh; [done|]. apply IH, word_range. Qed.

Lemma hash_state p q s s' : pw_hash_salted p s = pw_hash_salted q s' -> fnv_state p s = fnv_state q s'.
Proof.
  unfold pw_hash_salted. generalize ROUNDS. intros n E.
  apply mur_rounds_inj in E; [done|apply fnv_fold_range, word_range..].
Qed.

Lemma state_hash p q s s' : fnv_state p s = fnv_state q s' -> pw_hash_salted p s = pw_hash_salted q s'.
Proof. unfold pw_hash_salted. generalize ROUNDS. by intros n ->. Qed.

Lemma cstr_bytes l : Forall byte_ok l -> cstr l = l.
Proof.
  induction 1 as [|c l Hc Hl IH]; [done|]. cbn [cstr]. rewrite (proj2 (truthy_true c)) by (unfold byte_ok in Hc; lia). by rewrite IH.
Qed.

(** The 1024 finalisation rounds of [pw_hash_salted] add no collisions:
    two passwords collide only if their FNV states do; changing one character
    of a password always changes the hash, and so does changing the salt. *)
Theorem pw_hash_separates (pw pw' l r : list Z) (c c' salt salt' : Z) :
  0 <= salt < 2 ^ 64 -> 0 <= salt' < 2 ^ 64 -> Forall byte_ok (l ++ c :: r) -> byte_ok c' ->
  (pw_hash_salted pw salt = pw_hash_salted pw' salt' <-> fnv_state pw salt = fnv_state pw' salt') /\
  (pw_hash_salted (l ++ c :: r) salt = pw_hash_salted (l ++ c' :: r) salt -> c = c') /\
  (pw_hash_salted (l ++ c :: r) salt = pw_hash_salted (l ++ c :: r) salt' -> salt = salt').
Proof.
  intros Hs Hs' Hl Hc'. pose proof Hl as [Hll [Hc Hr]%list.Forall_cons]%Forall_app.
  pose proof hash_state as Hiff.
  assert (Hl' : Forall byte_ok (l ++ c' :: r)) by (apply Forall_app; split; [done|]; by apply list.Forall_cons).
  split_and!.
  - split; [apply Hiff|apply state_hash].
  - intros E%Hiff. unfold fnv_state in E. rewrite !cstr_bytes, !foldl_app in E by done. cbn [foldl] in E.
    apply fnv_fold_inj in E; [|done|apply word_range..]. unfold byte_ok in *.
    apply fnv_byte_inj in E; [|apply fnv_fold_range, word_range|apply fnv_fold_range, word_range|lia|lia].
    rewrite !(Z.lxor_comm (foldl _ _ _)) in E. by apply Entropy.lxor_inj in E.
  - intros E%Hiff. unfold fnv_state in E. rewrite !cstr_bytes in E by done.
    apply fnv_fold_inj in E; [|done|apply word_range..].
    apply (mul_inj FNV_PRIME INVF) in E; [|reflexivity|apply lxor_range; unfold FNV_OFFSET; lia..].
    rewrite !(Z.lxor_comm FNV_OFFSET) in E. by apply Entropy.lxor_inj in E.
Qed.

Lemma pw_hash_separates_witness : pw_hash_salted (str "secret") 77 <> pw_hash_salted (str "sacret") 77.
Proof.
  intros E. assert (Hb : Forall byte_ok (str "secret")) by (unfold str, byte_ok; cbn; repeat constructor).
  destruct (pw_hash_separates [] [] (str "s") (str "cret") 101 97 77 77 ltac:(lia) ltac:(lia) Hb ltac:(unfold byte_ok; lia)) as (_ & H & _).
  discriminate (H E).
Defined.

(** ** Permissions *)

(** The Unix rule: which of the three classes applies, and where its bits are. *)
Inductive access := AccRead | AccWrite | AccExec.
Definition access_flag (a : access) : Z := match a with AccRead => 1 | AccWrite => 2 | AccExec => 4 end.
Definition class_shift (u g grps fu fg : Z) : Z :=
  if u =? fu then 6 else if (g =? fg) || ((fg <? 32) && Z.testbit grps fg) then 3 else 0.
Definition access_bit (a : access) : Z := match a with AccRead => 2 | AccWrite => 1 | AccExec => 0 end.

Lemma has_flag_bit x n : 0 <= n -> has_flag x (Z.shiftl 1 n) = Z.testbit x n.
Proof.
  intros Hn. unfold has_flag, truthy. rewrite Z.shiftl_1_l.
  destruct (Z.testbit x n) eqn:E.
  - apply negb_true_iff, Z.eqb_neq. intros H. apply (f_equal (fun v => Z.testbit v n)) in H.
    rewrite Z.land_spec, Z.pow2_bits_true, E, Z.bits_0 in H by done. done.
  - apply negb_false_iff, Z.eqb_eq. apply Z.bits_inj'. intros i Hi. rewrite Z.land_spec, Z.pow2_bits_eqb, Z.bits_0 by done.
    destruct (Z.eqb_spec n i) as [->|]; [by rewrite E|apply andb_false_r].
Qed.

Lemma need_met mode acc sh : 0 <= sh -> (Z.land mode (need_bits acc (Z.shiftl 1 (sh + 2)) (Z.shiftl 1 (sh + 1)) (Z.shiftl 1 sh)) =?
    need_bits acc (Z.shiftl 1 (sh + 2)) (Z.shiftl 1 (sh + 1)) (Z.shiftl 1 sh)) = true <->
  forall a, has_flag acc (access_flag a) = true -> Z.testbit mode (sh + access_bit a) = true.
Proof.
  intros Hs. rewrite Z.eqb_eq. set (need := need_bits _ _ _ _).
  assert (Hb : forall i, 0 <= i -> Z.testbit need i =
    (has_flag acc 1 && (i =? sh + 2)) || (has_flag acc 2 && (i =? sh + 1)) || (has_flag acc 4 && (i =? sh))).
  { intros i Hi. unfold need, need_bits. rewrite !Z.shiftl_1_l.
    assert (P : forall k, 0 <= k -> Z.testbit (2 ^ k) i = (i =? k)) by (intros; rewrite Z.pow2_bits_eqb by done; apply Z.eqb_sym).
    destruct (has_flag acc 1), (has_flag acc 2), (has_flag acc 4); rewrite ?Z.lor_spec, ?P, ?Z.bits_0 by lia; cbn [andb orb];
      rewrite ?orb_false_r; done. }
  split.
  - intros E a Ha. set (i := sh + access_bit a). assert (Hi : 0 <= i) by (unfold i; destruct a; simpl; lia).
    assert (Hn : Z.testbit need i = true).
    { rewrite Hb by done. unfold i. destruct a; simpl in Ha |- *; rewrite Ha; rewrite ?Z.add_0_r, Z.eqb_refl; cbn; by rewrite ?orb_true_r. }
    apply (f_equal (fun v => Z.testbit v i)) in E. rewrite Z.land_spec, Hn, andb_true_r in E. done.
  - intros Ha. apply Z.bits_inj'. intros i Hi. rewrite Z.land_spec. destruct (Z.testbit need i) eqn:E; [|apply andb_false_r].
    rewrite andb_true_r. rewrite Hb in E by done. apply orb_true_iff in E as [E|E]; [apply orb_true_iff in E as [E|E]|]; zbool; subst i.
    + by apply (Ha AccRead).
    + by apply (Ha AccWrite).
    + rewrite <- (Z.add_0_r sh). by apply (Ha AccExec).
Qed.

(** [usr_check_perm] is the Unix permission rule: root may do anything;
    otherwise exactly one class applies (the owner's, else the group's if the
    file's group is the primary group or a supplementary group below 32, else
    the others'), and every requested access must have its bit in that class. *)
Theorem usr_check_perm_correct (u g grps fu fg mode acc : Z) : 0 <= fg ->
  usr_check_perm u g grps fu fg mode acc = 0 <->
  u = 0 \/ forall a, has_flag acc (access_flag a) = true -> Z.testbit mode (class_shift u g grps fu fg + access_bit a) = true.
Proof.
  intros Hfg. unfold usr_check_perm, class_shift, UID_ROOT, MAXG. change (Z.of_nat USR_MAX_GROUPS) with 32.
  destruct (Z.eqb_spec u 0) as [->|Hu]; [tauto|].
  assert (Hgo : forall need sh, need = need_bits acc (Z.shiftl 1 (sh + 2)) (Z.shiftl 1 (sh + 1)) (Z.shiftl 1 sh) -> 0 <= sh ->
    ((if Z.land mode need =? need then 0 else -1) = 0 <->
     (u = 0 \/ forall a, has_flag acc (access_flag a) = true -> Z.testbit mode (sh + access_bit a) = true))).
  { intros need sh -> Hs. pose proof (need_met mode acc sh Hs) as Hn. set (nb := need_bits _ _ _ _) in *.
    destruct (Z.land mode nb =? nb); [tauto|]. split; [done|]. intros [?|H]; [done|]. by apply Hn in H. }
  destruct (u =? fu); [by apply Hgo|]. rewrite has_flag_bit by done.
  destruct ((g =? fg) || ((fg <? 32) && Z.testbit grps fg)); by apply Hgo.
Qed.

Lemma usr_check_perm_correct_witness :
  usr_check_perm 1000 100 2 0 1 0x1a4 1 = 0 /\ usr_check_perm 1000 100 2 0 1 0x1a4 2 <> 0.
Proof.
  split.
  - apply (usr_check_perm_correct 1000 100 2 0 1 0x1a4 1 ltac:(lia)). right. intros [] Ha; vm_compute in Ha |- *; congruence.
  - intros E. apply (usr_check_perm_correct 1000 100 2 0 1 0x1a4 2 ltac:(lia)) in E as [E|E]; [discriminate E|].
    specialize (E AccWrite eq_refl). vm_compute in E. discriminate E.
Defined.

End Usr.
