(* ===== verification/UsrFile.v ===== *)
(** * kernel/usr/usr.c: the password file is read back as it was written

    The parsers of Usr always terminate; what [usr_write_passwd] prints,
    [usr_load_passwd] reads back, when the buffer is large enough. *)

From S2P Require Import Prelude CString Entropy Usr.
From Stdlib Require Import String ZArith Lia.
From stdpp Require Import base list numbers.
Open Scope Z_scope.

Module UsrFile.
Import CString Usr.

(** ** Termination *)

Lemma skip_ws_len p : (length (skip_ws p) <= length p)%nat.
Proof. induction p as [|c p IH]; [done|]. cbn [skip_ws]. destruct (_ && _ && _); cbn [length]; lia. Qed.

Lemma take_tok_len p : forall n, (length (take_tok p n).2 <= length p)%nat.
Proof.
  induction p as [|c p IH]; intros [|n]; cbn [take_tok]; try done. destruct (_ && _); [|done].
  specialize (IH n). destruct (take_tok p n). cbn in *. lia.
Qed.

Lemma read_tok_len p n : (length (read_tok p n).2 <= length p)%nat.
Proof. unfold read_tok. pose proof (take_tok_len (skip_ws p) (n - 1)). pose proof (skip_ws_len p). lia. Qed.

Lemma next_line_len p : (length (next_line p) <= length p)%nat.
Proof. induction p as [|c p IH]; [done|]. cbn [next_line]. destruct (c =? 10), (truthy c); cbn [length]; lia. Qed.

Lemma next_line_lt p : truthy (hd 0 p) = true -> (length (next_line p) < length p)%nat.
Proof.
  destruct p as [|c p]; [done|]. cbn [hd next_line]. intros ->. pose proof (next_line_len p).
  destruct (c =? 10); cbn [length]; lia.
Qed.

(** A word that starts is not empty. *)
Lemma read_tok_lt p n : (1 < n)%nat -> truthy (hd 0 p) = true -> u_isspace (hd 0 p) = false ->
  (length (read_tok p n).2 < length p)%nat.
Proof.
  intros Hn Ht Hs. unfold read_tok. destruct p as [|c p]; [done|]. cbn [hd] in *. cbn [skip_ws]. rewrite Ht, Hs. cbn [andb].
  destruct n as [|[|n]]; [lia|lia|]. cbn [Nat.sub take_tok]. rewrite Ht, Hs. cbn [andb negb].
  pose proof (take_tok_len p n). destruct (take_tok p n). cbn in *. lia.
Qed.

Lemma skip_ws_stop p : truthy (hd 0 (skip_ws p)) = true -> (hd 0 (skip_ws p) =? 10) = false -> u_isspace (hd 0 (skip_ws p)) = false.
Proof.
  induction p as [|c p IH]; [done|]. cbn [skip_ws]. destruct (truthy c && u_isspace c && negb (c =? 10)) eqn:E; [done|].
  cbn [hd]. intros Ht Hn. rewrite Ht, Hn in E. by destruct (u_isspace c).
Qed.

Lemma skip_ws_end p : truthy (hd 0 p) = true -> truthy (hd 0 (skip_ws p)) = false -> (length (skip_ws p) < length p)%nat.
Proof.
  destruct p as [|c p]; [done|]. cbn [hd skip_ws]. intros Ht. rewrite Ht. cbn [andb].
  destruct (u_isspace c && negb (c =? 10)); cbn [hd]; [intros _; pose proof (skip_ws_len p); cbn; lia|congruence].
Qed.

Lemma read_line_lt p : truthy (hd 0 p) = true -> u_isspace (hd 0 p) = false -> (length (read_line p).2 < length p)%nat.
Proof.
  intros Ht Hs. unfold read_line. pose proof (read_tok_lt p USR_NAME_LEN ltac:(unfold USR_NAME_LEN; lia) Ht Hs) as H1.
  destruct (read_tok p USR_NAME_LEN) as [t1 p1]. cbn [snd] in H1.
  repeat match goal with |- context [read_tok ?q ?n] =>
    let H := fresh in pose proof (read_tok_len q n) as H; destruct (read_tok q n); cbn [snd] in H end.
  cbn [snd]. lia.
Qed.

Section Files.
Context {R : Type} `{HR : Rng R}.

Lemma load_passwd_terminates fuel total len : forall p loaded (d : usr_db R), (length p < fuel)%nat ->
  is_Some (load_passwd_loop fuel total len p loaded d).
Proof.
  induction fuel as [|fuel IH]; intros p loaded d Hf; [lia|]. cbn [load_passwd_loop].
  destruct ((total - length p <? len)%nat && truthy (hd 0 p) && (loaded <? USR_MAX_USERS)%nat) eqn:E; [|by eexists].
  apply andb_true_iff in E as [E _]. apply andb_true_iff in E as [_ Ht].
  pose proof (skip_ws_len p) as Hl. destruct ((hd 0 (skip_ws p) =? 35) || (hd 0 (skip_ws p) =? 10) || negb (truthy (hd 0 (skip_ws p)))) eqn:E.
  - apply IH. destruct (truthy (hd 0 (skip_ws p))) eqn:Eh.
    + pose proof (next_line_lt _ Eh). lia.
    + pose proof (skip_ws_end p Ht Eh). pose proof (next_line_len (skip_ws p)). lia.
  - apply orb_false_iff in E as [E Hh]. apply orb_false_iff in E as [_ En]. apply negb_false_iff in Hh.
    pose proof (read_line_lt _ Hh (skip_ws_stop p Hh En)) as Hr. destruct (read_line (skip_ws p)) as [l q]. cbn [snd] in Hr.
    pose proof (next_line_len q). destruct (_ || _ || _); apply IH; lia.
Qed.

Lemma load_group_terminates fuel total len : forall p loaded (d : usr_db R), (length p < fuel)%nat ->
  is_Some (load_group_loop fuel total len p loaded d).
Proof.
  induction fuel as [|fuel IH]; intros p loaded d Hf; [lia|]. cbn [load_group_loop].
  destruct ((total - length p <? len)%nat && truthy (hd 0 p)) eqn:E; [|by eexists].
  apply andb_true_iff in E as [_ Ht].
  pose proof (skip_ws_len p) as Hl. destruct ((hd 0 (skip_ws p) =? 35) || (hd 0 (skip_ws p) =? 10) || negb (truthy (hd 0 (skip_ws p)))) eqn:E.
  - apply IH. destruct (truthy (hd 0 (skip_ws p))) eqn:Eh.
    + pose proof (next_line_lt _ Eh). lia.
    + pose proof (skip_ws_end p Ht Eh). pose proof (next_line_len (skip_ws p)). lia.
  - apply orb_false_iff in E as [E Hh]. apply orb_false_iff in E as [_ En]. apply negb_false_iff in Hh.
    pose proof (read_tok_lt _ USR_NAME_LEN ltac:(unfold USR_NAME_LEN; lia) Hh (skip_ws_stop p Hh En)) as Hr.
    destruct (read_tok (skip_ws p) USR_NAME_LEN) as [n q]. cbn [snd] in Hr.
    pose proof (read_tok_len q 16) as Hr2. destruct (read_tok q 16) as [g q2]. cbn [snd] in Hr2.
    pose proof (next_line_len q2). destruct (_ || _); apply IH; lia.
Qed.

(** The two parsers terminate on every input: each round of their loops
    consumes at least one character. *)
Theorem usr_parsers_terminate (d : usr_db R) (buf : option (list Z)) (len : nat) :
  is_Some (usr_load_passwd d buf len) /\ is_Some (usr_load_group d buf len).
Proof.
  unfold usr_load_passwd, usr_load_group. destruct buf as [b|]; [|split; by eexists].
  destruct (len =? 0)%nat; [split; by eexists|]. split; [apply load_passwd_terminates|apply load_group_terminates]; lia.
Qed.

End Files.

(** ** Numbers *)

Lemma dec_digits_ok n : forall v acc k, 0 <= v < 10 ^ Z.of_nat k -> v < 65536 -> (k <= n)%nat -> Forall (fun c => u_isdigit c = true) acc ->
  u_atou_from (dec_digits n v acc) 0 = u_atou_from acc v /\ Forall (fun c => u_isdigit c = true) (dec_digits n v acc) /\
  (length acc <= length (dec_digits n v acc) <= k + length acc)%nat.
Proof.
  induction n as [|n IH]; intros v acc k Hv Hb Hk Ha; cbn [dec_digits].
  { assert (k = 0%nat) as -> by lia. change (10 ^ Z.of_nat 0) with 1 in Hv. replace v with 0 by lia. split_and!; [done|done|lia|lia]. }
  destruct (Z.eqb_spec v 0) as [->|Hn]; [split_and!; [done|done|lia|lia]|].
  destruct k as [|k]; [change (10 ^ Z.of_nat 0) with 1 in Hv; lia|]. rewrite Nat2Z.inj_succ, Z.pow_succ_r in Hv by lia.
  pose proof (Z.mod_pos_bound v 10 ltac:(lia)) as Hm. pose proof (Z.div_mod v 10 ltac:(lia)) as Hdm.
  assert (Hd : u_isdigit (48 + v mod 10) = true) by (unfold u_isdigit; apply andb_true_iff; rewrite !Z.leb_le; lia).
  destruct (IH (v / 10) (48 + v mod 10 :: acc) k) as (E & Hf & Hl);
    [split; [apply Z.div_pos; lia|apply Z.div_lt_upper_bound; lia]|apply Z.div_lt_upper_bound; lia|lia|by apply list.Forall_cons|].
  cbn [length] in Hl. split_and!; [|done|lia|lia]. rewrite E. cbn [u_atou_from]. rewrite Hd. f_equal.
  rewrite (u32_small (v / 10 * 10)) by lia. rewrite u32_small by lia. lia.
Qed.

Lemma fmt_dec_ok v : 0 <= v < 65536 ->
  u_atou (fmt_dec v) = v /\ Forall (fun c => u_isdigit c = true) (fmt_dec v) /\ (1 <= length (fmt_dec v) <= 5)%nat.
Proof.
  intros Hv. unfold fmt_dec, u_atou. destruct (Z.eqb_spec v 0) as [->|Hn]; [by repeat constructor|].
  destruct (dec_digits_ok 23 v [] 5) as (E & Hf & Hl); [lia|lia|lia|constructor|]. split_and!; [done|done| |cbn [length] in Hl; lia].
  destruct (dec_digits 23 v []) eqn:Ed; [|cbn; lia]. exfalso. apply Hn. cbn [u_atou_from] in E. done.
Qed.

Lemma nibble_hexchar n : 0 <= n < 16 -> nibble (hexchar n) = Some n /\ is_hexdigit (hexchar n) = true /\ 0 < hexchar n < 128.
Proof.
  intros Hn. assert (H : forallb (fun n => bool_decide (nibble (hexchar n) = Some n) && is_hexdigit (hexchar n) &&
    (0 <? hexchar n) && (hexchar n <? 128)) (seqZ 0 16) = true) by (vm_compute; reflexivity).
  rewrite forallb_forall in H. specialize (H n). rewrite <- list_elem_of_In, elem_of_seqZ in H. specialize (H ltac:(lia)).
  zbool. match goal with H : bool_decide _ = true |- _ => apply bool_decide_eq_true in H end. auto.
Qed.

Lemma hex_digits_len n : forall v acc, length (hex_digits n v acc) = (n + length acc)%nat.
Proof. induction n as [|n IH]; intros v acc; [done|]. cbn [hex_digits]. rewrite IH. cbn [length]. lia. Qed.

Lemma low_nibble v : Z.land v 0xF = v mod 16.
Proof. change 0xF with (2 ^ 4 - 1). rewrite land_mask_low by lia. done. Qed.

Lemma hex_digits_hex n : forall v acc, Forall (fun c => is_hexdigit c = true) acc -> Forall (fun c => is_hexdigit c = true) (hex_digits n v acc).
Proof.
  induction n as [|n IH]; intros v acc Ha; [done|]. cbn [hex_digits]. apply IH. apply list.Forall_cons. split; [|done].
  apply nibble_hexchar. rewrite low_nibble. apply Z.mod_pos_bound. lia.
Qed.

Lemma parse_hex_digits n : forall m v w acc, 0 <= v -> 0 <= w -> (w + 1) * 16 ^ Z.of_nat n <= 2 ^ 64 ->
  parse_hex (hex_digits n v acc) (n + m) w = parse_hex acc m (w * 16 ^ Z.of_nat n + v mod 16 ^ Z.of_nat n).
Proof.
  induction n as [|n IH]; intros m v w acc Hv Hw Hb; cbn [hex_digits].
  { cbn [Nat.add]. f_equal. change (16 ^ Z.of_nat 0) with 1. rewrite Z.mod_1_r. lia. }
  set (x := w * 16 ^ Z.of_nat n + Z.shiftr v 4 mod 16 ^ Z.of_nat n).
  rewrite Nat2Z.inj_succ, Z.pow_succ_r in Hb |- * by lia. pose proof (Z.pow_pos_nonneg 16 (Z.of_nat n)).
  replace (S n + m)%nat with (n + S m)%nat by lia. rewrite IH by (rewrite ?Z.shiftr_div_pow2; try apply Z.div_pos; lia). fold x.
  pose proof (Z.mod_pos_bound v 16 ltac:(lia)). destruct (nibble_hexchar (v mod 16) ltac:(lia)) as (En & _ & Hr).
  rewrite low_nibble. cbn [parse_hex]. rewrite (proj2 (truthy_true _)), En by lia. f_equal.
  pose proof (Z.mod_pos_bound (Z.shiftr v 4) (16 ^ Z.of_nat n) ltac:(lia)).
  assert (E : Z.lor (Z.shiftl x 4) (v mod 16) = x * 16 + v mod 16).
  { rewrite Z.shiftl_mul_pow2 by lia. change (2 ^ 4) with 16. symmetry. apply Z.add_nocarry_lor.
    change 16 with (2 ^ 4). apply Z.bits_inj'. intros i Hi. rewrite Z.land_spec, Z.bits_0.
    destruct (Z_lt_le_dec i 4); [by rewrite Z.mul_pow2_bits_low|by rewrite Z.mod_pow2_bits_high, andb_false_r]. }
  rewrite E. assert (Hx : x < (w + 1) * 16 ^ Z.of_nat n) by (unfold x; lia). assert (0 <= x) by (unfold x; nia).
  rewrite u64_small by nia. unfold x. rewrite Z.shiftr_div_pow2 by lia. change (2 ^ 4) with 16.
  rewrite (Z.rem_mul_r v 16 (16 ^ Z.of_nat n)) by lia. lia.
Qed.

Lemma fmt_hex64_ok v : 0 <= v < 2 ^ 64 -> parse_hex64 (fmt_hex64 v) = v /\ is_hex64 (fmt_hex64 v) = true /\
  length (fmt_hex64 v) = 16%nat /\ Forall (fun c => is_hexdigit c = true) (fmt_hex64 v).
Proof.
  intros Hv. assert (Hf : Forall (fun c => is_hexdigit c = true) (fmt_hex64 v)) by (apply hex_digits_hex; constructor).
  assert (Hl : length (fmt_hex64 v) = 16%nat) by (apply hex_digits_len). split_and!; [| |done|done].
  - unfold parse_hex64, fmt_hex64. change 16%nat with (16 + 0)%nat at 2. rewrite parse_hex_digits by (try done; lia).
    cbn [parse_hex]. change (16 ^ Z.of_nat 16) with (2 ^ 64). rewrite Z.mod_small by done. lia.
  - unfold is_hex64. apply forallb_forall. intros i Hi%in_seq. rewrite List.Forall_forall in Hf. apply Hf, nth_In. lia.
Qed.

(** ** Words and lines *)

Definition word_char (c : Z) : Prop := byte_ok c /\ u_isspace c = false.
Definition word_ok (n : nat) (s : list Z) : Prop := (1 <= length s <= n)%nat /\ Forall word_char s.

(** What [usr_write_passwd] can represent. *)
Record user_ok (u : asd_user_t) : Prop := {
  uo_name : word_ok 31 (name u); uo_hash : hd 0 (name u) <> 35;
  uo_home : word_ok 63 (home u); uo_shell : word_ok 63 (shell u);
  uo_uid : 0 <= uid u < 65536; uo_gid : 0 <= gid u < 65536;
  uo_flags : flags u ∈ [0; USR_FLAG_WHEEL; USR_FLAG_NOLOGIN; USR_FLAG_LOCKED];
  uo_pw : 0 <= pw_salt u < 2 ^ 64 /\ 0 <= pw_hash u < 2 ^ 64 }.

Lemma digit_word c : u_isdigit c = true -> word_char c.
Proof.
  unfold u_isdigit, word_char, byte_ok, u_isspace. intros H. zbool. split; [lia|].
  rewrite !orb_false_iff, !Z.eqb_neq. lia.
Qed.

Lemma hex_word c : is_hexdigit c = true -> word_char c.
Proof.
  unfold is_hexdigit, word_char, byte_ok, u_isspace. intros H.
  apply orb_true_iff in H as [H|H]; [apply orb_true_iff in H as [H|H]|]; zbool; (split; [lia|]);
    rewrite !orb_false_iff, !Z.eqb_neq; lia.
Qed.

Lemma dec_word v : 0 <= v < 65536 -> word_ok 15 (fmt_dec v).
Proof.
  intros Hv. destruct (fmt_dec_ok v Hv) as (_ & Hf & Hl). split; [lia|].
  eapply Forall_impl; [|exact Hf]. exact digit_word.
Qed.

Lemma hex64_word v : 0 <= v < 2 ^ 64 -> word_ok 19 (fmt_hex64 v).
Proof.
  intros Hv. destruct (fmt_hex64_ok v Hv) as (_ & _ & Hl & Hf). split; [lia|].
  eapply Forall_impl; [|exact Hf]. exact hex_word.
Qed.

Lemma flag_ok fl : fl ∈ [0; USR_FLAG_WHEEL; USR_FLAG_NOLOGIN; USR_FLAG_LOCKED] ->
  word_ok 31 (flag_word fl) /\ parse_flags (flag_word fl) = fl /\ (length (flag_word fl) <= 7)%nat.
Proof.
  intros Hf. assert (Hd : forall s, forallb (fun c => (0 <? c) && (c <? 256) && negb (u_isspace c)) s = true -> Forall word_char s).
  { intros s Hs. apply List.Forall_forall. intros c Hc. rewrite forallb_forall in Hs. specialize (Hs c Hc). zbool.
    split; [split; lia|done]. }
  rewrite !elem_of_cons, elem_of_nil in Hf. destruct Hf as [->|[->|[->|[->|[]]]]]; (split; [split; [vm_compute; lia|apply Hd; reflexivity]|]);
    split; vm_compute; (reflexivity || lia).
Qed.

Lemma take_tok_word t : forall n c r, Forall word_char t -> (length t <= n)%nat -> u_isspace c = true -> take_tok (t ++ c :: r) n = (t, c :: r).
Proof.
  induction t as [|x t IH]; intros n c r Hf Hl Hc; cbn [app].
  - destruct n; [done|]. cbn [take_tok]. rewrite Hc, andb_false_r. done.
  - apply list.Forall_cons in Hf as [[Hb Hs] Hf]. destruct n as [|n]; [cbn in Hl; lia|]. cbn [take_tok].
    rewrite (proj2 (truthy_true x)), Hs by (unfold byte_ok in Hb; lia). cbn [andb negb]. rewrite IH; [done|done|cbn in Hl; lia|done].
Qed.

Lemma skip_ws_word n t r : word_ok n t -> skip_ws (t ++ r) = t ++ r.
Proof.
  intros [Hl Hf]. destruct t as [|x t]; [cbn in Hl; lia|]. apply list.Forall_cons in Hf as [[_ Hs] _]. cbn [app skip_ws].
  by rewrite Hs, andb_false_r.
Qed.

(** The first word of a line, and one after a blank. *)
Lemma read_tok_first n t c r : word_ok n t -> u_isspace c = true -> read_tok (t ++ c :: r) (S n) = (t, c :: r).
Proof.
  intros Hw Hc. unfold read_tok. rewrite (skip_ws_word n) by done. replace (S n - 1)%nat with n by lia.
  apply take_tok_word; [apply Hw|apply Hw|done].
Qed.

Lemma read_tok_next n t c r : word_ok n t -> u_isspace c = true -> read_tok (32 :: t ++ c :: r) (S n) = (t, c :: r).
Proof. intros Hw Hc. rewrite <- (read_tok_first n t c r Hw Hc). unfold read_tok. f_equal. Qed.

(** A user's line. *)
Definition line_text (u : asd_user_t) : list Z :=
  name u ++ 32 :: fmt_dec (uid u) ++ 32 :: fmt_dec (gid u) ++ 32 :: flag_word (flags u) ++ 32 :: home u ++ 32 :: shell u ++
  32 :: fmt_hex64 (pw_salt u) ++ 32 :: fmt_hex64 (pw_hash u) ++ [10].
Definition line_of (u : asd_user_t) : pw_line :=
  mkLine (name u) (fmt_dec (uid u)) (fmt_dec (gid u)) (flag_word (flags u)) (home u) (shell u) (fmt_hex64 (pw_salt u)) (fmt_hex64 (pw_hash u)).

Lemma read_line_text u r : user_ok u -> read_line (line_text u ++ r) = (line_of u, 10 :: r).
Proof.
  intros Hu. unfold read_line, line_text. repeat (rewrite <- app_assoc; cbn [app]).
  rewrite (read_tok_first 31) by (done || apply Hu). rewrite (read_tok_next 15) by (done || apply dec_word, Hu).
  rewrite (read_tok_next 15) by (done || apply dec_word, Hu). rewrite (read_tok_next 31) by (done || apply flag_ok, Hu).
  rewrite (read_tok_next 63) by (done || apply Hu). rewrite (read_tok_next 63) by (done || apply Hu).
  rewrite (read_tok_next 19) by (done || apply hex64_word, Hu). rewrite (read_tok_next 19) by (done || apply hex64_word, Hu). done.
Qed.

Lemma word_hd n s r : word_ok n s -> truthy (hd 0 (s ++ r)) = true /\ u_isspace (hd 0 (s ++ r)) = false.
Proof.
  intros [Hl Hf]. destruct s as [|c s]; [cbn in Hl; lia|]. apply list.Forall_cons in Hf as [[Hb Hs] _]. cbn [app hd].
  split; [apply truthy_true; unfold byte_ok in Hb; lia|done].
Qed.

Lemma word_hd0 n s : word_ok n s -> truthy (hd 0 s) = true.
Proof. intros Hw. rewrite <- (app_nil_r s). by apply (word_hd n). Qed.

Lemma line_len u : user_ok u -> (length (line_text u) <= 214)%nat.
Proof.
  intros [[H1 _] _ [H2 _] [H3 _] H4 H5 H6 [H7 H8]].
  unfold line_text. repeat rewrite ?length_app, ?length_cons. cbn [length].
  destruct (fmt_dec_ok _ H4) as (_ & _ & L1), (fmt_dec_ok _ H5) as (_ & _ & L2), (flag_ok _ H6) as (_ & _ & L3),
    (fmt_hex64_ok _ H7) as (_ & _ & L4 & _), (fmt_hex64_ok _ H8) as (_ & _ & L5 & _). lia.
Qed.

Section RoundTrip.
Context {R : Type} `{HR : Rng R}.
Implicit Types d : usr_db R.

(** What a line for [u] does to a database. *)
Definition merge d (u : asd_user_t) : usr_db R :=
  let d := match grp_find_by_gid d (gid u) with None => (grp_add d (gid u) (str "unknown")).2 | Some _ => d end in
  let d := match usr_find_by_uid d (uid u), usr_find_by_name d (name u) with
           | None, None => (usr_add d (uid u) (gid u) (Some (name u)) (Some []) (flags u) (Some (home u)) (Some (shell u))).2
           | _, _ => d
           end in
  match usr_find_by_uid d (uid u) with
  | Some i => set_user d i (set_pw (pw_hash u) (pw_salt u))
  | None => d
  end.

Lemma apply_line_of d u : user_ok u -> apply_line d (line_of u) = merge d u.
Proof.
  intros Hu. unfold apply_line, merge, line_of. cbn [l_name l_uid l_gid l_flags l_home l_shell l_salt l_hash].
  destruct (fmt_dec_ok _ (uo_uid u Hu)) as (-> & _), (fmt_dec_ok _ (uo_gid u Hu)) as (-> & _).
  destruct (flag_ok _ (uo_flags u Hu)) as (_ & -> & _). destruct (uo_pw u Hu) as [Hs Hh].
  destruct (fmt_hex64_ok _ Hs) as (-> & -> & _), (fmt_hex64_ok _ Hh) as (-> & -> & _).
  rewrite (Z.mod_small (uid u)) by (apply Hu). rewrite (Z.mod_small (gid u)) by (apply Hu).
  unfold nonempty. rewrite (word_hd0 63 (home u)), (word_hd0 63 (shell u)) by (apply Hu). done.
Qed.

Lemma load_text us : forall fuel total len loaded d, Forall user_ok us -> (loaded + length us <= USR_MAX_USERS)%nat ->
  (length us < fuel)%nat -> (total <= len)%nat -> (length (concat (map line_text us)) <= total)%nat ->
  load_passwd_loop fuel total len (concat (map line_text us)) loaded d = Some (Z.of_nat (loaded + length us), foldl merge d us).
Proof.
  induction us as [|u us IH]; intros fuel total len loaded d Hu Hl Hf Ht Hlen; (destruct fuel as [|fuel]; [cbn in Hf; lia|]).
  { cbn [map concat load_passwd_loop hd foldl length]. rewrite andb_false_r. cbn [andb]. by rewrite Nat.add_0_r. }
  apply list.Forall_cons in Hu as [Hu Hus]. cbn [map concat load_passwd_loop length foldl] in *.
  set (rest := concat (map line_text us)) in *. destruct (word_hd 31 (name u) (drop (length (name u)) (line_text u) ++ rest) (uo_name u Hu)) as [Hh1 Hh2].
  assert (Etxt : line_text u ++ rest = name u ++ (drop (length (name u)) (line_text u) ++ rest)).
  { unfold line_text. by rewrite drop_app_length, <- app_assoc. }
  rewrite <- Etxt in Hh1, Hh2. rewrite Hh1. rewrite length_app in Hlen. pose proof (line_len u Hu) as Hll.
  assert (0 < length (line_text u))%nat by (unfold line_text; rewrite length_app; cbn [length]; lia).
  rewrite length_app. rewrite (proj2 (Nat.ltb_lt _ _)) by lia. rewrite (proj2 (Nat.ltb_lt loaded _)) by lia. cbn [andb].
  assert (Esk : skip_ws (line_text u ++ rest) = line_text u ++ rest) by (rewrite Etxt; apply (skip_ws_word 31), Hu).
  rewrite Esk, Hh1. cbn [negb]. assert (E35 : (hd 0 (line_text u ++ rest) =? 35) = false).
  { apply Z.eqb_neq. rewrite Etxt. pose proof (uo_hash u Hu). destruct (name u) eqn:En; [|done].
    destruct (uo_name u Hu) as [Hx _]. rewrite En in Hx. cbn in Hx. lia. }
  assert (E10 : (hd 0 (line_text u ++ rest) =? 10) = false).
  { apply Z.eqb_neq. intros E. rewrite E in Hh2. done. }
  rewrite E35, E10. cbn [orb]. rewrite read_line_text by done. cbn [l_name l_uid l_gid line_of].
  rewrite (word_hd0 31 (name u)), (word_hd0 15 (fmt_dec (uid u))), (word_hd0 15 (fmt_dec (gid u)))
    by first [apply Hu | apply dec_word, Hu]. cbn [negb orb]. cbn [next_line]. rewrite Z.eqb_refl.
  fold (line_of u). rewrite apply_line_of by done. rewrite IH; try done; try lia. do 2 f_equal. lia.
Qed.

(** ** Printing *)

Lemma put_str_fits lim s : forall out, (length out + length s <= lim)%nat -> put_str lim out s = out ++ s.
Proof.
  induction s as [|c s IH]; intros out Hl; cbn [put_str length] in *; [by rewrite app_nil_r|].
  rewrite (proj2 (Nat.ltb_lt _ _)) by lia. rewrite IH by (rewrite length_app; cbn [length]; lia). by rewrite <- app_assoc.
Qed.

Lemma write_user_fits sz out u : (length out + length (line_text u) <= sz - 2)%nat -> write_user sz out u = out ++ line_text u.
Proof.
  intros Hl. unfold write_user, put_word. unfold line_text in *. repeat rewrite ?length_app, ?length_cons in Hl. cbn [length] in Hl.
  assert (Hput : forall o s, (length o + length s <= sz - 2)%nat -> put_str (sz - 2) o s = o ++ s) by (intros; by apply put_str_fits).
  rewrite (Hput out (name u)) by lia.
  repeat match goal with |- context [put_str _ ?o ?s] =>
    lazymatch o with context [put_str] => fail | _ => rewrite (Hput o s) by (repeat rewrite ?length_app, ?length_cons; cbn [length]; lia) end
  end.
  rewrite (proj2 (Nat.ltb_lt _ _)) by (repeat rewrite ?length_app, ?length_cons; cbn [length]; lia).
  by repeat (rewrite <- app_assoc; cbn [app]).
Qed.

Lemma write_users_fit sz us : forall out, (length out + length (concat (map line_text us)) <= sz - 2)%nat ->
  foldl (write_user sz) out us = out ++ concat (map line_text us).
Proof.
  induction us as [|u us IH]; intros out Hl; cbn [foldl map concat] in *; [by rewrite app_nil_r|].
  rewrite length_app in Hl. rewrite write_user_fits by lia. rewrite IH by (rewrite length_app; lia). by rewrite <- app_assoc.
Qed.

Lemma lines_len us : Forall user_ok us -> (length (concat (map line_text us)) <= 214 * length us)%nat.
Proof.
  induction 1 as [|u us Hu Hus IH]; [done|]. cbn [map concat length]. rewrite length_app. pose proof (line_len u Hu). lia.
Qed.

Definition header : list Z := str "#ASDPW1" ++ [10].

Lemma write_passwd_fits d sz : Forall user_ok (g_users d) -> (10 + 214 * length (g_users d) <= sz)%nat ->
  usr_write_passwd d sz = (Z.of_nat (8 + length (concat (map line_text (g_users d)))), (header ++ concat (map line_text (g_users d))) ++ [0]) /\
  (length (usr_write_passwd d sz).2 <= sz)%nat.
Proof.
  intros Hu Hs. unfold usr_write_passwd. rewrite (proj2 (Nat.ltb_ge _ _)) by lia.
  change (str "#ASDPW1" ++ [10]) with header. assert (Hh : length header = 8%nat) by done. pose proof (lines_len _ Hu) as Hl.
  assert (E1 : put_str (sz - 1) [] header = header) by (apply put_str_fits; rewrite Hh; cbn [length]; lia). rewrite E1.
  rewrite write_users_fit by lia. split.
  - rewrite length_app, Hh. done.
  - cbn [snd]. rewrite !length_app, Hh. cbn [length]. lia.
Qed.

Lemma cstr_text us : Forall user_ok us -> forall t, cstr (header ++ concat (map line_text us) ++ 0 :: t) = header ++ concat (map line_text us).
Proof.
  intros Hu t. rewrite app_assoc. apply cstr_app_zero. apply Forall_app. split; [repeat constructor; done|].
  induction Hu as [|u us Hu Hus IH]; [constructor|]. cbn [map concat]. apply Forall_app. split; [|done].
  assert (Hw : forall n s, word_ok n s -> Forall (fun c => c <> 0) s).
  { intros n s [_ Hf]. eapply Forall_impl; [|exact Hf]. intros c [Hb _]. unfold byte_ok in Hb. lia. }
  assert (Hj : forall a b, Forall (fun c => c <> 0) a -> Forall (fun c => c <> 0) b -> Forall (fun c => c <> 0) (a ++ 32 :: b)).
  { intros a b Ha Hb. apply Forall_app. split; [done|]. by apply list.Forall_cons. }
  unfold line_text. apply Hj; [eapply Hw, Hu|]. apply Hj; [eapply Hw, dec_word, Hu|]. apply Hj; [eapply Hw, dec_word, Hu|].
  apply Hj; [eapply Hw, flag_ok, Hu|]. apply Hj; [eapply Hw, (uo_home u Hu)|]. apply Hj; [eapply Hw, (uo_shell u Hu)|].
  apply Hj; [eapply Hw, hex64_word, Hu|]. apply Forall_app; split; [eapply Hw, hex64_word, Hu|]. by repeat constructor.
Qed.

Lemma load_comment fuel total len p loaded d : (total - length p <? len)%nat = true -> truthy (hd 0 p) = true ->
  (loaded <? USR_MAX_USERS)%nat = true -> (hd 0 (skip_ws p) =? 35) = true ->
  load_passwd_loop (S fuel) total len p loaded d = load_passwd_loop fuel total len (next_line (skip_ws p)) loaded d.
Proof. intros E1 E2 E3 E4. cbn [load_passwd_loop]. by rewrite E1, E2, E3, E4. Qed.

Lemma load_written us d0 : Forall user_ok us -> (length us <= USR_MAX_USERS)%nat ->
  usr_load_passwd d0 (Some (header ++ concat (map line_text us))) (length (header ++ concat (map line_text us))) =
  Some (Z.of_nat (length us), foldl merge d0 us).
Proof.
  intros Hu Hl. unfold usr_load_passwd. set (txt := concat (map line_text us)).
  assert (Hlen : (length us <= length txt)%nat).
  { unfold txt. clear -Hu. induction Hu as [|u us Hu Hus IH]; [done|]. cbn [map concat length]. rewrite length_app.
    unfold line_text at 1. rewrite length_app. cbn [length]. lia. }
  assert (Hh : length (header ++ txt) = (8 + length txt)%nat) by (by rewrite length_app). rewrite Hh.
  change (8 + length txt =? 0)%nat with false. cbv iota. rewrite load_comment; [|rewrite Hh; apply Nat.ltb_lt; lia|reflexivity..].
  change (next_line (skip_ws (header ++ txt))) with txt. unfold txt in *.
  rewrite load_text; [done|done|lia|lia|lia|lia].
Qed.

(** ** A fresh database *)

Lemma u_strcmp_eq a : forall b, Forall (fun c => c <> 0) a -> Forall (fun c => c <> 0) b -> u_strcmp a b = 0 <-> a = b.
Proof.
  induction a as [|x a IH]; intros [|y b] Ha Hb; cbn [u_strcmp]; try tauto.
  - apply list.Forall_cons in Hb as [Hy _]. split; [lia|done].
  - apply list.Forall_cons in Ha as [Hx _]. split; [lia|done].
  - apply list.Forall_cons in Ha as [Hx Ha], Hb as [Hy Hb].
    rewrite (proj2 (truthy_true x) Hx), (proj2 (truthy_true y) Hy). cbn [andb]. destruct (Z.eqb_spec x y) as [->|Hne].
    + rewrite IH by done. split; congruence.
    + split; [lia|congruence].
Qed.

Lemma word_nz n s : word_ok n s -> Forall (fun c => c <> 0) s.
Proof. intros [_ Hf]. eapply Forall_impl; [|exact Hf]. intros c [Hb _]. unfold byte_ok in Hb. lia. Qed.

Lemma strncpy_word n s : word_ok n s -> u_strncpy s (S n) = s.
Proof.
  intros Hw. unfold u_strncpy. rewrite cstr_bytes; [|eapply Forall_impl; [|apply Hw]; by intros c [? _]].
  apply take_ge. destruct Hw. lia.
Qed.

(** [u] as a fresh account: the group bits follow from its group and flags. *)
Definition reload (u : asd_user_t) : asd_user_t :=
  mkUser (uid u) (gid u) (flags u) (pw_hash u) (pw_salt u) (name u) (home u) (shell u) (init_groups (gid u) (flags u)).

Lemma find_none {X} (f : X -> bool) l : (forall x, x ∈ l -> f x = false) -> find_index f l = None.
Proof. intros Hf. apply find_index_None. intros i x Hx. apply Hf. by eapply list_elem_of_lookup_2. Qed.

Lemma find_last {X} (f : X -> bool) l x : (forall y, y ∈ l -> f y = false) -> f x = true -> find_index f (l ++ [x]) = Some (length l).
Proof.
  intros Hf Hx. apply find_index_Some. exists x. split_and!; [by apply list_lookup_middle|done|].
  intros j y Hj Hy. rewrite lookup_app_l in Hy by done. apply Hf. by eapply list_elem_of_lookup_2.
Qed.

Lemma join_users d u g : g_users (join_group d u g) = g_users d.
Proof. unfold join_group. by destruct (grp_find_by_gid d g). Qed.
Lemma grp_add_users d g n : g_users (grp_add d g n).2 = g_users d.
Proof. unfold grp_add. by repeat case_match. Qed.

Lemma alter_last {X} (f : X -> X) l x : alter f (length l) (l ++ [x]) = l ++ [f x].
Proof. induction l as [|y l IH]; [done|]. cbn. by f_equal. Qed.

Lemma merge_new d u : user_ok u -> (length (g_users d) < USR_MAX_USERS)%nat ->
  (forall x, x ∈ g_users d -> uid x <> uid u /\ name x <> name u /\ Forall (fun c => c <> 0) (name x)) ->
  g_users (merge d u) = g_users d ++ [reload u].
Proof.
  intros Hu Hl Hn. unfold merge.
  set (d1 := match grp_find_by_gid d (gid u) with None => _ | Some _ => d end).
  assert (E1 : g_users d1 = g_users d) by (unfold d1; destruct (grp_find_by_gid d (gid u)); [done|apply grp_add_users]).
  clearbody d1. rewrite <- E1 in Hl, Hn |- *.
  assert (Eu : usr_find_by_uid d1 (uid u) = None) by (apply find_none; intros x Hx; apply Z.eqb_neq, Hn, Hx).
  assert (En : usr_find_by_name d1 (name u) = None).
  { apply find_none. intros x Hx. destruct (Hn x Hx) as (_ & Hne & Hz). apply Z.eqb_neq.
    intros E%u_strcmp_eq; [done|done|eapply word_nz, Hu]. }
  rewrite Eu, En. unfold usr_add. rewrite (proj2 (Nat.leb_gt _ _)) by done. rewrite Eu. cbn [default from_option id]. rewrite En.
  rewrite !bool_decide_eq_false_2 by (intros [? ?]; done). cbn [orb].
  rewrite (word_hd0 31 (name u)) by apply Hu. cbn [negb]. destruct (rng_get64 (rng d1)) as [salt r]. cbn [snd].
  set (x := mkUser _ _ _ _ _ _ _ _ _). set (d2 := mkDb _ _ r).
  set (d3 := if uid u <? 32 then _ else d2).
  assert (E3 : g_users d3 = g_users d1 ++ [x]).
  { unfold d3. destruct (uid u <? 32); [|done]. destruct (has_flag (flags u) USR_FLAG_WHEEL); by rewrite !join_users. }
  clearbody d3. unfold usr_find_by_uid. rewrite E3, find_last; [|intros y Hy; apply Z.eqb_neq, Hn, Hy|apply Z.eqb_refl].
  unfold set_user. cbn [g_users]. rewrite E3, alter_last. unfold x, reload, set_pw.
  cbn [uid gid flags name home shell groups]. f_equal.
  change (default (str "/") (Some (home u))) with (home u). change (default (str "/bin/asdsh") (Some (shell u))) with (shell u).
  change USR_NAME_LEN with 32%nat. change USR_HOME_LEN with 64%nat. change USR_SHELL_LEN with 64%nat.
  rewrite (strncpy_word 31), (strncpy_word 63 (home u)), (strncpy_word 63 (shell u)) by apply Hu. done.
Qed.

Lemma merge_fresh us : forall d, Forall user_ok us -> NoDup (map uid us) -> NoDup (map name us) ->
  (length (g_users d) + length us <= USR_MAX_USERS)%nat ->
  (forall x u, x ∈ g_users d -> u ∈ us -> uid x <> uid u /\ name x <> name u /\ Forall (fun c => c <> 0) (name x)) ->
  g_users (foldl merge d us) = g_users d ++ map reload us.
Proof.
  induction us as [|u us IH]; intros d Hu Hi Hn Hl Hd; cbn [foldl map] in *; [by rewrite app_nil_r|].
  apply list.Forall_cons in Hu as [Hu Hus]. apply list.NoDup_cons in Hi as [Hui Hi], Hn as [Hun Hn]. cbn [length] in Hl.
  assert (E : g_users (merge d u) = g_users d ++ [reload u]).
  { apply merge_new; [done|lia|]. intros x Hx. apply Hd; [done|left]. }
  rewrite IH; try done.
  - rewrite E, <- app_assoc. done.
  - rewrite E, length_app. cbn [length]. lia.
  - intros x v Hx Hv. rewrite E in Hx. apply elem_of_app in Hx as [Hx|Hx]; [apply Hd; [done|by right]|].
    apply list_elem_of_singleton in Hx as ->. cbn [uid name reload]. split_and!.
    + intros E'. apply Hui. rewrite E'. by apply list_elem_of_fmap_2.
    + intros E'. apply Hun. rewrite E'. by apply list_elem_of_fmap_2.
    + eapply word_nz, Hu.
Qed.


End RoundTrip.

(** ** A concrete file *)

#[local] Instance count_rng : Rng Z := { rng_get64 r := (r mod 2 ^ 64, r + 1) }.

Definition alice : asd_user_t :=
  mkUser 1000 100 1 0xdeadbeef 5 (str "alice") (str "/home/alice") (str "/bin/asdsh") 0.
Definition db1 : usr_db Z := mkDb [alice] [] 0.

Lemma alice_ok : user_ok alice.
Proof.
  assert (Hd : forall n s, ((1 <=? length s) && (length s <=? n))%nat && forallb (fun c => (0 <? c) && (c <? 256) && negb (u_isspace c)) s = true -> word_ok n s).
  { intros n s Hs. apply andb_true_iff in Hs as [Hl Hs]. zbool. split; [lia|]. apply List.Forall_forall. intros c Hc.
    rewrite forallb_forall in Hs. specialize (Hs c Hc). zbool. split; [split; lia|done]. }
  split; [apply Hd; reflexivity|discriminate|apply Hd; reflexivity|apply Hd; reflexivity|cbn; lia|cbn; lia| |cbn; lia].
  right. left.
Qed.


(** A locked member of wheel is written as "wheel" alone: after a reload the
    account is no longer locked. *)
Definition locked_wheel : asd_user_t := mkUser 1000 100 5 1 1 (str "eve") (str "/home/eve") (str "/bin/asdsh") 0.
Theorem passwd_flags_lost :
  option_map (fun p => map flags (g_users p.2))
    (usr_load_passwd (mkDb [] [] 0 : usr_db Z) (Some (cstr (usr_write_passwd (mkDb [locked_wheel] [] 0 : usr_db Z) 300).2)) 300) = Some [1].
Proof. vm_compute. reflexivity. Qed.

(** [usr_write_passwd] writes past its buffer: the blanks between the
    fields are stored without a check, so a full table of 64 ordinary accounts
    overruns the 4096-byte buffer the installer passes. *)
Theorem passwd_write_overflow :
  let us := map (fun i => mkUser (1000 + i) 100 0 1 1 (str "user") (str "/home/user.example") (str "/bin/asdsh") 0) (seqZ 0 64) in
  (4096 < length (usr_write_passwd (mkDb us [] 0%Z : usr_db Z) 4096).2)%nat.
Proof. apply Nat.ltb_lt. vm_compute. reflexivity. Qed.

End UsrFile.
