(* ===== verification/Vfs.v ===== *)
(** * kernel/vfs/vfs.c: the virtual file system

    The node table, the mounted backends and the file descriptor tables of all
    processes are one state.  A backend is a record of optional functions
    ([vfs_ops_t]) over the state [W] of all file systems; a backend context is
    an address, 0 being NULL.  Pointers to nodes and backends are indices.
    [sched_current] is an argument; every function takes [g_vfs_lock] and
    releases it on every path, so it is one step. *)

From S2P Require Import Prelude CString Ringbuf.
From Stdlib Require Import String ZArith Lia.
From stdpp Require Import base list gmap numbers.
Open Scope Z_scope.

Module Vfs.
Import CString.

Definition MAX_FDS : nat := 256.
Definition MAX_VFSNODES : nat := 32 * 32.
Definition MAX_BACKENDS : nat := 16.
Definition VFS_PATH_MAX : nat := 256.
Definition VFS_O_READ : Z := 0x01.
Definition VFS_O_WRITE : Z := 0x02.
Definition VFS_O_CREAT : Z := 0x10.
Definition VFS_O_TRUNC : Z := 0x20.
Definition VFS_O_DIR : Z := 0x80.
Definition VFS_ERR : Z := -1.
Definition VFS_ENOENT : Z := -2.
Definition VFS_EINVAL : Z := -3.
Definition VFS_EPERM : Z := -4.
Definition VFS_ENOSPC : Z := -5.
Definition VFS_ENODEV : Z := -6.
Definition VFS_EMFILE : Z := -9.
Definition VFS_NODE_FILE : Z := 1.
Definition VFS_NODE_DIR : Z := 2.

Record stat_info_t := mkStat { st_size : Z; st_kind : Z; st_mtime_ns : Z; st_name : list Z; st_uid : Z; st_gid : Z; st_mode : Z }.
(** A zeroed structure, for the uninitialised local of [vfs_open]; it is read
    only after a backend has filled it in. *)
Definition no_stat : stat_info_t := mkStat 0 0 0 (replicate VFS_PATH_MAX 0) 0 0 0.
Record vfs_dirent_t := mkDirent { d_name : list Z; d_kind : Z; d_size : Z }.
(** The caller's array of entries and the count stored for it, if any. *)
Abbreviation dir_result := (list vfs_dirent_t * option nat)%type.

(** ** Paths *)

Definition SLASH : Z := 47.
Definition DOT : Z := 46.

(** One component and the text behind its slash. *)
Fixpoint take_seg (p : list Z) : list Z * list Z :=
  match p with
  | [] => ([], [])
  | c :: p' => if c =? SLASH then ([], p') else let '(s, r) := take_seg p' in (c :: s, r)
  end.

Fixpoint skip_slashes (p : list Z) : list Z :=
  match p with c :: p' => if c =? SLASH then skip_slashes p' else p | [] => [] end.

(** The splitting loop; [stk] is the stack, its top last; the outer [None] is
    out of fuel, the inner one the error return. *)
Fixpoint canon_loop (fuel : nat) (p : list Z) (stk : list (list Z)) : option (option (list (list Z))) :=
  match fuel with
  | O => None
  | S fuel =>
      match p with
      | [] => Some (Some stk)
      | _ =>
          let '(seg, p) := take_seg p in
          if bool_decide (seg = []) || bool_decide (seg = [DOT]) then canon_loop fuel p stk
          else if bool_decide (seg = [DOT; DOT]) then canon_loop fuel p (take (length stk - 1) stk)
          else if (VFS_PATH_MAX / 2 - 1 <=? length stk)%nat then Some None
          else canon_loop fuel p (stk ++ [seg])
      end
  end.

(** Reconstruction: [out] is what has been written, [i] the component index. *)
Fixpoint canon_build (out_sz : nat) (out : list Z) (i : nat) (stk : list (list Z)) : option (list Z) :=
  match stk with
  | [] => Some out
  | s :: stk' =>
      if (out_sz <? length out + length s + 2)%nat then None
      else canon_build out_sz (out ++ (if (0 <? i)%nat then [SLASH] else []) ++ s) (S i) stk'
  end.

(** The canonical path, or [None] for -1. *)
Definition vfs_canonicalize (path : option (list Z)) (out_sz : nat) : option (list Z) :=
  match path with
  | None => None
  | Some path =>
      if (out_sz =? 0)%nat then None
      else
        let plen := strlen path in
        if (VFS_PATH_MAX <=? plen)%nat then None
        else
          let work := cstr path in
          match canon_loop (S (length work)) (skip_slashes work) [] with
          | Some (Some stk) => canon_build out_sz [SLASH] 0 stk
          | _ => None
          end
  end.

(** ** State *)

Section Ops.
Context {W : Type}.

Record vfs_ops_t := mkOps {
  op_open : option (W -> Z -> list Z -> Z -> Z * W);
  op_close : option (W -> Z -> Z -> W);
  op_read : option (W -> Z -> Z -> nat -> Z * list Z * W);
  op_write : option (W -> Z -> Z -> list Z -> Z * W);
  op_seek : option (W -> Z -> Z -> Z -> Z -> Z * W);
  op_readdir : option (W -> Z -> Z -> list vfs_dirent_t -> Z * dir_result * W);
  op_stat : option (W -> Z -> list Z -> stat_info_t -> Z * stat_info_t * W);
  op_unlink : option (W -> Z -> list Z -> Z * W);
  op_mkdir : option (W -> Z -> list Z -> Z * W) }.

(** [be_id = 0]: a free slot. *)
Record vfs_backend_t := mkBe { be_name : list Z; mount_pt : list Z; ops : vfs_ops_t; ctx : Z; be_id : Z }.

Record vfsnode_t := mkNode {
  node_id : Z; refcount : Z; flags : Z; offset : Z; size : Z; path : list Z;
  backend : option nat; bctx : Z; owner : option nat; ring : option Z; port_id : Z }.
Definition node0 : vfsnode_t := mkNode 0 0 0 0 0 [] None 0 None None 0.

(** [fds]: the entries of the fd tables that are not NULL, by process and fd. *)
Record vfs_state := mkVfs {
  g_nodes : gmap nat vfsnode_t;
  g_backends : list vfs_backend_t;
  g_next_node_id : nat;
  fds : gmap (nat * nat) nat;
  rings : gmap Z Ringbuf.ringbuf_t;
  fs : W }.

Definition node (s : vfs_state) (i : nat) : vfsnode_t := default node0 (g_nodes s !! i).
Definition set_node (s : vfs_state) (i : nat) (n : vfsnode_t) : vfs_state :=
  mkVfs (<[i := n]> (g_nodes s)) (g_backends s) (g_next_node_id s) (fds s) (rings s) (fs s).
Definition set_next (s : vfs_state) (k : nat) : vfs_state :=
  mkVfs (g_nodes s) (g_backends s) k (fds s) (rings s) (fs s).
Definition set_fd (s : vfs_state) (p fd i : nat) : vfs_state :=
  mkVfs (g_nodes s) (g_backends s) (g_next_node_id s) (<[(p, fd) := i]> (fds s)) (rings s) (fs s).
Definition clear_fd (s : vfs_state) (p fd : nat) : vfs_state :=
  mkVfs (g_nodes s) (g_backends s) (g_next_node_id s) (delete (p, fd) (fds s)) (rings s) (fs s).
Definition set_ring (s : vfs_state) (a : Z) (r : Ringbuf.ringbuf_t) : vfs_state :=
  mkVfs (g_nodes s) (g_backends s) (g_next_node_id s) (fds s) (<[a := r]> (rings s)) (fs s).
Definition set_fs (s : vfs_state) (w : W) : vfs_state :=
  mkVfs (g_nodes s) (g_backends s) (g_next_node_id s) (fds s) (rings s) w.

Definition set_offset (n : vfsnode_t) (o : Z) : vfsnode_t :=
  mkNode (node_id n) (refcount n) (flags n) o (size n) (path n) (backend n) (bctx n) (owner n) (ring n) (port_id n).
Definition set_size (n : vfsnode_t) (z : Z) : vfsnode_t :=
  mkNode (node_id n) (refcount n) (flags n) (offset n) z (path n) (backend n) (bctx n) (owner n) (ring n) (port_id n).
Definition set_ref (n : vfsnode_t) (r : Z) : vfsnode_t :=
  mkNode (node_id n) r (flags n) (offset n) (size n) (path n) (backend n) (bctx n) (owner n) (ring n) (port_id n).
Definition set_id (n : vfsnode_t) (i : Z) : vfsnode_t :=
  mkNode i (refcount n) (flags n) (offset n) (size n) (path n) (backend n) (bctx n) (owner n) (ring n) (port_id n).

(** ** Node ids *)

(** Candidates [(id + i) % MAX_VFSNODES] for the next [n] values of [i]. *)
Fixpoint alloc_scan (s : vfs_state) (id i n : nat) : option nat :=
  match n with
  | O => None
  | S n' =>
      let candidate := ((id + i) mod MAX_VFSNODES)%nat in
      if (candidate =? 0)%nat then alloc_scan s id (S i) n'
      else if node_id (node s candidate) =? 0 then Some candidate
      else alloc_scan s id (S i) n'
  end.

(** 0: all slots are taken. *)
Definition alloc_node_id (s : vfs_state) : nat * vfs_state :=
  match alloc_scan s (g_next_node_id s) 0 MAX_VFSNODES with
  | None => (0%nat, s)
  | Some c =>
      let k := ((c + 1) mod MAX_VFSNODES)%nat in
      (c, set_next s (if (k =? 0)%nat then 1%nat else k))
  end.

(** ** Backends *)

Definition is_root (m : list Z) : bool := bool_decide (m = [SLASH]).

Definition mount_matches (m p : list Z) : bool :=
  if is_root m then hd 0 p =? SLASH
  else (strncmp p m (length m) =? 0) &&
       ((nth (length m) p 0 =? 0) || (nth (length m) p 0 =? SLASH)).

(** The scan: best slot so far and the length of its mount point. *)
Fixpoint best_backend (bes : list vfs_backend_t) (i : nat) (p : list Z) (best : option nat) (best_len : nat) : option nat * nat :=
  match bes with
  | [] => (best, best_len)
  | be :: bes' =>
      if (be_id be =? 0) then best_backend bes' (S i) p best best_len
      else if negb (mount_matches (mount_pt be) p) then best_backend bes' (S i) p best best_len
      else if (best_len <=? length (mount_pt be))%nat then best_backend bes' (S i) p (Some i) (length (mount_pt be))
      else best_backend bes' (S i) p best best_len
  end.

Definition no_backend : vfs_backend_t := mkBe [] [] (mkOps None None None None None None None None None) 0 0.
Definition be_at (s : vfs_state) (i : nat) : vfs_backend_t := nth i (g_backends s) no_backend.

(** The backend's slot and the path it is given. *)
Definition find_backend (s : vfs_state) (p : list Z) : option (nat * list Z) :=
  match best_backend (g_backends s) 0 p None 0 with
  | (None, _) => None
  | (Some i, best_len) =>
      if (best_len =? 1)%nat && (hd 0 (mount_pt (be_at s i)) =? SLASH) then Some (i, p)
      else
        let rp := drop best_len p in
        Some (i, if negb (truthy (hd 0 rp)) then [SLASH] else rp)
  end.

Definition vfs_init (s : vfs_state) : vfs_state :=
  mkVfs ∅ (replicate MAX_BACKENDS no_backend) 1 (fds s) (rings s) (fs s).

(** The id of the backend, or 0. *)
Definition vfs_mount (s : vfs_state) (mp : option (list Z)) (o : vfs_ops_t) (c : Z) : Z * vfs_state :=
  match mp with
  | None => (0, s)
  | Some m =>
      if negb (truthy (hd 0 m)) then (0, s)
      else match find_index (fun b => be_id b =? 0) (g_backends s) with
           | None => (0, s)
           | Some i =>
               let id := Z.of_nat i + 1 in
               (id, mkVfs (g_nodes s)
                      (<[i := mkBe (take 63 (cstr m)) (take 255 (cstr m)) o c id]> (g_backends s))
                      (g_next_node_id s) (fds s) (rings s) (fs s))
           end
  end.

(** Calls [be->ops.close(be, bctx)] if both exist. *)
Definition close_bctx (s : vfs_state) (b : option nat) (c : Z) : vfs_state :=
  match b with
  | None => s
  | Some i => match op_close (ops (be_at s i)) with
              | None => s
              | Some f => set_fs s (f (fs s) (ctx (be_at s i)) c)
              end
  end.

(** ** Open and close *)

(** The first free descriptor of process [p] from [i] on. *)
Fixpoint free_fd (s : vfs_state) (p i n : nat) : option nat :=
  match n with
  | O => None
  | S n' => match fds s !! (p, i) with None => Some i | Some _ => free_fd s p (S i) n' end
  end.

Definition open_flags (fl : Z) : Z := if has_flag fl (Z.lor VFS_O_READ VFS_O_WRITE) then fl else Z.lor fl VFS_O_READ.

Definition vfs_open (s : vfs_state) (p : option (list Z)) (fl : Z) (caller : option nat) : Z * vfs_state :=
  match p with
  | None => (u32 VFS_EINVAL, s)
  | Some p0 =>
  if negb (truthy (hd 0 p0)) then (u32 VFS_EINVAL, s)
  else match vfs_canonicalize (Some p0) VFS_PATH_MAX with
  | None => (u32 VFS_EINVAL, s)
  | Some p =>
      let fl := open_flags fl in
      match find_backend s p with
      | None => (u32 VFS_ENOENT, s)
      | Some (b, rel) =>
          let '(c, s) := match op_open (ops (be_at s b)) with
                         | None => (0, s)
                         | Some f => let '(c, w) := f (fs s) (ctx (be_at s b)) rel fl in (c, set_fs s w)
                         end in
          if c =? 0 then (u32 VFS_ENOENT, s)
          else
            let '(nid, s) := alloc_node_id s in
            if (nid =? 0)%nat then (u32 VFS_EMFILE, close_bctx s (Some b) c)
            else
              let n := mkNode (Z.of_nat nid) 1 (u32 fl) 0 (-1) (take 255 p) (Some b) c caller None 0 in
              let s := set_node s nid n in
              let s := match op_stat (ops (be_at s b)) with
                       | None => s
                       | Some f =>
                           let '(rc, info, w) := f (fs s) (ctx (be_at s b)) rel no_stat in
                           let s := set_fs s w in
                           if rc =? 0 then set_node s nid (set_size n (st_size info)) else s
                       end in
              match caller with
              | None => (u32 (Z.of_nat (nid + MAX_FDS)), s)
              | Some pid =>
                  match free_fd s pid 3 (MAX_FDS - 3) with
                  | Some i => (Z.of_nat i, set_fd s pid i nid)
                  | None => (u32 VFS_EMFILE, close_bctx (set_node s nid (set_id (node s nid) 0)) (Some b) c)
                  end
              end
      end
  end
  end.

(** The node a descriptor names: a pseudo-fd by its node id, any other through
    the table of the current process. *)
Definition fd_node (s : vfs_state) (cur : option nat) (fd : nat) : option nat :=
  if (MAX_FDS <=? fd)%nat then
    let nid := (fd - MAX_FDS)%nat in
    if (MAX_VFSNODES <=? nid)%nat || negb (node_id (node s nid) =? Z.of_nat nid) then None else Some nid
  else match cur with None => None | Some pid => fds s !! (pid, fd) end.

(** [node->refcount--] and the release of the last reference. *)
Definition drop_ref (s : vfs_state) (i : nat) : vfs_state :=
  let n := node s i in
  let s := set_node s i (set_ref n (u32 (refcount n - 1))) in
  if u32 (refcount n - 1) =? 0 then
    let s := close_bctx s (backend n) (bctx n) in
    set_node s i (set_id (node s i) 0)
  else s.

Definition vfs_close (s : vfs_state) (cur : option nat) (fd : nat) : Z * vfs_state :=
  if (fd <=? 2)%nat then (0, s)
  else match fd_node s cur fd with
  | None => (VFS_EINVAL, s)
  | Some i =>
      let s := match cur with
               | Some pid => if (MAX_FDS <=? fd)%nat then s else clear_fd s pid fd
               | None => s
               end in
      (0, drop_ref s i)
  end.

(** [for (i = 3; i < MAX_FDS; i++)], [n] rounds from [i]. *)
Fixpoint close_fds (s : vfs_state) (pid i n : nat) : vfs_state :=
  match n with
  | O => s
  | S n' => match fds s !! (pid, i) with
            | None => close_fds s pid (S i) n'
            | Some k => close_fds (drop_ref (clear_fd s pid i) k) pid (S i) n'
            end
  end.
Definition vfs_close_all (s : vfs_state) (pcb : option nat) : vfs_state :=
  match pcb with None => s | Some pid => close_fds s pid 3 (MAX_FDS - 3) end.

(** ** Read, write, seek *)

(** The loop over ring slots; [got]: the bytes read so far; [None]: out of
    fuel, which needs a slot size of 0. *)
Fixpoint ring_read (fuel : nat) (r : Ringbuf.ringbuf_t) (n : nat) (got : list Z) : option (list Z * Ringbuf.ringbuf_t) :=
  match fuel with
  | O => None
  | S fuel =>
      if (length got <? n)%nat then
        let chunk := Z.of_nat (n - length got) in
        let chunk := if Ringbuf.slot_size r <? chunk then Ringbuf.slot_size r else chunk in
        let '(rc, b, r') := Ringbuf.ringbuf_pop r (u32 chunk) in
        if negb (rc =? 0) then Some (got, r) else ring_read fuel r' n (got ++ b)
      else Some (got, r)
  end.

Fixpoint ring_write (fuel : nat) (r : Ringbuf.ringbuf_t) (buf : list Z) (total : nat) : option (nat * Ringbuf.ringbuf_t) :=
  match fuel with
  | O => None
  | S fuel =>
      if (total <? length buf)%nat then
        let chunk := Z.of_nat (length buf - total) in
        let chunk := if Ringbuf.slot_size r <? chunk then Ringbuf.slot_size r else chunk in
        let '(rc, r') := Ringbuf.ringbuf_push r (drop total buf) (u32 chunk) in
        if negb (rc =? 0) then Some (total, r) else ring_write fuel r' buf (total + Z.to_nat chunk)
      else Some (total, r)
  end.

(** Result, bytes stored in [buf], state; [got]: whether the caller passed a
    place for the count. *)
Definition vfs_read (s : vfs_state) (cur : option nat) (fd : nat) (buf : bool) (n : nat) (got : bool) : option (Z * list Z * vfs_state) :=
  if (fd <=? 2)%nat || negb buf then Some (VFS_EINVAL, [], s)
  else match fd_node s cur fd with
  | None => Some (VFS_EINVAL, [], s)
  | Some i =>
      match ring (node s i) with
      | Some a =>
          match rings s !! a with
          | None => None
          | Some r => match ring_read (S n) r n [] with
                      | None => None
                      | Some (b, r') => Some (if (0 <? length b)%nat then 0 else VFS_ERR, b, set_ring s a r')
                      end
          end
      | None =>
          match backend (node s i) ≫= fun be => (fun f => (be, f)) <$> op_read (ops (be_at s be)) with
          | None => Some (VFS_EPERM, [], s)
          | Some (be, f) =>
              let '(rc, b, w) := f (fs s) (ctx (be_at s be)) (bctx (node s i)) n in
              let s := set_fs s w in
              Some (rc, b, if (rc =? 0) && got
                           then set_node s i (set_offset (node s i) (u64 (offset (node s i) + Z.of_nat (length b)))) else s)
          end
      end
  end.

Context (port_send : vfs_state -> Z -> list Z -> Z * vfs_state).

Definition vfs_write (s : vfs_state) (cur : option nat) (fd : nat) (buf : option (list Z)) : option (Z * vfs_state) :=
  let b := default [] buf in
  if (fd <=? 2)%nat || (length b =? 0)%nat then Some (VFS_EINVAL, s)
  else match fd_node s cur fd with
  | None => Some (VFS_EINVAL, s)
  | Some i =>
      match ring (node s i) with
      | Some a =>
          match rings s !! a with
          | None => None
          | Some r => match ring_write (S (length b)) r b 0 with
                      | None => None
                      | Some (total, r') => Some (if (0 <? total)%nat then 0 else VFS_ERR, set_ring s a r')
                      end
          end
      | None =>
          if truthy (port_id (node s i)) then Some (port_send s (port_id (node s i)) b)
          else match backend (node s i) ≫= fun be => (fun f => (be, f)) <$> op_write (ops (be_at s be)) with
          | None => Some (VFS_EPERM, s)
          | Some (be, f) =>
              let '(rc, w) := f (fs s) (ctx (be_at s be)) (bctx (node s i)) b in
              let s := set_fs s w in
              Some (rc, if rc =? 0
                        then set_node s i (set_offset (node s i) (u64 (offset (node s i) + Z.of_nat (length b)))) else s)
          end
      end
  end.

(** A 64-bit value read as signed. *)
Definition s64 (x : Z) : Z := (x + 2 ^ 63) mod 2 ^ 64 - 2 ^ 63.

Definition vfs_seek (s : vfs_state) (cur : option nat) (fd : nat) (off whence : Z) : Z * vfs_state :=
  if (fd <=? 2)%nat then (VFS_EINVAL, s)
  else match fd_node s cur fd with
  | None => (VFS_EINVAL, s)
  | Some i =>
      let n := node s i in
      match backend n ≫= fun b => (fun f => (b, f)) <$> op_seek (ops (be_at s b)) with
      | Some (b, f) =>
          let '(rc, w) := f (fs s) (ctx (be_at s b)) (bctx n) off whence in
          let s := set_fs s w in
          (rc, if 0 <=? rc then set_node s i (set_offset (node s i) rc) else s)
      | None =>
          let go new_off := if new_off <? 0 then (VFS_EINVAL, s) else (new_off, set_node s i (set_offset n new_off)) in
          if whence =? 0 then go off
          else if whence =? 1 then go (s64 (offset n + off))
          else if whence =? 2 then if size n <? 0 then (VFS_ERR, s) else go (s64 (size n + off))
          else (VFS_EINVAL, s)
      end
  end.

(** ** Operations on paths *)

Definition vfs_stat (s : vfs_state) (p : option (list Z)) (out : option stat_info_t) : Z * option stat_info_t * vfs_state :=
  match out, vfs_canonicalize p VFS_PATH_MAX with
  | Some o, Some p =>
      match find_backend s p ≫= fun '(b, rel) => (fun f => (b, rel, f)) <$> op_stat (ops (be_at s b)) with
      | Some (b, rel, f) => let '(rc, info, w) := f (fs s) (ctx (be_at s b)) rel o in (rc, Some info, set_fs s w)
      | None => (VFS_ENOENT, out, s)
      end
  | _, _ => (VFS_EINVAL, out, s)
  end.

Definition vfs_unlink (s : vfs_state) (p : option (list Z)) : Z * vfs_state :=
  if negb (truthy (hd 0 (default [] p))) then (VFS_EINVAL, s)
  else match vfs_canonicalize p VFS_PATH_MAX with
  | None => (VFS_EINVAL, s)
  | Some p =>
      match find_backend s p ≫= fun '(b, rel) => (fun f => (b, rel, f)) <$> op_unlink (ops (be_at s b)) with
      | Some (b, rel, f) => let '(rc, w) := f (fs s) (ctx (be_at s b)) rel in (rc, set_fs s w)
      | None => (VFS_ENODEV, s)
      end
  end.

Definition vfs_mkdir (s : vfs_state) (p : option (list Z)) : Z * vfs_state :=
  if negb (truthy (hd 0 (default [] p))) then (VFS_EINVAL, s)
  else match vfs_canonicalize p VFS_PATH_MAX with
  | None => (VFS_EINVAL, s)
  | Some p =>
      match find_backend s p ≫= fun '(b, rel) => (fun f => (b, rel, f)) <$> op_mkdir (ops (be_at s b)) with
      | Some (b, rel, f) => let '(rc, w) := f (fs s) (ctx (be_at s b)) rel in (rc, set_fs s w)
      | None => (VFS_ENODEV, s)
      end
  end.

(** The path is used as it is; a backend with [readdir] has [open] and
    [close].  [buf] is the caller's array of [cap] entries. *)
Definition vfs_readdir (s : vfs_state) (p : option (list Z)) (buf : option (list vfs_dirent_t)) : Z * dir_result * vfs_state :=
  match p, buf with
  | Some p, Some buf =>
      match find_backend s p ≫= fun '(b, rel) => (fun f => (b, rel, f)) <$> op_readdir (ops (be_at s b)) with
      | None => (VFS_ENODEV, (buf, None), s)
      | Some (b, rel, f) =>
          match op_open (ops (be_at s b)) with
          | None => (VFS_ENOENT, (buf, None), s)
          | Some o =>
              let '(d, w) := o (fs s) (ctx (be_at s b)) rel (Z.lor VFS_O_READ VFS_O_DIR) in
              if d =? 0 then (VFS_ENOENT, (buf, None), set_fs s w)
              else
                let '(rc, es, w) := f w (ctx (be_at s b)) d buf in
                (rc, es, close_bctx (set_fs s w) (Some b) d)
          end
      end
  | _, _ => (VFS_EINVAL, (default [] buf, None), s)
  end.

(** ** Rings, inheritance, pipes, dup2 *)

Definition vfs_register_ring (s : vfs_state) (p : option (list Z)) (r : option Z) : Z * vfs_state :=
  match p, r with
  | Some p, Some a =>
      let '(nid, s) := alloc_node_id s in
      if (nid =? 0)%nat then (VFS_EMFILE, s)
      else (0, set_node s nid (mkNode (Z.of_nat nid) 1 (Z.lor VFS_O_READ VFS_O_WRITE) 0 (-1) (take 255 (cstr p)) None 0 None (Some a) 0))
  | _, _ => (VFS_EINVAL, s)
  end.

Definition vfs_unregister_node (s : vfs_state) (p : option (list Z)) : Z * vfs_state :=
  match p with
  | None => (VFS_EINVAL, s)
  | Some p =>
      match find_index (fun i => truthy (node_id (node s i)) && (strcmp (path (node s i)) p =? 0)) (seq 0 MAX_VFSNODES) with
      | Some i => (0, set_node s i (set_id (node s i) 0))
      | None => (VFS_ENOENT, s)
      end
  end.

Fixpoint inherit_fds (s : vfs_state) (child parent i n : nat) : vfs_state :=
  match n with
  | O => s
  | S n' => match fds s !! (parent, i) with
            | None => inherit_fds s child parent (S i) n'
            | Some k =>
                let s := set_fd s child i k in
                inherit_fds (set_node s k (set_ref (node s k) (u32 (refcount (node s k) + 1)))) child parent (S i) n'
            end
  end.
Definition vfs_fd_inherit (s : vfs_state) (child parent : option nat) : vfs_state :=
  match child, parent with Some c, Some p => inherit_fds s c p 0 MAX_FDS | _, _ => s end.

(** The first two free descriptors. *)
Definition two_fds (s : vfs_state) (pid : nat) : option nat * option nat :=
  match free_fd s pid 3 (MAX_FDS - 3) with
  | None => (None, None)
  | Some r => (Some r, free_fd s pid (S r) (MAX_FDS - S r))
  end.

(** [area]: what [kmalloc] returned, its address and its bytes read as a ring;
    the result of [ringbuf_init] is not looked at. *)
Definition vfs_pipe (s : vfs_state) (cur : option nat) (area : option (Z * Ringbuf.ringbuf_t)) : Z * option (nat * nat) * vfs_state :=
  match cur with
  | None => (VFS_ERR, None, s)
  | Some pid =>
      match area with
      | None => (VFS_ENOSPC, None, s)
      | Some (a, mem) =>
          let rb := default mem (Ringbuf.ringbuf_init (Some mem) 1 4096).2 in
          let '(rid, s) := alloc_node_id s in
          let '(wid, s) := if (rid =? 0)%nat then (0%nat, s) else alloc_node_id s in
          if (rid =? 0)%nat || (wid =? 0)%nat then (VFS_ENOSPC, None, s)
          else
            let s := set_node s rid node0 in
            let s := set_node s wid node0 in
            let s := set_node s rid (mkNode (Z.of_nat rid) 1 VFS_O_READ 0 (-1) [] None 0 None (Some a) 0) in
            let s := set_node s wid (mkNode (Z.of_nat wid) 1 VFS_O_WRITE 0 (-1) [] None 0 None (Some a) 0) in
            match two_fds s pid with
            | (Some r, Some w) => (0, Some (r, w), set_ring (set_fd (set_fd s pid r rid) pid w wid) a rb)
            | _ =>
                let s := set_node s rid (set_id (node s rid) 0) in
                (VFS_EMFILE, None, set_node s wid (set_id (node s wid) 0))
            end
      end
  end.

Definition vfs_dup2 (s : vfs_state) (cur : option nat) (oldfd newfd : nat) : Z * vfs_state :=
  if (MAX_FDS <=? newfd)%nat then (VFS_EINVAL, s)
  else match cur with
  | None => (VFS_ERR, s)
  | Some pid =>
      match (if (oldfd <? MAX_FDS)%nat then fds s !! (pid, oldfd) else None) with
      | None => (VFS_EINVAL, s)
      | Some i =>
          let s := match fds s !! (pid, newfd) with
                   | None => s
                   | Some k => drop_ref (clear_fd s pid newfd) k
                   end in
          let s := set_fd s pid newfd i in
          (Z.of_nat newfd, set_node s i (set_ref (node s i) (u32 (refcount (node s i) + 1))))
      end
  end.

End Ops.
Arguments vfs_ops_t W : clear implicits.
Arguments vfs_backend_t W : clear implicits.
Arguments vfs_state W : clear implicits.

End Vfs.
