(* ===== verification/VfsPath.v ===== *)
(** * kernel/vfs/vfs.c: canonical paths and mount points

    [vfs_canonicalize] against the textbook definition: split at slashes, drop
    empty and "." components, let ".." remove the last component. *)

From S2P Require Import Prelude CString Ringbuf Vfs.
From Stdlib Require Import String ZArith Lia.
From stdpp Require Import base list gmap numbers.
Open Scope Z_scope.

Module VfsPath.
Import CString Vfs.

(** ** Reference definition *)

Fixpoint split (p : list Z) : list (list Z) :=
  match p with
  | [] => [[]]
  | c :: p' => if c =? SLASH then [] :: split p'
               else match split p' with s :: r => (c :: s) :: r | [] => [[c]] end
  end.

Definition norm (stk : list (list Z)) (seg : list Z) : list (list Z) :=
  if bool_decide (seg = []) || bool_decide (seg = [DOT]) then stk
  else if bool_decide (seg = [DOT; DOT]) then take (length stk - 1) stk
  else stk ++ [seg].

Definition canonical (p : list Z) : list (list Z) := foldl norm [] (split p).

Fixpoint join (cs : list (list Z)) : list Z :=
  match cs with [] => [] | [s] => s | s :: cs' => s ++ SLASH :: join cs' end.
Definition render (cs : list (list Z)) : list Z := SLASH :: join cs.

(** A component that stands for itself. *)
Definition plain (s : list Z) : Prop := s <> [] /\ s <> [DOT] /\ s <> [DOT; DOT] /\ (SLASH ∉ s) /\ Forall (fun c => c <> 0) s.

(** ** Splitting *)

Lemma split_ne p : split p <> [].
Proof. destruct p as [|c p]; simpl; [done|]. destruct (c =? SLASH); [done|]. by destruct (split p). Qed.

Lemma norm_eq stk seg : norm stk seg =
  if bool_decide (seg = []) || bool_decide (seg = [DOT]) then stk
  else if bool_decide (seg = [DOT; DOT]) then take (length stk - 1) stk
  else stk ++ [seg].
Proof. done. Qed.

Lemma norm_nil stk : norm stk [] = stk.
Proof. done. Qed.

Lemma take_seg_split p : forall s r stk, p <> [] -> take_seg p = (s, r) ->
  foldl norm stk (split p) = foldl norm (norm stk s) (split r) /\ (length s + length r <= length p)%nat /\ (length r < length p)%nat /\
  (r = [] \/ (length s + 1 + length r = length p)%nat) /\ (SLASH ∉ s) /\ (forall x, x ∈ s -> x ∈ p) /\ (forall x, x ∈ r -> x ∈ p).
Proof.
  induction p as [|c p IH]; intros s r stk Hp E; [done|]. cbn [take_seg split] in *. destruct (Z.eqb_spec c SLASH) as [->|Hc].
  { injection E as <- <-. cbn [foldl length]. split_and!; try done; try lia; [apply not_elem_of_nil| |].
    - intros x Hx. by apply elem_of_nil in Hx.
    - intros x Hx. by right. }
  destruct (take_seg p) as [s' r'] eqn:Ep. injection E as <- <-. destruct p as [|c' p'].
  { injection Ep as <- <-. cbn. split_and!; try done; try lia; [by left| |intros x Hx; by apply elem_of_nil in Hx].
    intros [Ex|Hx%elem_of_nil]%elem_of_cons; [by symmetry in Ex|done]. }
  remember (c' :: p') as q. destruct (IH s' r' stk ltac:(by subst) eq_refl) as (_ & Hl & Hlt & Hor & Hs & Hin1 & Hin2).
  assert (Eq : exists t, split q = s' :: t /\ forall k, foldl norm k t = foldl norm k (split r')).
  { clear -Ep. revert s' r' Ep. induction q as [|d q IHq]; intros s' r' Ep; cbn [take_seg split] in *.
    - injection Ep as <- <-. by exists [].
    - destruct (d =? SLASH); [injection Ep as <- <-; by exists (split q)|].
      destruct (take_seg q) as [s2 r2]. injection Ep as <- <-. destruct (IHq s2 r2 eq_refl) as (t & -> & Ht). by exists t. }
  destruct Eq as (t & -> & Ht). cbn [foldl length]. split_and!; try lia.
  - apply Ht.
  - destruct Hor; [by left|right; lia].
  - intros [Ex|Hx]%elem_of_cons; [by symmetry in Ex|]. by apply Hs.
  - intros x [->|Hx]%elem_of_cons; [left|right; auto].
  - intros x Hx. right. auto.
Qed.

Lemma canon_loop_ok fuel : forall p stk, (length p < fuel)%nat ->
  (canon_loop fuel p stk = Some None \/ canon_loop fuel p stk = Some (Some (foldl norm stk (split p)))) /\
  ((2 * length stk + length p <= 254)%nat -> canon_loop fuel p stk = Some (Some (foldl norm stk (split p)))).
Proof.
  induction fuel as [|fuel IH]; intros p stk Hf; [lia|]. cbn [canon_loop]. destruct p as [|c p].
  { cbn [split foldl]. rewrite norm_nil. split; [by right|done]. }
  remember (c :: p) as q. destruct (take_seg q) as [s r] eqn:E.
  destruct (take_seg_split q s r stk ltac:(by subst) E) as (Ef & Hl & Hlt & Hor & Hsl & _).
  rewrite Ef. destruct q as [|c' q']; [done|]. rewrite (norm_eq stk s).
  destruct (bool_decide (s = []) || bool_decide (s = [DOT])) eqn:E1.
  { destruct (IH r stk ltac:(lia)) as [H1 H2]. split; [done|]. intros Hb. apply H2. lia. }
  apply orb_false_iff in E1 as [E1 _]. apply bool_decide_eq_false in E1. assert (0 < length s)%nat by (destruct s; [done|cbn; lia]).
  destruct (bool_decide (s = [DOT; DOT])).
  { destruct (IH r (take (length stk - 1) stk) ltac:(lia)) as [H1 H2]. split; [done|]. intros Hb. apply H2. rewrite length_take. lia. }
  destruct (Nat.leb_spec (VFS_PATH_MAX / 2 - 1) (length stk)) as [Hge|Hlt2].
  { change (VFS_PATH_MAX / 2 - 1)%nat with 127%nat in Hge. split; [by left|]. intros Hb. lia. }
  destruct (IH r (stk ++ [s]) ltac:(lia)) as [H1 H2]. split; [done|]. intros Hb.
  destruct Hor as [->|Hor]; [|apply H2; rewrite length_app; cbn; lia].
  destruct fuel; [cbn in *; lia|]. done.
Qed.

Lemma skip_slashes_split p stk : foldl norm stk (split (skip_slashes p)) = foldl norm stk (split p).
Proof.
  induction p as [|c p IH]; [done|]. cbn [skip_slashes]. destruct (c =? SLASH) eqn:E; [|done].
  rewrite IH. cbn [split]. rewrite E. done.
Qed.

Lemma skip_slashes_len p : (length (skip_slashes p) <= length p)%nat.
Proof. induction p as [|c p IH]; [done|]. cbn [skip_slashes]. destruct (c =? SLASH); cbn [length]; lia. Qed.

(** ** Components *)

Fixpoint tlen (cs : list (list Z)) : nat := match cs with [] => 0%nat | s :: cs' => (length s + 1 + tlen cs')%nat end.

Lemma tlen_app a b : tlen (a ++ b) = (tlen a + tlen b)%nat.
Proof. induction a as [|s a IH]; [done|]. cbn [app tlen]. lia. Qed.

Lemma split_spec p : Forall (fun s => (SLASH ∉ s) /\ forall x, x ∈ s -> x ∈ p) (split p) /\ tlen (split p) = S (length p).
Proof.
  induction p as [|c p [IHf IHl]]; cbn [split].
  { split; [|done]. apply Forall_singleton. split; [apply not_elem_of_nil|]. intros x Hx. by apply elem_of_nil in Hx. }
  assert (Hmono : Forall (fun s => (SLASH ∉ s) /\ forall x, x ∈ s -> x ∈ c :: p) (split p)).
  { eapply Forall_impl; [|exact IHf]. intros s [H1 H2]. split; [done|]. intros x Hx. right. auto. }
  destruct (Z.eqb_spec c SLASH) as [->|Hc].
  - split; [|cbn [tlen length]; lia]. apply list.Forall_cons. split; [|done].
    split; [apply not_elem_of_nil|]. intros x Hx. by apply elem_of_nil in Hx.
  - pose proof (split_ne p). destruct (split p) as [|s r]; [done|]. apply list.Forall_cons in Hmono as [[Hs1 Hs2] Hr].
    split; [|cbn [tlen length] in *; lia]. apply list.Forall_cons. split; [|done]. split.
    + intros [Ex|Hx]%elem_of_cons; [by symmetry in Ex|]. by apply Hs1.
    + intros x [->|Hx]%elem_of_cons; [left|auto].
Qed.

Lemma norm_ok stk s : Forall plain stk -> SLASH ∉ s -> Forall (fun c => c <> 0) s ->
  Forall plain (norm stk s) /\ (tlen (norm stk s) <= tlen stk + (length s + 1))%nat.
Proof.
  intros Hs Hsl Hz. unfold norm. destruct (bool_decide (s = []) || bool_decide (s = [DOT])) eqn:E1; [split; [done|lia]|].
  apply orb_false_iff in E1 as [E1 E2]. apply bool_decide_eq_false in E1, E2.
  destruct (bool_decide (s = [DOT; DOT])) eqn:E3.
  - split; [by apply Forall_take|]. pose proof (tlen_app (take (length stk - 1) stk) (drop (length stk - 1) stk)) as Ht. rewrite take_drop in Ht. lia.
  - apply bool_decide_eq_false in E3. split; [apply Forall_app; split; [done|]; by apply Forall_singleton|].
    rewrite tlen_app. cbn [tlen]. lia.
Qed.

Lemma fold_norm_ok segs : forall stk, Forall plain stk -> Forall (fun s => (SLASH ∉ s) /\ Forall (fun c => c <> 0) s) segs ->
  Forall plain (foldl norm stk segs) /\ (tlen (foldl norm stk segs) <= tlen stk + tlen segs)%nat.
Proof.
  induction segs as [|s segs IH]; intros stk Hs Hf; cbn [foldl tlen]; [split; [done|lia]|].
  apply list.Forall_cons in Hf as [[H1 H2] Hf]. destruct (norm_ok stk s Hs H1 H2) as [Hn Hl].
  destruct (IH _ Hn Hf) as [Hp Ht]. split; [done|]. lia.
Qed.

Lemma canonical_ok p : Forall (fun c => c <> 0) p -> Forall plain (canonical p) /\ (tlen (canonical p) <= S (length p))%nat.
Proof.
  intros Hz. destruct (split_spec p) as [Hf Hl]. destruct (fold_norm_ok (split p) []) as [H1 H2]; [constructor| |].
  - eapply Forall_impl; [|exact Hf]. intros s [Hs Hx]. split; [done|]. apply List.Forall_forall. intros c Hc.
    rewrite List.Forall_forall in Hz. apply Hz, list_elem_of_In, Hx, list_elem_of_In, Hc.
  - split; [done|]. unfold canonical. cbn [tlen] in H2. lia.
Qed.

(** ** Rebuilding *)

Fixpoint tail_text (cs : list (list Z)) : list Z := match cs with [] => [] | s :: cs' => SLASH :: s ++ tail_text cs' end.

Lemma join_tail s cs : join (s :: cs) = s ++ tail_text cs.
Proof. revert s. induction cs as [|t cs IH]; intros s; [cbn; by rewrite app_nil_r|]. cbn [join tail_text]. do 2 f_equal. apply IH. Qed.

Lemma length_tail cs : length (tail_text cs) = tlen cs.
Proof. induction cs as [|s cs IH]; [done|]. cbn [tail_text length tlen]. rewrite length_app, IH. lia. Qed.

Lemma length_render cs : length (render cs) = Nat.max 1 (tlen cs).
Proof. destruct cs as [|s cs]; [done|]. unfold render. rewrite join_tail. cbn [length tlen]. rewrite length_app, length_tail. lia. Qed.

Lemma build_tail n cs : forall out i, (0 < i)%nat ->
  (canon_build n out i cs = None \/ (canon_build n out i cs = Some (out ++ tail_text cs) /\ (cs <> [] -> length (out ++ tail_text cs) < n)%nat)) /\
  ((length out + tlen cs + 1 <= n)%nat -> canon_build n out i cs = Some (out ++ tail_text cs)).
Proof.
  induction cs as [|s cs IH]; intros out i Hi; cbn [canon_build].
  { cbn [tail_text]. rewrite app_nil_r. split; [by right|done]. }
  destruct (Nat.ltb_spec n (length out + length s + 2)) as [Hlt|Hge].
  { split; [by left|]. cbn [tlen]. intros. lia. }
  rewrite (proj2 (Nat.ltb_lt 0 i)) by done. cbn [app].
  destruct (IH (out ++ SLASH :: s) (S i) ltac:(lia)) as [H1 H2].
  assert (E : (out ++ SLASH :: s) ++ tail_text cs = out ++ tail_text (s :: cs)) by (rewrite <- app_assoc; done).
  rewrite E in H1, H2. split.
  - destruct H1 as [?|[H1 H3]]; [by left|]. right. split; [done|]. intros _. destruct cs as [|t cs]; [|by apply H3].
    cbn [tail_text]. rewrite app_nil_r, length_app. cbn [length]. lia.
  - intros Hn. apply H2. cbn [tlen] in Hn. rewrite length_app. cbn [length]. lia.
Qed.

Lemma build_ok n cs : (1 < n)%nat ->
  (canon_build n [SLASH] 0 cs = None \/ (canon_build n [SLASH] 0 cs = Some (render cs) /\ (length (render cs) < n)%nat)) /\
  ((tlen cs + 2 <= n)%nat -> canon_build n [SLASH] 0 cs = Some (render cs)).
Proof.
  intros Hn. destruct cs as [|s cs]; cbn [canon_build].
  { split; [right; split; [done|cbn; lia]|done]. }
  cbn [length]. destruct (Nat.ltb_spec n (1 + length s + 2)) as [Hlt|Hge].
  { split; [by left|]. cbn [tlen]. lia. }
  cbn [Nat.ltb Nat.leb app]. destruct (build_tail n cs (SLASH :: s) 1 ltac:(lia)) as [H1 H2].
  assert (E : (SLASH :: s) ++ tail_text cs = render (s :: cs)) by (unfold render; by rewrite join_tail).
  rewrite E in H1, H2. split.
  - destruct H1 as [?|[H1 H3]]; [by left|]. right. split; [done|]. destruct cs; [|by apply H3].
    rewrite <- E. cbn [tail_text]. rewrite app_nil_r. cbn [length]. lia.
  - intros Hx. apply H2. cbn [tlen length] in *. lia.
Qed.

(** ** Canonical paths are fixed points *)

Lemma split_nosl p : SLASH ∉ p -> split p = [p].
Proof.
  induction p as [|c p IH]; intros H; [done|]. apply not_elem_of_cons in H as [Hc H]. cbn [split].
  rewrite (proj2 (Z.eqb_neq c SLASH)) by done. by rewrite IH.
Qed.

Lemma split_cons s t : SLASH ∉ s -> split (s ++ SLASH :: t) = s :: split t.
Proof.
  induction s as [|c s IH]; intros H; [done|]. apply not_elem_of_cons in H as [Hc H]. cbn [app split].
  rewrite (proj2 (Z.eqb_neq c SLASH)) by done. by rewrite IH.
Qed.

Lemma split_join cs : Forall plain cs -> cs <> [] -> split (join cs) = cs.
Proof.
  induction cs as [|s cs IH]; intros H Hne; [done|]. apply list.Forall_cons in H as [(_ & _ & _ & Hs & _) H].
  destruct cs as [|t cs]; [by apply split_nosl|]. cbn [join]. rewrite split_cons by done. f_equal. by apply IH.
Qed.

Lemma norm_plain cs : forall stk, Forall plain cs -> foldl norm stk cs = stk ++ cs.
Proof.
  induction cs as [|s cs IH]; intros stk H; [by rewrite app_nil_r|]. apply list.Forall_cons in H as [(H1 & H2 & H3 & _) H].
  cbn [foldl]. rewrite IH by done. unfold norm. rewrite !bool_decide_eq_false_2 by done. cbn [orb]. by rewrite <- app_assoc.
Qed.

Lemma canonical_render cs : Forall plain cs -> canonical (render cs) = cs.
Proof.
  intros H. unfold canonical, render. cbn [split]. change (SLASH =? SLASH) with true. cbn iota. cbn [foldl]. rewrite norm_nil.
  destruct cs as [|s cs]; [done|]. by rewrite split_join, norm_plain by done.
Qed.

(** A plain component stays on the stack, so the loop succeeds on them as long
    as they fit. *)
Lemma render_nonzero cs : Forall plain cs -> Forall (fun c => c <> 0) (render cs).
Proof.
  intros H. apply list.Forall_cons. split; [done|]. induction cs as [|s cs IH]; [constructor|].
  apply list.Forall_cons in H as [(_ & _ & _ & _ & Hz) H]. destruct cs as [|t cs]; [done|]. cbn [join].
  apply Forall_app. split; [done|]. apply list.Forall_cons. split; [done|]. by apply IH.
Qed.

Lemma plain_len cs : Forall plain cs -> (2 * length cs <= tlen cs)%nat.
Proof.
  induction cs as [|s cs IH]; intros H; [done|]. apply list.Forall_cons in H as [(Hs & _) H]. specialize (IH H).
  cbn [length tlen]. destruct s; [done|]. cbn [length]. lia.
Qed.

(** ** The theorem *)

Lemma canonicalize_eq p stk : (strlen p < 256)%nat ->
  canon_loop (S (length (cstr p))) (skip_slashes (cstr p)) [] = Some (Some stk) ->
  vfs_canonicalize (Some p) 256 = canon_build 256 [SLASH] 0 stk.
Proof.
  intros Hp E. unfold vfs_canonicalize. cbn [Nat.eqb]. rewrite (proj2 (Nat.leb_gt VFS_PATH_MAX (strlen p))) by exact Hp.
  by rewrite E.
Qed.

Lemma canonicalize_inv p r : vfs_canonicalize (Some p) 256 = Some r ->
  canon_build 256 [SLASH] 0 (canonical (cstr p)) = Some r /\ (strlen p < 256)%nat.
Proof.
  unfold vfs_canonicalize. cbn [Nat.eqb]. destruct (Nat.leb_spec VFS_PATH_MAX (strlen p)) as [|Hp]; [discriminate|].
  pose proof (skip_slashes_len (cstr p)) as Hl.
  destruct (canon_loop_ok (S (length (cstr p))) (skip_slashes (cstr p)) [] ltac:(lia)) as [[E|E] _]; rewrite E; [discriminate|].
  rewrite skip_slashes_split. done.
Qed.

Lemma canonicalize_short p : (strlen p <= 253)%nat -> vfs_canonicalize (Some p) 256 = Some (render (canonical (cstr p))).
Proof.
  intros Hp. pose proof (skip_slashes_len (cstr p)) as Hl. rewrite strlen_cstr in Hp.
  destruct (canon_loop_ok (S (length (cstr p))) (skip_slashes (cstr p)) [] ltac:(lia)) as [_ E].
  rewrite skip_slashes_split in E. rewrite (canonicalize_eq p (canonical (cstr p))).
  - apply build_ok; [lia|]. destruct (canonical_ok (cstr p) (cstr_nonzero p)) as [_ H]. lia.
  - rewrite strlen_cstr. lia.
  - apply E. cbn. lia.
Qed.

Lemma skip_render s cs : plain s -> skip_slashes (render (s :: cs)) = join (s :: cs).
Proof.
  intros (Hne & _ & _ & Hsl & _). unfold render. rewrite join_tail. cbn [skip_slashes]. change (SLASH =? SLASH) with true. cbn iota.
  destruct s as [|c s]; [done|]. apply not_elem_of_cons in Hsl as [Hc _]. cbn [app skip_slashes].
  by rewrite (proj2 (Z.eqb_neq c SLASH)) by done.
Qed.

Lemma canonicalize_again cs : Forall plain cs -> (length (render cs) < 256)%nat ->
  canon_build 256 [SLASH] 0 cs = Some (render cs) -> vfs_canonicalize (Some (render cs)) 256 = Some (render cs).
Proof.
  intros Hp Hl Hb. pose proof (cstr_id _ (render_nonzero cs Hp)) as Ec. transitivity (canon_build 256 [SLASH] 0 cs); [|done]. apply canonicalize_eq; rewrite ?strlen_cstr, Ec; [done|].
  destruct cs as [|s cs]; [done|]. rewrite (list.Forall_cons plain) in Hp. rewrite skip_render by apply Hp.
  assert (length (join (s :: cs)) = length (render (s :: cs)) - 1)%nat by (unfold render; cbn [length]; lia).
  destruct (canon_loop_ok (S (length (render (s :: cs)))) (join (s :: cs)) [] ltac:(lia)) as [_ E].
  rewrite E by (cbn [length]; lia). by rewrite split_join, norm_plain by (try done; by apply list.Forall_cons).
Qed.

(** C20: [vfs_canonicalize] computes the normal form of a path.  Every path of
    at most 253 characters has one: "/" followed by the components of the path
    joined by slashes, where empty components and "." are dropped and ".."
    removes the component before it (and is ignored at the root).  Whatever
    [vfs_canonicalize] returns, also for longer paths, is that normal form: it
    fits a buffer of 256 bytes with its terminator, starts with "/", none of
    its components is empty, "." or "..", and it is a fixed point, so no
    sequence of ".." can name anything above the root of the file system. *)
Theorem vfs_canonicalize_correct (p : list Z) :
  ((strlen p <= 253)%nat -> vfs_canonicalize (Some p) 256 = Some (render (canonical (cstr p)))) /\
  (forall r, vfs_canonicalize (Some p) 256 = Some r ->
    r = render (canonical (cstr p)) /\ Forall plain (canonical (cstr p)) /\ (length r < 256)%nat /\
    vfs_canonicalize (Some r) 256 = Some r).
Proof.
  split; [apply canonicalize_short|]. intros r E. destruct (canonicalize_inv p r E) as [Hb _].
  destruct (canonical_ok (cstr p) (cstr_nonzero p)) as [Hp _].
  destruct (build_ok 256 (canonical (cstr p)) ltac:(lia)) as [[Hn|[Hs Hl]] _]; [by rewrite Hn in Hb|].
  assert (r = render (canonical (cstr p))) as -> by congruence. split_and!; [done..|]. by apply canonicalize_again.
Qed.

Lemma vfs_canonicalize_witness :
  (strlen (str "/a/./b/../c//d") <= 253)%nat /\ vfs_canonicalize (Some (str "/a/./b/../c//d")) 256 = Some (str "/a/c/d") /\
  vfs_canonicalize (Some (str "/a/c/d")) 256 = Some (str "/a/c/d").
Proof.
  assert (H : (strlen (str "/a/./b/../c//d") <= 253)%nat) by (apply Nat.leb_le; vm_compute; reflexivity).
  destruct (vfs_canonicalize_correct (str "/a/./b/../c//d")) as [H1 H2].
  assert (E : vfs_canonicalize (Some (str "/a/./b/../c//d")) 256 = Some (str "/a/c/d")).
  { rewrite (H1 H). vm_compute. reflexivity. }
  split; [exact H|]. split; [exact E|]. apply (H2 _ E).
Defined.

End VfsPath.
