(* ===== verification/VfsRef.v ===== *)
(** * kernel/vfs/vfs.c: reference counts

    Every live node counts the descriptors that name it plus the references
    the kernel holds without a descriptor table (pseudo-descriptors and
    registered rings), through every interleaving of the operations. *)

From S2P Require Import Prelude CString Ringbuf Vfs.
From Stdlib Require Import String ZArith Lia.
From stdpp Require Import base list gmap numbers.
Open Scope Z_scope.

Module VfsRef.
Import CString Vfs.

Section Refs.
Context {W : Type}.
Implicit Types (s : vfs_state W) (K : nat -> nat).

(** The descriptors, of all processes, that name node [i]. *)
Definition refs (m : gmap (nat * nat) nat) (i : nat) : nat := base.size (filter (fun kv => kv.2 = i) m).

Definition kadd K (i : nat) : nat -> nat := fun j => if decide (j = i) then S (K j) else K j.
Definition ksub K (i : nat) : nat -> nat := fun j => if decide (j = i) then pred (K j) else K j.

Definition live s (i : nat) : Prop := node_id (node s i) = Z.of_nat i /\ (i <> 0)%nat /\ (i < MAX_VFSNODES)%nat.

Record ref_inv K s : Prop := {
  ri_fd : forall p fd i, fds s !! (p, fd) = Some i -> (fd < MAX_FDS)%nat /\ live s i;
  ri_kernel : forall i, (0 < K i)%nat -> live s i;
  ri_node : forall i, node_id (node s i) <> 0 ->
    live s i /\ refcount (node s i) = Z.of_nat (refs (fds s) i + K i) /\ 0 < refcount (node s i) < 2 ^ 32 }.

(** ** Counting *)

Lemma refs_insert m k i j : m !! k = None -> refs (<[k := i]> m) j = (refs m j + (if decide (j = i) then 1 else 0))%nat.
Proof.
  intros E. unfold refs. destruct (decide (j = i)) as [->|Hne].
  - rewrite map_filter_insert_True, map_size_insert_None by (try done; rewrite map_lookup_filter_None; by left). lia.
  - rewrite map_filter_insert_not' by (simpl; try congruence; intros y Hy; congruence). lia.
Qed.

Lemma refs_delete m k i j : m !! k = Some i -> refs m j = (refs (delete k m) j + (if decide (j = i) then 1 else 0))%nat.
Proof.
  intros E. rewrite <- (insert_delete_id m k i E) at 1. apply refs_insert, lookup_delete_eq.
Qed.

Lemma refs_size m i : (refs m i <= base.size m)%nat.
Proof. unfold refs. apply map_size_filter. Qed.

Lemma refs_zero m i : refs m i = 0%nat -> forall k, m !! k <> Some i.
Proof. intros E k Hk. rewrite (refs_delete m k i i Hk) in E. destruct (decide (i = i)); [lia|done]. Qed.

(** ** Reading the state after an update *)

Lemma node_set s i n j : node (set_node s i n) j = if decide (j = i) then n else node s j.
Proof.
  unfold node, set_node. cbn [g_nodes]. destruct (decide (j = i)) as [->|Hne].
  - by rewrite lookup_insert_eq.
  - by rewrite lookup_insert_ne.
Qed.

Lemma close_bctx_view s b c : g_nodes (close_bctx s b c) = g_nodes s /\ fds (close_bctx s b c) = fds s.
Proof. unfold close_bctx. destruct b as [i|]; [|done]. by destruct (op_close _). Qed.

(** The invariant reads the descriptors, the ids and the counts. *)
Lemma ref_inv_ext K s s' : fds s' = fds s ->
  (forall i, node_id (node s' i) = node_id (node s i) /\ refcount (node s' i) = refcount (node s i)) ->
  ref_inv K s -> ref_inv K s'.
Proof.
  intros Ef En [H1 H2 H3]. assert (Hl : forall i, live s i -> live s' i).
  { intros i Hi. unfold live in *. by rewrite (proj1 (En i)). }
  constructor.
  - intros p fd i E. rewrite Ef in E. destruct (H1 p fd i E) as [? ?]. split; [done|]. by apply Hl.
  - intros i Hi. by apply Hl, H2.
  - intros i Hi. destruct (En i) as [E1 E2]. rewrite E1 in Hi. rewrite Ef, E2. destruct (H3 i Hi) as (? & ? & ?).
    split; [by apply Hl|done].
Qed.

Lemma ref_inv_K K K' s : (forall i, K i = K' i) -> ref_inv K s -> ref_inv K' s.
Proof.
  intros E [H1 H2 H3]. constructor; [done| |].
  - intros i Hi. apply H2. by rewrite E.
  - intros i Hi. rewrite <- E. by apply H3.
Qed.

(** A node whose [node_id] is 0 is named by nothing. *)
Lemma free_node K s i : ref_inv K s -> node_id (node s i) = 0 -> refs (fds s) i = 0%nat /\ K i = 0%nat.
Proof.
  intros [H1 H2 _] E. split.
  - destruct (decide (refs (fds s) i = 0%nat)) as [|Hne]; [done|exfalso]. unfold refs in Hne.
    apply map_size_ne_0_lookup_1 in Hne as (k & x & Hk). apply map_lookup_filter_Some in Hk as [Hk Hx]. simpl in Hx. subst x.
    destruct k as [p fd]. destruct (H1 _ _ _ Hk) as (_ & Hid & Hi & _). lia.
  - destruct (decide (0 < K i)%nat) as [Hk|]; [|lia]. destruct (H2 i Hk) as (Hid & Hi & _). lia.
Qed.

(** ** One reference more, one reference less

    A descriptor is installed or cleared by moving one reference between the
    kernel's account and the tables. *)

Lemma live_ext s s' i : node_id (node s' i) = node_id (node s i) -> live s i -> live s' i.
Proof. unfold live. by intros ->. Qed.

Lemma inv_set_fd K s p fd i : ref_inv (kadd K i) s -> (fd < MAX_FDS)%nat -> fds s !! (p, fd) = None -> ref_inv K (set_fd s p fd i).
Proof.
  intros [H1 H2 H3] Hfd Hk. assert (Hi : live s i) by (apply H2; unfold kadd; rewrite decide_True by done; lia). constructor.
  - intros p' fd' j. cbn [set_fd fds]. destruct (decide ((p', fd') = (p, fd))) as [[= -> ->]|Hne].
    + rewrite lookup_insert_eq. by intros [= <-].
    + rewrite lookup_insert_ne by done. apply H1.
  - intros j Hj. apply H2. unfold kadd. destruct (decide (j = i)); lia.
  - intros j Hj. destruct (H3 j Hj) as (Hl & Hr & Hp). split; [done|]. split; [|done]. cbn [set_fd fds].
    rewrite refs_insert by done. change (node (set_fd s p fd i) j) with (node s j). rewrite Hr. unfold kadd. destruct (decide (j = i)); lia.
Qed.

Lemma inv_clear_fd K s p fd i : ref_inv K s -> fds s !! (p, fd) = Some i -> ref_inv (kadd K i) (clear_fd s p fd).
Proof.
  intros [H1 H2 H3] Hk. constructor.
  - intros p' fd' j. cbn [clear_fd fds]. intros [_ E]%lookup_delete_Some. by apply H1 in E.
  - intros j Hj. unfold kadd in Hj. destruct (decide (j = i)) as [->|]; [|by apply H2]. by apply (H1 p fd).
  - intros j Hj. destruct (H3 j Hj) as (Hl & Hr & Hp). split; [done|]. split; [|done]. cbn [clear_fd fds].
    change (node (clear_fd s p fd) j) with (node s j). rewrite Hr, (refs_delete _ _ _ j Hk). unfold kadd. destruct (decide (j = i)); lia.
Qed.

Lemma inv_inc K s i : ref_inv K s -> live s i -> Z.of_nat (refs (fds s) i + K i) + 1 < 2 ^ 32 ->
  ref_inv (kadd K i) (set_node s i (set_ref (node s i) (u32 (refcount (node s i) + 1)))).
Proof.
  intros [H1 H2 H3] Hi Hb. destruct (H3 i) as (_ & Hr & Hp); [destruct Hi as (-> & ? & _); lia|].
  rewrite (u32_small (refcount (node s i) + 1)) by lia.
  assert (Hl : forall j, live s j -> live (set_node s i (set_ref (node s i) (refcount (node s i) + 1))) j).
  { intros j. apply live_ext. rewrite node_set. by destruct (decide (j = i)) as [->|]. }
  constructor.
  - intros p fd j E. destruct (H1 p fd j E). split; [done|]. by apply Hl.
  - intros j Hj. apply Hl. unfold kadd in Hj. destruct (decide (j = i)) as [->|]; [done|]. by apply H2.
  - intros j. rewrite node_set. cbn [set_node fds]. unfold kadd. destruct (decide (j = i)) as [->|Hne]; intros Hj.
    + split; [by apply Hl|]. cbn [set_ref refcount]. lia.
    + destruct (H3 j Hj) as (? & ? & ?). split; [by apply Hl|done].
Qed.

(** The invariant does not mention what [close_bctx] changes. *)
Lemma inv_close_bctx K s b c : ref_inv K s -> ref_inv K (close_bctx s b c).
Proof.
  destruct (close_bctx_view s b c) as [En Ef]. apply ref_inv_ext; [done|]. intros i. unfold node. by rewrite En.
Qed.

(** Removing a node nothing else names. *)
Lemma inv_free K K' s i n : ref_inv K s -> refs (fds s) i = 0%nat -> node_id n = 0 -> K' i = 0%nat ->
  (forall j, j <> i -> K' j = K j) -> ref_inv K' (set_node s i n).
Proof.
  intros [H1 H2 H3] Hr0 Hn Hi HK.
  assert (Hl : forall j, j <> i -> live s j -> live (set_node s i n) j).
  { intros j Hj. apply live_ext. by rewrite node_set, decide_False. }
  constructor.
  - intros p fd j E. destruct (H1 p fd j E) as [Hf Hlj]. split; [done|]. apply Hl; [|done].
    intros ->. by apply (refs_zero _ _ Hr0 (p, fd)).
  - intros j Hj. destruct (decide (j = i)) as [->|Hne]; [lia|]. apply Hl; [done|]. apply H2. by rewrite <- HK.
  - intros j. rewrite node_set. destruct (decide (j = i)) as [->|Hne]; [by rewrite Hn|]. intros Hj.
    destruct (H3 j Hj) as (? & ? & ?). cbn [set_node fds]. rewrite HK by done. split; [by apply Hl|done].
Qed.

Lemma inv_drop K s i : ref_inv K s -> (0 < K i)%nat -> ref_inv (ksub K i) (drop_ref s i).
Proof.
  intros Hinv Hk. pose proof Hinv as [H1 H2 H3]. pose proof (H2 i Hk) as Hi. destruct (H3 i) as (_ & Hr & Hp); [destruct Hi as (-> & ? & _); lia|].
  unfold drop_ref. rewrite u32_small by lia. destruct (Z.eqb_spec (refcount (node s i) - 1) 0) as [E|E].
  - set (s1 := close_bctx _ _ _). destruct (close_bctx_view (set_node s i (set_ref (node s i) (refcount (node s i) - 1))) (backend (node s i)) (bctx (node s i))) as [En Ef].
    fold s1 in En, Ef. clearbody s1. apply (ref_inv_ext _ (set_node s i (set_id (node s1 i) 0))).
    + exact Ef.
    + intros j. rewrite !node_set. destruct (decide (j = i)) as [->|Hne]; [done|]. unfold node. rewrite En. cbn [set_node g_nodes].
      by rewrite lookup_insert_ne.
    + apply inv_free with (K := K); [done|lia|done| |].
      * unfold ksub. rewrite decide_True by done. lia.
      * intros j Hj. unfold ksub. by rewrite decide_False.
  - assert (Hl : forall j, live s j -> live (set_node s i (set_ref (node s i) (refcount (node s i) - 1))) j).
    { intros j. apply live_ext. rewrite node_set. by destruct (decide (j = i)) as [->|]. }
    constructor.
    + intros p fd j E'. destruct (H1 p fd j E'). split; [done|]. by apply Hl.
    + intros j Hj. apply Hl. unfold ksub in Hj. apply H2. destruct (decide (j = i)) as [->|]; lia.
    + intros j. rewrite node_set. cbn [set_node fds]. unfold ksub. destruct (decide (j = i)) as [->|Hne]; intros Hj.
      * split; [by apply Hl|]. cbn [set_ref refcount]. lia.
      * destruct (H3 j Hj) as (? & ? & ?). split; [by apply Hl|done].
Qed.

Lemma inv_new K s i n : ref_inv K s -> node_id (node s i) = 0 -> (i <> 0)%nat -> (i < MAX_VFSNODES)%nat ->
  node_id n = Z.of_nat i -> refcount n = 1 -> ref_inv (kadd K i) (set_node s i n).
Proof.
  intros Hinv E Hi Hm Hn Hr. destruct (free_node K s i Hinv E) as [Hr0 HK0]. destruct Hinv as [H1 H2 H3].
  assert (Hl : forall j, live s j \/ j = i -> live (set_node s i n) j).
  { intros j Hj. unfold live. rewrite node_set. destruct (decide (j = i)) as [->|]; [done|]. by destruct Hj. }
  constructor.
  - intros p fd j Ej. destruct (H1 p fd j Ej). split; [done|]. apply Hl. by left.
  - intros j Hj. apply Hl. unfold kadd in Hj. destruct (decide (j = i)) as [->|]; [by right|]. left. by apply H2.
  - intros j. rewrite node_set. cbn [set_node fds]. unfold kadd. destruct (decide (j = i)) as [->|Hne]; intros Hj.
    + split; [apply Hl; by right|]. lia.
    + destruct (H3 j Hj) as (? & ? & ?). split; [apply Hl; by left|done].
Qed.

Lemma kadd_ksub K i j : ksub (kadd K i) i j = K j.
Proof. unfold ksub, kadd. by destruct (decide (j = i)). Qed.

(** Releasing a descriptor. *)
Lemma inv_release K s p fd i : ref_inv K s -> fds s !! (p, fd) = Some i -> ref_inv K (drop_ref (clear_fd s p fd) i).
Proof.
  intros H E. apply (ref_inv_K (ksub (kadd K i) i)); [apply kadd_ksub|]. apply inv_drop; [by apply inv_clear_fd|].
  unfold kadd. rewrite decide_True by done. lia.
Qed.

(** Installing a descriptor for a live node. *)
Lemma inv_install K s p fd i : ref_inv K s -> live s i -> (fd < MAX_FDS)%nat -> fds s !! (p, fd) = None ->
  Z.of_nat (refs (fds s) i + K i) + 1 < 2 ^ 32 ->
  ref_inv K (set_node (set_fd s p fd i) i (set_ref (node s i) (u32 (refcount (node s i) + 1)))).
Proof.
  intros H Hi Hfd E Hb. apply (inv_set_fd K (set_node s i (set_ref (node s i) (u32 (refcount (node s i) + 1)))) p fd i); [by apply inv_inc|done..].
Qed.

(** ** Allocation of ids and descriptors *)

Lemma alloc_scan_spec s id n : forall i c, alloc_scan s id i n = Some c -> (c <> 0)%nat /\ (c < MAX_VFSNODES)%nat /\ node_id (node s c) = 0.
Proof.
  induction n as [|n IH]; intros i c; cbn [alloc_scan]; [done|]. set (d := ((id + i) mod MAX_VFSNODES)%nat).
  assert (d < MAX_VFSNODES)%nat by (apply Nat.mod_upper_bound; discriminate). clearbody d.
  destruct (Nat.eqb_spec d 0); [apply IH|]. destruct (Z.eqb_spec (node_id (node s d)) 0); [|apply IH]. intros E. by injection E as <-.
Qed.

Lemma alloc_node_id_spec s c s' : alloc_node_id s = (c, s') ->
  g_nodes s' = g_nodes s /\ fds s' = fds s /\ g_backends s' = g_backends s /\ fs s' = fs s /\
  (c = 0%nat \/ ((c <> 0)%nat /\ (c < MAX_VFSNODES)%nat /\ node_id (node s c) = 0)).
Proof.
  unfold alloc_node_id. destruct (alloc_scan s _ 0 MAX_VFSNODES) as [d|] eqn:E; intros H; injection H as <- <-.
  - split_and!; try done. right. by apply alloc_scan_spec in E.
  - split_and!; try done. by left.
Qed.

Lemma inv_alloc K s c s' : alloc_node_id s = (c, s') -> ref_inv K s -> ref_inv K s'.
Proof.
  intros (En & Ef & _)%alloc_node_id_spec. apply ref_inv_ext; [done|]. intros i. unfold node. by rewrite En.
Qed.

Lemma free_fd_spec s p n : forall i j, free_fd s p i n = Some j -> (i <= j < i + n)%nat /\ fds s !! (p, j) = None.
Proof.
  induction n as [|n IH]; intros i j; cbn [free_fd]; [done|]. destruct (fds s !! (p, i)) eqn:E.
  - intros H%IH. destruct H. split; [lia|done].
  - intros H. injection H as <-. split; [lia|done].
Qed.

Lemma ref_inv_fs K s w : ref_inv K s -> ref_inv K (set_fs s w).
Proof. by apply ref_inv_ext. Qed.

(** ** The operations *)

(** A reference counts for the kernel when [vfs_open] returns a pseudo-fd. *)
Definition open_K K (caller : option nat) (r : Z) : nat -> nat :=
  match caller with
  | None => if r <? 2 ^ 31 then kadd K (Z.to_nat r - MAX_FDS) else K
  | Some _ => K
  end.

Lemma open_K_err K caller e : 0 < e < 2 ^ 31 -> open_K K caller (u32 (- e)) = K.
Proof.
  intros He. unfold open_K. destruct caller; [done|]. assert (E : u32 (- e) = 2 ^ 32 - e).
  { rewrite <- (Z_mod_plus_full (- e) 1 (2 ^ 32)), Z.mod_small; lia. }
  rewrite E. destruct (Z.ltb_spec (2 ^ 32 - e) (2 ^ 31)); [lia|done].
Qed.

Lemma inv_resize K s i z : ref_inv K s -> ref_inv K (set_node s i (set_size (node s i) z)).
Proof. apply ref_inv_ext; [done|]. intros j. rewrite node_set. by destruct (decide (j = i)) as [->|]. Qed.

Lemma inv_move K s i z : ref_inv K s -> ref_inv K (set_node s i (set_offset (node s i) z)).
Proof. apply ref_inv_ext; [done|]. intros j. rewrite node_set. by destruct (decide (j = i)) as [->|]. Qed.

(** The end of [vfs_open]: the new node is in place. *)
Lemma inv_open_end K s nid b c caller r s' : ref_inv (kadd K nid) s -> K nid = 0%nat -> (nid <> 0)%nat ->
  match caller with
  | None => (u32 (Z.of_nat (nid + MAX_FDS)), s)
  | Some pid =>
      match free_fd s pid 3 (MAX_FDS - 3) with
      | Some i => (Z.of_nat i, set_fd s pid i nid)
      | None => (u32 VFS_EMFILE, close_bctx (set_node s nid (set_id (node s nid) 0)) (Some b) c)
      end
  end = (r, s') -> refs (fds s) nid = 0%nat -> ref_inv (open_K K caller r) s'.
Proof.
  intros H HK Hn E Hr. destruct caller as [pid|].
  - destruct (free_fd s pid 3 (MAX_FDS - 3)) as [i|] eqn:Ei; injection E as <- <-; cbn [open_K].
    + apply free_fd_spec in Ei as [Hb Hk]. apply inv_set_fd; [done| |done]. unfold MAX_FDS in *. lia.
    + apply (inv_close_bctx K (set_node s nid (set_id (node s nid) 0)) (Some b) c). apply inv_free with (K := kadd K nid); [done..|]. intros j Hj. unfold kadd. by rewrite decide_False.
  - injection E as <- <-. assert (Hl : live s nid) by (destruct H as [_ H _]; apply H; unfold kadd; rewrite decide_True by done; lia).
    destruct Hl as (_ & _ & Hm). unfold MAX_VFSNODES in Hm. unfold open_K. rewrite u32_small by (unfold MAX_FDS; lia).
    destruct (Z.ltb_spec (Z.of_nat (nid + MAX_FDS)) (2 ^ 31)) as [_|Hge]; [|unfold MAX_FDS in Hge; lia].
    by rewrite Nat2Z.id, Nat.add_sub.
Qed.

Lemma inv_open K s p fl caller r s' : ref_inv K s -> vfs_open s p fl caller = (r, s') -> ref_inv (open_K K caller r) s'.
Proof.
  intros H E. unfold vfs_open in E.
  assert (Herr : forall e s1, 0 < e < 2 ^ 31 -> (u32 (- e), s1) = (r, s') -> ref_inv K s1 -> ref_inv (open_K K caller r) s').
  { intros e s1 He E1 H1. injection E1 as <- <-. by rewrite open_K_err. }
  destruct p as [p|]; [|by apply (Herr 3 s)].
  destruct (negb (truthy (hd 0 p))); [by apply (Herr 3 s)|].
  destruct (vfs_canonicalize (Some p) VFS_PATH_MAX) as [q|]; [|by apply (Herr 3 s)].
  destruct (find_backend s q) as [[b rel]|]; [|by apply (Herr 2 s)].
  destruct (match op_open (ops (be_at s b)) with Some f => _ | None => _ end) as [c s1] eqn:E1.
  assert (H1 : ref_inv K s1).
  { destruct (op_open (ops (be_at s b))) as [f|]; [|by injection E1 as <- <-]. destruct (f _ _ _ _) as [c1 w]. injection E1 as <- <-. by apply ref_inv_fs. }
  clear E1. destruct (c =? 0); [by apply (Herr 2 s1)|].
  destruct (alloc_node_id s1) as [nid s2] eqn:Ea. pose proof (inv_alloc K _ _ _ Ea H1) as H2.
  apply alloc_node_id_spec in Ea as (En & Ef & _ & _ & Hid).
  destruct (Nat.eqb_spec nid 0) as [|Hn0]; [by apply (Herr 9 (close_bctx s2 (Some b) c)); [|done|apply inv_close_bctx]|].
  destruct Hid as [|(_ & Hm & Hid)]; [done|].
  assert (Hid2 : node_id (node s2 nid) = 0) by (unfold node in *; by rewrite En). clear Hid.
  destruct (free_node K s2 nid H2 Hid2) as [Hr0 HK0].
  set (n := mkNode _ _ _ _ _ _ _ _ _ _ _) in E.
  assert (H3 : ref_inv (kadd K nid) (set_node s2 nid n)) by (by apply inv_new).
  set (s3 := match op_stat _ with Some f => _ | None => _ end) in E.
  assert (H4 : ref_inv (kadd K nid) s3 /\ fds s3 = fds s2).
  { unfold s3. destruct (op_stat _) as [f|]; [|done]. destruct (f _ _ _ _) as [[rc info] w]. destruct (rc =? 0); [|split; [by apply ref_inv_fs|done]].
    split; [|done]. apply (ref_inv_ext _ (set_node s2 nid n)); [done| |done]. intros j. rewrite !node_set.
    destruct (decide (j = nid)) as [->|]; [done|]. change (node (set_fs (set_node s2 nid n) w) j) with (node (set_node s2 nid n) j).
    by rewrite node_set, decide_False. }
  clearbody s3. destruct H4 as [H4 Ef4]. apply (inv_open_end K s3 nid b c caller r s'); try done. by rewrite Ef4.
Qed.

Lemma drop_ref_fds s i : fds (drop_ref s i) = fds s.
Proof. unfold drop_ref. destruct (_ =? 0); [|done]. cbn [set_node fds]. by rewrite (proj2 (close_bctx_view _ _ _)). Qed.

Lemma inv_close K s pid fd r s' : ref_inv K s -> (fd < MAX_FDS)%nat -> vfs_close s (Some pid) fd = (r, s') -> ref_inv K s'.
Proof.
  intros H Hfd E. unfold vfs_close, fd_node in E. rewrite (proj2 (Nat.leb_gt MAX_FDS fd)) in E by done.
  destruct (fd <=? 2)%nat; [by injection E as <- <-|]. destruct (fds s !! (pid, fd)) as [i|] eqn:Ei; [|by injection E as <- <-].
  injection E as <- <-. by apply inv_release.
Qed.

Lemma inv_close_pseudo K s cur nid r s' : ref_inv K s -> (0 < K nid)%nat ->
  vfs_close s cur (nid + MAX_FDS) = (r, s') -> r = 0 /\ ref_inv (ksub K nid) s'.
Proof.
  intros H Hk E. pose proof (ri_kernel _ _ H nid Hk) as (Hid & Hn & Hm). unfold vfs_close, fd_node in E.
  rewrite (proj2 (Nat.leb_le MAX_FDS (nid + MAX_FDS))) in E by lia. rewrite Nat.add_sub, Hid, Z.eqb_refl in E.
  rewrite (proj2 (Nat.leb_gt MAX_VFSNODES nid)) in E by done. rewrite (proj2 (Nat.leb_gt (nid + MAX_FDS) 2)) in E by (unfold MAX_FDS; lia).
  cbn [orb negb] in E. destruct cur; injection E as <- <-; (split; [done|]); by apply inv_drop.
Qed.

Lemma inv_close_fds K pid n : forall i s, ref_inv K s -> ref_inv K (close_fds s pid i n).
Proof.
  induction n as [|n IH]; intros i s H; [done|]. cbn [close_fds]. destruct (fds s !! (pid, i)) as [k|] eqn:E; [|by apply IH].
  apply IH. by apply inv_release.
Qed.

(** The descriptors [i .. i+n-1] of [pid] are empty afterwards. *)
Lemma close_fds_fds pid n : forall i s,
  (forall q j, fds (close_fds s pid i n) !! (q, j) = if decide (q = pid /\ i <= j < i + n)%nat then None else fds s !! (q, j)).
Proof.
  induction n as [|n IH]; intros i s q j; cbn [close_fds]; [rewrite decide_False by lia; done|].
  destruct (fds s !! (pid, i)) as [k|] eqn:E; rewrite IH; clear IH.
  - rewrite drop_ref_fds. cbn [clear_fd fds]. destruct (decide (q = pid /\ S i <= j < S i + n)%nat); [by rewrite decide_True by lia|].
    destruct (decide (q = pid /\ j = i)) as [[-> ->]|Hne].
    + rewrite decide_True by lia. apply lookup_delete_eq.
    + rewrite decide_False by lia. apply lookup_delete_ne. intros [= <- <-]. lia.
  - destruct (decide (q = pid /\ S i <= j < S i + n)%nat); [by rewrite decide_True by lia|].
    destruct (decide (q = pid /\ j = i)) as [[-> ->]|Hne]; [by rewrite decide_True by lia|]. by rewrite decide_False by lia.
Qed.

(** No count reaches the width of [refcount] when every descriptor of one more
    process is added. *)
Definition room K s : Prop := forall i, Z.of_nat (refs (fds s) i + K i + MAX_FDS) < 2 ^ 32.

Lemma inv_dup2 K s pid oldfd newfd r s' : ref_inv K s -> room K s -> oldfd <> newfd ->
  vfs_dup2 s (Some pid) oldfd newfd = (r, s') -> ref_inv K s'.
Proof.
  intros H Hroom Hne E. unfold vfs_dup2 in E. destruct (Nat.leb_spec MAX_FDS newfd) as [|Hn]; [by injection E as <- <-|].
  destruct (oldfd <? MAX_FDS)%nat; [|by injection E as <- <-]. destruct (fds s !! (pid, oldfd)) as [i|] eqn:Eo; [|by injection E as <- <-].
  set (s1 := match fds s !! (pid, newfd) with Some k => _ | None => _ end) in E.
  assert (H1 : ref_inv K s1 /\ fds s1 = delete (pid, newfd) (fds s)).
  { unfold s1. destruct (fds s !! (pid, newfd)) as [k|] eqn:En.
    - split; [by apply inv_release|]. by rewrite drop_ref_fds.
    - split; [done|]. by rewrite delete_id. }
  clearbody s1. destruct H1 as [H1 Ef]. injection E as <- <-. apply (inv_install K s1 pid newfd i); try done.
  - apply (ri_fd _ _ H1 pid oldfd). rewrite Ef, lookup_delete_ne by congruence. done.
  - rewrite Ef. apply lookup_delete_eq.
  - specialize (Hroom i). enough (refs (fds s1) i <= refs (fds s) i)%nat by (unfold MAX_FDS in Hroom; lia). rewrite Ef.
    destruct (fds s !! (pid, newfd)) as [k|] eqn:En; [|by rewrite delete_id]. rewrite (refs_delete (fds s) _ k i En). lia.
Qed.

Lemma inv_inherit K child parent n : forall i s, ref_inv K s -> child <> parent -> (i + n <= MAX_FDS)%nat ->
  (forall j, (i <= j)%nat -> fds s !! (child, j) = None) -> (forall k, Z.of_nat (refs (fds s) k + K k + n) < 2 ^ 32) ->
  ref_inv K (inherit_fds s child parent i n).
Proof.
  induction n as [|n IH]; intros i s H Hne Hi Hc Hb; [done|]. cbn [inherit_fds]. destruct (fds s !! (parent, i)) as [k|] eqn:E.
  - apply IH; try done; [|lia| |].
    + apply (inv_install K s child i k); [done| |lia|by apply Hc|specialize (Hb k); lia]. by apply (ri_fd _ _ H parent i).
    + intros j Hj. cbn [set_node set_fd fds]. rewrite lookup_insert_ne by (intros [= ->]; lia). apply Hc. lia.
    + intros j. cbn [set_node set_fd fds]. rewrite refs_insert by (by apply Hc). specialize (Hb j). destruct (decide (j = k)); lia.
  - apply IH; try done; [lia| |].
    + intros j Hj. apply Hc. lia.
    + intros j. specialize (Hb j). lia.
Qed.

(** ** Pipes: two different free ids give two different nodes *)

Lemma alloc_scan_first s id n : forall i c k, alloc_scan s id i n = Some c -> (i <= k < i + n)%nat ->
  ((id + k) mod MAX_VFSNODES <> 0)%nat -> node_id (node s ((id + k) mod MAX_VFSNODES)%nat) = 0 ->
  exists d, (i <= d <= k)%nat /\ c = ((id + d) mod MAX_VFSNODES)%nat.
Proof.
  induction n as [|n IH]; intros i c k E Hk Hne H0; [lia|]. cbn [alloc_scan] in E.
  set (m := ((id + i) mod MAX_VFSNODES)%nat) in E.
  assert (Hgo : i <> k -> alloc_scan s id (S i) n = Some c -> exists d, (i <= d <= k)%nat /\ c = ((id + d) mod MAX_VFSNODES)%nat).
  { intros Hik E'. destruct (IH (S i) c k E' ltac:(lia) Hne H0) as (d & ? & ?). exists d. split; [lia|done]. }
  destruct (Nat.eqb_spec m 0) as [Hm|Hm]; [apply Hgo; [by intros ->|done]|].
  destruct (Z.eqb_spec (node_id (node s m)) 0) as [Hz|Hz]; [|apply Hgo; [by intros ->|done]].
  injection E as <-. exists i. split; [lia|done].
Qed.

(** The id the next scan starts from, and where an id [j] lies on its way. *)
Lemma next_id N rid : (rid < N)%nat ->
  let k := ((rid + 1) mod N)%nat in let id := if (k =? 0)%nat then 1%nat else k in id = S rid \/ (id = 1 /\ S rid = N)%nat.
Proof.
  intros Hr. cbv zeta. destruct (decide (S rid = N)%nat) as [<-|Hne].
  - right. rewrite Nat.add_1_r, Nat.Div0.mod_same. done.
  - left. rewrite Nat.mod_small by lia. rewrite (proj2 (Nat.eqb_neq (rid + 1) 0)) by lia. lia.
Qed.

Lemma cyclic_before N id rid j : id = S rid \/ (id = 1 /\ S rid = N)%nat -> (rid < N)%nat -> (j < N)%nat -> j <> rid -> (j <> 0)%nat ->
  exists k, (k < N)%nat /\ j = ((id + k) mod N)%nat /\ (forall d, (d <= k)%nat -> ((id + d) mod N)%nat <> rid).
Proof.
  intros Hid Hr Hj Hne H0.
  assert (Hmod : forall a, (N <= a < 2 * N)%nat -> (a mod N = a - N)%nat).
  { intros a Ha. replace a with (a - N + 1 * N)%nat at 1 by lia. rewrite Nat.Div0.mod_add, Nat.mod_small; lia. }
  destruct Hid as [->|[-> Hs]].
  - destruct (decide (rid < j)%nat).
    + exists (j - S rid)%nat. split; [lia|]. split; [rewrite Nat.mod_small; lia|]. intros d Hd. rewrite Nat.mod_small; lia.
    + exists (j + N - S rid)%nat. split; [lia|]. split; [rewrite Hmod; lia|].
      intros d Hd. destruct (decide (S rid + d < N)%nat); [rewrite Nat.mod_small by lia|rewrite Hmod by lia]; lia.
  - exists (j - 1)%nat. split; [lia|]. split; [rewrite Nat.mod_small; lia|]. intros d Hd. rewrite Nat.mod_small; lia.
Qed.

Lemma alloc_next s c s' : alloc_node_id s = (c, s') -> (c <> 0)%nat ->
  g_next_node_id s' = (let k := ((c + 1) mod MAX_VFSNODES)%nat in if (k =? 0)%nat then 1%nat else k).
Proof.
  unfold alloc_node_id. destruct (alloc_scan s (g_next_node_id s) 0 MAX_VFSNODES) as [d|]; intros [<- <-]%pair_eq Hc; done.
Qed.

Lemma alloc_found s c s' : alloc_node_id s = (c, s') -> (c <> 0)%nat -> alloc_scan s (g_next_node_id s) 0 MAX_VFSNODES = Some c.
Proof.
  unfold alloc_node_id. destruct (alloc_scan s (g_next_node_id s) 0 MAX_VFSNODES) as [e|]; intros [<- _]%pair_eq Hc; [exact eq_refl|by destruct Hc].
Qed.

Lemma alloc_first s c s' k : alloc_node_id s = (c, s') -> (c <> 0)%nat -> (k < MAX_VFSNODES)%nat ->
  ((g_next_node_id s + k) mod MAX_VFSNODES <> 0)%nat -> node_id (node s ((g_next_node_id s + k) mod MAX_VFSNODES)%nat) = 0 ->
  exists d, (d <= k)%nat /\ c = ((g_next_node_id s + d) mod MAX_VFSNODES)%nat.
Proof.
  intros E Hc Hk H1 H2. pose proof (alloc_found s c s' E Hc) as Es. clear E.
  revert Hk H1 H2 Es. generalize MAX_VFSNODES at 1 4. intros n Hk H1 H2 Es.
  destruct (alloc_scan_first s _ _ _ _ k Es) as (d & Hd & Ed); [lia|exact H1|exact H2|]. exists d. split; [lia|exact Ed].
Qed.

Lemma alloc_other s rid s1 wid s2 j : alloc_node_id s = (rid, s1) -> (rid <> 0)%nat -> alloc_node_id s1 = (wid, s2) -> (wid <> 0)%nat ->
  (j <> rid)%nat -> (j <> 0)%nat -> (j < MAX_VFSNODES)%nat -> node_id (node s j) = 0 -> wid <> rid.
Proof.
  intros E1 Hr E2 Hw Hj Hj0 Hjm Hfree Heq. pose proof (alloc_next _ _ _ E1 Hr) as En.
  destruct (alloc_node_id_spec _ _ _ E1) as (Eg & _ & _ & _ & [?|(_ & Hrm & _)]); [done|].
  pose proof (next_id MAX_VFSNODES rid Hrm) as Hid. cbv zeta in Hid, En. rewrite <- En in Hid.
  destruct (cyclic_before _ _ _ j Hid Hrm Hjm Hj Hj0) as (k & Hk & Ej & Hd).
  destruct (alloc_first s1 wid s2 k E2 Hw Hk) as (d & Hdk & Ew); [by rewrite <- Ej|rewrite <- Ej; unfold node; by rewrite Eg|].
  apply (Hd d Hdk). congruence.
Qed.

Lemma kadd_comm K i j k : kadd (kadd K i) j k = kadd (kadd K j) i k.
Proof. unfold kadd. destruct (decide (k = i)), (decide (k = j)); done. Qed.

Lemma kadd_other K i j : i <> j -> kadd K i j = K j.
Proof. intros H. unfold kadd. by rewrite decide_False. Qed.

(** Both ends in place. *)
Lemma inv_two K s rid wid nr nw : ref_inv K s -> rid <> wid -> (rid <> 0)%nat -> (wid <> 0)%nat ->
  (rid < MAX_VFSNODES)%nat -> (wid < MAX_VFSNODES)%nat -> node_id (node s rid) = 0 -> node_id (node s wid) = 0 ->
  node_id nr = Z.of_nat rid -> refcount nr = 1 -> node_id nw = Z.of_nat wid -> refcount nw = 1 ->
  ref_inv (kadd (kadd K wid) rid) (set_node (set_node (set_node (set_node s rid node0) wid node0) rid nr) wid nw).
Proof.
  intros H Hne Hr Hw Hrm Hwm Er Ew Hnr Hrr Hnw Hrw. apply (ref_inv_K (kadd (kadd K rid) wid)); [apply kadd_comm|].
  apply (ref_inv_ext _ (set_node (set_node s rid nr) wid nw)); [done| |].
  - intros j. rewrite !node_set. destruct (decide (j = wid)); [done|]. by destruct (decide (j = rid)).
  - apply inv_new; [by apply inv_new|..]; try done. rewrite node_set, decide_False by done. done.
Qed.

Lemma inv_pipe K s pid area r o s' j1 j2 : ref_inv K s ->
  j1 <> j2 -> (j1 <> 0)%nat -> (j2 <> 0)%nat -> (j1 < MAX_VFSNODES)%nat -> (j2 < MAX_VFSNODES)%nat ->
  node_id (node s j1) = 0 -> node_id (node s j2) = 0 ->
  vfs_pipe s (Some pid) area = (r, o, s') -> ref_inv K s'.
Proof.
  intros H Hj H1 H2 Hm1 Hm2 E1 E2. unfold vfs_pipe. destruct area as [[a mem]|]; [|by intros [_ <-]%pair_eq].
  destruct (alloc_node_id s) as [rid s1] eqn:Ea1. destruct (Nat.eqb_spec rid 0) as [Hr|Hr]; cbn [orb].
  { intros [_ <-]%pair_eq. by apply (inv_alloc K s rid). }
  destruct (alloc_node_id s1) as [wid s2] eqn:Ea2. pose proof (inv_alloc K _ _ _ Ea2 (inv_alloc K _ _ _ Ea1 H)) as Hs2.
  destruct (Nat.eqb_spec wid 0) as [Hw|Hw]; [by intros [_ <-]%pair_eq|].
  assert (Hne : wid <> rid).
  { destruct (decide (j1 = rid)) as [->|]; [apply (alloc_other _ _ _ _ _ j2 Ea1 Hr Ea2)|apply (alloc_other _ _ _ _ _ j1 Ea1 Hr Ea2)]; done. }
  destruct (alloc_node_id_spec _ _ _ Ea1) as (Eg1 & _ & _ & _ & [?|(_ & Hrm & Hrid)]); [done|].
  destruct (alloc_node_id_spec _ _ _ Ea2) as (Eg2 & _ & _ & _ & [?|(_ & Hwm & Hwid)]); [done|].
  assert (Hrid2 : node_id (node s2 rid) = 0) by (unfold node in *; by rewrite Eg2, Eg1).
  assert (Hwid2 : node_id (node s2 wid) = 0) by (unfold node in *; by rewrite Eg2).
  set (nr := mkNode (Z.of_nat rid) _ _ _ _ _ _ _ _ _ _). set (nw := mkNode (Z.of_nat wid) _ _ _ _ _ _ _ _ _ _).
  pose proof (inv_two K s2 rid wid nr nw Hs2 (not_eq_sym Hne) Hr Hw Hrm Hwm Hrid2 Hwid2 eq_refl eq_refl eq_refl eq_refl) as H3.
  destruct (free_node K s2 rid Hs2 Hrid2) as [Hfr HKr]. destruct (free_node K s2 wid Hs2 Hwid2) as [Hfw HKw].
  set (s3 := set_node _ wid nw) in *. assert (Ef3 : fds s3 = fds s2) by done. clearbody s3.
  assert (Hfail : ref_inv K (set_node (set_node s3 rid (set_id (node s3 rid) 0)) wid (set_id (node (set_node s3 rid (set_id (node s3 rid) 0)) wid) 0))).
  { apply inv_free with (K := kadd K wid); [|cbn [set_node fds]; by rewrite Ef3|done|done|intros k Hk; by rewrite kadd_other].
    apply inv_free with (K := kadd (kadd K wid) rid); [done|by rewrite Ef3|done|by rewrite kadd_other|].
    intros k Hk. symmetry. apply kadd_other. congruence. }
  unfold two_fds. destruct (free_fd s3 pid 3 (MAX_FDS - 3)) as [rf|] eqn:E3; [|by intros [_ <-]%pair_eq].
  destruct (free_fd s3 pid (S rf) (MAX_FDS - S rf)) as [wf|] eqn:E4; [|by intros [_ <-]%pair_eq].
  apply free_fd_spec in E3 as [Hb3 Hn3], E4 as [Hb4 Hn4]. intros [_ <-]%pair_eq.
  apply (ref_inv_ext _ (set_fd (set_fd s3 pid rf rid) pid wf wid)); [done..|]. unfold MAX_FDS in *.
  apply inv_set_fd; [apply inv_set_fd; [done|unfold MAX_FDS; lia|done]|unfold MAX_FDS; lia|].
  cbn [set_fd fds]. rewrite lookup_insert_ne by (intros [= ?]; lia). done.
Qed.

End Refs.
End VfsRef.
