(* ===== verification/VfsStep.v ===== *)
(** * kernel/vfs/vfs.c: every sequence of operations

    The operations as a step relation on the state together with the kernel's
    own references, the reference-count invariant by induction on the steps,
    and what closing a descriptor does. *)

From S2P Require Import Prelude CString Ringbuf Vfs VfsRef.
From Stdlib Require Import String ZArith Lia.
From stdpp Require Import base list gmap numbers.
Open Scope Z_scope.

Module VfsStep.
Import CString Vfs VfsRef.

Section Steps.
Context {W : Type} (port_send : vfs_state W -> Z -> list Z -> Z * vfs_state W).
Implicit Types (s : vfs_state W) (K : nat -> nat).

(** Ports have no access to nodes and descriptors. *)
Definition port_send_frame : Prop := forall s id b,
  g_nodes (port_send s id b).2 = g_nodes s /\ fds (port_send s id b).2 = fds s.

Definition no_refs : nat -> nat := fun _ => 0%nat.

Inductive vstep : (nat -> nat) * vfs_state W -> (nat -> nat) * vfs_state W -> Prop :=
| st_mount K s m o c r s' : vfs_mount s m o c = (r, s') -> vstep (K, s) (K, s')
| st_open K s p fl caller r s' : vfs_open s p fl caller = (r, s') -> vstep (K, s) (open_K K caller r, s')
| st_close K s pid fd r s' : (fd < MAX_FDS)%nat -> vfs_close s (Some pid) fd = (r, s') -> vstep (K, s) (K, s')
| st_close_kernel K s cur nid r s' : (0 < K nid)%nat -> vfs_close s cur (nid + MAX_FDS) = (r, s') -> vstep (K, s) (ksub K nid, s')
| st_close_all K s pcb : vstep (K, s) (K, vfs_close_all s pcb)
| st_read K s cur fd buf n got r b s' : vfs_read s cur fd buf n got = Some (r, b, s') -> vstep (K, s) (K, s')
| st_write K s cur fd buf r s' : vfs_write port_send s cur fd buf = Some (r, s') -> vstep (K, s) (K, s')
| st_seek K s cur fd off wh r s' : vfs_seek s cur fd off wh = (r, s') -> vstep (K, s) (K, s')
| st_stat K s p o r i s' : vfs_stat s p o = (r, i, s') -> vstep (K, s) (K, s')
| st_unlink K s p r s' : vfs_unlink s p = (r, s') -> vstep (K, s) (K, s')
| st_mkdir K s p r s' : vfs_mkdir s p = (r, s') -> vstep (K, s) (K, s')
| st_readdir K s p cap r es s' : vfs_readdir s p cap = (r, es, s') -> vstep (K, s) (K, s')
| st_register K s p a r s' nid : vfs_register_ring s p a = (r, s') -> nid = (alloc_node_id s).1 ->
    vstep (K, s) (if r =? 0 then kadd K nid else K, s')
| st_inherit K s child parent : child <> parent -> (forall fd, fds s !! (child, fd) = None) -> room K s ->
    vstep (K, s) (K, vfs_fd_inherit s (Some child) (Some parent))
| st_pipe K s pid area r o s' j1 j2 : j1 <> j2 -> (j1 <> 0)%nat -> (j2 <> 0)%nat -> (j1 < MAX_VFSNODES)%nat -> (j2 < MAX_VFSNODES)%nat ->
    node_id (node s j1) = 0 -> node_id (node s j2) = 0 -> vfs_pipe s (Some pid) area = (r, o, s') -> vstep (K, s) (K, s')
| st_dup2 K s pid oldfd newfd r s' : oldfd <> newfd -> room K s -> vfs_dup2 s (Some pid) oldfd newfd = (r, s') -> vstep (K, s) (K, s').

Inductive reachable (s0 : vfs_state W) : (nat -> nat) * vfs_state W -> Prop :=
| reach_init : reachable s0 (no_refs, vfs_init s0)
| reach_step a b : reachable s0 a -> vstep a b -> reachable s0 b.

(** ** The operations that keep nodes and descriptors *)

Lemma inv_same K s s' : g_nodes s' = g_nodes s -> fds s' = fds s -> ref_inv K s -> ref_inv K s'.
Proof. intros En Ef. apply ref_inv_ext; [done|]. intros i. unfold node. by rewrite En. Qed.

Lemma inv_read K s cur fd buf n got r b s' : ref_inv K s -> vfs_read s cur fd buf n got = Some (r, b, s') -> ref_inv K s'.
Proof.
  intros H E. unfold vfs_read in E. destruct (_ || _); [by injection E as <- <- <-|].
  destruct (fd_node s cur fd) as [i|]; [|by injection E as <- <- <-]. destruct (ring (node s i)) as [a|].
  - destruct (rings s !! a) as [rb|]; [|done]. destruct (ring_read _ _ _ _) as [[x rb']|]; [|done]. injection E as _ _ <-.
    by apply (inv_same K s).
  - destruct (_ ≫= _) as [[be f]|]; [|by injection E as <- <- <-]. destruct (f _ _ _ _) as [[rc x] w]. injection E as _ _ <-.
    destruct (_ && _); [|by apply ref_inv_fs]. by apply (inv_move K (set_fs s w)), ref_inv_fs.
Qed.

Lemma inv_write K s cur fd buf r s' : port_send_frame -> ref_inv K s -> vfs_write port_send s cur fd buf = Some (r, s') -> ref_inv K s'.
Proof.
  intros Hport H E. unfold vfs_write in E. destruct (_ || _); [by injection E as <- <-|].
  destruct (fd_node s cur fd) as [i|]; [|by injection E as <- <-]. destruct (ring (node s i)) as [a|].
  - destruct (rings s !! a) as [rb|]; [|done]. destruct (ring_write _ _ _ _) as [[x rb']|]; [|done]. injection E as _ <-.
    by apply (inv_same K s).
  - destruct (truthy _).
    { injection E as E. destruct (Hport s (port_id (node s i)) (default [] buf)) as [E1 E2]. rewrite E in E1, E2. by apply (inv_same K s). }
    destruct (_ ≫= _) as [[be f]|]; [|by injection E as <- <-]. destruct (f _ _ _ _) as [rc w]. injection E as _ <-.
    destruct (rc =? 0); [|by apply ref_inv_fs]. by apply (inv_move K (set_fs s w)), ref_inv_fs.
Qed.

Lemma inv_seek K s cur fd off wh r s' : ref_inv K s -> vfs_seek s cur fd off wh = (r, s') -> ref_inv K s'.
Proof.
  intros H E. unfold vfs_seek in E. destruct (fd <=? 2)%nat; [by injection E as <- <-|].
  destruct (fd_node s cur fd) as [i|]; [|by injection E as <- <-]. destruct (_ ≫= _) as [[b f]|].
  - destruct (f _ _ _ _ _) as [rc w]. injection E as _ <-. destruct (0 <=? rc); [|by apply ref_inv_fs].
    by apply (inv_move K (set_fs s w)), ref_inv_fs.
  - repeat (case_match; try (injection E as _ <-; done || by apply inv_move)).
Qed.

Lemma inv_paths K s s' : ref_inv K s ->
  (exists p o r i, vfs_stat s p o = (r, i, s')) \/ (exists p r, vfs_unlink s p = (r, s')) \/ (exists p r, vfs_mkdir s p = (r, s')) \/
  (exists p cap r es, vfs_readdir s p cap = (r, es, s')) -> ref_inv K s'.
Proof.
  intros H [(p & o & r & i & E)|[(p & r & E)|[(p & r & E)|(p & cap & r & es & E)]]];
    unfold vfs_stat, vfs_unlink, vfs_mkdir, vfs_readdir in E;
    repeat (case_match; simplify_eq; try done); try (by apply ref_inv_fs). by apply inv_close_bctx, ref_inv_fs.
Qed.

Lemma inv_register K s p a r s' : ref_inv K s -> vfs_register_ring s p a = (r, s') ->
  ref_inv (if r =? 0 then kadd K (alloc_node_id s).1 else K) s'.
Proof.
  intros H E. unfold vfs_register_ring in E. destruct p as [p|], a as [a|]; try (by injection E as <- <-).
  destruct (alloc_node_id s) as [nid s1] eqn:Ea. pose proof (inv_alloc K _ _ _ Ea H) as H1.
  destruct (alloc_node_id_spec _ _ _ Ea) as (En & _ & _ & _ & Hid). destruct (Nat.eqb_spec nid 0) as [->|Hn]; [by injection E as <- <-|].
  destruct Hid as [|(_ & Hm & Hz)]; [done|]. injection E as <- <-. apply inv_new; try done. unfold node in *. by rewrite En.
Qed.

Lemma inv_step a b : port_send_frame -> ref_inv a.1 a.2 -> vstep a b -> ref_inv b.1 b.2.
Proof.
  intros Hport H Hst. destruct Hst; cbn [fst snd] in *.
  - apply (inv_same K s); [..|done]; unfold vfs_mount in *; repeat (case_match; simplify_eq; try done).
  - by eapply inv_open.
  - by eapply inv_close.
  - by eapply inv_close_pseudo.
  - destruct pcb; [|done]. by apply inv_close_fds.
  - by eapply inv_read.
  - by eapply inv_write.
  - by eapply inv_seek.
  - eapply inv_paths; eauto 10.
  - eapply inv_paths; eauto 10.
  - eapply inv_paths; eauto 10.
  - eapply inv_paths; eauto 10.
  - subst nid. by eapply inv_register.
  - apply inv_inherit; [done|done|done|done|]. exact H2.
  - apply (inv_pipe K s pid area r o s' j1 j2); assumption.
  - by eapply inv_dup2.
Qed.

Lemma inv_init s0 : fds s0 = ∅ -> ref_inv no_refs (vfs_init s0).
Proof.
  intros E. constructor.
  - intros p fd i. cbn [vfs_init fds]. by rewrite E, lookup_empty.
  - intros i Hi. unfold no_refs in Hi. lia.
  - intros i Hi. unfold node in Hi. cbn [vfs_init g_nodes] in Hi. by rewrite lookup_empty in Hi.
Qed.

Lemma vfs_reachable_inv s0 a : port_send_frame -> fds s0 = ∅ -> reachable s0 a -> ref_inv a.1 a.2.
Proof. intros Hp E H. induction H as [|a b Ha IH Hst]; [by apply inv_init|]. by eapply inv_step. Qed.


(** ** Closing *)

Lemma drop_ref_last s i : refcount (node s i) = 1 ->
  fs (drop_ref s i) = fs (close_bctx s (backend (node s i)) (bctx (node s i))) /\ node_id (node (drop_ref s i) i) = 0.
Proof.
  intros E. unfold drop_ref. rewrite E. change (u32 (1 - 1)) with 0. cbn [Z.eqb]. split; [|by rewrite node_set, decide_True].
  cbn [set_node fs]. unfold close_bctx. destruct (backend (node s i)) as [b|]; [|done].
  change (be_at (set_node s i (set_ref (node s i) 0)) b) with (be_at s b). by destruct (op_close _).
Qed.

Lemma drop_ref_shared s i : 1 < refcount (node s i) < 2 ^ 32 ->
  drop_ref s i = set_node s i (set_ref (node s i) (refcount (node s i) - 1)).
Proof.
  intros E. unfold drop_ref. rewrite u32_small by lia. by rewrite (proj2 (Z.eqb_neq (refcount (node s i) - 1) 0)) by lia.
Qed.

Lemma drop_ref_other s i j : j <> i -> node (drop_ref s i) j = node s j.
Proof.
  intros H. unfold drop_ref. destruct (_ =? 0); rewrite ?node_set, ?decide_False by done; [|done].
  unfold node at 1. rewrite (proj1 (close_bctx_view _ _ _)). change (node (set_node s i (set_ref (node s i) (u32 (refcount (node s i) - 1)))) j = node s j).
  by rewrite node_set, decide_False.
Qed.

(** closing a descriptor releases exactly one reference.  The close succeeds
    and clears just this descriptor; no other node changes.  If it was the last
    reference, the backend's [close] is called on the node's context, once, and
    the node is free; otherwise the file systems are not called and the node
    stays live with one reference less. *)
Theorem vfs_close_correct K s pid fd i : ref_inv K s -> (3 <= fd < MAX_FDS)%nat -> fds s !! (pid, fd) = Some i ->
  exists s', vfs_close s (Some pid) fd = (0, s') /\ fds s' = delete (pid, fd) (fds s) /\ (forall j, j <> i -> node s' j = node s j) /\
    ((refs (fds s) i + K i = 1)%nat ->
       fs s' = fs (close_bctx s (backend (node s i)) (bctx (node s i))) /\ node_id (node s' i) = 0) /\
    ((refs (fds s) i + K i <> 1)%nat ->
       fs s' = fs s /\ node s' i = set_ref (node s i) (refcount (node s i) - 1) /\ (0 < refs (fds s') i + K i)%nat).
Proof.
  intros H Hfd Hi. pose proof (ri_fd _ _ H _ _ _ Hi) as (_ & Hid & Hn0 & _).
  destruct (ri_node _ _ H i ltac:(lia)) as (_ & Hr & Hp). exists (drop_ref (clear_fd s pid fd) i).
  assert (Ef : fds (drop_ref (clear_fd s pid fd) i) = delete (pid, fd) (fds s)) by by rewrite drop_ref_fds.
  split; [|split; [done|split; [|split]]].
  - unfold vfs_close, fd_node. rewrite (proj2 (Nat.leb_gt MAX_FDS fd)), (proj2 (Nat.leb_gt fd 2)) by lia. by rewrite Hi.
  - intros j Hj. by rewrite drop_ref_other.
  - intros E. destruct (drop_ref_last (clear_fd s pid fd) i) as [E1 E2]; [change (refcount (node s i) = 1); lia|]. split; [|done].
    rewrite E1. unfold close_bctx. change (node (clear_fd s pid fd) i) with (node s i). destruct (backend (node s i)) as [b|]; [|done].
    change (be_at (clear_fd s pid fd) b) with (be_at s b). by destruct (op_close _).
  - intros E. pose proof (refs_delete _ _ _ i Hi) as Hd. rewrite decide_True in Hd by done.
    rewrite drop_ref_shared by (change (1 < refcount (node s i) < 2 ^ 32); lia). split; [done|].
    split; [by rewrite node_set, decide_True|]. cbn [set_node clear_fd fds]. lia.
Qed.

(** C21: process exit releases what the process held.  After [vfs_close_all] the
    process has no descriptor from 3 up, all other descriptors are as they
    were and still name live nodes, and every node that only those descriptors
    named is free. *)
Theorem vfs_exit_releases K s pid : ref_inv K s ->
  let s' := vfs_close_all s (Some pid) in
  (forall fd, (3 <= fd)%nat -> fds s' !! (pid, fd) = None) /\
  (forall q fd, q <> pid \/ (fd < 3)%nat -> fds s' !! (q, fd) = fds s !! (q, fd)) /\
  (forall q fd i, fds s' !! (q, fd) = Some i -> live s' i) /\
  (forall i, K i = 0%nat -> (forall q fd, fds s !! (q, fd) = Some i -> q = pid /\ (3 <= fd)%nat) -> node_id (node s' i) = 0).
Proof.
  intros H. cbv zeta. unfold vfs_close_all. set (s' := close_fds s pid 3 (MAX_FDS - 3)).
  assert (H' : ref_inv K s') by by apply inv_close_fds. assert (Ef := close_fds_fds pid (MAX_FDS - 3) 3 s). fold s' in Ef. clearbody s'.
  assert (Hnone : forall fd, (3 <= fd)%nat -> fds s' !! (pid, fd) = None).
  { intros fd Hfd. destruct (fds s' !! (pid, fd)) as [k|] eqn:E; [|done]. pose proof (ri_fd _ _ H' _ _ _ E) as [Hlt _].
    rewrite Ef, decide_True in E; [done|]. unfold MAX_FDS in *. lia. }
  split; [done|]. split; [|split].
  - intros q fd Hq. rewrite Ef, decide_False; [done|]. lia.
  - intros q fd i E. by apply (ri_fd _ _ H' q fd).
  - intros i HK Hown. destruct (decide (node_id (node s' i) = 0)) as [|Hne]; [done|exfalso].
    destruct (ri_node _ _ H' i Hne) as (_ & Hr & Hp). assert (Hz : refs (fds s') i <> 0%nat) by lia.
    unfold refs in Hz. apply map_size_ne_0_lookup_1 in Hz as ([q fd] & x & Hk). apply map_lookup_filter_Some in Hk as [Hk Hx]. simpl in Hx. subst x.
    rewrite Ef in Hk. case_decide as Hd; [done|]. destruct (Hown q fd Hk) as [-> H3]. pose proof (ri_fd _ _ H _ _ _ Hk) as [Hlt _].
    unfold MAX_FDS in *. lia.
Qed.

End Steps.

(** ** A file opened, inherited and closed *)

(** A file system with one context, 7, that records what is closed. *)
Definition demo_ops : vfs_ops_t (list Z) :=
  mkOps (Some (fun w _ _ _ => (7, w))) (Some (fun w _ c => c :: w)) None None None None None None None.
Definition demo0 : vfs_state (list Z) := mkVfs ∅ [] 0 ∅ ∅ [].
Definition demo1 : vfs_state (list Z) := (vfs_mount (vfs_init demo0) (Some (str "/")) demo_ops 0).2.
Definition demo2 : vfs_state (list Z) := (vfs_open demo1 (Some (str "/etc/motd")) VFS_O_READ (Some 1%nat)).2.
Definition demo3 : vfs_state (list Z) := vfs_fd_inherit demo2 (Some 2%nat) (Some 1%nat).
Definition demo_send : vfs_state (list Z) -> Z -> list Z -> Z * vfs_state (list Z) := fun s _ _ => (0, s).

Lemma demo_room : room no_refs demo2.
Proof.
  intros i. pose proof (refs_size (fds demo2) i) as H. assert (E : base.size (fds demo2) = 1%nat) by (vm_compute; reflexivity).
  unfold no_refs, MAX_FDS. lia.
Qed.

Lemma demo_empty : forall fd, fds demo2 !! (2%nat, fd) = None.
Proof.
  assert (E : fds demo2 = {[(1%nat, 3%nat) := 1%nat]}) by (vm_compute; reflexivity).
  intros fd. rewrite E. by apply lookup_singleton_ne.
Qed.

Lemma demo_reachable : reachable demo_send demo0 (no_refs, demo3).
Proof.
  apply (reach_step _ _ (no_refs, demo2)); [|apply st_inherit; [done|exact demo_empty|exact demo_room]].
  apply (reach_step _ _ (no_refs, demo1)).
  - apply (reach_step _ _ (no_refs, vfs_init demo0)); [apply reach_init|].
    apply (st_mount _ _ _ (Some (str "/")) demo_ops 0 1). vm_compute. reflexivity.
  - apply (st_open _ no_refs demo1 (Some (str "/etc/motd")) VFS_O_READ (Some 1%nat) 3). vm_compute. reflexivity.
Qed.


Lemma demo_inv : ref_inv no_refs demo3.
Proof.
  assert (Hf : port_send_frame demo_send) by (intros s id b; split; reflexivity).
  assert (H : forall K s, reachable demo_send demo0 (K, s) -> ref_inv K s)
    by (intros K s Hr; exact (vfs_reachable_inv demo_send demo0 (K, s) Hf eq_refl Hr)).
  exact (H no_refs demo3 demo_reachable).
Qed.

(** The first close leaves the file open for the child. *)
Lemma vfs_close_witness : exists s', vfs_close demo3 (Some 1%nat) 3 = (0, s') /\ fs s' = [] /\ fds s' !! (2%nat, 3%nat) = Some 1%nat.
Proof.
  destruct (vfs_close_correct no_refs demo3 1 3 1 demo_inv) as (s' & E1 & E2 & E3 & _ & E4).
  - split; apply Nat.leb_le; vm_compute; reflexivity.
  - vm_compute; reflexivity.
  - exists s'. split; [exact E1|]. split.
    + destruct E4 as [E4 _]; [vm_compute; discriminate|]. rewrite E4. vm_compute. reflexivity.
    + rewrite E2. vm_compute. reflexivity.
Defined.

Lemma vfs_exit_witness : fds (vfs_close_all demo3 (Some 1%nat)) !! (1%nat, 3%nat) = None /\
  fds (vfs_close_all demo3 (Some 1%nat)) !! (2%nat, 3%nat) = Some 1%nat /\ node_id (node (vfs_close_all demo3 (Some 1%nat)) 2) = 0.
Proof.
  destruct (vfs_exit_releases no_refs demo3 1 demo_inv) as (H1 & H2 & _ & H4). split; [apply H1; lia|]. split.
  - rewrite (H2 2%nat 3%nat) by lia. vm_compute. reflexivity.
  - apply H4; [reflexivity|]. assert (E : fds demo3 = {[(1%nat, 3%nat) := 1%nat; (2%nat, 3%nat) := 1%nat]}) by (vm_compute; reflexivity).
    intros q fd. rewrite E. intros [[_ ?]|[_ [_ ?]%lookup_singleton_Some]]%lookup_insert_Some; discriminate.
Defined.

End VfsStep.
