(* ===== verification/Heap.v ===== *)
(** * The kernel heap as its clients see it

    [Kmalloc]: an allocation is an address with the bytes found there, which are
    arbitrary; addresses in use are never handed out again.  Any heap that
    keeps the promises of [KHeapOk], together with the byte memory, is one. *)

From S2P Require Import Prelude Bytes.
From Stdlib Require Import ZArith Lia.
From stdpp Require Import base list gmap numbers.
Open Scope Z_scope.

Class Kmalloc (H : Type) := {
  kmalloc : H -> Z -> option (Z * list Z) * H;
  kfree : H -> Z -> H;
  blocks : H -> gset Z;
  kmalloc_some : forall h n a b h', kmalloc h n = (Some (a, b), h') ->
    a <> 0 /\ (a ∉ blocks h) /\ blocks h' = {[a]} ∪ blocks h /\ n <= Z.of_nat (length b) < 2 ^ 63;
  kmalloc_none : forall h n h', kmalloc h n = (None, h') -> blocks h' = blocks h;
  kfree_blocks : forall h a, blocks (kfree h a) = blocks h ∖ {[a]} }.

Module Heap.

Section Bridge.
Context {H : Type} `{!Bytes.KHeap H} `{!Bytes.KHeapOk H}.

(** A well-formed heap and the memory behind it. *)
Definition heap_mem : Type := { h : H | Bytes.hwf h } * Bytes.mem.

Definition alloc_wf (h : { h : H | Bytes.hwf h }) (n : Z) (Hn : 0 < n) : Bytes.hwf (Bytes.kmalloc (proj1_sig h) n).2 :=
  proj1 (Bytes.kmalloc_ok (proj1_sig h) n (Bytes.kmalloc (proj1_sig h) n).1 (Bytes.kmalloc (proj1_sig h) n).2 (proj2_sig h) Hn (surjective_pairing _)).

Definition hm_kmalloc (x : heap_mem) (n : Z) : option (Z * list Z) * heap_mem :=
  let '(h, m) := x in
  match decide (0 < n < 2 ^ 63) with
  | right _ => (None, x)
  | left Hn =>
      let h' := exist Bytes.hwf (Bytes.kmalloc (proj1_sig h) n).2 (alloc_wf h n (proj1 Hn)) in
      let p := (Bytes.kmalloc (proj1_sig h) n).1 in
      if p =? 0 then (None, (h', m)) else (Some (p, Bytes.read_bytes m p (Z.to_nat n)), (h', m))
  end.

Definition hm_kfree (x : heap_mem) (a : Z) : heap_mem :=
  let '(h, m) := x in
  match decide (is_Some (Bytes.live (proj1_sig h) !! a)) with
  | right _ => x
  | left Ha => (exist Bytes.hwf (Bytes.kfree (proj1_sig h) a) (proj1 (Bytes.kfree_ok (proj1_sig h) a (proj2_sig h) Ha)), m)
  end.

#[export] Instance kmalloc_of_kheap : Kmalloc heap_mem.
Proof.
  refine {| kmalloc := hm_kmalloc; kfree := hm_kfree; blocks x := dom (Bytes.live (proj1_sig x.1)) |}.
  - intros [h m] n a b h'. unfold hm_kmalloc. destruct (decide (0 < n < 2 ^ 63)) as [Hn|]; [|discriminate]. cbv zeta.
    destruct (Bytes.kmalloc_ok (proj1_sig h) n _ _ (proj2_sig h) (proj1 Hn) (surjective_pairing _)) as [_ Hcase].
    destruct (Z.eqb_spec (Bytes.kmalloc (proj1_sig h) n).1 0) as [|Hne]; [discriminate|]. intros E.
    apply pair_eq in E as [E <-]. injection E as <- <-. destruct Hcase as [[? _]|(_ & Hfree & Hlive)]; [done|].
    split; [done|]. split; [by apply not_elem_of_dom|]. split; [cbn; by rewrite Hlive, dom_insert_L|]. rewrite Bytes.length_read_bytes. lia.
  - intros [h m] n h'. unfold hm_kmalloc. destruct (decide (0 < n < 2 ^ 63)) as [Hn|]; [|intros E; by apply pair_eq in E as [_ <-]]. cbv zeta.
    destruct (Bytes.kmalloc_ok (proj1_sig h) n _ _ (proj2_sig h) (proj1 Hn) (surjective_pairing _)) as [_ Hcase].
    destruct (Z.eqb_spec (Bytes.kmalloc (proj1_sig h) n).1 0) as [Hz|Hne]; [|discriminate]. intros E. apply pair_eq in E as [_ <-].
    destruct Hcase as [[_ Hlive]|(Hnz & _)]; [cbn; by rewrite Hlive|done].
  - intros [h m] a. unfold hm_kfree. destruct (decide (is_Some (Bytes.live (proj1_sig h) !! a))) as [Ha|Ha]; cbn.
    + rewrite (proj2 (Bytes.kfree_ok (proj1_sig h) a (proj2_sig h) Ha)). apply dom_delete_L.
    + rewrite <- (elem_of_dom (D := gset Z)) in Ha. set_solver.
Defined.

End Bridge.
End Heap.
