(* ===== verification/Ramfs.v ===== *)
(** * kernel/vfs/ramfs.c: the memory file system

    The three file systems are tables of 256 entries; an entry owns a block of
    memory from [kmalloc].  Handles are blocks too, known by their address.
    [kmalloc] and [kfree] are the class [Kmalloc]: what they return is a block
    of at least the requested size with arbitrary contents, at an address no
    other block in use has. *)

From S2P Require Import Prelude CString Ringbuf Vfs Heap.
From Stdlib Require Import String ZArith Lia.
From stdpp Require Import base list gmap numbers.
Open Scope Z_scope.

Module Ramfs.
Import CString Vfs.

Definition RAMFS_NAME_LEN : nat := 256.
Definition RAMFS_MAX_FILES : nat := 256.
Definition VFS_DIRENT_NAME_LEN : nat := 256.
(** [sizeof(ramfs_file_t)] *)
Definition SIZEOF_FILE : Z := 24.

(** [r_path] is the array; [r_data]: address and bytes of the block. *)
Record ramfs_entry_t := mkEntry { r_path : list Z; r_data : option (Z * list Z); r_size : Z; r_kind : Z; r_valid : bool }.
(** [f_entry = None]: the static entry for "/" of [ramfs_open]. *)
Record ramfs_file_t := mkFile { f_fs : Z; f_entry : option nat; f_offset : Z }.

Section Fs.
Context {H : Type} `{!Kmalloc H}.

(** [systems]: the entries of [g_boot_fs], [g_vfs_root_fs], [g_root_fs] by
    address. *)
Record world := mkW { heap : H; systems : gmap Z (list ramfs_entry_t); s_root : ramfs_entry_t; files : gmap Z ramfs_file_t }.

Definition g_boot_fs : Z := 1.
Definition g_vfs_root_fs : Z := 2.
Definition g_root_fs : Z := 3.

Definition free_entry : ramfs_entry_t := mkEntry (replicate RAMFS_NAME_LEN 0) None 0 0 false.
Definition s_root0 : ramfs_entry_t := mkEntry (strncpy (replicate RAMFS_NAME_LEN 0) 0 [SLASH] RAMFS_NAME_LEN) None 0 VFS_NODE_DIR true.

Definition entries (w : world) (f : Z) : list ramfs_entry_t := default [] (systems w !! f).
Definition set_entries (w : world) (f : Z) (es : list ramfs_entry_t) : world :=
  mkW (heap w) (<[f := es]> (systems w)) (s_root w) (files w).
Definition set_heap (w : world) (h : H) : world := mkW h (systems w) (s_root w) (files w).
Definition set_file (w : world) (a : Z) (f : ramfs_file_t) : world :=
  mkW (heap w) (systems w) (s_root w) (<[a := f]> (files w)).

(** The entry a handle points to. *)
Definition entry (w : world) (f : Z) (i : option nat) : ramfs_entry_t :=
  match i with None => s_root w | Some i => nth i (entries w f) free_entry end.
Definition set_entry (w : world) (f : Z) (i : option nat) (e : ramfs_entry_t) : world :=
  match i with
  | None => mkW (heap w) (systems w) e (files w)
  | Some i => set_entries w f (<[i := e]> (entries w f))
  end.

Definition ramfs_find (es : list ramfs_entry_t) (p : list Z) : option nat :=
  find_index (fun e => r_valid e && (strcmp (r_path e) p =? 0)) es.

Definition first_free (es : list ramfs_entry_t) : option nat := find_index (fun e => negb (r_valid e)) es.

(** [strncpy(e->path, path, RAMFS_NAME_LEN)] *)
Definition set_path (e : ramfs_entry_t) (p : list Z) : list Z := strncpy (r_path e) 0 p RAMFS_NAME_LEN.

(** [kfree(e->data)] if it is not NULL. *)
Definition free_data (w : world) (d : option (Z * list Z)) : world :=
  match d with None => w | Some (a, _) => set_heap w (kfree (heap w) a) end.

(** [data = None]: NULL.  A failed allocation leaves the path in the free
    entry. *)
Definition ramfs_add_file (w : world) (f : Z) (p : list Z) (data : option (list Z)) (size : Z) : Z * world :=
  match first_free (entries w f) with
  | None => (-1, w)
  | Some i =>
      let e := entry w f (Some i) in
      let '(b, h) := kmalloc (heap w) size in
      let w := set_heap w h in
      match b, 0 <? size with
      | None, true => (-1, set_entry w f (Some i) (mkEntry (set_path e p) None (r_size e) (r_kind e) (r_valid e)))
      | _, _ =>
          let b := match data, 0 <? size with
                   | Some d, true => (fun '(a, m) => (a, list_inserts 0 (take (Z.to_nat size) d) m)) <$> b
                   | _, _ => b
                   end in
          (0, set_entry w f (Some i) (mkEntry (set_path e p) b size VFS_NODE_FILE true))
      end
  end.

Definition ramfs_add_dir (w : world) (f : Z) (p : list Z) : Z * world :=
  match first_free (entries w f) with
  | None => (-1, w)
  | Some i => (0, set_entry w f (Some i) (mkEntry (set_path (entry w f (Some i)) p) None 0 VFS_NODE_DIR true))
  end.

(** The entry [ramfs_open] works on: found, the static root, or created;
    [None]: NULL. *)
Definition open_entry (w : world) (f : Z) (p : list Z) (fl : Z) : option (option nat) * world :=
  match ramfs_find (entries w f) p with
  | Some i => (Some (Some i), w)
  | None =>
      if has_flag fl VFS_O_DIR && (hd 0 p =? SLASH) && (nth 1 p 0 =? 0) then (Some None, w)
      else if has_flag fl VFS_O_CREAT then
        match first_free (entries w f) with
        | Some i => (Some (Some i), set_entry w f (Some i) (mkEntry (set_path (entry w f (Some i)) p) None 0 VFS_NODE_FILE true))
        | None => (None, w)
        end
      else (None, w)
  end.

Definition ramfs_open (w : world) (f : Z) (p : list Z) (fl : Z) : Z * world :=
  if f =? 0 then (0, w)
  else match open_entry w f p fl with
  | (None, w) => (0, w)
  | (Some i, w) =>
      let e := entry w f i in
      if (r_kind e =? VFS_NODE_DIR) && negb (has_flag fl VFS_O_DIR) then (0, w)
      else
        let w := match has_flag fl VFS_O_TRUNC && (r_kind e =? VFS_NODE_FILE), r_data e with
                 | true, Some d => set_entry (free_data w (Some d)) f i (mkEntry (r_path e) None 0 (r_kind e) (r_valid e))
                 | _, _ => w
                 end in
        match kmalloc (heap w) SIZEOF_FILE with
        | (None, h) => (0, set_heap w h)
        | (Some (a, _), h) => (a, set_file (set_heap w h) a (mkFile f i 0))
        end
  end.

Definition ramfs_close (w : world) (f : Z) (a : Z) : world :=
  if a =? 0 then w else mkW (kfree (heap w) a) (systems w) (s_root w) (delete a (files w)).

(** Result and the bytes stored in the caller's buffer. *)
Definition ramfs_read (w : world) (be : Z) (a : Z) (n : nat) : Z * list Z * world :=
  match files w !! a with
  | None => (VFS_EINVAL, [], w)
  | Some f =>
      let e := entry w (f_fs f) (f_entry f) in
      if r_size e <=? f_offset f then (0, [], w)
      else
        let avail := r_size e - f_offset f in
        let to_read := if Z.of_nat n <? avail then Z.of_nat n else avail in
        let b := take (Z.to_nat to_read) (drop (Z.to_nat (f_offset f)) (default [] (snd <$> r_data e))) in
        (0, b, set_file w a (mkFile (f_fs f) (f_entry f) (u64 (f_offset f + to_read))))
  end.

Definition ramfs_write (w : world) (be : Z) (a : Z) (buf : list Z) : Z * world :=
  match files w !! a with
  | None => (VFS_EINVAL, w)
  | Some f =>
      let e := entry w (f_fs f) (f_entry f) in
      let n := Z.of_nat (length buf) in
      let new_end := u64 (f_offset f + n) in
      if (0 <? n) && (new_end <? f_offset f) then (VFS_ENOSPC, w)
      else
        let grown :=
          if r_size e <? new_end then
            match kmalloc (heap w) new_end with
            | (None, h) => (None, set_heap w h)
            | (Some (na, nb), h) =>
                let nb := match r_data e with
                          | Some (_, d) => if 0 <? r_size e then list_inserts 0 (take (Z.to_nat (r_size e)) d) nb else nb
                          | None => nb
                          end in
                (Some (mkEntry (r_path e) (Some (na, nb)) new_end (r_kind e) (r_valid e)), free_data (set_heap w h) (r_data e))
            end
          else (Some e, w) in
        match grown with
        | (None, w) => (VFS_ENOSPC, w)
        | (Some e, w) =>
            let d := (fun '(a, m) => (a, list_inserts (Z.to_nat (f_offset f)) buf m)) <$> r_data e in
            (0, set_file (set_entry w (f_fs f) (f_entry f) (mkEntry (r_path e) d (r_size e) (r_kind e) (r_valid e)))
                  a (mkFile (f_fs f) (f_entry f) new_end))
        end
  end.

Definition ramfs_seek (w : world) (be : Z) (a : Z) (off whence : Z) : Z * world :=
  match files w !! a with
  | None => (VFS_EINVAL, w)
  | Some f =>
      let e := entry w (f_fs f) (f_entry f) in
      let go new_off :=
        if (new_off <? 0) || (r_size e <? new_off) then (VFS_EINVAL, w)
        else (new_off, set_file w a (mkFile (f_fs f) (f_entry f) new_off)) in
      if whence =? 0 then go off
      else if whence =? 1 then go (s64 (f_offset f + off))
      else if whence =? 2 then go (s64 (r_size e + off))
      else (VFS_EINVAL, w)
  end.

(** ** Directories *)

(** Where the name of an entry starts relative to [dir]; [None]: not below
    it. *)
Definition rel_name (dir p : list Z) : option (list Z) :=
  let dlen := strlen dir in
  if (dlen =? 1)%nat && (hd 0 dir =? SLASH) then
    if negb (hd 0 p =? SLASH) || negb (truthy (nth 1 p 0)) then None else Some (drop 1 p)
  else if negb (strncmp p dir dlen =? 0) then None
  else if negb (nth dlen p 0 =? SLASH) then None
  else Some (drop (dlen + 1) p).

Definition sub_known (es : list vfs_dirent_t) (name : list Z) (sub_len : nat) : bool :=
  existsb (fun d => (strncmp (d_name d) name sub_len =? 0) && (nth sub_len (d_name d) 0 =? 0) && (d_kind d =? VFS_NODE_DIR)) es.

(** One entry: the caller's array [buf] with [count] entries filled. *)
Definition list_entry (dir : list Z) (buf : list vfs_dirent_t) (count : nat) (e : ramfs_entry_t) : list vfs_dirent_t * nat :=
  match rel_name dir (r_path e) with
  | None => (buf, count)
  | Some name =>
      let d := nth count buf (mkDirent [] 0 0) in
      match strrchr name SLASH with
      | Some sub_len =>
          if sub_known (take count buf) name sub_len then (buf, count)
          else (<[count := mkDirent (strncpy (d_name d) 0 name (S sub_len)) VFS_NODE_DIR 0]> buf, S count)
      | None => (<[count := mkDirent (strncpy (d_name d) 0 name VFS_DIRENT_NAME_LEN) (r_kind e) (r_size e)]> buf, S count)
      end
  end.

(** [self]: the index of the directory's own entry. *)
Fixpoint list_loop (dir : list Z) (self : option nat) (es : list ramfs_entry_t) (i : nat) (buf : list vfs_dirent_t) (count : nat) : list vfs_dirent_t * nat :=
  match es with
  | [] => (buf, count)
  | e :: es' =>
      if negb (count <? length buf)%nat then (buf, count)
      else if negb (r_valid e) || bool_decide (self = Some i) then list_loop dir self es' (S i) buf count
      else let '(buf, count) := list_entry dir buf count e in list_loop dir self es' (S i) buf count
  end.

Definition ramfs_readdir (w : world) (be : Z) (a : Z) (buf : list vfs_dirent_t) : Z * dir_result * world :=
  match files w !! a with
  | None => (VFS_EINVAL, (buf, None), w)
  | Some f =>
      let dir := r_path (entry w (f_fs f) (f_entry f)) in
      let '(buf, count) := list_loop dir (f_entry f) (entries w (f_fs f)) 0 buf 0 in
      (0, (buf, Some count), w)
  end.

Definition base_name_from_path (p out : list Z) (out_sz : nat) : list Z :=
  let name := match strrchr p SLASH with Some k => drop (k + 1) p | None => p end in
  strncpy out 0 name out_sz.

Definition ramfs_stat (w : world) (f : Z) (p : list Z) (out : stat_info_t) : Z * stat_info_t * world :=
  if f =? 0 then (VFS_ENODEV, out, w)
  else match ramfs_find (entries w f) p with
  | None => (VFS_ENOENT, out, w)
  | Some i =>
      let e := entry w f (Some i) in
      (0, mkStat (r_size e) (r_kind e) 0 (base_name_from_path (r_path e) (st_name out) VFS_PATH_MAX) (st_uid out) (st_gid out) (st_mode out), w)
  end.

Definition ramfs_unlink (w : world) (f : Z) (p : list Z) : Z * world := (VFS_EPERM, w).

Definition ramfs_mkdir (w : world) (f : Z) (p : list Z) : Z * world :=
  if f =? 0 then (VFS_ENODEV, w)
  else let '(rc, w) := ramfs_add_dir w f p in (if rc =? 0 then 0 else VFS_ENOSPC, w).

Definition ramfs_ops : vfs_ops_t world :=
  mkOps (Some ramfs_open) (Some ramfs_close) (Some ramfs_read) (Some ramfs_write) (Some ramfs_seek)
    (Some ramfs_readdir) (Some ramfs_stat) (Some ramfs_unlink) (Some ramfs_mkdir).

(** ** Mounting and the interface for the installer *)

Definition cleared (w : world) (f : Z) : world := set_entries w f (replicate RAMFS_MAX_FILES free_entry).

Definition ramfs_boot_init (s : vfs_state world) : Z * vfs_state world :=
  vfs_mount (set_fs s (cleared (fs s) g_boot_fs)) (Some (str "/boot")) ramfs_ops g_boot_fs.

Definition ramfs_root_init (s : vfs_state world) (initrd : option (list Z)) : Z * vfs_state world :=
  let w := cleared (fs s) g_root_fs in
  let w := match initrd with
           | Some d => if (0 <? length d)%nat then (ramfs_add_file w g_root_fs (str "/initrd") (Some d) (Z.of_nat (length d))).2 else w
           | None => w
           end in
  vfs_mount (set_fs s w) (Some (str "/root")) ramfs_ops g_root_fs.

Definition ramfs_mount_root (s : vfs_state world) : Z * vfs_state world :=
  vfs_mount (set_fs s (cleared (fs s) g_vfs_root_fs)) (Some (str "/")) ramfs_ops g_vfs_root_fs.

Definition ramfs_root_mkdir (w : world) (p : list Z) : Z * world :=
  match ramfs_find (entries w g_vfs_root_fs) p with
  | Some _ => (0, w)
  | None => ramfs_add_dir w g_vfs_root_fs p
  end.

Definition ramfs_root_writefile (w : world) (p : list Z) (data : option (list Z)) (size : Z) : Z * world :=
  match ramfs_find (entries w g_vfs_root_fs) p with
  | Some i =>
      let e := entry w g_vfs_root_fs (Some i) in
      let '(nb, w) := if 0 <? size then let '(b, h) := kmalloc (heap w) size in (b, set_heap w h) else (None, w) in
      match nb, 0 <? size with
      | None, true => (-1, w)
      | _, _ =>
          let w := free_data w (r_data e) in
          let nb := match data, 0 <? size with
                    | Some d, true => (fun '(a, m) => (a, list_inserts 0 (take (Z.to_nat size) d) m)) <$> nb
                    | _, _ => nb
                    end in
          (0, set_entry w g_vfs_root_fs (Some i) (mkEntry (r_path e) nb size (r_kind e) (r_valid e)))
      end
  | None => ramfs_add_file w g_vfs_root_fs p data size
  end.

End Fs.
Arguments world H : clear implicits.

End Ramfs.
