(* ===== verification/RamfsInv.v ===== *)
(** * kernel/vfs/ramfs.c: well-formed file systems

    Sizes never exceed the blocks behind them, handles point at entries, and
    every block of the heap the file system uses has exactly one owner. *)

From S2P Require Import Prelude CString Ringbuf Vfs Heap Ramfs.
From Stdlib Require Import String ZArith Lia.
From stdpp Require Import base list gmap numbers.
Open Scope Z_scope.

Module RamfsInv.
Import CString Vfs Ramfs.

(** The places that hold the address of a block. *)
Inductive owner := KEntry (f : Z) (i : nat) | KRoot | KHandle (a : Z).
#[export] Instance owner_dec : EqDecision owner.
Proof. solve_decision. Defined.

Definition owners := owner -> option Z.
Definition upd (o : owners) (k : owner) (v : option Z) : owners := fun k' => if decide (k' = k) then v else o k'.
Definition addr_set (v : option Z) : gset Z := match v with Some a => {[a]} | None => ∅ end.

Record owned (o : owners) (B : gset Z) : Prop := {
  own_in : forall k a, o k = Some a -> a ∈ B;
  own_inj : forall k1 k2 a, o k1 = Some a -> o k2 = Some a -> k1 = k2 }.

Lemma owned_ext o o' B : (forall k, o' k = o k) -> owned o B -> owned o' B.
Proof. intros E [H1 H2]. constructor; intros *; rewrite ?E; eauto. Qed.

Lemma owned_free o B k v : owned o B -> o k = v -> owned (upd o k None) (B ∖ addr_set v).
Proof.
  intros [H1 H2] E. constructor; unfold upd.
  - intros k' a. destruct (decide (k' = k)) as [->|Hne]; [done|]. intros Ek. apply elem_of_difference. split; [by apply (H1 k')|].
    destruct v as [b|]; [|apply not_elem_of_empty]. cbn. intros ->%elem_of_singleton. by apply Hne, (H2 _ _ b).
  - intros k1 k2 a. destruct (decide (k1 = k)), (decide (k2 = k)); [done..|]. apply H2.
Qed.

Lemma owned_take o B k a : owned o B -> a ∉ B -> owned (upd o k (Some a)) ({[a]} ∪ B).
Proof.
  intros [H1 H2] Ha. assert (Hno : forall k', o k' <> Some a) by (intros k' E; by apply Ha, (H1 k')). constructor; unfold upd.
  - intros k' b. destruct (decide (k' = k)) as [->|Hne]; [intros [= <-]; set_solver|]. intros E. apply elem_of_union. right. by apply (H1 k').
  - intros k1 k2 b. destruct (decide (k1 = k)) as [->|], (decide (k2 = k)) as [->|]; try done.
    + intros [= <-] E. by apply Hno in E.
    + intros E [= <-]. by apply Hno in E.
    + apply H2.
Qed.

Section Inv.
Context {H : Type} `{!Kmalloc H}.
Implicit Types (w : world H).

Definition own w : owners := fun k =>
  match k with
  | KEntry f i => fst <$> (entries w f !! i ≫= r_data)
  | KRoot => fst <$> r_data (s_root w)
  | KHandle a => match files w !! a with Some _ => Some a | None => None end
  end.

Definition wf_entry (e : ramfs_entry_t) : Prop :=
  (r_valid e = false -> r_data e = None) /\ 0 <= r_size e < 2 ^ 63 /\
  match r_data e with None => r_size e = 0 | Some (_, d) => r_size e <= Z.of_nat (length d) end.

Definition key (f : Z) (i : option nat) : owner := match i with Some i => KEntry f i | None => KRoot end.
Definition in_table w (f : Z) (i : option nat) : Prop := match i with Some i => (i < length (entries w f))%nat | None => True end.

Record wf w : Prop := {
  wf_entries : forall f i e, entries w f !! i = Some e -> wf_entry e;
  wf_root : wf_entry (s_root w) /\ r_valid (s_root w) = true;
  wf_files : forall a f, files w !! a = Some f -> a <> 0 /\ 0 <= f_offset f < 2 ^ 63 /\ in_table w (f_fs f) (f_entry f) /\
    r_valid (entry w (f_fs f) (f_entry f)) = true;
  wf_owned : owned (own w) (blocks (heap w)) }.

(** ** Reading and writing entries *)

Lemma entries_set w f es g : entries (set_entries w f es) g = if decide (g = f) then es else entries w g.
Proof.
  unfold entries, set_entries. cbn [systems]. destruct (decide (g = f)) as [->|Hne]; [by rewrite lookup_insert_eq|by rewrite lookup_insert_ne].
Qed.

Lemma set_entry_frame w f i e : heap (set_entry w f i e) = heap w /\ files (set_entry w f i e) = files w.
Proof. by destruct i. Qed.

Lemma length_entries_set w f i e g : length (entries (set_entry w f i e) g) = length (entries w g).
Proof. destruct i as [i|]; [|done]. cbn [set_entry]. rewrite entries_set. destruct (decide (g = f)) as [->|]; [apply length_insert|done]. Qed.

Lemma in_table_set w f i e g j : in_table (set_entry w f i e) g j <-> in_table w g j.
Proof. unfold in_table. destruct j; [|done]. by rewrite length_entries_set. Qed.

(** Which entry is meant: indices of one table, or the static one. *)
Lemma entry_set w f i e g j : in_table w f i ->
  entry (set_entry w f i e) g j = if decide (key g j = key f i) then e else entry w g j.
Proof.
  intros Hi. unfold entry, key. destruct i as [i|], j as [j|]; cbn [set_entry].
  - rewrite entries_set. cbn in Hi. destruct (decide (KEntry g j = KEntry f i)) as [[= -> ->]|Hne].
    + rewrite decide_True by done. rewrite (nth_lookup_Some _ _ _ e); [done|]. by apply list_lookup_insert_eq.
    + destruct (decide (g = f)) as [->|]; [|done]. rewrite !nth_lookup, list_lookup_insert_ne; [done|]. intros ->. done.
  - done.
  - done.
  - done.
Qed.

Lemma entry_lookup w f i : in_table w f (Some i) -> entries w f !! i = Some (entry w f (Some i)).
Proof. intros Hi. unfold entry. destruct (lookup_lt_is_Some_2 _ _ Hi) as [e E]. by rewrite E, (nth_lookup_Some _ _ _ e). Qed.

Lemma wf_entry_at w f i : wf w -> in_table w f i -> wf_entry (entry w f i).
Proof. intros [H1 [H2 _] _ _] Hi. destruct i as [i|]; [|done]. by apply (H1 f i), entry_lookup. Qed.

Lemma own_entry w f i : in_table w f i -> own w (key f i) = fst <$> r_data (entry w f i).
Proof. destruct i as [i|]; [|done]. intros Hi. cbn [own key]. by rewrite (entry_lookup w f i Hi). Qed.

Lemma own_set_entry w f i e k : in_table w f i -> own (set_entry w f i e) k = upd (own w) (key f i) (fst <$> r_data e) k.
Proof.
  intros Hi. unfold upd. destruct i as [i|]; cbn [set_entry key].
  - destruct k as [g j| |a]; [|done|done]. cbn [own]. rewrite entries_set. cbn in Hi.
    destruct (decide (KEntry g j = KEntry f i)) as [[= -> ->]|Hne].
    + rewrite decide_True by done. by rewrite list_lookup_insert_eq.
    + destruct (decide (g = f)) as [->|]; [|done]. rewrite list_lookup_insert_ne; [done|]. intros ->. done.
  - by destruct k.
Qed.

(** Replacing the entry of index [i]: the new one is well-formed and the blocks
    are the old ones without what the entry owned, with what it owns now. *)
Lemma wf_set_entry w w1 f i e : wf w -> in_table w f i -> wf_entry e -> (r_valid (entry w f i) = true -> r_valid e = true) ->
  systems w1 = systems w -> s_root w1 = s_root w -> files w1 = files w ->
  owned (upd (own w) (key f i) (fst <$> r_data e)) (blocks (heap w1)) -> wf (set_entry w1 f i e).
Proof.
  intros [H1 H2 H3 H4] Hi He Hval Es Er Ef Ho.
  assert (Een : forall g, entries w1 g = entries w g) by (intros g; unfold entries; by rewrite Es).
  assert (Hi1 : in_table w1 f i) by (destruct i; [|done]; cbn; by rewrite Een).
  assert (Eown : forall k, own w1 k = own w k) by (intros [g j| |a]; cbn [own]; rewrite ?Een, ?Er, ?Ef; done).
  constructor.
  - intros g j e' E. destruct i as [i|]; cbn [set_entry] in E; [|change (entries w1 g !! j = Some e') in E; rewrite Een in E; by apply (H1 g j)].
    rewrite entries_set in E. destruct (decide (g = f)) as [->|]; [|rewrite Een in E; by apply (H1 g j)].
    apply list_lookup_insert_Some in E as [(_ & <- & _)|(_ & E)]; [done|]. rewrite Een in E. by apply (H1 f j).
  - destruct i; [change (wf_entry (s_root w1) /\ r_valid (s_root w1) = true); by rewrite Er|]. split; [done|]. apply Hval, H2.
  - intros a x. rewrite (proj2 (set_entry_frame w1 f i e)), Ef. intros E. destruct (H3 a x E) as (? & ? & Hx & Hv). split; [done|split; [done|]].
    rewrite in_table_set, entry_set by done. split; [destruct (f_entry x); [|done]; cbn; by rewrite Een|].
    assert (Eent : forall g j, entry w1 g j = entry w g j) by (intros g [j|]; cbn [entry]; by rewrite ?Een, ?Er).
    destruct (decide (key (f_fs x) (f_entry x) = key f i)) as [Ek|]; [|by rewrite Eent]. apply Hval. rewrite <- Hv.
    destruct i, (f_entry x); cbn [key] in Ek; try discriminate Ek; [by injection Ek as -> ->|done].
  - rewrite (proj1 (set_entry_frame w1 f i e)). eapply owned_ext; [|exact Ho]. intros k. rewrite own_set_entry by done.
    unfold upd. by rewrite Eown.
Qed.

Lemma wf_set_heap w h : wf w -> blocks h = blocks (heap w) -> wf (set_heap w h).
Proof. intros [H1 H2 H3 H4] E. constructor; try done. cbn [set_heap heap]. by rewrite E. Qed.

(** Moving the offset of a handle. *)
Lemma wf_move w a f o : wf w -> files w !! a = Some f -> 0 <= o < 2 ^ 63 -> wf (set_file w a (mkFile (f_fs f) (f_entry f) o)).
Proof.
  intros [H1 H2 H3 H4] E Ho. destruct (H3 a f E) as (Ha & _ & Hi & Hv). constructor; try done.
  - intros b x. cbn [set_file files]. destruct (decide (b = a)) as [->|Hne].
    + rewrite lookup_insert_eq. intros [= <-]. split_and!; try done; cbn [f_offset]; lia.
    + rewrite lookup_insert_ne by done. intros Eb. by destruct (H3 b x Eb) as (? & ? & ? & ?).
  - eapply owned_ext; [|exact H4]. intros [g j| |b]; try done. cbn [own set_file files]. destruct (decide (b = a)) as [->|Hne].
    + by rewrite lookup_insert_eq, E.
    + by rewrite lookup_insert_ne.
Qed.

(** A new handle. *)
Lemma wf_new_file w a b h f i : wf w -> kmalloc (heap w) SIZEOF_FILE = (Some (a, b), h) -> in_table w f i -> r_valid (entry w f i) = true ->
  wf (set_file (set_heap w h) a (mkFile f i 0)).
Proof.
  intros [H1 H2 H3 H4] E Hi Hv. destruct (kmalloc_some _ _ _ _ _ E) as (Ha & Hb & Eb & _). constructor; try done.
  - intros c x. cbn [set_file set_heap files]. destruct (decide (c = a)) as [->|Hne].
    + rewrite lookup_insert_eq. intros [= <-]. split_and!; try done; cbn [f_offset]; lia.
    + rewrite lookup_insert_ne by done. intros Ec. by destruct (H3 c x Ec) as (? & ? & ? & ?).
  - cbn [set_file set_heap heap]. rewrite Eb. eapply owned_ext; [|exact (owned_take _ _ (KHandle a) a H4 Hb)].
    intros [g j| |c]; try done. unfold upd. cbn [own set_file set_heap files]. destruct (decide (KHandle c = KHandle a)) as [[= ->]|Hne].
    + by rewrite lookup_insert_eq.
    + rewrite lookup_insert_ne; [done|]. intros ->. done.
Qed.

Lemma wf_close w f a : wf w -> (exists x, files w !! a = Some x) -> wf (ramfs_close w f a).
Proof.
  intros [H1 H2 H3 H4] [x Ex]. unfold ramfs_close. destruct (Z.eqb_spec a 0) as [|Ha]; [done|]. constructor; try done.
  - intros b y. cbn [files]. intros [_ Eb]%lookup_delete_Some. by destruct (H3 b y Eb) as (? & ? & ? & ?).
  - cbn [heap]. rewrite kfree_blocks. eapply owned_ext; [|apply (owned_free _ _ (KHandle a) (Some a) H4); cbn [own]; by rewrite Ex].
    intros [g j| |c]; try done. unfold upd. cbn [own files]. destruct (decide (KHandle c = KHandle a)) as [[= ->]|Hne].
    + by rewrite lookup_delete_eq.
    + rewrite lookup_delete_ne; [done|]. intros ->. done.
Qed.

(** ** Blocks of entries *)

Lemma free_data_frame w d : systems (free_data w d) = systems w /\ s_root (free_data w d) = s_root w /\ files (free_data w d) = files w /\
  blocks (heap (free_data w d)) = blocks (heap w) ∖ addr_set (fst <$> d).
Proof.
  destruct d as [[a m]|]; cbn [free_data set_heap systems s_root files heap]; split_and!; try done; [by rewrite kfree_blocks|].
  cbn. by rewrite difference_empty_L.
Qed.

Lemma upd_upd o k v v' k' : upd (upd o k v) k v' k' = upd o k v' k'.
Proof. unfold upd. by destruct (decide (k' = k)). Qed.

Lemma upd_same o k k' : upd o k (o k) k' = o k'.
Proof. unfold upd. by destruct (decide (k' = k)) as [->|]. Qed.

(** The entry gives up its block. *)
Lemma wf_drop_data w f i e : wf w -> in_table w f i -> wf_entry e -> (r_valid (entry w f i) = true -> r_valid e = true) -> r_data e = None ->
  wf (set_entry (free_data w (r_data (entry w f i))) f i e).
Proof.
  intros Hw Hi He Hval Ed. destruct (free_data_frame w (r_data (entry w f i))) as (E1 & E2 & E3 & E4).
  apply (wf_set_entry w); try done. rewrite E4, Ed. apply owned_free; [apply Hw|]. by apply own_entry.
Qed.

(** The entry changes its block for a new one. *)
Lemma wf_swap_data w f i e n a b h : wf w -> in_table w f i -> wf_entry e -> (r_valid (entry w f i) = true -> r_valid e = true) -> kmalloc (heap w) n = (Some (a, b), h) ->
  fst <$> r_data e = Some a -> wf (set_entry (free_data (set_heap w h) (r_data (entry w f i))) f i e).
Proof.
  intros Hw Hi He Hval Em Ed. destruct (kmalloc_some _ _ _ _ _ Em) as (_ & Hb & Eb & _).
  destruct (free_data_frame (set_heap w h) (r_data (entry w f i))) as (E1 & E2 & E3 & E4).
  apply (wf_set_entry w); try done. rewrite E4, Ed. cbn [set_heap heap]. rewrite Eb.
  assert (Ha : a ∉ addr_set (fst <$> r_data (entry w f i))).
  { destruct (r_data (entry w f i)) as [[c m]|] eqn:Ec; cbn; [|apply not_elem_of_empty]. intros ->%elem_of_singleton.
    apply Hb. apply (own_in _ _ (wf_owned _ Hw) (key f i)). rewrite own_entry by done. by rewrite Ec. }
  assert (Eset : ({[a]} ∪ blocks (heap w)) ∖ addr_set (fst <$> r_data (entry w f i)) =
                 {[a]} ∪ (blocks (heap w) ∖ addr_set (fst <$> r_data (entry w f i)))) by set_solver.
  rewrite Eset. eapply owned_ext; [intros k; symmetry; apply upd_upd|]. apply owned_take; [|set_solver].
  apply owned_free; [apply Hw|]. by apply own_entry.
Qed.

(** An entry without a block gets one, or keeps none. *)
Lemma wf_fill w f i e n r h : wf w -> in_table w f i -> wf_entry e -> (r_valid (entry w f i) = true -> r_valid e = true) -> own w (key f i) = None -> kmalloc (heap w) n = (r, h) ->
  fst <$> r_data e = fst <$> r -> wf (set_entry (set_heap w h) f i e).
Proof.
  intros Hw Hi He Hval Hn Em Ed. apply (wf_set_entry w); try done. rewrite Ed. cbn [set_heap heap]. destruct r as [[a b]|]; cbn.
  - destruct (kmalloc_some _ _ _ _ _ Em) as (_ & Hb & -> & _). apply owned_take; [apply Hw|done].
  - rewrite (kmalloc_none _ _ _ Em). eapply owned_ext; [|apply Hw]. intros k. rewrite <- Hn. apply upd_same.
Qed.

(** The entry keeps its block. *)
Lemma wf_keep w f i e : wf w -> in_table w f i -> wf_entry e -> (r_valid (entry w f i) = true -> r_valid e = true) -> fst <$> r_data e = fst <$> r_data (entry w f i) -> wf (set_entry w f i e).
Proof.
  intros Hw Hi He Hval Ed. apply (wf_set_entry w); try done. rewrite Ed, <- own_entry by done. eapply owned_ext; [|apply Hw]. intros k. apply upd_same.
Qed.

End Inv.
End RamfsInv.
