(* ===== verification/RamfsFile.v ===== *)
(** * kernel/vfs/ramfs.c: files

    Reading, writing and seeking through a handle against a file that is just a
    list of bytes with a position, and every operation against the invariant. *)

From S2P Require Import Prelude CString Ringbuf Vfs Heap Ramfs RamfsInv.
From Stdlib Require Import String ZArith Lia.
From stdpp Require Import base list gmap numbers.
Open Scope Z_scope.

Module RamfsFile.
Import CString Vfs Ramfs RamfsInv.

(** ** Lists *)

Lemma inserts_split {A} (k : list A) : forall i l, (i + length k <= length l)%nat ->
  list_inserts i k l = take i l ++ k ++ drop (i + length k) l.
Proof.
  intros i l Hl. apply list_eq. intros j. destruct (decide (j < i)%nat) as [Hj|Hj].
  - rewrite list_lookup_inserts_lt by done. rewrite lookup_app_l by (rewrite length_take; lia). by rewrite lookup_take_lt.
  - rewrite lookup_app_r by (rewrite length_take; lia). rewrite length_take, Nat.min_l by lia. destruct (decide (j < i + length k)%nat).
    + rewrite list_lookup_inserts by lia. by rewrite lookup_app_l by lia.
    + rewrite list_lookup_inserts_ge by lia. rewrite lookup_app_r by lia. rewrite lookup_drop. f_equal. lia.
Qed.

(** ** The file behind an entry *)

Definition contents (e : ramfs_entry_t) : list Z := take (Z.to_nat (r_size e)) (default [] (snd <$> r_data e)).

Lemma contents_len e : wf_entry e -> length (contents e) = Z.to_nat (r_size e).
Proof.
  intros (_ & H1 & H2). unfold contents. rewrite length_take. destruct (r_data e) as [[a d]|]; cbn in *; lia.
Qed.

(** The specification: bytes and a position within them. *)
Definition a_read (c : list Z) (pos n : nat) : list Z := take n (drop pos c).
Definition a_write (c : list Z) (pos : nat) (buf : list Z) : list Z := take pos c ++ buf ++ drop (pos + length buf) c.

Section File.
Context {H : Type} `{!Kmalloc H}.
Implicit Types (w : world H).

Lemma read_spec w be a f n : wf w -> files w !! a = Some f ->
  let e := entry w (f_fs f) (f_entry f) in let b := a_read (contents e) (Z.to_nat (f_offset f)) n in
  exists w', ramfs_read w be a n = (0, b, w') /\ wf w' /\ heap w' = heap w /\ systems w' = systems w /\ s_root w' = s_root w /\
    files w' = <[a := mkFile (f_fs f) (f_entry f) (f_offset f + Z.of_nat (length b))]> (files w).
Proof.
  intros Hw Ef e b. destruct (wf_files _ Hw a f Ef) as (Ha & Ho & Hi & Hval). pose proof (wf_entry_at _ _ _ Hw Hi) as He. fold e in He.
  pose proof (contents_len e He) as Hl. unfold ramfs_read. rewrite Ef. fold e.
  destruct (Z.leb_spec (r_size e) (f_offset f)) as [Hle|Hlt].
  - assert (Hb : b = []) by (unfold b, a_read; rewrite drop_ge by lia; by rewrite take_nil).
    exists w. rewrite Hb. split_and!; try done. cbn [length]. rewrite Z.add_0_r. symmetry. apply insert_id. rewrite Ef. by destruct f.
  - assert (Hb : take (Z.to_nat (if Z.of_nat n <? r_size e - f_offset f then Z.of_nat n else r_size e - f_offset f))
                   (drop (Z.to_nat (f_offset f)) (default [] (snd <$> r_data e))) = b /\
                 (if Z.of_nat n <? r_size e - f_offset f then Z.of_nat n else r_size e - f_offset f) = Z.of_nat (length b)).
    { unfold b, a_read, contents. rewrite skipn_firstn_comm, take_take.
      assert (Hd : (Z.to_nat (r_size e) <= length (default [] (snd <$> r_data e)))%nat)
        by (destruct He as (_ & ? & Hd); destruct (r_data e) as [[? ?]|]; cbn in *; lia).
      rewrite length_take, length_drop. destruct (Z.ltb_spec (Z.of_nat n) (r_size e - f_offset f)); split; try lia; f_equal; lia. }
    destruct Hb as [Hb Hn]. rewrite Hb, Hn. rewrite u64_small.
    2:{ unfold b, a_read. rewrite length_take, length_drop. destruct He as (_ & ? & _). lia. }
    eexists. split; [reflexivity|]. split; [|done]. apply wf_move; [done..|].
    unfold b, a_read. rewrite length_take, length_drop. destruct He as (_ & ? & _). lia.
Qed.

(** In place: the block is large enough. *)
Lemma contents_in_place e buf o : wf_entry e -> 0 <= o -> o + Z.of_nat (length buf) <= r_size e ->
  let e' := mkEntry (r_path e) ((fun '(a, m) => (a, list_inserts (Z.to_nat o) buf m)) <$> r_data e) (r_size e) (r_kind e) (r_valid e) in
  wf_entry e' /\ fst <$> r_data e' = fst <$> r_data e /\ contents e' = a_write (contents e) (Z.to_nat o) buf.
Proof.
  intros (Hv & Hs & Hd) Ho Hn e'. unfold wf_entry, e', contents, a_write. cbn [r_size r_data r_valid]. destruct (r_data e) as [[c m]|] eqn:Ed; cbn.
  - rewrite length_inserts. split_and!; try done; try lia; [intros X; by apply Hv in X|]. rewrite inserts_split by lia.
    apply list_eq. intros j. destruct (decide (j < Z.to_nat (r_size e))%nat) as [Hj|Hj].
    + rewrite lookup_take_lt by done. destruct (decide (j < Z.to_nat o)%nat).
      * rewrite !lookup_app_l by (rewrite !length_take; lia). by rewrite take_take, !lookup_take_lt by lia.
      * rewrite !(lookup_app_r (take _ _)) by (rewrite ?length_take; lia). rewrite !length_take.
        replace (Z.to_nat o `min` (Z.to_nat (r_size e) `min` length m))%nat with (Z.to_nat o `min` length m)%nat by lia.
        destruct (decide (j - Z.to_nat o `min` length m < length buf)%nat); [by rewrite !lookup_app_l by lia|].
        rewrite !lookup_app_r by lia. rewrite !lookup_drop, lookup_take_lt by lia. done.
    + rewrite !lookup_ge_None_2; [done| |]; rewrite ?length_app, ?length_drop, ?length_take, ?length_app, ?length_drop, ?length_take; lia.
  - assert (r_size e = 0) by done. destruct buf; [|cbn in Hn; lia]. split_and!; try done; try lia. by rewrite ?take_nil, ?drop_nil, ?take_nil.
Qed.

(** In a new block: the old contents are copied first. *)
Lemma contents_grown e buf o nb na : wf_entry e -> 0 <= o -> r_size e < o + Z.of_nat (length buf) ->
  o + Z.of_nat (length buf) <= Z.of_nat (length nb) < 2 ^ 63 ->
  let nb' := match r_data e with
             | Some (_, d) => if 0 <? r_size e then list_inserts 0 (take (Z.to_nat (r_size e)) d) nb else nb
             | None => nb end in
  let e' := mkEntry (r_path e) (Some (na, list_inserts (Z.to_nat o) buf nb')) (o + Z.of_nat (length buf)) (r_kind e) (r_valid e) in
  r_valid e = true -> wf_entry e' /\ (o <= r_size e -> contents e' = a_write (contents e) (Z.to_nat o) buf).
Proof.
  intros He Ho Hn Hb nb' e' Hval. pose proof (contents_len e He) as Hl. destruct He as (_ & Hs & Hd).
  assert (Hnb : exists r, nb' = contents e ++ r /\ length nb' = length nb).
  { unfold nb', contents. destruct (r_data e) as [[c d]|]; cbn; [|by exists nb; rewrite take_nil]. destruct (Z.ltb_spec 0 (r_size e)).
    - exists (drop (Z.to_nat (r_size e)) nb). rewrite length_inserts. split; [|done]. rewrite inserts_split by (rewrite length_take; lia).
      rewrite take_0, length_take. cbn [app]. do 2 f_equal. lia.
    - exists nb. by replace (Z.to_nat (r_size e)) with 0%nat by lia. }
  destruct Hnb as (r & Er & Elen). clearbody nb'. split.
  - split; [cbn; congruence|]. cbn [e' r_size r_data]. rewrite length_inserts. lia.
  - intros Hle. change (contents e') with (take (Z.to_nat (o + Z.of_nat (length buf))) (list_inserts (Z.to_nat o) buf nb')). unfold a_write.
    rewrite inserts_split by lia. rewrite (drop_ge (contents e)) by lia. rewrite app_nil_r, app_assoc, take_app_le.
    + rewrite take_ge by (rewrite length_app, length_take; lia). rewrite Er.  rewrite take_app_le by lia. done.
    + rewrite length_app, length_take. lia.
Qed.

(** The entry the bytes go to, grown if necessary, and what is in it. *)
Lemma write_spec w be a f buf : wf w -> files w !! a = Some f -> Z.of_nat (length buf) < 2 ^ 64 ->
  let e := entry w (f_fs f) (f_entry f) in
  (exists w', ramfs_write w be a buf = (VFS_ENOSPC, w') /\ wf w' /\ systems w' = systems w /\ s_root w' = s_root w /\ files w' = files w) \/
  (exists w' e', ramfs_write w be a buf = (0, w') /\ wf w' /\
    files w' = <[a := mkFile (f_fs f) (f_entry f) (f_offset f + Z.of_nat (length buf))]> (files w) /\
    (forall g j, entry w' g j = if decide (key g j = key (f_fs f) (f_entry f)) then e' else entry w g j) /\
    (f_offset f <= r_size e -> contents e' = a_write (contents e) (Z.to_nat (f_offset f)) buf) /\
    r_path e' = r_path e /\ r_kind e' = r_kind e /\ r_valid e' = r_valid e).
Proof.
  intros Hw Ef Hbuf e. destruct (wf_files _ Hw a f Ef) as (Ha & Ho & Hi & Hval). pose proof (wf_entry_at _ _ _ Hw Hi) as He. fold e in He.
  unfold ramfs_write. rewrite Ef. fold e. set (n := Z.of_nat (length buf)) in *. set (ne := u64 (f_offset f + n)).
  destruct ((0 <? n) && (ne <? f_offset f)) eqn:Ewrap; [left; by exists w|].
  assert (Hne : ne = f_offset f + n).
  { unfold ne in *. destruct (decide (f_offset f + n < 2 ^ 64)); [apply u64_small; lia|exfalso].
    assert (E : u64 (f_offset f + n) = f_offset f + n - 2 ^ 64).
    { rewrite <- (Z_mod_plus_full _ (-1) (2 ^ 64)), Z.mod_small; lia. }
    apply andb_false_iff in Ewrap as [?%Z.ltb_ge|?%Z.ltb_ge]; lia. }
  clearbody ne. subst ne. destruct (Z.ltb_spec (r_size e) (f_offset f + n)) as [Hgrow|Hfit].
  - destruct (kmalloc (heap w) (f_offset f + n)) as [[[na nb]|] h] eqn:Em.
    2:{ left. exists (set_heap w h). split_and!; try done. apply wf_set_heap; [done|]. by apply (kmalloc_none _ _ _ Em). }
    right. cbn [r_data r_path r_size r_kind r_valid fmap option_fmap option_map].
    destruct (kmalloc_some _ _ _ _ _ Em) as (_ & _ & _ & Hlen).
    destruct (contents_grown e buf (f_offset f) nb na He ltac:(lia) Hgrow ltac:(lia) Hval) as [He' Hc].
    set (nb' := match r_data e with Some _ => _ | None => _ end) in *.
    set (e' := mkEntry _ _ _ _ _) in *. set (w1 := set_entry _ _ _ e').
    assert (Hw1 : wf w1) by (apply (wf_swap_data w (f_fs f) (f_entry f) e' (f_offset f + n) na nb h); done).
    destruct (free_data_frame (set_heap w h) (r_data e)) as (E1 & E2 & E3 & _).
    assert (Ef1 : files w1 = files w) by (unfold w1; rewrite (proj2 (set_entry_frame _ _ _ _)), E3; done).
    exists (set_file w1 a (mkFile (f_fs f) (f_entry f) (f_offset f + n))), e'. split; [done|].
    split; [apply wf_move; [done|by rewrite Ef1|lia]|]. split; [cbn [set_file files]; by rewrite Ef1|]. split; [|done].
    intros g j. change (entry (set_file w1 a (mkFile (f_fs f) (f_entry f) (f_offset f + n))) g j) with (entry w1 g j). unfold w1.
    assert (Hent : forall g j, entry (free_data (set_heap w h) (r_data e)) g j = entry w g j).
    { intros g' [j'|]; cbn [entry]; unfold entries; rewrite ?E1, ?E2; done. }
    rewrite entry_set; [by rewrite Hent|]. destruct (f_entry f); [|done]. unfold in_table, entries in *. by rewrite E1.
  - right. destruct (contents_in_place e buf (f_offset f) He ltac:(lia) Hfit) as (He' & Hd' & Hc).
    set (e' := mkEntry _ _ _ _ _) in *. set (w1 := set_entry w (f_fs f) (f_entry f) e').
    assert (Hw1 : wf w1) by (apply (wf_keep w (f_fs f) (f_entry f) e'); done).
    assert (Ef1 : files w1 = files w) by (unfold w1; apply (proj2 (set_entry_frame _ _ _ _))).
    exists (set_file w1 a (mkFile (f_fs f) (f_entry f) (f_offset f + n))), e'. split; [done|].
    destruct He as (_ & Hs & _). split; [apply wf_move; [done|by rewrite Ef1|lia]|]. split; [cbn [set_file files]; by rewrite Ef1|]. split; [|done].
    intros g j. change (entry (set_file w1 a (mkFile (f_fs f) (f_entry f) (f_offset f + n))) g j) with (entry w1 g j). unfold w1. by rewrite entry_set.
Qed.

Lemma seek_spec w be a f off whence : wf w -> files w !! a = Some f -> - 2 ^ 62 <= off < 2 ^ 62 ->
  let size := r_size (entry w (f_fs f) (f_entry f)) in
  let base := if whence =? 0 then Some 0 else if whence =? 1 then Some (f_offset f) else if whence =? 2 then Some size else None in
  f_offset f < 2 ^ 62 -> size < 2 ^ 62 ->
  ramfs_seek w be a off whence =
    match base with
    | Some b => if (0 <=? b + off) && (b + off <=? size)
                then (b + off, set_file w a (mkFile (f_fs f) (f_entry f) (b + off))) else (VFS_EINVAL, w)
    | None => (VFS_EINVAL, w)
    end.
Proof.
  intros Hw Ef Hoff size base Hfo Hsz. destruct (wf_files _ Hw a f Ef) as (_ & Ho & Hi & _). destruct (wf_entry_at _ _ _ Hw Hi) as (_ & Hs & _).
  assert (Hs64 : forall x, - 2 ^ 63 <= x < 2 ^ 63 -> s64 x = x) by (intros x Hx; unfold s64; rewrite Z.mod_small; lia).
  assert (Hb : forall x, (if (x <? 0) || (size <? x) then (VFS_EINVAL, w) else (x, set_file w a (mkFile (f_fs f) (f_entry f) x))) =
    (if (0 <=? x) && (x <=? size) then (x, set_file w a (mkFile (f_fs f) (f_entry f) x)) else (VFS_EINVAL, w))).
  { intros x. destruct (Z.ltb_spec x 0), (Z.leb_spec 0 x), (Z.ltb_spec size x), (Z.leb_spec x size); cbn [orb andb]; try lia; done. }
  unfold ramfs_seek, base. rewrite Ef. fold size. destruct (whence =? 0); [apply Hb|]. destruct (whence =? 1).
  - rewrite Hs64 by lia. apply Hb.
  - destruct (whence =? 2); [|done]. rewrite Hs64 by lia. apply Hb.
Qed.

(** ** The invariant through every operation *)

Lemma first_free_spec w f i : first_free (entries w f) = Some i ->
  in_table w f (Some i) /\ r_valid (entry w f (Some i)) = false.
Proof.
  intros (e & E & Hv & _)%find_index_Some. split; [by apply (lookup_lt_Some _ _ e)|]. cbn [entry]. rewrite (nth_lookup_Some _ _ _ e) by done.
  by apply negb_true_iff.
Qed.

Lemma free_owns_nothing w f i : wf w -> in_table w f (Some i) -> r_valid (entry w f (Some i)) = false -> own w (key f (Some i)) = None.
Proof. intros Hw Hi Hv. rewrite own_entry by done. destruct (wf_entry_at _ _ _ Hw Hi) as (Hd & _). by rewrite Hd. Qed.

(** Putting a block-less entry into a free slot. *)
Lemma wf_claim w f i e : wf w -> in_table w f (Some i) -> r_valid (entry w f (Some i)) = false -> wf_entry e -> r_data e = None ->
  wf (set_entry w f (Some i) e).
Proof.
  intros Hw Hi Hv He Ed. apply wf_keep; [done|done|done|congruence|]. rewrite Ed. destruct (wf_entry_at _ _ _ Hw Hi) as (Hd & _). by rewrite Hd.
Qed.

Lemma wf_add_dir w f p r w' : wf w -> ramfs_add_dir w f p = (r, w') -> wf w'.
Proof.
  intros Hw E. unfold ramfs_add_dir in E. destruct (first_free (entries w f)) as [i|] eqn:Ei; [|by injection E as <- <-].
  apply first_free_spec in Ei as [Hi Hv]. apply pair_eq in E as [_ <-]. by apply wf_claim.
Qed.

(** A block filled with [size] bytes of the caller's data. *)
Lemma wf_entry_filled e p k b (data : option (list Z)) size : wf_entry e -> 0 <= size < 2 ^ 63 ->
  match b with Some (_, m) => size <= Z.of_nat (length m) | None => size = 0 end ->
  let b' := match data, 0 <? size with
            | Some d, true => (fun '(a, m) => (a, list_inserts 0 (take (Z.to_nat size) d) m)) <$> b
            | _, _ => b end in
  wf_entry (mkEntry p b' size k true) /\ fst <$> b' = fst <$> b.
Proof.
  intros He Hs Hb b'. unfold b'. destruct data as [d|], (0 <? size), b as [[a m]|]; cbn in *; unfold wf_entry; cbn; rewrite ?length_inserts; split_and!; try done; lia.
Qed.

Lemma wf_add_file w f p data size r w' : wf w -> 0 <= size -> ramfs_add_file w f p data size = (r, w') -> wf w'.
Proof.
  intros Hw Hs E. unfold ramfs_add_file in E. destruct (first_free (entries w f)) as [i|] eqn:Ei; [|by injection E as <- <-].
  apply first_free_spec in Ei as [Hi Hv]. pose proof (wf_entry_at _ _ _ Hw Hi) as He. set (e := entry w f (Some i)) in *.
  destruct (kmalloc (heap w) size) as [b h] eqn:Em. pose proof (free_owns_nothing _ _ _ Hw Hi Hv) as Hn.
  assert (Hok : match b with Some (_, m) => size <= Z.of_nat (length m) | None => 0 < size \/ size = 0 end /\ (b <> None -> size < 2 ^ 63)).
  { destruct b as [[a m]|]; [|split; [lia|done]]. destruct (kmalloc_some _ _ _ _ _ Em) as (_ & _ & _ & ?). lia. }
  destruct Hok as [Hok Hsz]. destruct b as [[a m]|].
  - apply pair_eq in E as [_ <-]. destruct (wf_entry_filled e (set_path e p) VFS_NODE_FILE (Some (a, m)) data size He ltac:(split; [done|by apply Hsz]) Hok) as [H1 H2].
    by apply (wf_fill w f (Some i) _ size (Some (a, m)) h).
  - destruct (Z.ltb_spec 0 size).
    + apply pair_eq in E as [_ <-]. apply (wf_fill w f (Some i) _ size None h); try done.
      destruct He as (Hd & Hsz' & Hdat). specialize (Hd Hv). rewrite Hd in Hdat. split; [done|]. split; [exact Hsz'|exact Hdat].
    + apply pair_eq in E as [_ <-]. assert (size = 0) by lia. subst size.
      destruct (wf_entry_filled e (set_path e p) VFS_NODE_FILE None data 0 He ltac:(lia) eq_refl) as [H1 H2].
      by apply (wf_fill w f (Some i) _ 0 None h).
Qed.

Lemma find_spec w f p i : ramfs_find (entries w f) p = Some i ->
  in_table w f (Some i) /\ r_valid (entry w f (Some i)) = true /\ cstr (r_path (entry w f (Some i))) = cstr p.
Proof.
  intros (e & E & Hv & _)%find_index_Some. apply andb_true_iff in Hv as [Hv Hp%Z.eqb_eq]. cbn [entry].
  rewrite (nth_lookup_Some _ _ _ e) by done. split; [by apply (lookup_lt_Some _ _ e)|]. split; [done|]. by apply strcmp_eq.
Qed.

Lemma wf_open_entry w f p fl oi w' : wf w -> open_entry w f p fl = (oi, w') ->
  wf w' /\ match oi with Some i => in_table w' f i /\ r_valid (entry w' f i) = true | None => True end.
Proof.
  intros Hw E. pose proof (proj2 (wf_root _ Hw)) as Hr. unfold open_entry in E. destruct (ramfs_find (entries w f) p) as [i|] eqn:Ef.
  { injection E as <- <-. apply find_spec in Ef as (Hi & Hv & _). done. }
  destruct (_ && _ && _); [by injection E as <- <-|]. destruct (has_flag fl VFS_O_CREAT); [|by injection E as <- <-].
  destruct (first_free (entries w f)) as [i|] eqn:Ei; [|by injection E as <- <-]. apply first_free_spec in Ei as [Hi Hv].
  apply pair_eq in E as [<- <-]. split; [by apply wf_claim|]. rewrite in_table_set, entry_set, decide_True by done. done.
Qed.

Lemma wf_ramfs_open w f p fl a w' : wf w -> ramfs_open w f p fl = (a, w') -> wf w' /\ (a = 0 \/ exists i, files w' !! a = Some (mkFile f i 0)).
Proof.
  intros Hw E. unfold ramfs_open in E. destruct (f =? 0); [injection E as <- <-; auto|].
  destruct (open_entry w f p fl) as [[i|] w1] eqn:Eo; [|injection E as <- <-; split; [|by left]; by apply (wf_open_entry w f p fl None)].
  destruct (wf_open_entry _ _ _ _ _ _ Hw Eo) as [Hw1 [Hi Hv]]. set (e := entry w1 f i) in *.
  destruct (_ && negb _); [injection E as <- <-; auto|].
  set (w2 := match _, r_data e with true, Some d => _ | _, _ => _ end) in E.
  assert (Hw2 : wf w2 /\ in_table w2 f i /\ r_valid (entry w2 f i) = true).
  { unfold w2. destruct (_ && _); [|done]. destruct (r_data e) as [d|] eqn:Ed; [|done].
    destruct (free_data_frame w1 (Some d)) as (E1 & _). assert (Hi1 : in_table (free_data w1 (Some d)) f i)
      by (destruct i; [|done]; unfold in_table, entries in *; by rewrite E1).
    rewrite in_table_set, entry_set, decide_True by done. split; [|done]. rewrite <- Ed. apply wf_drop_data; try done. }
  clearbody w2. destruct Hw2 as (Hw2 & Hi2 & Hv2). destruct (kmalloc (heap w2) SIZEOF_FILE) as [[[b m]|] h] eqn:Em; injection E as <- <-.
  - split; [by apply (wf_new_file w2 b m)|]. right. exists i. cbn [set_file files]. by rewrite lookup_insert_eq.
  - split; [|by left]. apply wf_set_heap; [done|]. by apply (kmalloc_none _ _ _ Em).
Qed.

Lemma wf_seek w be a off whence r w' : wf w -> ramfs_seek w be a off whence = (r, w') -> wf w'.
Proof.
  intros Hw E. unfold ramfs_seek in E. destruct (files w !! a) as [f|] eqn:Ef; [|by injection E as <- <-].
  destruct (wf_files _ Hw a f Ef) as (_ & _ & Hi & _). destruct (wf_entry_at _ _ _ Hw Hi) as (_ & Hs & _).
  assert (Hgo : forall x, (if (x <? 0) || (r_size (entry w (f_fs f) (f_entry f)) <? x) then (VFS_EINVAL, w)
    else (x, set_file w a (mkFile (f_fs f) (f_entry f) x))) = (r, w') -> wf w').
  { intros x. clear E. destruct ((x <? 0) || _) eqn:Eb; intros Ex; apply pair_eq in Ex as [_ <-]; [done|].
    apply orb_false_iff in Eb as [?%Z.ltb_ge ?%Z.ltb_ge]. apply wf_move; [done..|lia]. }
  destruct (whence =? 0); [by apply (Hgo off)|]. destruct (whence =? 1); [by apply (Hgo (s64 (f_offset f + off)))|].
  destruct (whence =? 2); [|by injection E as <- <-]. by apply (Hgo (s64 (r_size (entry w (f_fs f) (f_entry f)) + off))).
Qed.

Lemma wf_writefile w p data size r w' : wf w -> 0 <= size -> ramfs_root_writefile w p data size = (r, w') -> wf w'.
Proof.
  intros Hw Hs E. unfold ramfs_root_writefile in E. destruct (ramfs_find (entries w g_vfs_root_fs) p) as [i|] eqn:Ei; [|by apply (wf_add_file w g_vfs_root_fs p data size r)].
  apply find_spec in Ei as (Hi & Hv & _). pose proof (wf_entry_at _ _ _ Hw Hi) as He. set (e := entry w g_vfs_root_fs (Some i)) in *.
  rewrite Hv in E. destruct (Z.ltb_spec 0 size) as [Hp|Hp].
  - destruct (kmalloc (heap w) size) as [[[a m]|] h] eqn:Em.
    + destruct (kmalloc_some _ _ _ _ _ Em) as (_ & _ & _ & Hlen).
      destruct (wf_entry_filled e (r_path e) (r_kind e) (Some (a, m)) data size He ltac:(lia) ltac:(cbn; lia)) as [H1 H2].
      rewrite (proj2 (Z.ltb_lt 0 size)) in H1, H2 by done. apply pair_eq in E as [_ <-].
      by apply (wf_swap_data w g_vfs_root_fs (Some i) _ size a m h).
    + apply pair_eq in E as [_ <-]. apply wf_set_heap; [done|]. by apply (kmalloc_none _ _ _ Em).
  - assert (size = 0) by lia. subst size. apply pair_eq in E as [_ <-].
    destruct (wf_entry_filled e (r_path e) (r_kind e) None data 0 He ltac:(lia) eq_refl) as [H1 _]. destruct data; by apply wf_drop_data.
Qed.

End File.
End RamfsFile.
