(* ===== verification/RamfsVfs.v ===== *)
(** * kernel/vfs/ramfs.c: the theorems

    The invariant of the memory file system over all sequences of calls, the
    refinement of a handle to a list of bytes with a position, and what a
    process sees through the VFS. *)

From S2P Require Import Prelude CString Ringbuf Vfs Heap Ramfs RamfsInv RamfsFile.
From Stdlib Require Import String ZArith Lia.
From stdpp Require Import base list gmap numbers.
Open Scope Z_scope.

Module RamfsVfs.
Import CString Vfs Ramfs RamfsInv RamfsFile.

Section Thm.
Context {H : Type} `{!Kmalloc H}.
Implicit Types (w : world H).

(** A call of the file system.  Only open handles are closed. *)
Inductive rstep w : world H -> Prop :=
| rs_open f p fl a w' : ramfs_open w f p fl = (a, w') -> rstep w w'
| rs_close f a x : files w !! a = Some x -> rstep w (ramfs_close w f a)
| rs_read f a n r b w' : ramfs_read w f a n = (r, b, w') -> rstep w w'
| rs_write f a buf r w' : Z.of_nat (length buf) < 2 ^ 64 -> ramfs_write w f a buf = (r, w') -> rstep w w'
| rs_seek f a off wh r w' : ramfs_seek w f a off wh = (r, w') -> rstep w w'
| rs_readdir f a buf r o w' : ramfs_readdir w f a buf = (r, o, w') -> rstep w w'
| rs_stat f p out r o w' : ramfs_stat w f p out = (r, o, w') -> rstep w w'
| rs_unlink f p r w' : ramfs_unlink w f p = (r, w') -> rstep w w'
| rs_mkdir f p r w' : ramfs_mkdir w f p = (r, w') -> rstep w w'
| rs_root_mkdir p r w' : ramfs_root_mkdir w p = (r, w') -> rstep w w'
| rs_add_file f p data size r w' : 0 <= size -> ramfs_add_file w f p data size = (r, w') -> rstep w w'
| rs_writefile p data size r w' : 0 <= size -> ramfs_root_writefile w p data size = (r, w') -> rstep w w'.

(** The state after the mounts: tables of free entries, no handles. *)
Definition fresh_world w : Prop :=
  files w = ∅ /\ s_root w = s_root0 /\ forall f i e, entries w f !! i = Some e -> e = free_entry.

Lemma wf_fresh w : fresh_world w -> wf w.
Proof.
  intros (Hf & Hr & He). constructor.
  - intros f i e E. rewrite (He f i e E). done.
  - by rewrite Hr.
  - intros a f. by rewrite Hf, lookup_empty.
  - assert (Hn : forall k, own w k = None).
    { intros [f i| |a]; cbn [own].
      - destruct (entries w f !! i) as [e|] eqn:E; [|done]. by rewrite (He f i e E).
      - by rewrite Hr.
      - by rewrite Hf, lookup_empty. }
    constructor; intros *; rewrite ?Hn; done.
Qed.

Lemma wf_step w w' : wf w -> rstep w w' -> wf w'.
Proof.
  intros Hw Hst. destruct Hst as [f p fl a w' E|f a x E|f a n r b w' E|f a buf r w' Hb E|f a off wh r w' E|f a buf r o w' E|f p out r o w' E|f p r w' E|f p r w' E|p r w' E|f p data size r w' Hs E|p data size r w' Hs E].
  - by apply (wf_ramfs_open w f p fl a).
  - apply wf_close; [done|]. by exists x.
  - destruct (files w !! a) as [f'|] eqn:Ef.
    + destruct (read_spec w f a f' n Hw Ef) as (w1 & E1 & Hw1 & _). congruence.
    + unfold ramfs_read in E. rewrite Ef in E. by injection E as <- <- <-.
  - destruct (files w !! a) as [f'|] eqn:Ef.
    + destruct (write_spec w f a f' buf Hw Ef Hb) as [(w1 & E1 & Hw1 & _)|(w1 & e' & E1 & Hw1 & _)]; congruence.
    + unfold ramfs_write in E. rewrite Ef in E. by injection E as <- <-.
  - by apply (wf_seek w f a off wh r).
  - unfold ramfs_readdir in E. destruct (files w !! a); [|by injection E as <- <- <-]. destruct (list_loop _ _ _ _ _ _). by apply pair_eq in E as [_ <-].
  - unfold ramfs_stat in E. destruct (f =? 0); [by apply pair_eq in E as [_ <-]|]. destruct (ramfs_find _ _); by apply pair_eq in E as [_ <-].
  - by apply pair_eq in E as [_ <-].
  - unfold ramfs_mkdir in E. destruct (f =? 0); [by apply pair_eq in E as [_ <-]|]. destruct (ramfs_add_dir w f p) as [rc w1] eqn:E1.
    apply pair_eq in E as [_ <-]. by apply (wf_add_dir w f p rc).
  - unfold ramfs_root_mkdir in E. destruct (ramfs_find _ _); [by apply pair_eq in E as [_ <-]|]. by apply (wf_add_dir w g_vfs_root_fs p r).
  - by apply (wf_add_file w f p data size r).
  - by apply (wf_writefile w p data size r).
Qed.


(** C23: a handle of the memory file system is a list of bytes with a position.
    Reading returns the bytes from the position on, as many as asked for and
    there are, and advances by them; writing at a position within the file
    replaces the bytes there and appends what goes beyond, or fails with
    [VFS_ENOSPC] and changes nothing when no memory is left or the size
    overflows; no other file changes, through any handle. *)
Theorem ramfs_file_refines w be a f (n : nat) buf : wf w -> files w !! a = Some f ->
  let c := contents (entry w (f_fs f) (f_entry f)) in let pos := Z.to_nat (f_offset f) in
  (exists w', ramfs_read w be a n = (0, a_read c pos n, w') /\ (forall g j, entry w' g j = entry w g j) /\
     files w' = <[a := mkFile (f_fs f) (f_entry f) (f_offset f + Z.of_nat (length (a_read c pos n)))]> (files w)) /\
  (Z.of_nat (length buf) < 2 ^ 64 -> (pos <= length c)%nat ->
   (exists w', ramfs_write w be a buf = (VFS_ENOSPC, w') /\ files w' = files w /\ (forall g j, entry w' g j = entry w g j)) \/
   (exists w', ramfs_write w be a buf = (0, w') /\
     files w' = <[a := mkFile (f_fs f) (f_entry f) (f_offset f + Z.of_nat (length buf))]> (files w) /\
     contents (entry w' (f_fs f) (f_entry f)) = a_write c pos buf /\
     (forall g j, key g j <> key (f_fs f) (f_entry f) -> entry w' g j = entry w g j))).
Proof.
  intros Hw Ef c pos. assert (Hsame : forall w', systems w' = systems w -> s_root w' = s_root w -> forall g j, entry w' g j = entry w g j).
  { intros w' E1 E2 g [j|]; unfold entry, entries; by rewrite ?E1, ?E2. }
  split.
  - destruct (read_spec w be a f n Hw Ef) as (w' & E & _ & _ & E1 & E2 & E3). exists w'. auto.
  - intros Hb Hp. destruct (wf_files _ Hw a f Ef) as (_ & Ho & Hi & _). pose proof (wf_entry_at _ _ _ Hw Hi) as He.
    assert (Hle : f_offset f <= r_size (entry w (f_fs f) (f_entry f))).
    { unfold c, pos in Hp. rewrite contents_len in Hp by done. destruct He as (_ & ? & _). lia. }
    destruct (write_spec w be a f buf Hw Ef Hb) as [(w' & E & _ & E1 & E2 & E3)|(w' & e' & E & _ & E1 & E2 & E3 & _)].
    + left. exists w'. auto.
    + right. exists w'. split; [done|]. split; [done|]. split.
      * rewrite E2, decide_True by done. by apply E3.
      * intros g j Hk. by rewrite E2, decide_False.
Qed.

(** ** Through the VFS *)

(** Descriptor [fd] of [pid] is a file of the memory file system with handle
    [a]. *)
Definition ram_fd (s : vfs_state (world H)) (pid fd i : nat) (a : Z) : Prop :=
  (2 < fd < MAX_FDS)%nat /\ fds s !! (pid, fd) = Some i /\ ring (node s i) = None /\ port_id (node s i) = 0 /\
  bctx (node s i) = a /\ exists b, backend (node s i) = Some b /\ ops (be_at s b) = ramfs_ops.

Lemma ram_fd_node s pid fd i a : ram_fd s pid fd i a -> fd_node s (Some pid) fd = Some i /\ (fd <=? 2)%nat = false.
Proof.
  intros (Hfd & Hi & _). unfold fd_node. rewrite (proj2 (Nat.leb_gt MAX_FDS fd)), (proj2 (Nat.leb_gt fd 2)) by lia. done.
Qed.

(** Changing the files and the offset of a node keeps it such a descriptor. *)
Lemma ram_fd_move s pid fd i a w o : ram_fd s pid fd i a ->
  ram_fd (set_node (set_fs s w) i (set_offset (node (set_fs s w) i) o)) pid fd i a.
Proof.
  intros (Hfd & Hi & Hr & Hp & Ha & b & Hb & Ho). unfold ram_fd.
  assert (E : node (set_node (set_fs s w) i (set_offset (node (set_fs s w) i) o)) i = set_offset (node s i) o)
    by (unfold node, set_node; cbn [g_nodes]; by rewrite lookup_insert_eq).
  rewrite E. split_and!; try done; try lia. by exists b.
Qed.

Context (port_send : vfs_state (world H) -> Z -> list Z -> Z * vfs_state (world H)).

Lemma vfs_write_ram s pid fd i a buf r w' : ram_fd s pid fd i a -> buf <> [] ->
  (forall b, ramfs_write (fs s) b a buf = (r, w')) ->
  exists s', vfs_write port_send s (Some pid) fd (Some buf) = Some (r, s') /\ fs s' = w' /\ ram_fd s' pid fd i a.
Proof.
  intros Hfd Hne E. destruct (ram_fd_node _ _ _ _ _ Hfd) as [En E2]. pose proof Hfd as (_ & _ & Hr & Hp & Ha & b & Hb & Ho).
  unfold vfs_write. rewrite En, E2. cbn [default from_option id]. destruct (Nat.eqb_spec (length buf) 0) as [E0|_]; [by apply nil_length_inv in E0|].
  cbn [orb]. rewrite Hr, Hp, Hb. cbn [truthy negb Z.eqb mbind option_bind]. rewrite Ho. cbn [ramfs_ops op_write fmap option_fmap option_map].
  rewrite Ha, E. eexists. split; [reflexivity|]. destruct (r =? 0); [|split; [done|]].
  - split; [done|]. by apply ram_fd_move.
  - pose proof (ram_fd_move s pid fd i a w' 0 Hfd) as _. destruct Hfd as (? & ? & ? & ? & ? & ?). done.
Qed.

Lemma vfs_seek_ram s pid fd i a off wh r w' : ram_fd s pid fd i a -> (forall b, ramfs_seek (fs s) b a off wh = (r, w')) -> 0 <= r ->
  exists s', vfs_seek s (Some pid) fd off wh = (r, s') /\ fs s' = w' /\ ram_fd s' pid fd i a.
Proof.
  intros Hfd E Hr0. destruct (ram_fd_node _ _ _ _ _ Hfd) as [En E2]. pose proof Hfd as (_ & _ & Hr & Hp & Ha & b & Hb & Ho).
  unfold vfs_seek. rewrite En, E2, Hb. cbn [mbind option_bind]. rewrite Ho. cbn [ramfs_ops op_seek fmap option_fmap option_map].
  rewrite Ha, E, (proj2 (Z.leb_le 0 r)) by done. eexists. split; [reflexivity|]. split; [done|]. by apply ram_fd_move.
Qed.

Lemma vfs_read_ram s pid fd i a n bs w' : ram_fd s pid fd i a -> (forall b, ramfs_read (fs s) b a n = (0, bs, w')) ->
  exists s', vfs_read s (Some pid) fd true n true = Some (0, bs, s') /\ fs s' = w' /\ ram_fd s' pid fd i a.
Proof.
  intros Hfd E. destruct (ram_fd_node _ _ _ _ _ Hfd) as [En E2]. pose proof Hfd as (_ & _ & Hr & Hp & Ha & b & Hb & Ho).
  unfold vfs_read. rewrite En, E2. cbn [negb orb]. rewrite Hr, Hb. cbn [mbind option_bind]. rewrite Ho. cbn [ramfs_ops op_read fmap option_fmap option_map].
  rewrite Ha, E. eexists. split; [reflexivity|]. split; [done|]. by apply ram_fd_move.
Qed.

Lemma a_write_read c pos buf : (pos <= length c)%nat -> a_read (a_write c pos buf) pos (length buf) = buf.
Proof.
  intros Hp. unfold a_read, a_write. rewrite drop_app_length' by (rewrite length_take; lia). by apply take_app_length'.
Qed.

(** what a process writes it reads back.  Through the VFS, a write of a
    non-empty buffer to a descriptor of the memory file system whose position
    lies within the file either fails with [VFS_ENOSPC] or succeeds, and then
    seeking back to the position and reading as many bytes returns the buffer,
    whatever the heap does. *)
Theorem vfs_write_read s pid fd i a f buf : wf (fs s) -> ram_fd s pid fd i a -> files (fs s) !! a = Some f ->
  buf <> [] -> Z.of_nat (length buf) < 2 ^ 64 -> f_offset f <= r_size (entry (fs s) (f_fs f) (f_entry f)) ->
  (exists s1, vfs_write port_send s (Some pid) fd (Some buf) = Some (VFS_ENOSPC, s1)) \/
  (exists s1 s2 s3, vfs_write port_send s (Some pid) fd (Some buf) = Some (0, s1) /\
    vfs_seek s1 (Some pid) fd (f_offset f) 0 = (f_offset f, s2) /\
    vfs_read s2 (Some pid) fd true (length buf) true = Some (0, buf, s3)).
Proof.
  intros Hw Hfd Ef Hne Hb Hle. destruct (wf_files _ Hw a f Ef) as (_ & Ho & Hi & _). pose proof (wf_entry_at _ _ _ Hw Hi) as He.
  destruct (write_spec (fs s) 0 a f buf Hw Ef Hb) as [(w1 & E & _)|(w1 & e' & E & Hw1 & Ef1 & Een & Hc & _)].
  { left. destruct (vfs_write_ram s pid fd i a buf _ _ Hfd Hne (fun _ => E)) as (s1 & Es & _). by exists s1. }
  right. destruct (vfs_write_ram s pid fd i a buf _ _ Hfd Hne (fun _ => E)) as (s1 & Es & Efs & Hfd1). exists s1. subst w1.
  set (f1 := mkFile (f_fs f) (f_entry f) (f_offset f + Z.of_nat (length buf))) in *.
  assert (Ea : files (fs s1) !! a = Some f1) by (by rewrite Ef1, lookup_insert_eq).
  assert (Eent : entry (fs s1) (f_fs f) (f_entry f) = e') by (by rewrite Een, decide_True).
  destruct (wf_files _ Hw1 a f1 Ea) as (_ & _ & Hi1 & _). pose proof (wf_entry_at _ _ _ Hw1 Hi1) as He1. cbn [f1 f_fs f_entry] in He1. rewrite Eent in He1.
  pose proof (contents_len _ He) as Hl. pose proof (contents_len _ He1) as Hl1. rewrite (Hc Hle) in Hl1.
  assert (Hsz : f_offset f <= r_size e').
  { unfold a_write in Hl1. rewrite !length_app, length_take in Hl1. destruct He as (_ & ? & _), He1 as (_ & ? & _). lia. }
  set (f2 := mkFile (f_fs f) (f_entry f) (f_offset f)).
  assert (Eseek : forall b, ramfs_seek (fs s1) b a (f_offset f) 0 = (f_offset f, set_file (fs s1) a f2)).
  { intros b. unfold ramfs_seek. rewrite Ea. cbn [f1 f_fs f_entry Z.eqb]. rewrite Eent.
    destruct (Z.ltb_spec (f_offset f) 0), (Z.ltb_spec (r_size e') (f_offset f)); try lia. done. }
  destruct (vfs_seek_ram s1 pid fd i a _ _ _ _ Hfd1 Eseek ltac:(lia)) as (s2 & Es2 & Efs2 & Hfd2). exists s2.
  assert (Hw2 : wf (fs s2)) by (rewrite Efs2; apply (wf_move (fs s1) a f1); [done..|lia]).
  assert (Ea2 : files (fs s2) !! a = Some f2) by (rewrite Efs2; cbn [set_file files]; by rewrite lookup_insert_eq).
  destruct (read_spec (fs s2) 0 a f2 (length buf) Hw2 Ea2) as (w3 & E3 & _).
  assert (Eb : a_read (contents (entry (fs s2) (f_fs f2) (f_entry f2))) (Z.to_nat (f_offset f2)) (length buf) = buf).
  { rewrite Efs2. change (entry (set_file (fs s1) a f2) (f_fs f2) (f_entry f2)) with (entry (fs s1) (f_fs f) (f_entry f)).
    rewrite Eent, (Hc Hle). apply a_write_read. rewrite Hl. cbn [f2 f_offset]. lia. }
  rewrite Eb in E3. destruct (vfs_read_ram s2 pid fd i a _ _ _ Hfd2 (fun _ => E3)) as (s3 & Es3 & _). by exists s3.
Qed.

End Thm.
(** ** A heap, and a file on it *)

(** A heap of blocks of up to 4096 bytes, filled with 0xAA. *)
Definition demo_kmalloc (h : gset Z) (n : Z) : option (Z * list Z) * gset Z :=
  if (0 <? n) && (n <=? 4096)
  then let a := fresh ({[0]} ∪ h) in (Some (a, replicate (Z.to_nat n) 170), {[a]} ∪ h) else (None, h).

#[export] Instance demo_heap : Kmalloc (gset Z).
Proof.
  refine {| kmalloc := demo_kmalloc; kfree h a := h ∖ {[a]}; blocks h := h |}; unfold demo_kmalloc.
  - intros h n a b h'. destruct ((0 <? n) && (n <=? 4096)) eqn:E; [|discriminate]. cbv zeta.
    pose proof (is_fresh ({[0]} ∪ h : gset Z)) as Hf. intros E'. injection E' as <- <- <-.
    apply andb_true_iff in E as [?%Z.ltb_lt ?%Z.leb_le].
    split; [set_solver|]. split; [set_solver|]. split; [done|]. rewrite length_replicate. lia.
  - intros h n h'. destruct (_ && _); [discriminate|]. intros E'. by injection E' as <-.
  - done.
Defined.

Definition demo_world : world (gset Z) := mkW ∅ ∅ s_root0 ∅.
Definition demo_vfs : vfs_state (world (gset Z)) := (ramfs_mount_root (vfs_init (mkVfs ∅ [] 0 ∅ ∅ demo_world))).2.
Definition demo_open : vfs_state (world (gset Z)) :=
  (vfs_open demo_vfs (Some (str "/notes")) (Z.lor VFS_O_WRITE VFS_O_CREAT) (Some 1%nat)).2.
Definition demo_file : ramfs_file_t := mkFile g_vfs_root_fs (Some 0%nat) 0.

Lemma demo_fresh : fresh_world (fs demo_vfs).
Proof.
  split; [vm_compute; reflexivity|]. split; [vm_compute; reflexivity|].
  change (fs demo_vfs) with (cleared demo_world g_vfs_root_fs). intros f i e. unfold cleared. rewrite entries_set. case_decide.
  - intros [-> _]%lookup_replicate. done.
  - unfold entries, demo_world. cbn [systems]. by rewrite lookup_empty.
Qed.

Lemma demo_opened : ramfs_open (fs demo_vfs) g_vfs_root_fs (str "/notes") (Z.lor VFS_O_WRITE VFS_O_CREAT) =
  (bctx (node demo_open 1), fs demo_open).
Proof. vm_compute. reflexivity. Qed.


Lemma demo_wf : wf (fs demo_open).
Proof.
  assert (Hgen : forall x w, ramfs_open (fs demo_vfs) g_vfs_root_fs (str "/notes") (Z.lor VFS_O_WRITE VFS_O_CREAT) = (x, w) -> wf w).
  { intros x w E. exact (proj1 (wf_ramfs_open _ _ _ _ _ _ (wf_fresh _ demo_fresh) E)). }
  exact (Hgen _ _ demo_opened).
Qed.

Definition demo_handle : Z := bctx (node demo_open 1).
Lemma demo_handle_file : files (fs demo_open) !! demo_handle = Some demo_file.
Proof. vm_compute. reflexivity. Qed.

Lemma ramfs_file_refines_witness : exists w', ramfs_read (fs demo_open) 0 demo_handle 5 = (0, [], w').
Proof.
  destruct (ramfs_file_refines (fs demo_open) 0 demo_handle demo_file 5 [1; 2; 3] demo_wf demo_handle_file) as [(w' & E & _) _].
  exists w'. exact E.
Defined.

Lemma vfs_open_backends {W} (s : vfs_state W) p fl c : g_backends (vfs_open s p fl c).2 = g_backends s.
Proof.
  assert (Hc : forall (s : vfs_state W) b x, g_backends (close_bctx s b x) = g_backends s)
    by (intros s' [i|] x; [|done]; unfold close_bctx; by destruct (op_close _)).
  assert (Ha : forall (s : vfs_state W), g_backends (alloc_node_id s).2 = g_backends s)
    by (intros s'; unfold alloc_node_id; by destruct (alloc_scan _ _ _ _)).
  unfold vfs_open. repeat case_match; subst; cbn [snd set_fd set_node set_fs g_backends] in *; rewrite ?Hc; try done;
  repeat match goal with E : alloc_node_id ?x = (_, ?y) |- _ => pose proof (Ha x) as Ea; rewrite E in Ea; cbn [snd] in Ea; clear E end;
  simplify_eq; cbn [set_fd set_node set_fs g_backends] in *; congruence.
Qed.

Lemma demo_fd : ram_fd demo_open 1 3 1 demo_handle.
Proof.
  unfold ram_fd. split; [unfold MAX_FDS; lia|]. split; [vm_compute; reflexivity|]. split; [vm_compute; reflexivity|].
  split; [vm_compute; reflexivity|]. split; [vm_compute; reflexivity|]. exists 0%nat. split; [vm_compute; reflexivity|].
  unfold be_at, demo_open. rewrite vfs_open_backends. reflexivity.
Qed.

Lemma vfs_write_read_witness : exists s1 s2 s3,
  vfs_write (fun s _ _ => (0, s)) demo_open (Some 1%nat) 3 (Some [104; 105]) = Some (0, s1) /\
  vfs_seek s1 (Some 1%nat) 3 0 0 = (0, s2) /\ vfs_read s2 (Some 1%nat) 3 true 2 true = Some (0, [104; 105], s3).
Proof.
  assert (Hle : f_offset demo_file <= r_size (entry (fs demo_open) (f_fs demo_file) (f_entry demo_file)))
    by (apply Z.leb_le; vm_compute; reflexivity).
  destruct (vfs_write_read (fun s _ _ => (0, s)) demo_open 1 3 1 demo_handle demo_file [104; 105] demo_wf demo_fd demo_handle_file
    ltac:(discriminate) ltac:(reflexivity) Hle) as [[s1 E]|Hok]; [|exact Hok].
  exfalso. apply (f_equal (fmap fst)) in E. vm_compute in E. discriminate E.
Defined.

(** ** Two defects *)

(** A file truncated through one handle while another handle is positioned
    behind the new end: the gap holds what the heap block held. *)
Definition gap_world : world (gset Z) :=
  let w := (ramfs_write (fs demo_open) g_vfs_root_fs demo_handle [1; 2; 3; 4]).2 in
  let w := (ramfs_open w g_vfs_root_fs (str "/notes") (Z.lor VFS_O_WRITE VFS_O_TRUNC)).2 in
  (ramfs_write w g_vfs_root_fs demo_handle [5]).2.

Theorem ramfs_gap_exposes_heap : contents (entry gap_world g_vfs_root_fs (Some 0%nat)) = [170; 170; 170; 170; 5].
Proof. vm_compute. reflexivity. Qed.

(** A file in a subdirectory: the subdirectory is listed with its slash, no
    terminator is stored, and it is listed once per file. *)
Definition sub_world : world (gset Z) :=
  let w := fs demo_vfs in
  let w := (ramfs_add_file w g_vfs_root_fs (str "/a/x") None 1).2 in
  let w := (ramfs_add_file w g_vfs_root_fs (str "/a/y") None 1).2 in
  (ramfs_open w g_vfs_root_fs (str "/") VFS_O_DIR).2.
Definition dirty : vfs_dirent_t := mkDirent (replicate 256 88) 0 0.

Theorem ramfs_readdir_subdirectory : exists d,
  (ramfs_readdir sub_world g_vfs_root_fs (fresh ({[0]} ∪ heap (ramfs_add_file (ramfs_add_file (fs demo_vfs) g_vfs_root_fs (str "/a/x") None 1).2 g_vfs_root_fs (str "/a/y") None 1).2)) (replicate 4 dirty)).1
  = (0, ([d; d; dirty; dirty], Some 2%nat)) /\ d_name d = str "a/" ++ replicate 254 88.
Proof. eexists. split; vm_compute; reflexivity. Qed.

End RamfsVfs.
