(* ===== verification/Block.v ===== *)
(** * kernel/block/block.c: the table of block devices

    A device is a record of a name, a geometry and two functions over the state
    [D] of all disks.  The C table of eight slots is a list; a slot whose name
    is empty is free. *)

From S2P Require Import Prelude CString.
From Stdlib Require Import String ZArith Lia.
From stdpp Require Import base list numbers.
Open Scope Z_scope.

Module Block.
Import CString.

Definition BLOCK_MAX_DEVS : nat := 8.
Definition BLOCK_NAME_LEN : nat := 32.

(** A null function pointer. *)
Definition absent {A} (o : option A) : bool := match o with Some _ => false | None => true end.

Section Dev.
Context {D : Type}.

(** [read dev lba count] gives the result code, the bytes if it succeeded, and
    the new state. *)
Record block_dev_t := mkDev {
  name : list Z; sector_size : Z; sector_count : Z; dctx : Z;
  read : option (D -> Z -> Z -> Z * list Z * D);
  write : option (D -> Z -> Z -> list Z -> Z * D) }.

Definition no_dev : block_dev_t := mkDev (replicate BLOCK_NAME_LEN 0) 0 0 0 None None.

Definition block_init : list block_dev_t := replicate BLOCK_MAX_DEVS no_dev.

Definition used (d : block_dev_t) : bool := truthy (hd 0 (name d)).

Definition block_register (devs : list block_dev_t) (tmpl : option block_dev_t) : Z * list block_dev_t :=
  match tmpl with
  | None => (-1, devs)
  | Some t =>
      if negb (used t) || absent (read t) || absent (write t) || (sector_size t =? 0)
      then (-1, devs)
      else match find_index (fun d => negb (used d)) devs with
           | Some i => (0, <[i := t]> devs)
           | None => (-1, devs)
           end
  end.

(** The devices are identified by their slot. *)
Definition block_find (devs : list block_dev_t) (n : option (list Z)) : option nat :=
  match n with
  | None => None
  | Some n => find_index (fun d => used d && (strcmp (name d) n =? 0)) devs
  end.

Definition block_first (devs : list block_dev_t) : option nat := find_index used devs.

Fixpoint block_count (devs : list block_dev_t) : Z :=
  match devs with [] => 0 | d :: t => (if used d then 1 else 0) + block_count t end.

(** [n]: used slots seen so far; [i]: the slot. *)
Fixpoint block_get_from (devs : list block_dev_t) (i : nat) (n idx : Z) : option nat :=
  match devs with
  | [] => None
  | d :: t => if negb (used d) then block_get_from t (S i) n idx
              else if n =? idx then Some i else block_get_from t (S i) (n + 1) idx
  end.
Definition block_get (devs : list block_dev_t) (idx : Z) : option nat := block_get_from devs 0 0 idx.

End Dev.
Arguments block_dev_t D : clear implicits.

(** ** Registration and lookup *)

Section Thm.
Context {D : Type}.
Implicit Types (devs : list (block_dev_t D)).

Lemma block_get_spec devs : forall i n idx,
  (forall k, block_get_from devs i n idx = Some k ->
     exists d, (i <= k)%nat /\ devs !! (k - i)%nat = Some d /\ used d = true /\ block_count (take (k - i) devs) = idx - n) /\
  (n <= idx < n + block_count devs -> is_Some (block_get_from devs i n idx)) /\
  (idx < n \/ n + block_count devs <= idx -> block_get_from devs i n idx = None) /\ 0 <= block_count devs.
Proof.
  induction devs as [|d devs IH]; intros i n idx; cbn [block_get_from block_count].
  { split_and!; [done| |done|done]. lia. }
  destruct (used d) eqn:Eu; cbn [negb].
  - destruct (IH (S i) (n + 1) idx) as (H1 & H2 & H3 & H4). destruct (Z.eqb_spec n idx) as [->|Hne].
    + split_and!; [|done|lia|lia]. intros k [= <-]. exists d. rewrite Nat.sub_diag. split_and!; try done. cbn. lia.
    + split_and!; [|intros; apply H2; lia|intros; apply H3; lia|lia]. intros k Ek. destruct (H1 k Ek) as (d' & Hk & Hd & Hu & Hc).
      exists d'. replace (k - i)%nat with (S (k - S i)) by lia. cbn [lookup list_lookup take block_count]. rewrite Eu. split_and!; try done; lia.
  - destruct (IH (S i) n idx) as (H1 & H2 & H3 & H4). split_and!; [|intros; apply H2; lia|intros; apply H3; lia|lia].
    intros k Ek. destruct (H1 k Ek) as (d' & Hk & Hd & Hu & Hc).
    exists d'. replace (k - i)%nat with (S (k - S i)) by lia. cbn [lookup list_lookup take block_count]. rewrite Eu. split_and!; try done; lia.
Qed.

End Thm.
End Block.
