(* ===== verification/Crc.v ===== *)
(** * kernel/block/gpt.c: the CRC of the partition table

    The table-driven CRC against the shift register it stands for. *)

From S2P Require Import Prelude.
From Stdlib Require Import ZArith Lia.
From stdpp Require Import base list numbers.
Open Scope Z_scope.

Module Crc.

Definition POLY : Z := 0xEDB88320.

(** One round of the inner loop of [crc32_init]. *)
Definition crc_shift (c : Z) : Z :=
  if truthy (Z.land c 1) then Z.lxor (Z.shiftr c 1) POLY else Z.shiftr c 1.

(** The static table and [crc32_init_done]. *)
Record crc_state := mkCrc { crc32_table : list Z; crc32_init_done : bool }.
Definition crc_boot : crc_state := mkCrc (replicate 256 0) false.

Definition crc32_init (st : crc_state) : crc_state :=
  if crc32_init_done st then st
  else mkCrc (map (fun i => Nat.iter 8 crc_shift (Z.of_nat i)) (seq 0 256)) true.

Fixpoint crc_loop (tab : list Z) (c : Z) (buf : list Z) : Z :=
  match buf with
  | [] => c
  | p :: buf' => crc_loop tab (Z.lxor (nth (Z.to_nat (Z.land (Z.lxor c p) 0xFF)) tab 0) (Z.shiftr c 8)) buf'
  end.

Definition crc32_compute (st : crc_state) (buf : list Z) : Z * crc_state :=
  let st := crc32_init st in
  (Z.lxor (crc_loop (crc32_table st) 0xFFFFFFFF buf) 0xFFFFFFFF, st).

(** ** The shift register: one bit of the message at a time, lowest first *)

Definition feed_bit (c : Z) (b : bool) : Z :=
  if xorb (Z.testbit c 0) b then Z.lxor (Z.shiftr c 1) POLY else Z.shiftr c 1.
Definition byte_bits (p : Z) : list bool := map (fun i => Z.testbit p (Z.of_nat i)) (seq 0 8).
Definition crc_spec (buf : list Z) : Z :=
  Z.lxor (foldl feed_bit 0xFFFFFFFF (concat (map byte_bits buf))) 0xFFFFFFFF.

(** ** Linearity *)

Lemma crc_shift_eq c : crc_shift c = feed_bit c false.
Proof.
  unfold crc_shift, feed_bit. rewrite xorb_false_r. change 1 with (Z.ones 1) at 1. rewrite Z.land_ones by lia. change (2 ^ 1) with 2.
  rewrite <- Z.bit0_mod. by destruct (Z.testbit c 0).
Qed.

(** The register is linear: a message bit counts like the lowest bit of the
    register. *)
Lemma feed_bit_lxor c b : feed_bit c b = crc_shift (Z.lxor c (Z.b2z b)).
Proof.
  rewrite crc_shift_eq. unfold feed_bit. rewrite xorb_false_r, Z.lxor_spec.
  assert (E : Z.testbit (Z.b2z b) 0 = b) by by destruct b. rewrite E.
  assert (Es : Z.shiftr (Z.lxor c (Z.b2z b)) 1 = Z.shiftr c 1).
  { rewrite Z.shiftr_lxor. replace (Z.shiftr (Z.b2z b) 1) with 0 by (by destruct b). apply Z.lxor_0_r. }
  by rewrite Es.
Qed.

Lemma crc_shift_lxor a b : crc_shift (Z.lxor a b) = Z.lxor (crc_shift a) (crc_shift b).
Proof.
  rewrite !crc_shift_eq. unfold feed_bit. rewrite !xorb_false_r, Z.lxor_spec, Z.shiftr_lxor.
  apply Z.bits_inj'. intros n Hn. destruct (Z.testbit a 0), (Z.testbit b 0); cbn [xorb]; rewrite !Z.lxor_spec;
    destruct (Z.testbit (Z.shiftr a 1) n), (Z.testbit (Z.shiftr b 1) n), (Z.testbit POLY n); done.
Qed.

Lemma iter_S k (x : Z) : Nat.iter (S k) crc_shift x = crc_shift (Nat.iter k crc_shift x).
Proof. done. Qed.

Lemma iter_shift_lxor k a b : Nat.iter k crc_shift (Z.lxor a b) = Z.lxor (Nat.iter k crc_shift a) (Nat.iter k crc_shift b).
Proof. induction k as [|k IH]; [done|]. rewrite !iter_S. rewrite IH. apply crc_shift_lxor. Qed.

(** Shifting out zeros. *)
Lemma iter_shift_zeros k : forall x, Nat.iter k crc_shift (Z.shiftl x (Z.of_nat k)) = x.
Proof.
  induction k as [|k IH]; intros x; [apply Z.shiftl_0_r|]. rewrite !iter_S.
  replace (Z.shiftl x (Z.of_nat (S k))) with (Z.shiftl (Z.shiftl x 1) (Z.of_nat k)) by (rewrite Z.shiftl_shiftl by lia; f_equal; lia).
  rewrite IH. unfold crc_shift. change 1 with (Z.ones 1) at 2. rewrite Z.land_ones by lia. rewrite Z.shiftl_mul_pow2 by lia.
  change (2 ^ 1) with 2. rewrite Z.mod_mul by lia. cbn. rewrite Z.shiftr_div_pow2 by lia. change (2 ^ 1) with 2. apply Z.div_mul. lia.
Qed.

Lemma split_byte x : Z.lxor (Z.shiftl (Z.shiftr x 8) 8) (Z.land x 0xFF) = x.
Proof.
  apply Z.bits_inj'. intros n Hn. rewrite Z.lxor_spec, Z.land_spec. change 0xFF with (Z.ones 8).
  destruct (Z.ltb_spec n 8).
  - rewrite Z.shiftl_spec_low, Z.ones_spec_low by lia. by rewrite andb_true_r.
  - rewrite Z.shiftl_spec, Z.shiftr_spec, Z.ones_spec_high by lia. rewrite andb_false_r, xorb_false_r. f_equal. lia.
Qed.

(** One byte at once. *)
Lemma iter_shift_byte x : Nat.iter 8 crc_shift x = Z.lxor (Nat.iter 8 crc_shift (Z.land x 0xFF)) (Z.shiftr x 8).
Proof.
  rewrite <- (split_byte x) at 1. rewrite iter_shift_lxor, (iter_shift_zeros 8). apply Z.lxor_comm.
Qed.

(** Eight message bits fed one after the other are eight shifts of the
    register with the byte added. *)
Lemma feed_bits k : forall c p, foldl feed_bit c (map (fun i => Z.testbit p (Z.of_nat i)) (seq 0 k)) =
  Nat.iter k crc_shift (Z.lxor c (Z.land p (Z.ones (Z.of_nat k)))).
Proof.
  induction k as [|k IH]; intros c p; [cbn; by rewrite Z.land_0_r, Z.lxor_0_r|].
  rewrite seq_S, map_app, foldl_app, IH. cbn [map foldl Nat.add]. rewrite feed_bit_lxor. rewrite !iter_S. f_equal.
  rewrite <- (iter_shift_zeros k (Z.b2z (Z.testbit p (Z.of_nat k)))) at 1. rewrite <- iter_shift_lxor. f_equal. rewrite Z.lxor_assoc. f_equal.
  apply Z.bits_inj'. intros n Hn. rewrite Z.lxor_spec, !Z.land_spec. destruct (Z.lt_total n (Z.of_nat k)) as [Hlt|[->|Hgt]].
  - rewrite Z.shiftl_spec_low, !Z.ones_spec_low by lia. by rewrite xorb_false_r.
  - rewrite Z.shiftl_spec, Z.sub_diag, Z.ones_spec_high, Z.ones_spec_low by lia. rewrite Z.b2z_bit0, andb_false_r, andb_true_r. by destruct (Z.testbit p (Z.of_nat k)).
  - rewrite Z.shiftl_spec, !Z.ones_spec_high by lia. rewrite !andb_false_r.
    replace (Z.testbit (Z.b2z (Z.testbit p (Z.of_nat k))) (n - Z.of_nat k)) with false; [done|]. symmetry.
    destruct (Z.testbit p (Z.of_nat k)); [apply (Z.bits_above_log2 1); cbn; lia|apply Z.testbit_0_l].
Qed.

(** ** The theorem *)

(** Either the table has not been built, or it is right. *)
Definition crc_ok (st : crc_state) : Prop :=
  crc32_init_done st = true -> crc32_table st = map (fun i => Nat.iter 8 crc_shift (Z.of_nat i)) (seq 0 256).

Lemma init_table st : crc_ok st -> crc32_table (crc32_init st) = map (fun i => Nat.iter 8 crc_shift (Z.of_nat i)) (seq 0 256) /\ crc_ok (crc32_init st).
Proof.
  intros H. unfold crc32_init. destruct (crc32_init_done st) eqn:E; [by split; [apply H|]|]. done.
Qed.

Lemma table_nth i : 0 <= i < 256 -> nth (Z.to_nat i) (map (fun i => Nat.iter 8 crc_shift (Z.of_nat i)) (seq 0 256)) 0 = Nat.iter 8 crc_shift i.
Proof.
  intros Hi. apply nth_lookup_Some. rewrite list_lookup_fmap, lookup_seq_lt by lia. cbn [fmap option_fmap option_map Nat.add]. by rewrite Z2Nat.id by lia.
Qed.

Lemma crc_loop_spec buf : Forall (fun b => 0 <= b < 256) buf -> forall c,
  crc_loop (map (fun i => Nat.iter 8 crc_shift (Z.of_nat i)) (seq 0 256)) c buf = foldl feed_bit c (concat (map byte_bits buf)).
Proof.
  induction 1 as [|p buf Hp _ IH]; intros c; [done|]. cbn [crc_loop map concat]. rewrite foldl_app, IH. f_equal.
  assert (Hx : Z.land p (Z.ones (Z.of_nat 8)) = p) by (rewrite Z.land_ones by lia; apply Z.mod_small; change (2 ^ Z.of_nat 8) with 256; lia).
  unfold byte_bits. rewrite feed_bits, Hx, iter_shift_byte. rewrite table_nth.
  - f_equal. rewrite Z.shiftr_lxor. replace (Z.shiftr p 8) with 0; [by rewrite Z.lxor_0_r|].
    rewrite Z.shiftr_div_pow2 by lia. symmetry. apply Z.div_small. lia.
  - change 255 with (Z.ones 8). rewrite Z.land_ones by lia. apply Z.mod_pos_bound. lia.
Qed.

Lemma crc32_compute_spec st buf : crc_ok st -> Forall (fun b => 0 <= b < 256) buf ->
  (crc32_compute st buf).1 = crc_spec buf /\ crc_ok (crc32_compute st buf).2.
Proof.
  intros H Hb. destruct (init_table st H) as [Et Hok]. unfold crc32_compute, crc_spec. cbn [fst snd]. rewrite Et. split; [|done]. by rewrite crc_loop_spec.
Qed.

(** C25: the table-driven CRC of gpt.c is the CRC-32 of the GPT specification.
    From start-up, or after any number of earlier computations, the byte-wise
    table lookup gives for every buffer what the bit-serial shift register with
    the reflected polynomial 0xEDB88320 gives, started from and complemented by
    all ones; the lazily built table stays right. *)
Theorem crc32_table_correct st buf : crc_ok st -> Forall (fun b => 0 <= b < 256) buf ->
  (crc32_compute st buf).1 = crc_spec buf /\ crc_ok (crc32_compute st buf).2.
Proof. intros. by apply crc32_compute_spec. Qed.

(** The check value of CRC-32 is 0xCBF43926. *)
Lemma crc32_table_witness : (crc32_compute crc_boot [49; 50; 51; 52; 53; 54; 55; 56; 57]).1 = 0xCBF43926.
Proof.
  destruct (crc32_table_correct crc_boot [49; 50; 51; 52; 53; 54; 55; 56; 57]) as [E _].
  - discriminate.
  - repeat constructor; lia.
  - rewrite E. vm_compute. reflexivity.
Defined.

End Crc.
