(* ===== verification/Gpt.v ===== *)
(** * kernel/block/gpt.c: writing a partition table

    [gpt_init_single_disk] with the structures it writes, over any device. *)

From S2P Require Import Prelude CString Bytes Block Crc.
From Stdlib Require Import String ZArith Lia.
From stdpp Require Import base list gmap numbers.
Open Scope Z_scope.

Module Gpt.
Import CString Bytes Block Crc.

Definition ESP_SIZE_BYTES : Z := 512 * 1024 * 1024.
Definition ESP_SIZE_SECTORS : Z := ESP_SIZE_BYTES / 512.

(** ** On-disk structures *)

Record mbr_part_t := mkMbrPart { m_status : Z; m_chs_first : list Z; m_type : Z; m_chs_last : list Z; m_lba_first : Z; m_lba_count : Z }.
Record mbr_t := mkMbr { boot_code : list Z; disk_id : Z; m_reserved : Z; m_part : list mbr_part_t; m_sig : Z }.

Record gpt_header_t := mkHdr {
  signature : list Z; revision : Z; header_size : Z; header_crc32 : Z; h_reserved : Z;
  current_lba : Z; backup_lba : Z; first_usable_lba : Z; last_usable_lba : Z;
  disk_guid : list Z; part_entry_lba : Z; num_parts : Z; part_entry_size : Z; part_array_crc32 : Z; h_pad : list Z }.

Record gpt_part_t := mkPart { type_guid : list Z; part_guid : list Z; first_lba : Z; last_lba : Z; attrs : Z; part_name : list Z }.

(** The packed structures in memory. *)
Definition mbr_part_bytes (p : mbr_part_t) : list Z :=
  [m_status p] ++ m_chs_first p ++ [m_type p] ++ m_chs_last p ++ le_bytes 4 (m_lba_first p) ++ le_bytes 4 (m_lba_count p).
Definition mbr_bytes (m : mbr_t) : list Z :=
  boot_code m ++ le_bytes 4 (disk_id m) ++ le_bytes 2 (m_reserved m) ++ concat (map mbr_part_bytes (m_part m)) ++ le_bytes 2 (m_sig m).
Definition hdr_bytes (h : gpt_header_t) : list Z :=
  signature h ++ le_bytes 4 (revision h) ++ le_bytes 4 (header_size h) ++ le_bytes 4 (header_crc32 h) ++ le_bytes 4 (h_reserved h) ++
  le_bytes 8 (current_lba h) ++ le_bytes 8 (backup_lba h) ++ le_bytes 8 (first_usable_lba h) ++ le_bytes 8 (last_usable_lba h) ++
  disk_guid h ++ le_bytes 8 (part_entry_lba h) ++ le_bytes 4 (num_parts h) ++ le_bytes 4 (part_entry_size h) ++
  le_bytes 4 (part_array_crc32 h) ++ h_pad h.
Definition part_bytes (p : gpt_part_t) : list Z :=
  type_guid p ++ part_guid p ++ le_bytes 8 (first_lba p) ++ le_bytes 8 (last_lba p) ++ le_bytes 8 (attrs p) ++ concat (map (le_bytes 2) (part_name p)).

Definition no_mbr_part : mbr_part_t := mkMbrPart 0 [0; 0; 0] 0 [0; 0; 0] 0 0.
Definition no_part : gpt_part_t := mkPart (replicate 16 0) (replicate 16 0) 0 0 0 (replicate 36 0).

Definition guid_from_bytes (d1 d2 d3 d4 d5 d6 d7 d8 d9 d10 d11 : Z) : list Z :=
  [u8 (Z.shiftr d1 24); u8 (Z.shiftr d1 16); u8 (Z.shiftr d1 8); u8 d1; u8 (Z.shiftr d2 8); u8 d2; u8 (Z.shiftr d3 8); u8 d3;
   d4; d5; d6; d7; d8; d9; d10; d11].

(** [i]: characters written; the terminator is stored if there is room. *)
Fixpoint utf16_loop (s : list Z) (out : list Z) (i max_chars : nat) : list Z :=
  match s with
  | c :: s' => if truthy c && (i + 1 <? max_chars)%nat then utf16_loop s' (<[i := u8 c]> out) (S i) max_chars
               else if (i <? max_chars)%nat then <[i := 0]> out else out
  | [] => if (i <? max_chars)%nat then <[i := 0]> out else out
  end.
Definition utf8_to_utf16le (s out : list Z) (max_chars : nat) : list Z := utf16_loop s out 0 max_chars.

Definition disk_sector0_is_fat (sec : option (list Z)) : bool :=
  match sec with
  | None => false
  | Some sec =>
      let at_ i := nth i sec 0 in
      if negb (at_ 510%nat =? 0x55) || negb (at_ 511%nat =? 0xAA) then false
      else if (at_ 82%nat =? 70) && (at_ 83%nat =? 65) && (at_ 84%nat =? 84) then true
      else (at_ 54%nat =? 70) && (at_ 55%nat =? 65) && (at_ 56%nat =? 84)
  end.

(** ** The layout *)

Definition first_usable : Z := 2048.
Definition esp_first : Z := first_usable.
Definition esp_last : Z := esp_first + ESP_SIZE_SECTORS - 1.
Definition root_first : Z := esp_last + 1.

Definition pmbr (total : Z) : mbr_t :=
  mkMbr (replicate 440 0) 0 0
    [mkMbrPart 0 [0; 0; 0] 0xEE [0; 0; 0] 1 (if 0xFFFFFFFF <? total then 0xFFFFFFFF else total); no_mbr_part; no_mbr_part; no_mbr_part]
    0xAA55.

Definition esp_type : list Z := guid_from_bytes 0xC12A7328 0xF81F 0x11D2 0xBA 0x4B 0x00 0xA0 0xC9 0x3E 0xC9 0x3B.
Definition root_type : list Z := guid_from_bytes 0x0FC63DAF 0x8483 0x4772 0x8E 0x79 0x3D 0x69 0xD8 0x47 0x7D 0xE4.

Definition gpt_parts (total : Z) : list gpt_part_t :=
  mkPart esp_type esp_type esp_first esp_last 0 (utf8_to_utf16le (str "ESP") (replicate 36 0) 36) ::
  mkPart root_type root_type root_first (total - 34) 0 (utf8_to_utf16le (str "ASD root") (replicate 36 0) 36) ::
  replicate 126 no_part.
Definition parts_bytes (ps : list gpt_part_t) : list Z := concat (map part_bytes ps).

(** The primary header before its own checksum. *)
Definition ph0 (total acrc : Z) : gpt_header_t :=
  mkHdr (str "EFI PART") 0x00010000 92 0 0 1 (total - 1) first_usable (total - 34) (replicate 16 0x11) 2 128 128 acrc (replicate 420 0).
Definition set_crc (h : gpt_header_t) (c : Z) : gpt_header_t :=
  mkHdr (signature h) (revision h) (header_size h) c (h_reserved h) (current_lba h) (backup_lba h) (first_usable_lba h)
    (last_usable_lba h) (disk_guid h) (part_entry_lba h) (num_parts h) (part_entry_size h) (part_array_crc32 h) (h_pad h).
(** The backup header: the primary one with three fields changed. *)
Definition to_backup (h : gpt_header_t) (total : Z) : gpt_header_t :=
  mkHdr (signature h) (revision h) (header_size h) (header_crc32 h) (h_reserved h) (total - 1) 1 (first_usable_lba h)
    (last_usable_lba h) (disk_guid h) (total - 33) (num_parts h) (part_entry_size h) (part_array_crc32 h) (h_pad h).

(** Both headers with their checksums. *)
Definition gpt_headers (st : crc_state) (total : Z) (parts : list Z) : gpt_header_t * gpt_header_t * crc_state :=
  let '(acrc, st) := crc32_compute st parts in
  let h0 := ph0 total acrc in
  let '(c, st) := crc32_compute st (take 92 (hdr_bytes h0)) in
  let ph := set_crc h0 c in
  let b0 := set_crc (to_backup ph total) 0 in
  let '(c, st) := crc32_compute st (take 92 (hdr_bytes b0)) in
  (ph, set_crc b0 c, st).

Section Write.
Context {D : Type}.

(** [for (i = 0; i < 32; i++)] writing one sector each; [n] rounds from [i]. *)
Fixpoint write_sectors (wr : D -> Z -> Z -> list Z -> Z * D) (d : D) (lba : Z) (bytes : list Z) (i n : nat) : bool * D :=
  match n with
  | O => (true, d)
  | S n' =>
      let '(rc, d) := wr d (lba + Z.of_nat i) 1 (take 512 (drop (i * 512) bytes)) in
      if negb (rc =? 0) then (false, d) else write_sectors wr d lba bytes (S i) n'
  end.

Definition gpt_init_single_disk (st : crc_state) (d : D) (dev : option (block_dev_t D)) : Z * crc_state * D :=
  match dev with
  | None => (-1, st, d)
  | Some dev =>
  match write dev, read dev with
  | Some wr, Some rd =>
  if negb (sector_size dev =? 512) then (-1, st, d)
  else if sector_count dev <? 34 + ESP_SIZE_SECTORS + 1024 then (-1, st, d)
  else
    let '(rc, sec, d) := rd d 0 1 in
    if negb (rc =? 0) then (-1, st, d)
    else
      let sig := Z.lor (nth 510 sec 0) (Z.shiftl (nth 511 sec 0) 8) in
      let '(stop, d) :=
        if sig =? 0xAA55 then
          if disk_sector0_is_fat (Some sec) then (true, d)
          else
            let '(rc, hdr, d) := rd d 1 1 in
            if rc =? 0 then ((memcmp hdr (str "EFI PART") 8 =? 0) && (34 + ESP_SIZE_SECTORS + 1024 <=? sector_count dev), d)
            else (false, d)
        else (false, d) in
      if stop then (0, st, d)
      else
        let total := sector_count dev in
        let '(rc, d) := wr d 0 1 (mbr_bytes (pmbr total)) in
        if negb (rc =? 0) then (-1, st, d)
        else
          let parts := parts_bytes (gpt_parts total) in
          let '(ph, bh, st) := gpt_headers st total parts in
          let '(ok, d) := write_sectors wr d 2 parts 0 32 in
          if negb ok then (-1, st, d)
          else
            let '(rc, d) := wr d 1 1 (hdr_bytes ph) in
            if negb (rc =? 0) then (-1, st, d)
            else
              let '(ok, d) := write_sectors wr d (total - 33) parts 0 32 in
              if negb ok then (-1, st, d)
              else
                let '(rc, d) := wr d (total - 1) 1 (hdr_bytes bh) in
                if negb (rc =? 0) then (-1, st, d) else (0, st, d)
  | _, _ => (-1, st, d)
  end
  end.

End Write.
End Gpt.
