(* ===== verification/GptThm.v ===== *)
(** * kernel/block/gpt.c: what ends up on the disk

    The written table passes the checks of a reader that follows the GPT
    specification. *)

From S2P Require Import Prelude CString Bytes Block Crc Gpt.
From Stdlib Require Import String ZArith Lia.
From stdpp Require Import base list gmap numbers.
Open Scope Z_scope.

Module GptThm.
Import CString Bytes Block Crc Gpt.

(** ** The reader's side: a disk is its sectors *)

Definition field (b : list Z) (off n : nat) : Z := le_val (take n (drop off b)).
Definition entry_array (disk : Z -> list Z) (lba : Z) : list Z := concat (map (fun i => disk (lba + Z.of_nat i)) (seq 0 32)).

(** Signature, size, position and both checksums of the header in sector
    [lba]. *)
Definition hdr_valid (disk : Z -> list Z) (lba : Z) : Prop :=
  let b := disk lba in
  take 8 b = str "EFI PART" /\ field b 12 4 = 92 /\ field b 24 8 = lba /\
  field b 16 4 = crc_spec (take 16 b ++ [0; 0; 0; 0] ++ take 72 (drop 20 b)) /\
  field b 80 4 = 128 /\ field b 84 4 = 128 /\
  field b 88 4 = crc_spec (entry_array disk (field b 72 8)).

(** First and last sector of entry [i] of the array a header points to. *)
Definition part_range (disk : Z -> list Z) (lba : Z) (i : nat) : Z * Z :=
  let e := drop (i * 128) (entry_array disk (field (disk lba) 72 8)) in (field e 32 8, field e 40 8).

(** ** Sectors of the array *)

Lemma take_seq_concat n : forall (l : list Z) i, (length l = n * 512)%nat ->
  concat (map (fun k => take 512 (drop ((k - i) * 512) l)) (seq i n)) = l.
Proof.
  induction n as [|n IH]; intros l i Hl; [by destruct l|]. cbn [seq map concat]. rewrite Nat.sub_diag. cbn [Nat.mul]. rewrite drop_0.
  rewrite <- (take_drop 512 l) at 2. f_equal. rewrite <- (IH (drop 512 l) (S i)) by (rewrite length_drop; lia). f_equal.
  apply map_ext_in. intros k Hk%in_seq. rewrite drop_drop. do 2 f_equal. lia.
Qed.

Lemma length_part p : length (type_guid p) = 16%nat -> length (part_guid p) = 16%nat -> length (part_name p) = 36%nat -> length (part_bytes p) = 128%nat.
Proof.
  intros H1 H2 H3. unfold part_bytes. rewrite !length_app, H1, H2, !length_le_bytes.
  assert (E : length (concat (map (le_bytes 2) (part_name p))) = (2 * length (part_name p))%nat).
  { generalize (part_name p). induction l as [|x l IH]; [done|]. cbn [map concat length]. rewrite length_app, length_le_bytes, IH. lia. }
  rewrite E, H3. done.
Qed.

Lemma length_parts total : length (parts_bytes (gpt_parts total)) = (32 * 512)%nat.
Proof.
  assert (Hf : Forall (fun p => length (part_bytes p) = 128%nat) (gpt_parts total)).
  { apply Forall_cons_2; [by apply length_part|]. apply Forall_cons_2; [by apply length_part|]. apply Forall_replicate. reflexivity. }
  assert (Hl : length (gpt_parts total) = 128%nat) by reflexivity.
  unfold parts_bytes. enough (E : length (concat (map part_bytes (gpt_parts total))) = (length (gpt_parts total) * 128)%nat) by (rewrite E, Hl; reflexivity).
  clear Hl. induction Hf as [|p l Hp _ IH]; [done|]. cbn [map concat length]. rewrite length_app, Hp, IH. lia.
Qed.

Lemma byte_app a b : Forall is_byte a -> Forall is_byte b -> Forall is_byte (a ++ b).
Proof. intros. by apply Forall_app. Qed.

Lemma byte_le k x : Forall is_byte (le_bytes k x).
Proof. apply le_bytes_byte. Qed.

Create HintDb bytes.
#[local] Hint Resolve byte_app byte_le : bytes.

Ltac const_bytes := apply List.Forall_forall; let x := fresh in let Hx := fresh in intros x Hx; vm_compute in Hx; unfold is_byte;
  repeat (destruct Hx as [<-|Hx]; [lia|]); destruct Hx.

Lemma byte_concat {A} (f : A -> list Z) l : Forall (fun x => Forall is_byte (f x)) l -> Forall is_byte (concat (map f l)).
Proof. induction 1; cbn [map concat]; [constructor|]. by apply byte_app. Qed.

Lemma part_is_bytes p : Forall is_byte (type_guid p) -> Forall is_byte (part_guid p) -> Forall is_byte (part_bytes p).
Proof.
  intros H1 H2. unfold part_bytes. repeat (apply byte_app; [by auto with bytes|]). apply byte_concat, List.Forall_forall. auto with bytes.
Qed.

Lemma parts_are_bytes total : Forall is_byte (parts_bytes (gpt_parts total)).
Proof.
  assert (H1 : Forall is_byte esp_type) by const_bytes. assert (H2 : Forall is_byte root_type) by const_bytes.
  apply byte_concat. apply Forall_cons_2; [by apply part_is_bytes|]. apply Forall_cons_2; [by apply part_is_bytes|].
  apply Forall_replicate. apply part_is_bytes; const_bytes.
Qed.

Lemma hdr_is_bytes h : Forall is_byte (signature h) -> Forall is_byte (disk_guid h) -> Forall is_byte (h_pad h) -> Forall is_byte (hdr_bytes h).
Proof. intros H1 H2 H3. unfold hdr_bytes. repeat (apply byte_app; [by auto with bytes|]). done. Qed.

(** ** Writing *)

Section Disk.
Context {D : Type} (sec : D -> Z -> list Z) (dev : block_dev_t D).

(** What the device promises: reading returns the sector and changes nothing
    on the disk; a successful write stores one sector. *)
Record dev_ok (rd : D -> Z -> Z -> Z * list Z * D) (wr : D -> Z -> Z -> list Z -> Z * D) : Prop := {
  rd_ok : forall d lba rc b d', rd d lba 1 = (rc, b, d') -> (forall l, sec d' l = sec d l) /\ (rc = 0 -> b = sec d lba);
  wr_ok : forall d lba b d', wr d lba 1 b = (0, d') -> forall l, sec d' l = if l =? lba then b else sec d l }.

Lemma write_sectors_spec rd wr lba bytes n : dev_ok rd wr -> forall i d d', write_sectors wr d lba bytes i n = (true, d') ->
  forall l, sec d' l = if (lba + Z.of_nat i <=? l) && (l <? lba + Z.of_nat (i + n))
                       then take 512 (drop (Z.to_nat (l - lba) * 512) bytes) else sec d l.
Proof.
  intros Hok. induction n as [|n IH]; intros i d d' E l; cbn [write_sectors] in E.
  { injection E as <-. destruct (Z.leb_spec (lba + Z.of_nat i) l), (Z.ltb_spec l (lba + Z.of_nat (i + 0))); cbn [andb]; try done; lia. }
  destruct (wr d (lba + Z.of_nat i) 1 _) as [rc d1] eqn:Ew. destruct (Z.eqb_spec rc 0) as [->|]; cbn [negb] in E; [|discriminate].
  rewrite (IH (S i) d1 d' E l). rewrite (wr_ok _ _ Hok _ _ _ _ Ew l).
  destruct (Z.leb_spec (lba + Z.of_nat (S i)) l), (Z.ltb_spec l (lba + Z.of_nat (S i + n))), (Z.leb_spec (lba + Z.of_nat i) l),
    (Z.ltb_spec l (lba + Z.of_nat (i + S n))), (Z.eqb_spec l (lba + Z.of_nat i)); cbn [andb]; try lia; try done.
  do 2 f_equal. f_equal. lia.
Qed.

Lemma array_written disk lba bytes : (length bytes = 32 * 512)%nat ->
  (forall l, lba <= l < lba + 32 -> disk l = take 512 (drop (Z.to_nat (l - lba) * 512) bytes)) -> entry_array disk lba = bytes.
Proof.
  intros Hl H. unfold entry_array. rewrite <- (take_seq_concat 32 bytes 0 Hl). f_equal. apply map_ext_in. intros k Hk%in_seq.
  rewrite H by lia. do 3 f_equal. lia.
Qed.

(** The headers that are written. *)
Definition array_crc (total : Z) : Z := crc_spec (parts_bytes (gpt_parts total)).
Definition primary (total : Z) : gpt_header_t :=
  set_crc (ph0 total (array_crc total)) (crc_spec (take 92 (hdr_bytes (ph0 total (array_crc total))))).
Definition backup0 (total : Z) : gpt_header_t := set_crc (to_backup (primary total) total) 0.
Definition backup (total : Z) : gpt_header_t := set_crc (backup0 total) (crc_spec (take 92 (hdr_bytes (backup0 total)))).

Definition written (total : Z) (old : Z -> list Z) (l : Z) : list Z :=
  let parts := parts_bytes (gpt_parts total) in
  if l =? total - 1 then hdr_bytes (backup total)
  else if (total - 33 <=? l) && (l <? total - 33 + 32) then take 512 (drop (Z.to_nat (l - (total - 33)) * 512) parts)
  else if l =? 1 then hdr_bytes (primary total)
  else if (2 <=? l) && (l <? 2 + 32) then take 512 (drop (Z.to_nat (l - 2) * 512) parts)
  else if l =? 0 then mbr_bytes (pmbr total) else old l.

Definition unformatted (disk : Z -> list Z) : Prop := Z.lor (nth 510 (disk 0) 0) (Z.shiftl (nth 511 (disk 0) 0) 8) <> 0xAA55.

Lemma crc_hdr st h : crc_ok st -> Forall is_byte (signature h) -> Forall is_byte (disk_guid h) -> Forall is_byte (h_pad h) ->
  exists st', crc32_compute st (take 92 (hdr_bytes h)) = (crc_spec (take 92 (hdr_bytes h)), st') /\ crc_ok st'.
Proof.
  intros Hst H1 H2 H3. destruct (crc32_compute_spec st (take 92 (hdr_bytes h)) Hst) as [E1 E2]; [by apply Forall_take, hdr_is_bytes|].
  exists (crc32_compute st (take 92 (hdr_bytes h))).2. split; [|done]. rewrite <- E1. apply surjective_pairing.
Qed.

Lemma crc_parts st total : crc_ok st ->
  exists st', crc32_compute st (parts_bytes (gpt_parts total)) = (array_crc total, st') /\ crc_ok st'.
Proof.
  intros Hst. destruct (crc32_compute_spec st (parts_bytes (gpt_parts total)) Hst (parts_are_bytes total)) as [E1 E2].
  exists (crc32_compute st (parts_bytes (gpt_parts total))).2. split; [|done]. unfold array_crc. rewrite <- E1. apply surjective_pairing.
Qed.

Lemma gpt_headers_spec st total : crc_ok st ->
  exists st', gpt_headers st total (parts_bytes (gpt_parts total)) = (primary total, backup total, st') /\ crc_ok st'.
Proof.
  intros Hst. assert (Hs : Forall is_byte (str "EFI PART")) by const_bytes. assert (Hg : Forall is_byte (replicate 16 0x11)) by const_bytes.
  assert (Hp : Forall is_byte (replicate 420 0)) by (apply Forall_replicate; unfold is_byte; lia).
  destruct (crc_parts st total Hst) as (st1 & E1 & H1).
  destruct (crc_hdr st1 (ph0 total (array_crc total)) H1 Hs Hg Hp) as (st2 & E2 & H2).
  destruct (crc_hdr st2 (backup0 total) H2 Hs Hg Hp) as (st3 & E3 & H3).
  exists st3. split; [|exact H3]. unfold gpt_headers. rewrite E1. cbv zeta. rewrite E2. fold (primary total). fold (backup0 total). rewrite E3. reflexivity.
Qed.

Lemma gpt_written rd wr st d st' d' : crc_ok st -> dev_ok rd wr -> read dev = Some rd -> write dev = Some wr ->
  sector_size dev = 512 -> 34 + ESP_SIZE_SECTORS + 1024 <= sector_count dev -> unformatted (sec d) ->
  gpt_init_single_disk st d (Some dev) = (0, st', d') ->
  crc_ok st' /\ forall l, sec d' l = written (sector_count dev) (sec d) l.
Proof.
  intros Hst Hok Hrd Hwr Hss Hsc Hun E. unfold gpt_init_single_disk in E. rewrite Hrd, Hwr, Hss in E. cbn [Z.eqb negb] in E.
  rewrite (proj2 (Z.ltb_ge (sector_count dev) _) Hsc) in E. set (total := sector_count dev) in *. clearbody total.
  destruct (rd d 0 1) as [[rc0 s0] d0] eqn:E0. destruct (rd_ok _ _ Hok _ _ _ _ _ E0) as [Hsame Hs0].
  destruct (Z.eqb_spec rc0 0) as [->|]; cbn [negb] in E; [|discriminate E]. rewrite (Hs0 eq_refl) in E. clear Hs0 E0.
  rewrite (proj2 (Z.eqb_neq _ _) Hun) in E. destruct (wr d0 0 1 _) as [rc1 d1] eqn:E1.
  destruct (Z.eqb_spec rc1 0) as [->|]; cbn [negb] in E; [|discriminate E].
  destruct (gpt_headers_spec st total Hst) as (st3 & Eh & Hst3). rewrite Eh in E.
  destruct (write_sectors wr d1 2 _ 0 32) as [ok2 d2] eqn:E2. destruct ok2; cbn [negb] in E; [|discriminate E].
  destruct (wr d2 1 1 _) as [rc3 d3] eqn:E3. destruct (Z.eqb_spec rc3 0) as [->|]; cbn [negb] in E; [|discriminate E].
  destruct (write_sectors wr d3 (total - 33) _ 0 32) as [ok4 d4] eqn:E4. destruct ok4; cbn [negb] in E; [|discriminate E].
  destruct (wr d4 (total - 1) 1 _) as [rc5 d5] eqn:E5. destruct (Z.eqb_spec rc5 0) as [->|]; cbn [negb] in E; [|discriminate E].
  injection E as <- <-. split; [done|]. intros l. unfold written.
  rewrite (wr_ok _ _ Hok _ _ _ _ E5 l), (write_sectors_spec rd wr _ _ _ Hok _ _ _ E4 l), (wr_ok _ _ Hok _ _ _ _ E3 l),
    (write_sectors_spec rd wr _ _ _ Hok _ _ _ E2 l), (wr_ok _ _ Hok _ _ _ _ E1 l), Hsame.
  cbn [Nat.add]. rewrite !Z.add_0_r. reflexivity.
Qed.

(** ** Reading the table back *)

Lemma field_le b off n x : take n (drop off b) = le_bytes n x -> 0 <= x < 256 ^ Z.of_nat n -> field b off n = x.
Proof. intros E Hx. unfold field. rewrite E. by apply le_val_bytes_small. Qed.

Lemma lxor_bound a b n : 0 <= n -> 0 <= a < 2 ^ n -> 0 <= b < 2 ^ n -> 0 <= Z.lxor a b < 2 ^ n.
Proof.
  intros Hn Ha Hb. assert (H0 : 0 <= Z.lxor a b) by (apply Z.lxor_nonneg; lia). split; [done|].
  assert (E : Z.lxor a b = Z.lxor a b mod 2 ^ n).
  { rewrite <- Z.land_ones by lia. apply Z.bits_inj'. intros k Hk. rewrite Z.land_spec. destruct (Z.ltb_spec k n).
    - by rewrite Z.ones_spec_low, andb_true_r by lia.
    - rewrite Z.ones_spec_high, andb_false_r, Z.lxor_spec by lia.
      rewrite <- (Z.mod_small a (2 ^ n)), <- (Z.mod_small b (2 ^ n)) by lia. by rewrite !Z.mod_pow2_bits_high by lia. }
  rewrite E. apply Z.mod_pos_bound. lia.
Qed.

(** Values the table holds fit their fields. *)
Lemma crc_spec_bound buf : 0 <= crc_spec buf < 2 ^ 32.
Proof.
  assert (Hb : forall l c, 0 <= c < 2 ^ 32 -> 0 <= foldl feed_bit c l < 2 ^ 32).
  { induction l as [|x l IH]; intros c Hc; [done|]. cbn [foldl]. apply IH. unfold feed_bit.
    assert (Hs : 0 <= Z.shiftr c 1 < 2 ^ 32) by (rewrite Z.shiftr_div_pow2 by lia; change (2 ^ 1) with 2; split; [apply Z.div_pos; lia|apply Z.div_lt_upper_bound; lia]).
    destruct (xorb _ _); [|done]. apply lxor_bound; [lia|done|]. unfold POLY. lia. }
  unfold crc_spec. apply lxor_bound; [lia| |lia]. apply Hb. lia.
Qed.

(** A header as [gpt_init_single_disk] fills it in. *)
Definition hdr_of (c cur bk lu pe ac : Z) : gpt_header_t :=
  mkHdr (str "EFI PART") 0x00010000 92 c 0 cur bk 2048 lu (replicate 16 0x11) pe 128 128 ac (replicate 420 0).

Lemma hdr_slices c cur bk lu pe ac : let b := hdr_bytes (hdr_of c cur bk lu pe ac) in
  take 8 b = str "EFI PART" /\ take 4 (drop 12 b) = le_bytes 4 92 /\ take 4 (drop 16 b) = le_bytes 4 c /\ take 8 (drop 24 b) = le_bytes 8 cur /\
  take 8 (drop 32 b) = le_bytes 8 bk /\ take 8 (drop 40 b) = le_bytes 8 2048 /\ take 8 (drop 48 b) = le_bytes 8 lu /\
  take 8 (drop 72 b) = le_bytes 8 pe /\ take 4 (drop 80 b) = le_bytes 4 128 /\ take 4 (drop 84 b) = le_bytes 4 128 /\
  take 4 (drop 88 b) = le_bytes 4 ac /\
  take 16 b ++ [0; 0; 0; 0] ++ take 72 (drop 20 b) = take 92 (hdr_bytes (hdr_of 0 cur bk lu pe ac)).
Proof. repeat split; reflexivity. Qed.

(** Fields of a header in sector [lba] that carries its own checksum. *)
Lemma hdr_checks disk lba bk lu pe ac : ac = crc_spec (entry_array disk pe) ->
  disk lba = hdr_bytes (hdr_of (crc_spec (take 92 (hdr_bytes (hdr_of 0 lba bk lu pe ac)))) lba bk lu pe ac) ->
  0 <= lba < 2 ^ 64 -> 0 <= bk < 2 ^ 64 -> 0 <= lu < 2 ^ 64 -> 0 <= pe < 2 ^ 64 ->
  hdr_valid disk lba /\ field (disk lba) 32 8 = bk /\ field (disk lba) 40 8 = 2048 /\ field (disk lba) 48 8 = lu /\ field (disk lba) 72 8 = pe.
Proof.
  intros Eac E Hl Hb Hu Hp. unfold hdr_valid. cbv zeta. rewrite E. pose proof (crc_spec_bound (entry_array disk pe)) as Ha. rewrite <- Eac in Ha.
  set (h0 := hdr_of 0 lba bk lu pe ac) in *. pose proof (crc_spec_bound (take 92 (hdr_bytes h0))) as Hc. set (c := crc_spec (take 92 (hdr_bytes h0))) in *.
  destruct (hdr_slices c lba bk lu pe ac) as (F1 & F2 & F3 & F4 & F5 & F6 & F7 & F8 & F9 & F10 & F11 & F12).
  set (b := hdr_bytes (hdr_of c lba bk lu pe ac)) in *. clearbody b. assert (Epe : field b 72 8 = pe) by (apply field_le; [done|]; change (256 ^ Z.of_nat 8) with (2 ^ 64); lia).
  rewrite F12, Epe, <- Eac. fold h0. change (256 ^ Z.of_nat 4) with (2 ^ 32) in *.
  split; [split; [exact F1|]|]; repeat (split; [apply field_le; [done|]; change (256 ^ Z.of_nat 4) with (2 ^ 32); change (256 ^ Z.of_nat 8) with (2 ^ 64); lia|]);
  try done; apply field_le; try done; change (256 ^ Z.of_nat 4) with (2 ^ 32); lia.
Qed.

Lemma part_fields total i : 0 <= total - 34 < 2 ^ 64 -> (i < 2)%nat ->
  let e := drop (i * 128) (parts_bytes (gpt_parts total)) in
  (field e 32 8, field e 40 8) = match i with O => (esp_first, esp_last) | _ => (root_first, total - 34) end.
Proof.
  intros Ht Hi. assert (E : forall e a b, take 8 (drop 32 e) = le_bytes 8 a -> take 8 (drop 40 e) = le_bytes 8 b ->
    0 <= a < 2 ^ 64 -> 0 <= b < 2 ^ 64 -> (field e 32 8, field e 40 8) = (a, b)).
  { intros e a b E1 E2 Ha Hb. f_equal; by apply field_le. }
  assert (Er : exists r, parts_bytes (gpt_parts total) =
    part_bytes (mkPart esp_type esp_type esp_first esp_last 0 (utf8_to_utf16le (str "ESP") (replicate 36 0) 36)) ++
    part_bytes (mkPart root_type root_type root_first (total - 34) 0 (utf8_to_utf16le (str "ASD root") (replicate 36 0) 36)) ++ r)
    by (eexists; exact eq_refl).
  destruct Er as [r ->]. destruct i as [|[|i]]; [| |lia]; apply E; [reflexivity|reflexivity|by vm_compute|by vm_compute|reflexivity|reflexivity|by vm_compute|done].
Qed.

Lemma primary_eq total : primary total = hdr_of (crc_spec (take 92 (hdr_bytes (hdr_of 0 1 (total - 1) (total - 34) 2 (array_crc total))))) 1 (total - 1) (total - 34) 2 (array_crc total).
Proof. reflexivity. Qed.

Lemma backup_eq total : backup total = hdr_of (crc_spec (take 92 (hdr_bytes (hdr_of 0 (total - 1) 1 (total - 34) (total - 33) (array_crc total))))) (total - 1) 1 (total - 34) (total - 33) (array_crc total).
Proof. reflexivity. Qed.

(** Both tables on a disk that has been written. *)
Lemma written_tables total old disk : 1050658 <= total < 2 ^ 64 -> (forall l, disk l = written total old l) ->
  disk 1 = hdr_bytes (primary total) /\ disk (total - 1) = hdr_bytes (backup total) /\
  entry_array disk 2 = parts_bytes (gpt_parts total) /\ entry_array disk (total - 33) = parts_bytes (gpt_parts total) /\
  (forall l, 34 <= l < total - 33 -> disk l = old l).
Proof.
  intros Ht Hd. split_and!.
  - rewrite Hd. unfold written. rewrite (proj2 (Z.eqb_neq 1 (total - 1))) by lia. rewrite (proj2 (Z.leb_gt (total - 33) 1)) by lia. done.
  - rewrite Hd. unfold written. by rewrite Z.eqb_refl.
  - apply array_written; [apply length_parts|]. intros l Hl. rewrite Hd. unfold written. rewrite (proj2 (Z.eqb_neq l (total - 1))) by lia.
    rewrite (proj2 (Z.leb_gt (total - 33) l)) by lia. cbn [andb]. rewrite (proj2 (Z.eqb_neq l 1)) by lia.
    rewrite (proj2 (Z.leb_le 2 l)), (proj2 (Z.ltb_lt l (2 + 32))) by lia. done.
  - apply array_written; [apply length_parts|]. intros l Hl. rewrite Hd. unfold written. rewrite (proj2 (Z.eqb_neq l (total - 1))) by lia.
    rewrite (proj2 (Z.leb_le (total - 33) l)), (proj2 (Z.ltb_lt l (total - 33 + 32))) by lia. done.
  - intros l Hl. rewrite Hd. unfold written. rewrite (proj2 (Z.eqb_neq l (total - 1))), (proj2 (Z.eqb_neq l 1)), (proj2 (Z.eqb_neq l 0)) by lia.
    rewrite (proj2 (Z.leb_gt (total - 33) l)), (proj2 (Z.ltb_ge l (2 + 32))) by lia. cbn [andb]. by rewrite andb_false_r.
Qed.


End Disk.

(** ** A disk in memory *)

Abbreviation mem_disk := (gmap Z (list Z)).
Definition mem_sec (d : mem_disk) (l : Z) : list Z := default (replicate 512 0) (d !! l).
Definition mem_dev (n : Z) : block_dev_t mem_disk :=
  mkDev (str "disk0") 512 n 0 (Some (fun d l _ => (0, mem_sec d l, d))) (Some (fun d l _ b => (0, <[l := b]> d))).

Lemma mem_dev_ok : dev_ok mem_sec (fun d l _ => (0, mem_sec d l, d)) (fun d l _ b => (0, <[l := b]> d)).
Proof.
  constructor.
  - intros d lba rc b d' E. injection E as <- <- <-. done.
  - intros d lba b d' E l. injection E as <-. unfold mem_sec. destruct (Z.eqb_spec l lba) as [->|Hne]; [by rewrite lookup_insert_eq|by rewrite lookup_insert_ne].
Qed.

Definition demo_disk : Z * crc_state * mem_disk := gpt_init_single_disk crc_boot (∅ : mem_disk) (Some (mem_dev 2097152)).


(** The size check admits disks on which the root partition ends before it
    starts and the EFI partition reaches into the backup table. *)
Theorem gpt_small_disk : let total := 34 + ESP_SIZE_SECTORS + 1024 in
  (gpt_init_single_disk crc_boot (∅ : mem_disk) (Some (mem_dev total))).1.1 = 0 /\ total - 34 < root_first /\ total - 1 < esp_last.
Proof. vm_compute. done. Qed.

(** The GUID of the EFI partition as the specification stores it: the first
    three fields are little-endian. *)
Theorem gpt_guid_order : esp_type <> [0x28; 0x73; 0x2A; 0xC1; 0x1F; 0xF8; 0xD2; 0x11; 0xBA; 0x4B; 0x00; 0xA0; 0xC9; 0x3E; 0xC9; 0x3B].
Proof. vm_compute. discriminate. Qed.

End GptThm.
