(* ===== verification/Fat32.v ===== *)
(** * kernel/vfs/fat32.c: the FAT file system on a memory image

    The mounted volume is the record of its geometry with the image, a list of
    bytes; names are C strings without their terminator.  Loops that follow
    cluster chains carry fuel, since a damaged image can make them endless;
    [None] means out of fuel. *)

From S2P Require Import Prelude CString Ringbuf Vfs Heap.
From Stdlib Require Import String ZArith Lia.
From stdpp Require Import base list gmap numbers.
Open Scope Z_scope.

Module Fat32.
Import CString Vfs.

Definition FAT32_DIR_ENTRY_SIZE : Z := 32.
Definition FAT32_ATTR_DIR : Z := 0x10.
Definition FAT32_ATTR_LFN : Z := 0x0F.
Definition FAT32_CLUSTER_EOC : Z := 0x0FFFFFF8.
Definition VFS_EISDIR : Z := -7.
Definition VFS_ENOTDIR : Z := -8.

Record fat32_fs_t := mkFs {
  image : list Z; image_size : Z; bytes_per_sector : Z; sectors_per_cluster : Z; reserved_sectors : Z; fats : Z;
  fat_size_sectors : Z; total_sectors : Z; root_cluster : Z; data_start_sector : Z; cluster_count : Z;
  fat16 : bool; root_dir_sector : Z; root_dir_bytes : Z }.
Record fat32_node_t := mkFnode { n_name : list Z; is_dir : bool; start_cluster : Z; n_size : Z }.

(** ** Bytes of the image *)

Definition byte (img : list Z) (off : Z) : Z := nth (Z.to_nat off) img 0.
Definition rd16 (img : list Z) (p : Z) : Z := Z.lor (byte img p) (Z.shiftl (byte img (p + 1)) 8).
Definition rd32 (img : list Z) (p : Z) : Z :=
  Z.lor (Z.lor (Z.lor (byte img p) (Z.shiftl (byte img (p + 1)) 8)) (Z.shiftl (byte img (p + 2)) 16)) (Z.shiftl (byte img (p + 3)) 24).
Definition wr16 (img : list Z) (p v : Z) : list Z := list_inserts (Z.to_nat p) [Z.land v 0xFF; u8 (Z.shiftr v 8)] img.
Definition wr32 (img : list Z) (p v : Z) : list Z :=
  list_inserts (Z.to_nat p) [Z.land v 0xFF; Z.land (Z.shiftr v 8) 0xFF; Z.land (Z.shiftr v 16) 0xFF; Z.land (Z.shiftr v 24) 0xFF] img.

Definition set_image (fs : fat32_fs_t) (img : list Z) : fat32_fs_t :=
  mkFs img (image_size fs) (bytes_per_sector fs) (sectors_per_cluster fs) (reserved_sectors fs) (fats fs) (fat_size_sectors fs)
    (total_sectors fs) (root_cluster fs) (data_start_sector fs) (cluster_count fs) (fat16 fs) (root_dir_sector fs) (root_dir_bytes fs).

Definition upper (c : Z) : Z := if (97 <=? c) && (c <=? 122) then c - 97 + 65 else c.

Fixpoint f_stricmp (a b : list Z) : Z :=
  match a, b with
  | x :: a', y :: b' =>
      if truthy x && truthy y then
        if negb (upper x =? upper y) then upper x - upper y else f_stricmp a' b'
      else x - y
  | _, _ => hd 0 a - hd 0 b
  end.

(** ** Clusters *)

Definition cluster_is_valid (fs : fat32_fs_t) (c : Z) : bool := (2 <=? c) && (c <? u32 (cluster_count fs + 2)).

Definition cluster_offset_bytes (fs : fat32_fs_t) (c : Z) : Z :=
  let cluster_index := u32 (c - 2) in
  let sector := u64 (data_start_sector fs + cluster_index * sectors_per_cluster fs) in
  u64 (sector * bytes_per_sector fs).

Definition cluster_bytes (fs : fat32_fs_t) : Z := u32 (bytes_per_sector fs * sectors_per_cluster fs).

Definition fat_next_cluster (fs : fat32_fs_t) (c : Z) : Z :=
  let fat_base := reserved_sectors fs * bytes_per_sector fs in
  if fat16 fs then
    let off := fat_base + c * 2 in
    if image_size fs <? off + 2 then FAT32_CLUSTER_EOC
    else
      let v := rd16 (image fs) off in
      if 0xFFF8 <=? v then FAT32_CLUSTER_EOC else v
  else
    let off := fat_base + c * 4 in
    if image_size fs <? off + 4 then FAT32_CLUSTER_EOC else Z.land (rd32 (image fs) off) 0x0FFFFFFF.

(** ** Names *)

(** Characters of [src] up to a blank while the buffer has room. *)
Fixpoint copy_83 (src : list Z) (out : list Z) (out_sz : nat) : list Z :=
  match src with
  | [] => out
  | c :: src' => if negb (length out + 1 <? out_sz)%nat then out
                 else if c =? 32 then out else copy_83 src' (out ++ [c]) out_sz
  end.

(** [e]: the bytes of a directory entry. *)
Definition format_83_name (e : list Z) (out_sz : nat) : list Z :=
  let out := copy_83 (take 8 e) [] out_sz in
  let ext := take 3 (drop 8 e) in
  let has_ext := existsb (fun c => negb (c =? 32)) ext in
  let out := if has_ext && (length out + 1 <? out_sz)%nat then out ++ [46] else out in
  copy_83 ext out out_sz.

Definition lfn_offsets : list nat := [1; 3; 5; 7; 9; 14; 16; 18; 20; 22; 24; 28; 30]%nat.

(** The characters of an LFN entry appended to [buf]. *)
Fixpoint lfn_chars (e : list Z) (offs : list nat) (buf : list Z) (buf_sz : nat) : list Z :=
  match offs with
  | [] => buf
  | o :: offs' =>
      if negb (length buf + 1 <? buf_sz)%nat then buf
      else
        let ch := Z.lor (nth o e 0) (Z.shiftl (nth (o + 1) e 0) 8) in
        if (ch =? 0) || (ch =? 0xFFFF) then buf
        else lfn_chars e offs' (buf ++ [if truthy (Z.land ch 0x7F) then Z.land ch 0xFF else 63]) buf_sz
  end.
Definition lfn_extract (e buf : list Z) (buf_sz : nat) : list Z := lfn_chars e lfn_offsets buf buf_sz.

(** An LFN entry met with [lfn] collected so far. *)
Definition lfn_add (e lfn : list Z) : list Z :=
  if truthy (Z.land (nth 0 e 0) 0x40) then lfn_extract e [] 256
  else
    let tmp := lfn_extract e [] 256 in
    if (length tmp + length lfn <? 256)%nat then tmp ++ lfn else lfn.

(** ** Searching a directory *)

Definition entry_bytes (img : list Z) (off : Z) : list Z := take 32 (drop (Z.to_nat off) img).

(** Whether the entry has the wanted name, given the long name before it. *)
Definition name_matches (lfn name83 : list Z) (want : option (list Z)) : bool :=
  match want with
  | None => true
  | Some w => (f_stricmp (if (0 <? length lfn)%nat then lfn else name83) w =? 0) || (f_stricmp name83 w =? 0)
  end.

Inductive scan_step := Stop | Next (lfn : list Z) | Found (n : fat32_node_t).

Definition stored_name (lfn name83 : list Z) : list Z :=
  take 63 (cstr (if (0 <? length lfn)%nat && truthy (hd 0 lfn) then lfn else name83)).

(** One entry of a directory made of clusters. *)
Definition dir_entry (fs : fat32_fs_t) (want : option (list Z)) (e lfn : list Z) : scan_step :=
  if nth 0 e 0 =? 0 then Stop
  else if nth 0 e 0 =? 0xE5 then Next []
  else if nth 11 e 0 =? FAT32_ATTR_LFN then Next (lfn_add e lfn)
  else
    let name83 := format_83_name e 64 in
    if negb (name_matches lfn name83 want) then Next []
    else
      let dir := has_flag (nth 11 e 0) FAT32_ATTR_DIR in
      let c := Z.lor (Z.shiftl (rd16 e 20) 16) (rd16 e 26) in
      let c := if (c =? 0) && dir then root_cluster fs else c in
      Found (mkFnode (stored_name lfn name83) dir c (rd32 e 28)).

(** One entry of the FAT16 root directory. *)
Definition root_entry (want : option (list Z)) (e lfn : list Z) : scan_step :=
  if nth 0 e 0 =? 0 then Stop
  else if nth 0 e 0 =? 0xE5 then Next []
  else if nth 11 e 0 =? FAT32_ATTR_LFN then Next (lfn_add e lfn)
  else
    let name83 := format_83_name e 64 in
    if negb (name_matches lfn name83 want) then Next []
    else Found (mkFnode (take 63 (cstr (if (0 <? length lfn)%nat then lfn else name83)))
                  (has_flag (nth 11 e 0) FAT32_ATTR_DIR) (rd16 e 26) (rd32 e 28)).

(** [n] rounds of the loop over [off]. *)
Fixpoint root_scan (fs : fat32_fs_t) (want : option (list Z)) (off : Z) (n : nat) (lfn : list Z) : option fat32_node_t :=
  match n with
  | O => None
  | S n' =>
      if root_dir_bytes fs <? off + FAT32_DIR_ENTRY_SIZE then None
      else
        let byte_off := root_dir_sector fs * bytes_per_sector fs + off in
        if image_size fs <? byte_off + FAT32_DIR_ENTRY_SIZE then None
        else match root_entry want (entry_bytes (image fs) byte_off) lfn with
             | Stop => None
             | Next lfn => root_scan fs want (off + FAT32_DIR_ENTRY_SIZE) n' lfn
             | Found x => Some x
             end
  end.
Definition iter_root_dir_find (fs : fat32_fs_t) (want : option (list Z)) : option fat32_node_t :=
  root_scan fs want 0 (S (Z.to_nat (root_dir_bytes fs / FAT32_DIR_ENTRY_SIZE))) [].

(** The entries of one cluster at [coff]; [Next]: the loop ran through. *)
Fixpoint cluster_scan (fs : fat32_fs_t) (want : option (list Z)) (coff off : Z) (n : nat) (lfn : list Z) : scan_step :=
  match n with
  | O => Next lfn
  | S n' =>
      if cluster_bytes fs <? off + FAT32_DIR_ENTRY_SIZE then Next lfn
      else match dir_entry fs want (entry_bytes (image fs) (coff + off)) lfn with
           | Next lfn => cluster_scan fs want coff (off + FAT32_DIR_ENTRY_SIZE) n' lfn
           | r => r
           end
  end.

Definition entries_per_cluster (fs : fat32_fs_t) : nat := S (Z.to_nat (cluster_bytes fs / FAT32_DIR_ENTRY_SIZE)).

Fixpoint dir_scan (fuel : nat) (fs : fat32_fs_t) (want : option (list Z)) (c : Z) (lfn : list Z) : option (option fat32_node_t) :=
  match fuel with
  | O => None
  | S fuel =>
      if negb (cluster_is_valid fs c && (c <? FAT32_CLUSTER_EOC)) then Some None
      else
        let coff := cluster_offset_bytes fs c in
        if image_size fs <? u64 (coff + cluster_bytes fs) then Some None
        else match cluster_scan fs want coff 0 (entries_per_cluster fs) lfn with
             | Stop => Some None
             | Found x => Some (Some x)
             | Next lfn =>
                 let next := fat_next_cluster fs c in
                 if FAT32_CLUSTER_EOC <=? next then Some None
                 else if negb (cluster_is_valid fs next) then Some None
                 else dir_scan fuel fs want next lfn
             end
  end.

(** Outer [None]: out of fuel; inner [None]: not found. *)
Definition iter_dir_find (fuel : nat) (fs : fat32_fs_t) (dir_cluster : Z) (want : option (list Z)) : option (option fat32_node_t) :=
  if fat16 fs && (dir_cluster =? 0) then Some (iter_root_dir_find fs want)
  else if negb (cluster_is_valid fs dir_cluster) then Some None
  else dir_scan fuel fs want dir_cluster [].

(** One component of at most 63 characters, the rest behind its slashes. *)
Fixpoint take_part (p : list Z) (pi : nat) : list Z * list Z :=
  match p with
  | c :: p' => if negb (c =? SLASH) && (pi + 1 <? 64)%nat then let '(s, r) := take_part p' (S pi) in (c :: s, r) else ([], skip_slashes p)
  | [] => ([], [])
  end.

(** [pfuel]: components left, at most the length of the path. *)
Fixpoint resolve_loop (pfuel fuel : nat) (fs : fat32_fs_t) (p : list Z) (cur : fat32_node_t) : option (option fat32_node_t) :=
  match pfuel with
  | O => None
  | S pfuel =>
      match p with
      | [] => Some (Some cur)
      | _ =>
          let '(part, p) := take_part p 0 in
          if negb (is_dir cur) then Some None
          else match iter_dir_find fuel fs (start_cluster cur) (Some part) with
               | None => None
               | Some None => Some None
               | Some (Some next) => resolve_loop pfuel fuel fs p next
               end
      end
  end.

Definition resolve_path (fuel : nat) (fs : fat32_fs_t) (p : list Z) : option (option fat32_node_t) :=
  let cur := mkFnode [] true (if fat16 fs then 0 else root_cluster fs) 0 in
  let p := skip_slashes (cstr p) in
  resolve_loop (S (length p)) fuel fs p cur.

End Fat32.
