(* ===== verification/Fat32Ops.v ===== *)
(** * kernel/vfs/fat32.c: handles, mounting and the image writer

    The operations the VFS calls, and [fat32_image_upsert_file], which the
    installer uses on an image in memory. *)

From S2P Require Import Prelude CString Ringbuf Vfs Heap Fat32.
From Stdlib Require Import String ZArith Lia.
From stdpp Require Import base list gmap numbers.
Open Scope Z_scope.

Module Fat32Ops.
Import CString Vfs Fat32.

Record fat32_file_t := mkFatFile { ff_fs : Z; ff_node : fat32_node_t; ff_offset : Z }.
(** [sizeof(fat32_file_t)] *)
Definition SIZEOF_FAT_FILE : Z := 88.

(** ** Reading a chain *)

(** [while (skip--)]: [None] is the error return. *)
Fixpoint skip_clusters (fs : fat32_fs_t) (c : Z) (skip : nat) : option Z :=
  match skip with
  | O => Some c
  | S k =>
      let c := fat_next_cluster fs c in
      if (FAT32_CLUSTER_EOC <=? c) || negb (cluster_is_valid fs c) then None else skip_clusters fs c k
  end.

(** The bytes copied; the inner [None] is [VFS_ERR]. *)
Fixpoint read_loop (fuel : nat) (fs : fat32_fs_t) (c in_cluster : Z) (need : Z) (done : list Z) : option (option (list Z)) :=
  match fuel with
  | O => None
  | S fuel =>
      if Z.of_nat (length done) <? need then
        let coff := cluster_offset_bytes fs c in
        if image_size fs <? u64 (coff + cluster_bytes fs) then Some None
        else
          let chunk := cluster_bytes fs - in_cluster in
          let chunk := if need - Z.of_nat (length done) <? chunk then need - Z.of_nat (length done) else chunk in
          let done := done ++ take (Z.to_nat chunk) (drop (Z.to_nat (coff + in_cluster)) (image fs)) in
          if Z.of_nat (length done) <? need then
            let c := fat_next_cluster fs c in
            if (FAT32_CLUSTER_EOC <=? c) || negb (cluster_is_valid fs c) then Some (Some done)
            else read_loop fuel fs c 0 need done
          else Some (Some done)
      else Some (Some done)
  end.

(** What [fat32_read] does with a handle: result, bytes, new offset. *)
Definition read_file (fs : fat32_fs_t) (f : fat32_file_t) (n : Z) : option (Z * list Z * Z) :=
  if is_dir (ff_node f) then Some (VFS_EISDIR, [], ff_offset f)
  else if n_size (ff_node f) <=? ff_offset f then Some (0, [], ff_offset f)
  else
    let remain := n_size (ff_node f) - ff_offset f in
    let need := if n <? remain then n else remain in
    let c := start_cluster (ff_node f) in
    if negb (cluster_is_valid fs c) then Some (VFS_ERR, [], ff_offset f)
    else match skip_clusters fs c (Z.to_nat (ff_offset f / cluster_bytes fs)) with
         | None => Some (VFS_ERR, [], ff_offset f)
         | Some c =>
             match read_loop (S (Z.to_nat need)) fs c (ff_offset f mod cluster_bytes fs) need [] with
             | None => None
             | Some None => Some (VFS_ERR, [], ff_offset f)
             | Some (Some b) => Some (0, b, u32 (ff_offset f + Z.of_nat (length b)))
             end
         end.

(** ** Listing a directory *)

Definition dirent_name (d : list Z) : list Z := strncpy (replicate 256 0) 0 (take 255 (cstr d)) 255.

(** Entries of one cluster: the array, the count, the long name; [true]: the end
    of the directory was seen. *)
Fixpoint list_cluster (fs : fat32_fs_t) (coff off : Z) (n : nat) (lfn : list Z) (buf : list vfs_dirent_t) (count : nat)
  : list vfs_dirent_t * nat * list Z * bool :=
  match n with
  | O => (buf, count, lfn, false)
  | S n' =>
      if (cluster_bytes fs <? off + FAT32_DIR_ENTRY_SIZE) || negb (count <? length buf)%nat then (buf, count, lfn, false)
      else
        let e := entry_bytes (image fs) (coff + off) in
        let go := list_cluster fs coff (off + FAT32_DIR_ENTRY_SIZE) n' in
        if nth 0 e 0 =? 0 then (buf, count, lfn, true)
        else if nth 0 e 0 =? 0xE5 then go [] buf count
        else if nth 11 e 0 =? FAT32_ATTR_LFN then go (lfn_add e lfn) buf count
        else
          let name83 := format_83_name e 64 in
          let dname := if (0 <? length lfn)%nat then lfn else name83 in
          let kind := if has_flag (nth 11 e 0) FAT32_ATTR_DIR then VFS_NODE_DIR else VFS_NODE_FILE in
          go [] (<[count := mkDirent (dirent_name dname) kind (rd32 e 28)]> buf) (S count)
  end.

Fixpoint list_dir (fuel : nat) (fs : fat32_fs_t) (c : Z) (lfn : list Z) (buf : list vfs_dirent_t) (count : nat)
  : option (list vfs_dirent_t * nat) :=
  match fuel with
  | O => None
  | S fuel =>
      if negb (cluster_is_valid fs c && (c <? FAT32_CLUSTER_EOC) && (count <? length buf)%nat) then Some (buf, count)
      else
        let coff := cluster_offset_bytes fs c in
        if image_size fs <? u64 (coff + cluster_bytes fs) then Some (buf, count)
        else
          let '(buf, count, lfn, fin) := list_cluster fs coff 0 (entries_per_cluster fs) lfn buf count in
          if fin then Some (buf, count)
          else
            let next := fat_next_cluster fs c in
            if (FAT32_CLUSTER_EOC <=? next) || negb (cluster_is_valid fs next) then Some (buf, count)
            else list_dir fuel fs next lfn buf count
  end.

(** ** The operations of the VFS *)

Section Ops.
Context {H : Type} `{!Kmalloc H}.
(** The bound on followed chains, in clusters. *)
Context (fuel : nat).

Record fat_world := mkFat { fheap : H; volumes : gmap Z fat32_fs_t; fhandles : gmap Z fat32_file_t }.

Definition fat32_open (w : fat_world) (be : Z) (p : list Z) (fl : Z) : option (Z * fat_world) :=
  match volumes w !! be with
  | None => Some (0, w)
  | Some fs =>
      if has_flag fl VFS_O_WRITE then Some (0, w)
      else match resolve_path fuel fs p with
           | None => None
           | Some None => Some (0, w)
           | Some (Some n) =>
               if has_flag fl VFS_O_DIR && negb (is_dir n) then Some (0, w)
               else match kmalloc (fheap w) SIZEOF_FAT_FILE with
                    | (None, h) => Some (0, mkFat h (volumes w) (fhandles w))
                    | (Some (a, _), h) => Some (a, mkFat h (volumes w) (<[a := mkFatFile be n 0]> (fhandles w)))
                    end
           end
  end.

Definition fat32_close (w : fat_world) (be a : Z) : fat_world :=
  if a =? 0 then w else mkFat (kfree (fheap w) a) (volumes w) (delete a (fhandles w)).

Definition fat32_read (w : fat_world) (be a : Z) (n : Z) : option (Z * list Z * fat_world) :=
  match fhandles w !! a with
  | None => Some (VFS_EINVAL, [], w)
  | Some f =>
      match volumes w !! ff_fs f with
      | None => Some (VFS_EINVAL, [], w)
      | Some fs =>
          match read_file fs f n with
          | None => None
          | Some (rc, b, o) => Some (rc, b, mkFat (fheap w) (volumes w) (<[a := mkFatFile (ff_fs f) (ff_node f) o]> (fhandles w)))
          end
      end
  end.

Definition fat32_write (w : fat_world) (be a : Z) (buf : list Z) : Z * fat_world := (VFS_EPERM, w).

Definition fat32_seek (w : fat_world) (be a : Z) (off whence : Z) : Z * fat_world :=
  match fhandles w !! a with
  | None => (VFS_EINVAL, w)
  | Some f =>
      let base := if whence =? 0 then Some 0 else if whence =? 1 then Some (ff_offset f)
                  else if whence =? 2 then Some (n_size (ff_node f)) else None in
      match base with
      | None => (VFS_EINVAL, w)
      | Some b =>
          let noff := s64 (b + off) in
          if (noff <? 0) || (n_size (ff_node f) <? noff) then (VFS_EINVAL, w)
          else (noff, mkFat (fheap w) (volumes w) (<[a := mkFatFile (ff_fs f) (ff_node f) (u32 noff)]> (fhandles w)))
      end
  end.

Definition fat32_readdir (w : fat_world) (be a : Z) (buf : list vfs_dirent_t) : option (Z * dir_result * fat_world) :=
  match fhandles w !! a, volumes w !! be with
  | Some f, Some fs =>
      if negb (is_dir (ff_node f)) then Some (VFS_ENOTDIR, (buf, None), w)
      else match list_dir fuel fs (start_cluster (ff_node f)) [] buf 0 with
           | None => None
           | Some (buf, count) => Some (0, (buf, Some count), w)
           end
  | _, _ => Some (VFS_EINVAL, (buf, None), w)
  end.

Definition fat32_stat (w : fat_world) (be : Z) (p : list Z) (out : stat_info_t) : option (Z * stat_info_t * fat_world) :=
  match volumes w !! be with
  | None => Some (VFS_EINVAL, out, w)
  | Some fs =>
      match resolve_path fuel fs p with
      | None => None
      | Some None => Some (VFS_ENOENT, out, w)
      | Some (Some n) =>
          let nm := if truthy (hd 0 (n_name n)) then n_name n else [SLASH] in
          Some (0, mkStat (if is_dir n then 0 else n_size n) (if is_dir n then VFS_NODE_DIR else VFS_NODE_FILE) 0
                     (strncpy (replicate VFS_PATH_MAX 0) 0 nm 255) 0 0 0, w)
      end
  end.

Definition fat32_unlink (w : fat_world) (be : Z) (p : list Z) : Z * fat_world := (VFS_EPERM, w).
Definition fat32_mkdir (w : fat_world) (be : Z) (p : list Z) : Z * fat_world := (VFS_EPERM, w).

End Ops.

(** ** Mounting *)

(** [None]: -1. *)
Definition fat32_parse_header (img : list Z) (sz : Z) : option fat32_fs_t :=
  if sz <? 512 then None
  else if negb (byte img 510 =? 0x55) || negb (byte img 511 =? 0xAA) then None
  else
    let bps := rd16 img 11 in
    let spc := byte img 13 in
    let reserved := rd16 img 14 in
    let nfats := byte img 16 in
    let total := rd16 img 19 in
    let total := if total =? 0 then rd32 img 32 else total in
    let fat_sz16 := rd16 img 22 in
    let fat_sz := if fat_sz16 =? 0 then rd32 img 36 else fat_sz16 in
    let rootc := rd32 img 44 in
    if (bps =? 0) || (spc =? 0) || (reserved =? 0) || (nfats =? 0) || (fat_sz =? 0) || (total =? 0) then None
    else
      let image_sectors := u32 (sz / bps) in
      if image_sectors <? u32 (reserved + nfats * fat_sz + spc) then None
      else
        let total := if image_sectors <? total then image_sectors else total in
        let data_start := u32 (reserved + nfats * fat_sz) in
        if total <=? data_start then None
        else
          let clusters := (total - data_start) / spc in
          if clusters <? 2 then None
          else
            let is_fat32 := (fat_sz16 =? 0) && negb (rd32 img 36 =? 0) in
            if is_fat32 && (2 <=? rootc) then
              Some (mkFs img sz bps spc reserved nfats fat_sz total rootc data_start clusters false 0 0)
            else if is_fat32 then None
            else
              let root_entries := rd16 img 17 in
              let root_entries := if root_entries =? 0 then 512 else root_entries in
              Some (mkFs img sz bps spc reserved nfats fat_sz total 0 data_start clusters true data_start
                      (root_entries * FAT32_DIR_ENTRY_SIZE)).

(** ** Writing a file into an image *)

Definition fat_set32 (fs : fat32_fs_t) (c v : Z) : fat32_fs_t :=
  let off := reserved_sectors fs * bytes_per_sector fs + c * 4 in
  if image_size fs <? off + 4 then fs
  else set_image fs (wr32 (image fs) off (Z.lor (Z.land (rd32 (image fs) off) 0xF0000000) (Z.land v 0x0FFFFFFF))).

Definition fat_set16 (fs : fat32_fs_t) (c v : Z) : fat32_fs_t :=
  let off := reserved_sectors fs * bytes_per_sector fs + c * 2 in
  if image_size fs <? off + 2 then fs else set_image fs (wr16 (image fs) off v).

(** [n] candidates from [c] on; 0: none. *)
Fixpoint find_free (fs : fat32_fs_t) (c : Z) (n : nat) : Z :=
  match n with
  | O => 0
  | S n' =>
      let base := reserved_sectors fs * bytes_per_sector fs in
      if fat16 fs then
        if image_size fs <? base + c * 2 + 2 then 0
        else if rd16 (image fs) (base + c * 2) =? 0 then c else find_free fs (c + 1) n'
      else
        if image_size fs <? base + c * 4 + 4 then 0
        else if Z.land (rd32 (image fs) (base + c * 4)) 0x0FFFFFFF =? 0 then c else find_free fs (c + 1) n'
  end.
Definition fat_find_free_cluster (fs : fat32_fs_t) : Z := find_free fs 2 (Z.to_nat (u32 (cluster_count fs + 2) - 2)).

(** The first eight characters, filled up with blanks. *)
Definition want83 (name83 : list Z) : list Z := take 8 (cstr name83 ++ replicate 8 32).

(** The entry at [p] of the image, newly made or updated. *)
Definition new_entry (img : list Z) (p : Z) (want : list Z) (hi : bool) (c size : Z) : list Z :=
  let img := list_inserts (Z.to_nat p) (replicate 32 0) img in
  let img := list_inserts (Z.to_nat p) want img in
  let img := list_inserts (Z.to_nat (p + 11)) [0x20] img in
  let img := wr16 img (p + 26) (u16 (Z.land c 0xFFFF)) in
  let img := if hi then wr16 img (p + 20) (Z.land (Z.shiftr c 16) 0xFFFF) else img in
  wr32 img (p + 28) size.
Definition update_entry (img : list Z) (p : Z) (hi : bool) (c size : Z) : list Z :=
  let img := wr16 img (p + 26) (u16 (Z.land c 0xFFFF)) in
  let img := if hi then wr16 img (p + 20) (Z.land (Z.shiftr c 16) 0xFFFF) else img in
  wr32 img (p + 28) size.

(** [n] entries from [off]: the image if a place was found; [true]: the error
    return. *)
Fixpoint put_root (fs : fat32_fs_t) (want : list Z) (c size off : Z) (n : nat) : option (list Z) :=
  match n with
  | O => None
  | S n' =>
      if root_dir_bytes fs <? off + FAT32_DIR_ENTRY_SIZE then None
      else
        let p := root_dir_sector fs * bytes_per_sector fs + off in
        if image_size fs <? p + FAT32_DIR_ENTRY_SIZE then None
        else
          let e := entry_bytes (image fs) p in
          if (nth 0 e 0 =? 0) || (nth 0 e 0 =? 0xE5) then Some (new_entry (image fs) p want false c size)
          else if f_stricmp (format_83_name e 64) want =? 0 then Some (update_entry (image fs) p false c size)
          else put_root fs want c size (off + FAT32_DIR_ENTRY_SIZE) n'
  end.

Fixpoint put_cluster (fs : fat32_fs_t) (want : list Z) (c size coff off : Z) (n : nat) : option (list Z) :=
  match n with
  | O => None
  | S n' =>
      if cluster_bytes fs <? off + FAT32_DIR_ENTRY_SIZE then None
      else
        let e := entry_bytes (image fs) (coff + off) in
        if (nth 0 e 0 =? 0) || (nth 0 e 0 =? 0xE5) then Some (new_entry (image fs) (coff + off) want true c size)
        else if nth 11 e 0 =? FAT32_ATTR_LFN then put_cluster fs want c size coff (off + FAT32_DIR_ENTRY_SIZE) n'
        else if f_stricmp (format_83_name e 64) want =? 0 then Some (update_entry (image fs) (coff + off) true c size)
        else put_cluster fs want c size coff (off + FAT32_DIR_ENTRY_SIZE) n'
  end.

(** Outer [None]: out of fuel; inner [None]: -1. *)
Fixpoint put_dir (fuel : nat) (fs : fat32_fs_t) (want : list Z) (c size d : Z) : option (option (list Z)) :=
  match fuel with
  | O => None
  | S fuel =>
      if negb (cluster_is_valid fs d && (d <? FAT32_CLUSTER_EOC)) then Some None
      else
        let coff := cluster_offset_bytes fs d in
        if image_size fs <? u64 (coff + cluster_bytes fs) then Some None
        else match put_cluster fs want c size coff 0 (entries_per_cluster fs) with
             | Some img => Some (Some img)
             | None =>
                 let next := fat_next_cluster fs d in
                 if FAT32_CLUSTER_EOC <=? next then Some None else put_dir fuel fs want c size next
             end
  end.

Definition fat_write_root_entry (fuel : nat) (fs : fat32_fs_t) (name83 : list Z) (c size : Z) : option (option fat32_fs_t) :=
  let want := want83 name83 in
  if fat16 fs then
    Some (set_image fs <$> put_root fs want c size 0 (S (Z.to_nat (root_dir_bytes fs / FAT32_DIR_ENTRY_SIZE))))
  else if negb (cluster_is_valid fs (root_cluster fs)) then Some None
  else match put_dir fuel fs want c size (root_cluster fs) with
       | None => None
       | Some r => Some (set_image fs <$> r)
       end.

Definition fat_mark (fs : fat32_fs_t) (c v16 v32 : Z) : fat32_fs_t := if fat16 fs then fat_set16 fs c v16 else fat_set32 fs c v32.

(** [data]: what is still to be written; [Some (ok, fs)], where [ok = false] is
    the return of -1. *)
Fixpoint write_loop (fuel : nat) (fs : fat32_fs_t) (c : Z) (data : list Z) : option (bool * fat32_fs_t) :=
  match fuel with
  | O => None
  | S fuel =>
      match data with
      | [] => Some (true, fs)
      | _ =>
          if negb (cluster_is_valid fs c) then Some (false, fs)
          else
            let coff := cluster_offset_bytes fs c in
            if image_size fs <? u64 (coff + cluster_bytes fs) then Some (false, fs)
            else
              let chunk := take (Z.to_nat (cluster_bytes fs)) data in
              let rest := drop (Z.to_nat (cluster_bytes fs)) data in
              let fs := set_image fs (list_inserts (Z.to_nat coff) chunk (image fs)) in
              match rest with
              | [] => Some (true, fat_mark fs c 0xFFFF FAT32_CLUSTER_EOC)
              | _ =>
                  let next := fat_find_free_cluster fs in
                  if next =? 0 then Some (false, fs)
                  else write_loop fuel (fat_mark fs c (u16 next) next) next rest
              end
      end
  end.
Definition fat_write_file_data (fs : fat32_fs_t) (c : Z) (data : list Z) : option (bool * fat32_fs_t) :=
  write_loop (S (length data)) fs c data.

(** Result and image. *)
Definition fat32_image_upsert_file (fuel : nat) (img : list Z) (sz : Z) (name83 data : list Z) : option (Z * list Z) :=
  if (sz <? 512) || (length data =? 0)%nat then Some (-1, img)
  else match fat32_parse_header img sz with
  | None => Some (-1, img)
  | Some fs =>
      if u32 (cluster_bytes fs * 16) <? Z.of_nat (length data) then Some (-1, img)
      else match iter_dir_find fuel fs (if fat16 fs then 0 else root_cluster fs) (Some name83) with
      | None => None
      | Some has =>
          let c := match has with
                   | Some n => if 2 <=? start_cluster n then start_cluster n else fat_find_free_cluster fs
                   | None => fat_find_free_cluster fs
                   end in
          if c =? 0 then Some (-1, img)
          else match fat_write_file_data fs c data with
          | None => None
          | Some (false, fs) => Some (-1, image fs)
          | Some (true, fs) =>
              match fat_write_root_entry fuel fs name83 c (u32 (Z.of_nat (length data))) with
              | None => None
              | Some None => Some (-1, image fs)
              | Some (Some fs) => Some (0, image fs)
              end
          end
      end
  end.

End Fat32Ops.
