(* ===== verification/Fat32Thm.v ===== *)
(** * kernel/vfs/fat32.c: theorems

    Clusters lie in the image, reading follows the chain, and a search ends
    unless the chain is cyclic. *)

From S2P Require Import Prelude CString Ringbuf Vfs Heap Fat32 Fat32Ops.
From Stdlib Require Import String ZArith Lia.
From stdpp Require Import base list gmap numbers.
Open Scope Z_scope.

Module Fat32Thm.
Import CString Vfs Fat32 Fat32Ops.

(** ** Geometry *)

(** Everything [fat32_parse_header] establishes. *)
Record geometry (fs : fat32_fs_t) : Prop := {
  g_len : Z.of_nat (length (image fs)) = image_size fs;
  g_size : image_size fs < 2 ^ 63;
  g_bps : 0 < bytes_per_sector fs < 2 ^ 16;
  g_spc : 0 < sectors_per_cluster fs < 2 ^ 8;
  g_data : 0 <= data_start_sector fs < 2 ^ 32;
  g_count : 2 <= cluster_count fs;
  g_fit : (data_start_sector fs + cluster_count fs * sectors_per_cluster fs) * bytes_per_sector fs <= image_size fs;
  g_end : data_start_sector fs + cluster_count fs * sectors_per_cluster fs < 2 ^ 32 }.

Lemma byte_bound img p : Forall (fun b => 0 <= b < 256) img -> 0 <= byte img p < 256.
Proof.
  intros H. unfold byte. destruct (nth_in_or_default (Z.to_nat p) img 0) as [Hin| ->]; [|lia].
  rewrite List.Forall_forall in H. by apply H.
Qed.

Lemma lor_shift_bound a b k m : 0 <= k -> 0 <= a < 2 ^ k -> 0 <= b < 2 ^ m -> 0 <= m -> 0 <= Z.lor a (Z.shiftl b k) < 2 ^ (k + m).
Proof.
  intros Hk Ha Hb Hm. assert (E : Z.lor a (Z.shiftl b k) = a + b * 2 ^ k).
  { rewrite Z.shiftl_mul_pow2 by lia. symmetry. apply Z.add_nocarry_lor. rewrite <- Z.shiftl_mul_pow2 by lia.
    apply Z.bits_inj'. intros n Hn. rewrite Z.land_spec, Z.bits_0. destruct (Z.ltb_spec n k).
    - rewrite Z.shiftl_spec_low by lia. apply andb_false_r.
    - rewrite <- (Z.mod_small a (2 ^ k)), Z.mod_pow2_bits_high by lia. done. }
  rewrite E, Z.pow_add_r by lia. nia.
Qed.

Lemma rd16_bound img p : Forall (fun b => 0 <= b < 256) img -> 0 <= rd16 img p < 2 ^ 16.
Proof. intros H. unfold rd16. apply (lor_shift_bound _ _ 8 8); try lia; change (2 ^ 8) with 256; by apply byte_bound. Qed.

Lemma parse_geometry img sz fs : fat32_parse_header img sz = Some fs -> Forall (fun b => 0 <= b < 256) img ->
  Z.of_nat (length img) = sz -> sz < 2 ^ 63 -> geometry fs.
Proof.
  intros E Hb Hl Hs. unfold fat32_parse_header in E. cbv zeta in E.
  destruct (sz <? 512); [discriminate E|]. destruct (_ || _); [discriminate E|].
  pose proof (rd16_bound img 11 Hb) as Hbps. pose proof (byte_bound img 13 Hb) as Hspc.
  set (bps := rd16 img 11) in *. set (spc := byte img 13) in *. set (fsz := if rd16 img 22 =? 0 then _ else _) in E.
  set (tot := if rd16 img 19 =? 0 then _ else _) in E. set (ds := u32 (rd16 img 14 + byte img 16 * fsz)) in E.
  destruct ((bps =? 0) || (spc =? 0) || _ || _ || _ || _) eqn:Ez; [discriminate E|].
  rewrite !orb_false_iff in Ez. destruct Ez as [[[[[Hbps0 Hspc0] _] _] _] _]. apply Z.eqb_neq in Hbps0, Hspc0.
  destruct (_ <? u32 _); [discriminate E|]. set (isec := u32 (sz / bps)) in E. set (tot' := if isec <? tot then isec else tot) in E.
  destruct (Z.leb_spec tot' ds) as [|Hds]; [discriminate E|]. destruct (Z.ltb_spec ((tot' - ds) / spc) 2) as [|Hcl]; [discriminate E|].
  assert (Hd : 0 <= ds < 2 ^ 32) by (apply Z.mod_pos_bound; lia).
  assert (Hi : 0 <= isec < 2 ^ 32 /\ isec * bps <= sz).
  { split; [apply Z.mod_pos_bound; lia|]. assert (isec <= sz / bps) by (apply Z.mod_le; [apply Z.div_pos; lia|lia]).
    pose proof (Z.mul_div_le sz bps). nia. }
  assert (Ht : tot' <= isec) by (unfold tot'; destruct (Z.ltb_spec isec tot); lia).
  assert (Hc : ds + (tot' - ds) / spc * spc <= tot') by (pose proof (Z.mul_div_le (tot' - ds) spc); lia).
  assert (G : forall rc f16 rs rb, geometry (mkFs img sz bps spc (rd16 img 14) (byte img 16) fsz tot' rc ds ((tot' - ds) / spc) f16 rs rb)).
  { intros. constructor; cbn; try lia. nia. }
  destruct (_ && (2 <=? _)); [injection E as <-; apply G|]. destruct (_ && negb _); [discriminate E|]. injection E as <-. apply G.
Qed.

Lemma cluster_bytes_eq fs : geometry fs -> cluster_bytes fs = bytes_per_sector fs * sectors_per_cluster fs /\ 0 < cluster_bytes fs < 2 ^ 24.
Proof.
  intros [_ _ Hb Hs _ _ _ _]. unfold cluster_bytes. rewrite u32_small by nia. split; [done|]. nia.
Qed.

Lemma cluster_inside fs c : geometry fs -> cluster_is_valid fs c = true ->
  cluster_offset_bytes fs c = (data_start_sector fs + (c - 2) * sectors_per_cluster fs) * bytes_per_sector fs /\
  0 <= cluster_offset_bytes fs c /\ cluster_offset_bytes fs c + cluster_bytes fs <= image_size fs.
Proof.
  intros G Hv. destruct (cluster_bytes_eq fs G) as [Ecb _]. destruct G as [Hl Hsz Hb Hs Hd Hc Hfit Hend].
  unfold cluster_is_valid in Hv. apply andb_true_iff in Hv as [H2%Z.leb_le Hlt%Z.ltb_lt].
  assert (Hcc : cluster_count fs < 2 ^ 32) by nia. assert (Hc2 : c - 2 < cluster_count fs).
  { destruct (decide (cluster_count fs + 2 < 2 ^ 32)); [rewrite u32_small in Hlt by lia; lia|].
    assert (u32 (cluster_count fs + 2) = cluster_count fs + 2 - 2 ^ 32) by (rewrite <- (Z_mod_plus_full _ (-1) (2 ^ 32)), Z.mod_small; lia). lia. }
  assert (E : cluster_offset_bytes fs c = (data_start_sector fs + (c - 2) * sectors_per_cluster fs) * bytes_per_sector fs).
  { unfold cluster_offset_bytes. rewrite (u32_small (c - 2)) by lia. rewrite (u64_small (data_start_sector fs + _)) by nia. apply u64_small. nia. }
  rewrite E, Ecb. split; [done|]. split; [nia|]. nia.
Qed.

(** ** Chains *)

(** The clusters of a file or directory, in order. *)
Fixpoint chain (fs : fat32_fs_t) (cs : list Z) : Prop :=
  match cs with
  | [] => True
  | c :: cs' => cluster_is_valid fs c = true /\
      match cs' with [] => True | d :: _ => fat_next_cluster fs c = d /\ d < FAT32_CLUSTER_EOC end /\ chain fs cs'
  end.

Definition cluster_data (fs : fat32_fs_t) (c : Z) : list Z :=
  take (Z.to_nat (cluster_bytes fs)) (drop (Z.to_nat (cluster_offset_bytes fs c)) (image fs)).
Definition chain_data (fs : fat32_fs_t) (cs : list Z) : list Z := concat (map (cluster_data fs) cs).

Lemma fat_chain_tail fs c cs : chain fs (c :: cs) -> chain fs cs.
Proof. by intros (_ & _ & H). Qed.

Lemma length_cluster fs c : geometry fs -> cluster_is_valid fs c = true -> length (cluster_data fs c) = Z.to_nat (cluster_bytes fs).
Proof.
  intros G Hv. destruct (cluster_inside fs c G Hv) as (_ & H0 & H1). destruct (cluster_bytes_eq fs G) as [_ Hcb].
  pose proof (g_len fs G) as Hl. unfold cluster_data. rewrite length_take, length_drop. lia.
Qed.

Lemma length_chain fs cs : geometry fs -> chain fs cs -> length (chain_data fs cs) = (length cs * Z.to_nat (cluster_bytes fs))%nat.
Proof.
  intros G. induction cs as [|c cs IH]; intros Hc; [done|]. unfold chain_data in *. cbn [map concat length]. rewrite length_app, length_cluster, IH; [lia|..]; try done.
  - by apply fat_chain_tail in Hc.
  - apply Hc.
Qed.

(** Advancing [k] clusters. *)
Lemma skip_chain fs k : forall c cs d, chain fs (c :: cs) -> (c :: cs) !! k = Some d -> skip_clusters fs c k = Some d.
Proof.
  induction k as [|k IH]; intros c cs d Hc Hk; cbn [skip_clusters]; [by injection Hk as <-|].
  destruct cs as [|c' cs]; [done|]. destruct Hc as (_ & (En & Hlt) & Hc'). rewrite En. destruct Hc' as (Hv & Hrest).
  rewrite (proj2 (Z.leb_gt _ _) Hlt), Hv. cbn [orb negb]. apply (IH c' cs); [done|exact Hk].
Qed.

(** The part of a cluster a round copies. *)
Lemma round_bytes fs c i k : geometry fs -> cluster_is_valid fs c = true -> 0 <= i -> (k <= Z.to_nat (cluster_bytes fs - i))%nat ->
  take k (drop (Z.to_nat (cluster_offset_bytes fs c + i)) (image fs)) = take k (drop (Z.to_nat i) (cluster_data fs c)).
Proof.
  intros G Hv Hi Hk. destruct (cluster_inside fs c G Hv) as (_ & H0 & _). unfold cluster_data.
  rewrite skipn_firstn_comm, take_take, drop_drop. f_equal; [lia|]. f_equal. lia.
Qed.

Lemma read_chain fs need : geometry fs -> forall cs c i done fuel, chain fs (c :: cs) -> 0 <= i < cluster_bytes fs ->
  Z.of_nat (length done) <= need -> need - Z.of_nat (length done) <= Z.of_nat (length (drop (Z.to_nat i) (chain_data fs (c :: cs)))) ->
  (Z.to_nat (need - Z.of_nat (length done)) < fuel)%nat ->
  read_loop fuel fs c i need done =
    Some (Some (done ++ take (Z.to_nat (need - Z.of_nat (length done))) (drop (Z.to_nat i) (chain_data fs (c :: cs))))).
Proof.
  intros G. induction cs as [|c' cs IH]; intros c i done fuel Hc Hi Hle Hneed Hf; (destruct fuel as [|fuel]; [lia|]); cbn [read_loop].
  all: pose proof Hc as (Hv & Hnext & Hrest); destruct (cluster_inside fs c G Hv) as (_ & H0 & Hin); pose proof (g_size fs G) as Hsz.
  all: destruct (cluster_bytes_eq fs G) as [_ Hcb]; pose proof (length_cluster fs c G Hv) as Hlen.
  all: destruct (Z.ltb_spec (Z.of_nat (length done)) need) as [Hlt|Hge];
    [|replace (Z.to_nat (need - Z.of_nat (length done))) with 0%nat by lia; by rewrite take_0, app_nil_r].
  all: rewrite u64_small by lia; rewrite (proj2 (Z.ltb_ge (image_size fs) _)) by lia.
  all: set (chunk := if need - Z.of_nat (length done) <? cluster_bytes fs - i then need - Z.of_nat (length done) else cluster_bytes fs - i).
  all: assert (Hch : chunk = Z.min (need - Z.of_nat (length done)) (cluster_bytes fs - i))
    by (unfold chunk; destruct (Z.ltb_spec (need - Z.of_nat (length done)) (cluster_bytes fs - i)); lia); clearbody chunk.
  all: rewrite round_bytes by (try done; lia).
  all: assert (Hl2 : length (done ++ take (Z.to_nat chunk) (drop (Z.to_nat i) (cluster_data fs c))) = (length done + Z.to_nat chunk)%nat)
    by (rewrite length_app, length_take, length_drop; lia).
  - assert (Hone : chain_data fs [c] = cluster_data fs c) by (unfold chain_data; cbn; apply app_nil_r). rewrite Hone in *.
    rewrite length_drop in Hneed. rewrite Hl2. rewrite (proj2 (Z.ltb_ge _ need)) by lia. do 3 f_equal. f_equal. lia.
  - assert (Hcons : chain_data fs (c :: c' :: cs) = cluster_data fs c ++ chain_data fs (c' :: cs)) by done. rewrite Hcons in *. clear Hcons.
    rewrite drop_app_le in * by lia. destruct (Z.ltb_spec (Z.of_nat (length (done ++ take (Z.to_nat chunk) (drop (Z.to_nat i) (cluster_data fs c))))) need) as [Hmore|Hend].
    + destruct Hnext as [En Hd]. rewrite En. rewrite (proj2 (Z.leb_gt _ _) Hd). rewrite (proj1 Hrest). cbn [orb negb].
      rewrite length_app, length_drop in Hneed. rewrite Hl2 in Hmore.
      rewrite IH; try done; rewrite ?Hl2; cbn [Z.to_nat]; rewrite ?drop_0; try lia. rewrite <- app_assoc. do 3 f_equal.
      rewrite (take_ge (drop (Z.to_nat i) (cluster_data fs c)) (Z.to_nat chunk)) by (rewrite length_drop; lia).
      rewrite take_app_ge by (rewrite length_drop; lia). do 2 f_equal. rewrite length_drop. lia.
    + rewrite Hl2 in Hend. do 3 f_equal. rewrite take_app_le by (rewrite length_drop; lia). f_equal. lia.
Qed.

Lemma drop_chain fs cs : geometry fs -> chain fs cs -> forall k, (k <= length cs)%nat ->
  drop (k * Z.to_nat (cluster_bytes fs)) (chain_data fs cs) = chain_data fs (drop k cs) /\ chain fs (drop k cs).
Proof.
  intros G. induction cs as [|c cs IH]; intros Hc k Hk; [by replace k with 0%nat by (cbn in Hk; lia)|]. destruct k as [|k]; [done|].
  cbn [drop]. destruct (IH (fat_chain_tail _ _ _ Hc) k ltac:(cbn in Hk; lia)) as [E Hd]. split; [|done]. rewrite <- E.
  unfold chain_data. cbn [map concat]. rewrite drop_app_ge; rewrite length_cluster by (try done; apply Hc); [|lia]. f_equal. lia.
Qed.

Lemma read_file_ok fs f n c cs : geometry fs -> chain fs (c :: cs) -> is_dir (ff_node f) = false -> start_cluster (ff_node f) = c ->
  n_size (ff_node f) <= Z.of_nat (length (chain_data fs (c :: cs))) -> 0 <= ff_offset f -> 0 <= n -> n_size (ff_node f) < 2 ^ 32 -> ff_offset f < 2 ^ 32 ->
  let b := take (Z.to_nat n) (drop (Z.to_nat (ff_offset f)) (take (Z.to_nat (n_size (ff_node f))) (chain_data fs (c :: cs)))) in
  read_file fs f n = Some (0, b, ff_offset f + Z.of_nat (length b)).
Proof.
  intros G Hc Hd Hst Hsz Ho Hn Hs32 Ho32 b. unfold read_file. rewrite Hd. destruct (cluster_bytes_eq fs G) as [_ Hcb].
  set (off := ff_offset f) in *. set (size := n_size (ff_node f)) in *. set (cb := cluster_bytes fs) in *.
  destruct (Z.leb_spec size off) as [Hle|Hlt].
  { assert (E : b = []) by (unfold b; rewrite drop_ge by (rewrite length_take; lia); apply take_nil). rewrite E. cbn [length]. by rewrite Z.add_0_r. }
  rewrite Hst, (proj1 Hc). cbn [negb]. pose proof (length_chain fs (c :: cs) G Hc) as Hl. fold cb in Hl.
  assert (Hoff : off = cb * (off / cb) + off mod cb) by (apply Z.div_mod; lia). pose proof (Z.mod_pos_bound off cb ltac:(lia)) as Hmod.
  assert (Hq : 0 <= off / cb) by (apply Z.div_pos; lia). set (k := Z.to_nat (off / cb)) in *.
  assert (Hk : (k < length (c :: cs))%nat) by nia.
  destruct (lookup_lt_is_Some_2 (c :: cs) k Hk) as [d Ed]. rewrite (skip_chain fs k c cs d Hc Ed).
  destruct (drop_chain fs (c :: cs) G Hc k ltac:(lia)) as [Edrop Hcd]. fold cb in Edrop. rewrite (drop_S _ _ _ Ed) in Edrop, Hcd.
  set (need := if n <? size - off then n else size - off).
  assert (Hneed : need = Z.min n (size - off)) by (unfold need; destruct (Z.ltb_spec n (size - off)); lia). clearbody need.
  assert (Eall : drop (Z.to_nat (off mod cb)) (chain_data fs (d :: drop (S k) (c :: cs))) = drop (Z.to_nat off) (chain_data fs (c :: cs))).
  { rewrite <- Edrop, drop_drop. f_equal. nia. }
  rewrite (read_chain fs need G (drop (S k) (c :: cs)) d (off mod cb) []); [|done|done|cbn; lia| |cbn [length]; lia].
  2:{ rewrite Eall, length_drop. cbn [length]. lia. }
  cbn [length app]. rewrite Z.sub_0_r, Eall. assert (Eb : take (Z.to_nat need) (drop (Z.to_nat off) (chain_data fs (c :: cs))) = b).
  { unfold b. rewrite skipn_firstn_comm, take_take. f_equal. lia. }
  rewrite Eb. rewrite u32_small; [done|]. rewrite <- Eb, length_take, length_drop. lia.
Qed.


(** ** Searching ends *)

Lemma scan_out_of_fuel fuel : forall fs want c lfn, dir_scan fuel fs want c lfn = None ->
  fuel = 0%nat \/ exists cs, length cs = fuel /\ hd c cs = c /\ chain fs cs.
Proof.
  induction fuel as [|fuel IH]; intros fs want c lfn E; [by left|]. right. cbn [dir_scan] in E.
  destruct (cluster_is_valid fs c) eqn:Hv; cbn [andb negb] in E; [|discriminate E]. destruct (c <? FAT32_CLUSTER_EOC); cbn [negb] in E; [|discriminate E].
  destruct (_ <? u64 _); [discriminate E|]. destruct (cluster_scan _ _ _ _ _ _) as [|lfn'|x]; try discriminate E.
  destruct (Z.leb_spec FAT32_CLUSTER_EOC (fat_next_cluster fs c)) as [|Hlt]; [discriminate E|].
  destruct (cluster_is_valid fs (fat_next_cluster fs c)); cbn [negb] in E; [|discriminate E].
  destruct (IH _ _ _ _ E) as [->|(cs & Hlen & Hhd & Hch)]; [by exists [c]|]. exists (c :: cs). cbn [length hd]. split; [lia|]. split; [done|].
  cbn [chain]. split; [done|]. split; [|done]. destruct cs as [|d cs]; [done|]. cbn [hd] in Hhd. by subst.
Qed.

Lemma valid_range fs c : geometry fs -> cluster_is_valid fs c = true -> 2 <= c < 2 + cluster_count fs.
Proof.
  intros [_ _ _ Hs Hd Hc _ Hend] Hv. assert (Hcc : cluster_count fs < 2 ^ 32) by nia. unfold cluster_is_valid in Hv. apply andb_true_iff in Hv as [H2%Z.leb_le Hlt%Z.ltb_lt].
  split; [done|]. destruct (decide (cluster_count fs + 2 < 2 ^ 32)); [rewrite u32_small in Hlt by lia; lia|].
  assert (u32 (cluster_count fs + 2) = cluster_count fs + 2 - 2 ^ 32) by (rewrite <- (Z_mod_plus_full _ (-1) (2 ^ 32)), Z.mod_small; lia). lia.
Qed.

(** A chain without repetition has at most as many clusters as the volume. *)
Lemma chain_bounded fs cs : geometry fs -> chain fs cs -> NoDup cs -> (length cs <= Z.to_nat (cluster_count fs))%nat.
Proof.
  intros G Hc Hnd. assert (Hin : forall l, chain fs l -> forall d, d ∈ l -> d ∈ seqZ 2 (cluster_count fs)).
  { induction l as [|x l IH]; intros Hcl d Hdl; [by apply elem_of_nil in Hdl|]. apply elem_of_cons in Hdl as [->|Hdl].
    - apply elem_of_seqZ. apply (valid_range fs x G), Hcl.
    - apply IH; [by apply fat_chain_tail in Hcl|done]. }
  rewrite <- (length_seqZ 2 (cluster_count fs)). apply submseteq_length, NoDup_submseteq; [done|]. apply Hin, Hc.
Qed.

(** C27: a directory search ends unless the image is cyclic.  On a volume
    [fat32_parse_header] accepted, if no chain of the FAT that starts at the
    directory's first cluster visits a cluster twice, then [iter_dir_find]
    returns after at most as many clusters as the volume has. *)
Theorem fat32_search_terminates img sz fs c want : fat32_parse_header img sz = Some fs -> Forall (fun b => 0 <= b < 256) img ->
  Z.of_nat (length img) = sz -> sz < 2 ^ 63 ->
  (forall cs, hd c cs = c -> chain fs cs -> NoDup cs) ->
  is_Some (iter_dir_find (S (Z.to_nat (cluster_count fs))) fs c want).
Proof.
  intros E Hb Hl Hsz Hac. pose proof (parse_geometry img sz fs E Hb Hl Hsz) as G. unfold iter_dir_find.
  destruct (fat16 fs && (c =? 0)); [by eexists|]. destruct (negb (cluster_is_valid fs c)); [by eexists|].
  destruct (dir_scan (S (Z.to_nat (cluster_count fs))) fs want c []) as [r|] eqn:Es; [by eexists|]. exfalso.
  destruct (scan_out_of_fuel _ _ _ _ _ Es) as [|(cs & Hlen & Hhd & Hch)]; [done|].
  pose proof (chain_bounded fs cs G Hch (Hac cs Hhd Hch)). lia.
Qed.

(** ** A small volume *)

#[local] Instance null_heap : Kmalloc unit.
Proof. refine {| kmalloc h n := (None, h); kfree h a := h; blocks h := ∅ |}; [discriminate|done|set_solver]. Defined.

(** 21 sectors of 64 bytes: eight reserved, one of FAT, twelve clusters.  [fat]:
    the FAT entries from cluster 2 on, [root]: the root directory. *)
Definition volume (fat : list (list Z)) (root data : list Z) : list Z :=
  let img := replicate 1344 0 in
  let img := list_inserts 11 [64; 0; 1; 8; 0; 1; 0; 0; 21; 0] img in
  let img := list_inserts 36 [1; 0; 0; 0] img in
  let img := list_inserts 44 [2; 0; 0; 0] img in
  let img := list_inserts 510 [0x55; 0xAA] img in
  let img := list_inserts 520 (concat fat) img in
  let img := list_inserts 576 root img in
  list_inserts 640 data img.

Definition eoc : list Z := [0xFF; 0xFF; 0xFF; 0x0F].
(** "A", cluster 3, 100 bytes. *)
Definition entry_a : list Z := [65] ++ replicate 10 32 ++ [0x20] ++ replicate 14 0 ++ [3; 0] ++ [100; 0; 0; 0].
Definition text : list Z := map Z.of_nat (seq 1 100).
Definition demo_image : list Z := volume [eoc; [4; 0; 0; 0]; eoc] entry_a text.
Definition demo_fs : fat32_fs_t := mkFs demo_image 1344 64 1 8 1 1 21 2 9 12 false 0 0.
Definition demo_world : fat_world (H := unit) := mkFat tt {[1 := demo_fs]} {[5 := mkFatFile 1 (mkFnode [65] false 3 100) 60]}.

Lemma demo_parse : fat32_parse_header demo_image 1344 = Some demo_fs.
Proof. vm_compute. reflexivity. Qed.

Lemma demo_bytes : Forall (fun b => 0 <= b < 256) demo_image.
Proof.
  assert (E : forallb (fun b => (0 <=? b) && (b <? 256)) demo_image = true) by (vm_compute; reflexivity).
  apply List.Forall_forall. intros x Hx. rewrite List.forallb_forall in E. specialize (E x Hx). lia.
Qed.


Lemma fat32_search_witness : is_Some (iter_dir_find 13 demo_fs 2 (Some (str "a"))).
Proof.
  apply (fat32_search_terminates demo_image 1344 demo_fs 2 (Some (str "a")) demo_parse demo_bytes).
  - vm_compute; reflexivity.
  - lia.
  - intros [|c [|d cs]] Hhd Hc; [constructor|repeat constructor; apply not_elem_of_nil|]. exfalso. cbn [hd] in Hhd. subst c.
    destruct Hc as (_ & (En & Hlt) & _). subst d. vm_compute in Hlt. discriminate Hlt.
Defined.

(** ** Defects *)

(** A root directory whose FAT entry points at itself: the search never ends. *)
Definition cyclic_fs : fat32_fs_t := set_image demo_fs (volume [[2; 0; 0; 0]] (replicate 64 0xE5) []).

Theorem fat32_cyclic_search fuel : iter_dir_find fuel cyclic_fs 2 (Some (str "a")) = None.
Proof.
  assert (Estep : forall fuel, dir_scan (S fuel) cyclic_fs (Some (str "a")) 2 [] = dir_scan fuel cyclic_fs (Some (str "a")) 2 []).
  { intros n. remember (dir_scan n) as k eqn:Ek. cbn [dir_scan]. rewrite <- Ek. clear Ek. vm_compute. reflexivity. }
  assert (E : dir_scan fuel cyclic_fs (Some (str "a")) 2 [] = None).
  { induction fuel as [|fuel IH]; [done|]. rewrite Estep. exact IH. }
  unfold iter_dir_find. rewrite E. vm_compute. reflexivity.
Qed.

(** A new file of two clusters: the first cluster is taken for free again, so
    the second half of the file overwrites the first. *)
Definition two_clusters : list Z := replicate 64 1 ++ replicate 36 2.
Definition upserted : option (Z * list Z) := fat32_image_upsert_file 13 (volume [eoc] [] []) 1344 (str "NEW") two_clusters.

Theorem fat32_upsert_corrupts : exists img fs n b o, upserted = Some (0, img) /\ fat32_parse_header img 1344 = Some fs /\
  iter_dir_find 13 fs 2 None = Some (Some n) /\ n_size n = 100 /\
  read_file fs (mkFatFile 1 n 0) 100 = Some (0, b, o) /\ b <> two_clusters /\ take 36 b = replicate 36 2.
Proof.
  do 5 eexists. split; [vm_compute; reflexivity|]. split; [vm_compute; reflexivity|]. split; [vm_compute; reflexivity|].
  split; [vm_compute; reflexivity|]. split; [vm_compute; reflexivity|]. split; [discriminate|vm_compute; reflexivity].
Qed.

(** FAT16: the root directory is read where the data of cluster 2 is. *)
Theorem fat16_root_overlaps img sz fs : fat32_parse_header img sz = Some fs -> Forall (fun b => 0 <= b < 256) img ->
  Z.of_nat (length img) = sz -> sz < 2 ^ 63 -> fat16 fs = true ->
  root_dir_sector fs * bytes_per_sector fs = cluster_offset_bytes fs 2.
Proof.
  intros E Hb Hl Hsz H16. pose proof (parse_geometry img sz fs E Hb Hl Hsz) as G.
  assert (Er : root_dir_sector fs = data_start_sector fs).
  { unfold fat32_parse_header in E. cbv zeta in E. repeat (case_match; try discriminate E); injection E as <-; done. }
  pose proof (g_data fs G). pose proof (g_bps fs G). unfold cluster_offset_bytes. change (u32 (2 - 2)) with 0.
  rewrite Z.mul_0_l, Z.add_0_r, (u64_small (data_start_sector fs)), u64_small by nia. by rewrite Er.
Qed.

End Fat32Thm.
