(* ===== verification/RbTree.v ===== *)
(** * The red-black tree of the run queues (src/kernel/sched/sched.c)

    [rb_node_t] is embedded in the process control blocks, which are static
    objects, so node memory is a total map from node identities to their four
    fields.  A state is that memory and the one [rb_root_t] an operation gets.
    [None] is a dereference of [NULL], or a loop that runs longer than [fuel]
    iterations.  The theorems that neither happens are in [RbInsert] and
    [RbRemove]; this file holds the code. *)

From S2P Require Import Prelude.
From Stdlib Require Import ZArith Lia Bool.
From stdpp Require Import base list gmap numbers.
Open Scope Z_scope.

Module RbTree.

Record rb_node (A : Type) := Node {
  parent : option A;
  left : option A;
  right : option A;
  color : Z }.
Arguments Node {A}.
Arguments parent {A}.
Arguments left {A}.
Arguments right {A}.
Arguments color {A}.

Abbreviation nodes A := (A -> rb_node A).

(** [mem] is the memory of all nodes, [root] the tree's root pointer. *)
Record rbs (A : Type) := Rbs { root : option A; mem : nodes A }.
Arguments Rbs {A}.
Arguments root {A}.
Arguments mem {A}.

Section Code.
Context {A : Type} `{EqDecision A}.
Implicit Types (s : rbs A) (m : nodes A) (x y z p u w : A) (v : option A).

Definition put (x : A) (n : rb_node A) (m : nodes A) : nodes A :=
  fun y => if decide (y = x) then n else m y.

Definition set_root v s : rbs A := Rbs v (mem s).
Definition set_parent x v s : rbs A :=
  let n := mem s x in Rbs (root s) (put x (Node v (left n) (right n) (color n)) (mem s)).
Definition set_left x v s : rbs A :=
  let n := mem s x in Rbs (root s) (put x (Node (parent n) v (right n) (color n)) (mem s)).
Definition set_right x v s : rbs A :=
  let n := mem s x in Rbs (root s) (put x (Node (parent n) (left n) v (color n)) (mem s)).
Definition set_color x (c : Z) s : rbs A :=
  let n := mem s x in Rbs (root s) (put x (Node (parent n) (left n) (right n) c) (mem s)).

(** [if (v) f(v)] *)
Definition on v (f : A -> rbs A -> rbs A) s : rbs A :=
  match v with Some x => f x s | None => s end.
(** [v ? v->field : d] *)
Definition field {B} (f : rb_node A -> B) (d : B) v s : B :=
  match v with Some x => f (mem s x) | None => d end.
(** [v && v->color == 1] and [!v || v->color == 0] *)
Definition is_red v s : bool := match v with Some x => color (mem s x) =? 1 | None => false end.
Definition is_black v s : bool := match v with Some x => color (mem s x) =? 0 | None => true end.

(** The hook of [x]'s parent, or the root pointer, is redirected to [v]; the
    second form tests the right hook first, as [rb_rotate_right] does. *)
Definition relink x v s : rbs A :=
  match parent (mem s x) with
  | None => set_root v s
  | Some p => if decide (Some x = left (mem s p)) then set_left p v s else set_right p v s
  end.
Definition relink_r x v s : rbs A :=
  match parent (mem s x) with
  | None => set_root v s
  | Some p => if decide (Some x = right (mem s p)) then set_right p v s else set_left p v s
  end.

Definition rb_rotate_left s x : option (rbs A) :=
  y ← right (mem s x);
  let s := set_right x (left (mem s y)) s in
  let s := on (left (mem s y)) (fun b => set_parent b (Some x)) s in
  let s := set_parent y (parent (mem s x)) s in
  let s := relink x (Some y) s in
  let s := set_left y (Some x) s in
  Some (set_parent x (Some y) s).

Definition rb_rotate_right s x : option (rbs A) :=
  y ← left (mem s x);
  let s := set_left x (right (mem s y)) s in
  let s := on (right (mem s y)) (fun b => set_parent b (Some x)) s in
  let s := set_parent y (parent (mem s x)) s in
  let s := relink_r x (Some y) s in
  let s := set_right y (Some x) s in
  Some (set_parent x (Some y) s).

(** ** Insertion *)

(** One iteration of the loop for [z] with parent [p] and grandparent [gp]:
    the new state, and the node the loop goes on with. *)
Definition insert_fix_step s z p gp : option (rbs A * A) :=
  if decide (Some p = left (mem s gp)) then
    let y := right (mem s gp) in
    if is_red y s then
      Some (set_color gp 1 (on y (fun y => set_color y 0) (set_color p 0 s)), gp)
    else
      '(s, z) ← (if decide (Some z = right (mem s p)) then
                   s ← rb_rotate_left s p; Some (s, p)
                 else Some (s, z));
      p ← parent (mem s z);
      let s := set_color gp 1 (set_color p 0 s) in
      s ← rb_rotate_right s gp;
      Some (s, z)
  else
    let y := left (mem s gp) in
    if is_red y s then
      Some (set_color gp 1 (on y (fun y => set_color y 0) (set_color p 0 s)), gp)
    else
      '(s, z) ← (if decide (Some z = left (mem s p)) then
                   s ← rb_rotate_right s p; Some (s, p)
                 else Some (s, z));
      p ← parent (mem s z);
      let s := set_color gp 1 (set_color p 0 s) in
      s ← rb_rotate_left s gp;
      Some (s, z).

Fixpoint insert_fix_loop (fuel : nat) s z : option (rbs A) :=
  match fuel with
  | O => None
  | S fuel =>
      match parent (mem s z) with
      | None => Some s
      | Some p =>
          if color (mem s p) =? 1 then
            match parent (mem s p) with
            | None => Some s
            | Some gp => '(s, z) ← insert_fix_step s z p gp; insert_fix_loop fuel s z
            end
          else Some s
      end
  end.

Definition rb_insert_fixup (fuel : nat) s z : option (rbs A) :=
  s ← insert_fix_loop fuel s z;
  r ← root s;
  Some (set_color r 0 s).

(** The descent: [prio] is [RB_PCB(x)->priority]; the result is the parent of
    the new node. *)
Fixpoint insert_descend (fuel : nat) (prio : A -> Z) s (key : Z) (par v : option A) : option (option A) :=
  match fuel with
  | O => None
  | S fuel =>
      match v with
      | None => Some par
      | Some x =>
          insert_descend fuel prio s key (Some x)
            (if key <? prio x then left (mem s x) else right (mem s x))
      end
  end.

Definition rb_insert (fuel : nat) (prio : A -> Z) s z (key : Z) : option (rbs A) :=
  let s := set_right z None (set_left z None s) in
  let s := set_parent z None s in
  let s := set_color z 1 s in
  par ← insert_descend fuel prio s key None (root s);
  let s := set_parent z par s in
  let s := set_right z None (set_left z None s) in
  let s := set_color z 1 s in
  let s := match par with
           | None => set_root (Some z) s
           | Some p => if key <? prio p then set_left p (Some z) s else set_right p (Some z) s
           end in
  rb_insert_fixup fuel s z.

(** ** Lookup of the first node *)

Fixpoint leftmost_from (fuel : nat) s x : option A :=
  match fuel with
  | O => None
  | S fuel =>
      match left (mem s x) with
      | None => Some x
      | Some l => leftmost_from fuel s l
      end
  end.

(** The outer [option] is the loop's fuel, the inner one the C pointer. *)
Definition rb_leftmost (fuel : nat) s : option (option A) :=
  match root s with
  | None => Some None
  | Some n => l ← leftmost_from fuel s n; Some (Some l)
  end.

(** ** Removal *)

Definition rb_transplant s u v : rbs A :=
  let s := relink u v s in
  on v (fun x => set_parent x (parent (mem s u))) s.

(** The two halves of the loop body of [rb_delete_fixup], in the order of their
    statements; the result is the new state, [x] and [x_parent]. *)

(** Red sibling [w] of a left child: rotate it above the parent and go on with
    the new sibling. *)
Definition delete_left_red s (x_parent : option A) : option (rbs A * option A) :=
  let w := field right None x_parent s in
  if is_red w s then
    w ← w; p ← x_parent;
    s ← rb_rotate_left (set_color p 1 (set_color w 0 s)) p;
    Some (s, right (mem s p))
  else Some (s, w).

(** Black right nephew: rotate the red left one above [w]. *)
Definition delete_left_near s (x_parent : option A) w : option (rbs A * option A) :=
  if is_black (right (mem s w)) s then
    let s := on (left (mem s w)) (fun n => set_color n 0) s in
    let s := set_color w 1 s in
    s ← rb_rotate_right s w;
    Some (s, field right None x_parent s)
  else Some (s, Some w).

(** Red right nephew: the final rotation. *)
Definition delete_left_far s (x_parent w : option A) : option (rbs A * option A * option A) :=
  let s := on w (fun w => set_color w (field color 0 x_parent s)) s in
  let s := on x_parent (fun p => set_color p 0) s in
  let s := on w (fun w s => on (right (mem s w)) (fun n => set_color n 0) s) s in
  s ← match x_parent with Some p => rb_rotate_left s p | None => Some s end;
  Some (s, root s, None).

Definition delete_fix_left s (x_parent : option A) : option (rbs A * option A * option A) :=
  '(s, w) ← delete_left_red s x_parent;
  w ← w;
  if is_black (left (mem s w)) s && is_black (right (mem s w)) s then
    let s := set_color w 1 s in
    Some (s, x_parent, field parent None x_parent s)
  else
    '(s, w) ← delete_left_near s x_parent w;
    delete_left_far s x_parent w.

(** Red sibling [w] of a right child: rotate it above the parent and go on with
    the new sibling. *)
Definition delete_right_red s (x_parent : option A) : option (rbs A * option A) :=
  let w := field left None x_parent s in
  if is_red w s then
    w ← w; p ← x_parent;
    s ← rb_rotate_right (set_color p 1 (set_color w 0 s)) p;
    Some (s, left (mem s p))
  else Some (s, w).

(** Black left nephew: rotate the red right one above [w]. *)
Definition delete_right_near s (x_parent : option A) w : option (rbs A * option A) :=
  if is_black (left (mem s w)) s then
    let s := on (right (mem s w)) (fun n => set_color n 0) s in
    let s := set_color w 1 s in
    s ← rb_rotate_left s w;
    Some (s, field left None x_parent s)
  else Some (s, Some w).

(** Red left nephew: the final rotation. *)
Definition delete_right_far s (x_parent w : option A) : option (rbs A * option A * option A) :=
  let s := on w (fun w => set_color w (field color 0 x_parent s)) s in
  let s := on x_parent (fun p => set_color p 0) s in
  let s := on w (fun w s => on (left (mem s w)) (fun n => set_color n 0) s) s in
  s ← match x_parent with Some p => rb_rotate_right s p | None => Some s end;
  Some (s, root s, None).

Definition delete_fix_right s (x_parent : option A) : option (rbs A * option A * option A) :=
  '(s, w) ← delete_right_red s x_parent;
  w ← w;
  if is_black (right (mem s w)) s && is_black (left (mem s w)) s then
    let s := set_color w 1 s in
    Some (s, x_parent, field parent None x_parent s)
  else
    '(s, w) ← delete_right_near s x_parent w;
    delete_right_far s x_parent w.

Fixpoint delete_fix_loop (fuel : nat) s (x x_parent : option A) : option (rbs A * option A) :=
  match fuel with
  | O => None
  | S fuel =>
      if bool_decide (x <> root s) && is_black x s then
        '(s, x, x_parent) ←
          (if decide (x = field left None x_parent s)
           then delete_fix_left s x_parent else delete_fix_right s x_parent);
        delete_fix_loop fuel s x x_parent
      else Some (s, x)
  end.

Definition rb_delete_fixup (fuel : nat) s (x x_parent : option A) : option (rbs A) :=
  '(s, x) ← delete_fix_loop fuel s x x_parent;
  Some (on x (fun x => set_color x 0) s).

(** [y] takes the place, the left subtree and the colour of [z]. *)
Definition splice s z y : option (rbs A) :=
  let s := rb_transplant s z (Some y) in
  let s := set_left y (left (mem s z)) s in
  yl ← left (mem s y);
  let s := set_parent yl (Some y) s in
  Some (set_color y (color (mem s z)) s).

(** Unlinking [z]: the state, [x], [x_parent] and [orig_color]. *)
Definition remove_unlink (fuel : nat) s z : option (rbs A * option A * option A * Z) :=
  match left (mem s z), right (mem s z) with
  | None, r => Some (rb_transplant s z r, r, parent (mem s z), color (mem s z))
  | l, None => Some (rb_transplant s z l, l, parent (mem s z), color (mem s z))
  | Some _, Some r =>
      y ← leftmost_from fuel s r;
      let orig_color := color (mem s y) in
      let x := right (mem s y) in
      '(s, x_parent) ←
        (if decide (parent (mem s y) = Some z) then Some (s, Some y)
         else
           let xp := parent (mem s y) in
           let s := rb_transplant s y (right (mem s y)) in
           let s := set_right y (right (mem s z)) s in
           yr ← right (mem s y);
           Some (set_parent yr (Some y) s, xp));
      s ← splice s z y;
      Some (s, x, x_parent, orig_color)
  end.

Definition rb_remove_node (fuel : nat) s z : option (rbs A) :=
  '(s, x, x_parent, orig_color) ← remove_unlink fuel s z;
  let s := set_parent z None (set_right z None (set_left z None s)) in
  s ← (if orig_color =? 0 then rb_delete_fixup fuel s x x_parent else Some s);
  Some (on (root s) (fun r => set_color r 0) s).

End Code.
End RbTree.
