(* ===== verification/RbShape.v ===== *)
(** * Red-black trees as mathematical objects, and their representation

    Trees, one-hole contexts and the predicate [at_ m0 s t k]: in state [s] the
    subtree [t] sits at the hole of context [k], every node occurs once, and
    nodes outside still have their contents in [m0].  The primitive writes and
    the two rotations are shown to be the corresponding tree operations. *)

From S2P Require Import Prelude RbTree.
From Stdlib Require Import ZArith Lia Bool.
From stdpp Require Import base list gmap numbers.
Import RbTree.
Open Scope Z_scope.

Module RbShape.

Inductive tree (A : Type) := E | T (c : Z) (l : tree A) (x : A) (r : tree A).
Arguments E {A}.
Arguments T {A}.

(** The path from a subtree up to the root: [CL] when the hole is the left child. *)
Inductive ctx (A : Type) :=
  | Top
  | CL (c : Z) (x : A) (r : tree A) (k : ctx A)
  | CR (c : Z) (l : tree A) (x : A) (k : ctx A).
Arguments Top {A}.
Arguments CL {A}.
Arguments CR {A}.

Section Shape.
Context {A : Type} `{EqDecision A}.
Implicit Types (s : rbs A) (m : nodes A) (x y z p : A) (v q : option A) (t : tree A) (k : ctx A).

Definition rt t : option A := match t with E => None | T _ _ x _ => Some x end.
Definition tcol t : Z := match t with E => 0 | T c _ _ _ => c end.
Definition cpar k : option A := match k with Top => None | CL _ x _ _ => Some x | CR _ _ x _ => Some x end.
Definition ccol k : Z := match k with Top => 0 | CL c _ _ _ => c | CR c _ _ _ => c end.
Definition blacken t : tree A := match t with E => E | T _ l x r => T 0 l x r end.

Fixpoint plug t k : tree A :=
  match k with
  | Top => t
  | CL c x r k => plug (T c t x r) k
  | CR c l x k => plug (T c l x t) k
  end.

Fixpoint inorder t : list A :=
  match t with E => [] | T _ l x r => inorder l ++ x :: inorder r end.

(** The nodes before and after the hole. *)
Fixpoint before k : list A :=
  match k with Top => [] | CL _ _ _ k => before k | CR _ l x k => before k ++ inorder l ++ [x] end.
Fixpoint after k : list A :=
  match k with Top => [] | CL _ x r k => x :: inorder r ++ after k | CR _ _ _ k => after k end.

Fixpoint depth k : nat :=
  match k with Top => 0 | CL _ _ _ k => S (depth k) | CR _ _ _ k => S (depth k) end.

(** How often a node occurs. *)
Definition eqn x y : nat := if decide (x = y) then 1 else 0.
Fixpoint tcnt z t : nat :=
  match t with E => 0 | T _ l x r => eqn z x + tcnt z l + tcnt z r end.
Fixpoint ccnt z k : nat :=
  match k with
  | Top => 0
  | CL _ x r k => eqn z x + tcnt z r + ccnt z k
  | CR _ l x k => eqn z x + tcnt z l + ccnt z k
  end.

Fixpoint repr m q t : Prop :=
  match t with
  | E => True
  | T c l x r => m x = Node q (rt l) (rt r) c /\ repr m (Some x) l /\ repr m (Some x) r
  end.

Fixpoint reprc m (rp : option A) v k : Prop :=
  match k with
  | Top => rp = v
  | CL c x r k => m x = Node (cpar k) v (rt r) c /\ repr m (Some x) r /\ reprc m rp (Some x) k
  | CR c l x k => m x = Node (cpar k) (rt l) v c /\ repr m (Some x) l /\ reprc m rp (Some x) k
  end.

Record at_ m0 s t k : Prop := mk_at {
  at_tree : repr (mem s) (cpar k) t;
  at_ctx : reprc (mem s) (root s) (rt t) k;
  at_uniq : forall z, (tcnt z t + ccnt z k <= 1)%nat;
  at_frame : forall z, (tcnt z t + ccnt z k = 0)%nat -> mem s z = m0 z }.

(** ** Counting *)

Lemma eqn_refl x : eqn x x = 1%nat.
Proof. unfold eqn. by rewrite decide_True. Qed.

Lemma eqn_ne x y : x <> y -> eqn x y = 0%nat.
Proof. intros. unfold eqn. by rewrite decide_False. Qed.

Lemma eqn_0 x y : eqn x y = 0%nat <-> x <> y.
Proof. unfold eqn. case_decide; naive_solver. Qed.

Lemma put_eq x n m : put x n m x = n.
Proof. unfold put. by rewrite decide_True. Qed.

Lemma put_ne x y n m : y <> x -> put x n m y = m y.
Proof. intros. unfold put. by rewrite decide_False. Qed.

(** ** Representation depends only on the nodes of the structure *)

Lemma repr_ext m m' q t :
  (forall z, tcnt z t <> 0%nat -> m' z = m z) -> repr m q t -> repr m' q t.
Proof.
  revert q. induction t as [|c l IHl x r IHr]; intros q He; simpl; [done|].
  intros (Hx & Hl & Hr). split_and!.
  - rewrite He; [done|]. simpl. rewrite eqn_refl. lia.
  - apply IHl; [|done]. intros z Hz. apply He. simpl. lia.
  - apply IHr; [|done]. intros z Hz. apply He. simpl. lia.
Qed.

Lemma reprc_ext m m' rp v k :
  (forall z, ccnt z k <> 0%nat -> m' z = m z) -> reprc m rp v k -> reprc m' rp v k.
Proof.
  revert v. induction k as [|c x r k IH|c l x k IH]; intros v He; simpl; [done|..].
  all: intros (Hx & Hl & Hk); split_and!.
  1,4: rewrite He; [done|]; simpl; rewrite eqn_refl; lia.
  1,3: apply (repr_ext m); [|done]; intros z Hz; apply He; simpl; lia.
  all: apply IH; [|done]; intros z Hz; apply He; simpl; lia.
Qed.

Lemma repr_put m q t x n : tcnt x t = 0%nat -> repr m q t -> repr (put x n m) q t.
Proof. intros Hx. apply repr_ext. intros z Hz. apply put_ne. intros ->. done. Qed.

Lemma reprc_put m rp v k x n : ccnt x k = 0%nat -> reprc m rp v k -> reprc (put x n m) rp v k.
Proof. intros Hx. apply reprc_ext. intros z Hz. apply put_ne. intros ->. done. Qed.

(** ** Moving the focus *)

Lemma at_left m0 s c l x r k : at_ m0 s (T c l x r) k <-> at_ m0 s l (CL c x r k).
Proof.
  split; intros [H1 H2 H3 H4]; destruct_and?; simpl in *.
  - destruct H1 as (? & ? & ?). split; simpl; [done|done|intros z..].
    + specialize (H3 z). lia.
    + intros. apply H4. lia.
  - destruct H2 as (? & ? & ?). split; simpl; [done|done|intros z..].
    + specialize (H3 z). lia.
    + intros. apply H4. lia.
Qed.

Lemma at_right m0 s c l x r k : at_ m0 s (T c l x r) k <-> at_ m0 s r (CR c l x k).
Proof.
  split; intros [H1 H2 H3 H4]; destruct_and?; simpl in *.
  - destruct H1 as (? & ? & ?). split; simpl; [done|done|intros z..].
    + specialize (H3 z). lia.
    + intros. apply H4. lia.
  - destruct H2 as (? & ? & ?). split; simpl; [done|done|intros z..].
    + specialize (H3 z). lia.
    + intros. apply H4. lia.
Qed.

Lemma at_plug m0 s t k : at_ m0 s t k <-> at_ m0 s (plug t k) Top.
Proof.
  revert t. induction k as [|c x r k IH|c l x k IH]; intros t; simpl; [done|..].
  - by rewrite <- at_left, IH.
  - by rewrite <- at_right, IH.
Qed.

Lemma at_node m0 s c l x r k : at_ m0 s (T c l x r) k -> mem s x = Node (cpar k) (rt l) (rt r) c.
Proof. intros [H _ _ _]. apply H. Qed.

Lemma at_node_l m0 s c x r t k : at_ m0 s t (CL c x r k) -> mem s x = Node (cpar k) (rt t) (rt r) c.
Proof. rewrite <- at_left. apply at_node. Qed.

Lemma at_node_r m0 s c l x t k : at_ m0 s t (CR c l x k) -> mem s x = Node (cpar k) (rt l) (rt t) c.
Proof. rewrite <- at_right. apply at_node. Qed.

Lemma inorder_plug t k : inorder (plug t k) = before k ++ inorder t ++ after k.
Proof.
  revert t. induction k as [|c x r k IH|c l x k IH]; intros t; simpl.
  - by rewrite app_nil_r.
  - rewrite IH. simpl. by rewrite <- !app_assoc.
  - rewrite IH. simpl. by rewrite <- !app_assoc.
Qed.

Lemma tcnt_plug z t k : tcnt z (plug t k) = (tcnt z t + ccnt z k)%nat.
Proof. revert t. induction k as [|c x r k IH|c l x k IH]; intros t; simpl; rewrite ?IH; simpl; lia. Qed.

End Shape.

(** Solves [tcnt x t = 0], [ccnt x k = 0] and [x <> y] from the uniqueness of
    the nodes of the current tree. *)
Ltac uniq :=
  rewrite <- ?eqn_0;
  match goal with
  | Hu : forall z : ?A, (_ <= 1)%nat, w : ?A |- _ =>
      solve [let h := fresh in pose proof (Hu w) as h; simpl in h |- *; rewrite ?eqn_refl in h; lia]
  end.

(** The same for a node [z] of which only an occurrence count is known. *)
Ltac uniq_in z :=
  rewrite <- ?eqn_0;
  match goal with
  | Hu : forall w : _, (_ <= 1)%nat |- _ =>
      let h := fresh in pose proof (Hu z) as h;
      simpl in h |- *; rewrite ?eqn_refl in h; lia
  end.

(** Reads of updated memory at nodes known to be equal or different. *)
Ltac mem_simpl :=
  simpl; repeat (rewrite put_eq || rewrite put_ne by (done || uniq)); simpl.

Section Ops.
Context {A : Type} `{EqDecision A}.
Implicit Types (s : rbs A) (m : nodes A) (x y z p : A) (v q : option A) (t : tree A) (k : ctx A).

Lemma at_set_color m0 s c c' l x r k :
  at_ m0 s (T c l x r) k -> at_ m0 (set_color x c' s) (T c' l x r) k.
Proof.
  intros [(Hx & Hl & Hr) Hk Hu Hf]. split; simpl.
  - split_and!; [by mem_simpl; rewrite Hx| |]; apply repr_put; done || uniq.
  - apply reprc_put; [uniq|done].
  - done.
  - intros z Hz. simpl in Hz. rewrite put_ne; [by apply Hf|].
    intros ->. rewrite eqn_refl in Hz. lia.
Qed.

(** Redirecting the hook above [x] in its context. *)
Lemma relink_ok s x v k :
  reprc (mem s) (root s) (Some x) k -> parent (mem s x) = cpar k ->
  (forall z, eqn z x + ccnt z k <= 1)%nat ->
  reprc (mem (relink x v s)) (root (relink x v s)) v k /\
  (forall z, ccnt z k = 0%nat -> mem (relink x v s) z = mem s z) /\
  relink_r x v s = relink x v s.
Proof.
  intros Hk Hp Hu. unfold relink, relink_r. rewrite Hp.
  destruct k as [|c p r k|c l p k]; simpl in *.
  - done.
  - destruct Hk as (Hn & Hr & Hk). rewrite Hn. simpl. rewrite decide_True by done.
    assert (Some x <> rt r).
    { destruct r as [|? ? y ?]; [done|]. simpl. intros [= ->]. uniq. }
    rewrite decide_False by done. split_and!; [..|done].
    + mem_simpl. rewrite Hn. done.
    + apply repr_put; [uniq|done].
    + apply reprc_put; [uniq|done].
    + intros z Hz. simpl. apply put_ne. apply eqn_0. lia.
  - destruct Hk as (Hn & Hr & Hk). rewrite Hn. simpl. rewrite (decide_True (P := Some x = Some x)) by done.
    assert (Some x <> rt l).
    { destruct l as [|? ? y ?]; [done|]. simpl. intros [= ->]. uniq. }
    rewrite decide_False by done. split_and!; [..|done].
    + mem_simpl. rewrite Hn. done.
    + apply repr_put; [uniq|done].
    + apply reprc_put; [uniq|done].
    + intros z Hz. simpl. apply put_ne. apply eqn_0. lia.
Qed.

(** A subtree whose root gets a new parent. *)
Lemma repr_reparent s q q' t :
  repr (mem s) q t -> (forall z, tcnt z t <= 1)%nat ->
  repr (mem (on (rt t) (fun b => set_parent b q') s)) q' t.
Proof.
  destruct t as [|c l x r]; simpl; [done|]. intros (Hx & Hl & Hr) Hu.
  split_and!; [by mem_simpl; rewrite Hx| |]; apply repr_put; done || uniq.
Qed.

Lemma on_parent_mem s t q' z :
  tcnt z t = 0%nat -> mem (on (rt t) (fun b => set_parent b q') s) z = mem s z.
Proof. destruct t; simpl; [done|]. intros. apply put_ne. apply eqn_0. lia. Qed.

Lemma on_parent_root s v q' : root (on v (fun b => set_parent b q') s) = root s.
Proof. by destruct v. Qed.

(** Both rotations end by moving the context's hook from [x] to [y] and
    writing the two nodes. *)
Lemma relink_finish m0 s0 s s' x y nx ny t t' k :
  x <> y -> at_ m0 s0 t k -> rt t = Some x -> rt t' = Some y -> (forall z, tcnt z t' = tcnt z t) ->
  (forall z, (tcnt z t = 0)%nat -> mem s z = mem s0 z) -> root s = root s0 ->
  parent (mem s x) = cpar k ->
  (forall z, mem s' z = if decide (z = x) then nx else if decide (z = y) then ny
                        else mem (relink x (Some y) s) z) ->
  root s' = root (relink x (Some y) s) ->
  (forall m, (forall z, (ccnt z k = 0)%nat -> z <> x -> z <> y -> m z = mem s z) -> m x = nx -> m y = ny ->
             repr m (cpar k) t') ->
  at_ m0 s' t' k.
Proof.
  intros Hxy [Ht Hk Hu Hf] Hx Hy Hc Hs Hr Hp Hs' Hr' Ht'.
  assert (Hcx : forall z, (eqn z x <= tcnt z t)%nat).
  { intros z. destruct t; simplify_eq/=. lia. }
  assert (Hcy : forall z, (eqn z y <= tcnt z t)%nat).
  { intros z. rewrite <- Hc. destruct t'; simplify_eq/=. lia. }
  pose proof (Hu x) as Hux. pose proof (Hcx x) as Hxx. rewrite eqn_refl in Hxx.
  pose proof (Hu y) as Huy. pose proof (Hcy y) as Hyy. rewrite eqn_refl in Hyy.
  destruct (relink_ok s x (Some y) k) as (Hk' & Hf' & _).
  { rewrite Hr, <- Hx. eapply reprc_ext; [|done]. intros z Hz. apply Hs. specialize (Hu z). lia. }
  { done. }
  { intros z. specialize (Hu z). specialize (Hcx z). lia. }
  split.
  - apply Ht'.
    + intros z Hz ??. rewrite Hs', !decide_False by done. by apply Hf'.
    + by rewrite Hs', decide_True.
    + by rewrite Hs', decide_False, decide_True by done.
  - rewrite Hy, Hr'. eapply reprc_ext; [|exact Hk'].
    intros z Hz. rewrite Hs', !decide_False; [done|..]; intros ->; lia.
  - intros z. rewrite Hc. apply Hu.
  - intros z Hz. rewrite Hc in Hz. rewrite Hs', !decide_False.
    + rewrite Hf', Hs by lia. apply Hf. lia.
    + intros ->. lia.
    + intros ->. lia.
Qed.

Lemma relink_other s x v z :
  parent (mem s x) <> Some z ->
  mem (relink x v s) z = mem s z /\ mem (relink_r x v s) z = mem s z.
Proof.
  unfold relink, relink_r. destruct (parent (mem s x)) as [p|]; [|done].
  intros Hne. assert (z <> p) by congruence.
  split; case_decide; simpl; by apply put_ne.
Qed.

Lemma cpar_ne k z : ccnt z k = 0%nat -> cpar k <> Some z.
Proof. destruct k; simpl; [done|..]; intros H [= ->]; rewrite eqn_refl in H; lia. Qed.

Lemma at_rotate_left m0 s cx a x cy b y c k :
  at_ m0 s (T cx a x (T cy b y c)) k ->
  exists s', rb_rotate_left s x = Some s' /\ at_ m0 s' (T cy (T cx a x b) y c) k.
Proof.
  intros Hat. pose proof Hat as [(Hx & Ha & Hy & Hb & Hc) Hk Hu Hf].
  assert (Hxy : x <> y) by uniq.
  unfold rb_rotate_left. rewrite Hx. simpl. mem_simpl. rewrite Hy. simpl.
  eexists. split; [reflexivity|].
  set (s1 := set_right x (rt b) s).
  set (s2 := on (rt b) (fun b => set_parent b (Some x)) s1).
  assert (Hs2 : forall z, tcnt z b = 0%nat -> mem s2 z = mem s1 z) by (intros; by apply on_parent_mem).
  assert (Hx2 : mem s2 x = Node (cpar k) (rt a) (rt b) cx).
  { rewrite Hs2 by uniq. unfold s1. mem_simpl. by rewrite Hx. }
  assert (Hy2 : mem s2 y = Node (Some x) (rt b) (rt c) cy).
  { rewrite Hs2 by uniq. unfold s1. mem_simpl. done. }
  set (s3 := set_parent y (parent (mem s2 x)) s2).
  set (s4 := relink x (Some y) s3).
  eapply (relink_finish m0 s s3 _ x y (Node (Some y) (rt a) (rt b) cx) (Node (cpar k) (Some x) (rt c) cy));
    [done|exact Hat|done|done|..].
  - intros z. simpl. lia.
  - intros z Hz. simpl in Hz. unfold s3. simpl. rewrite put_ne by (apply eqn_0; lia).
    rewrite Hs2 by lia. unfold s1. simpl. apply put_ne. apply eqn_0. lia.
  - unfold s3, s2. simpl. rewrite on_parent_root. done.
  - unfold s3. mem_simpl. by rewrite Hx2.
  - fold s3. intros z. assert (Hp3 : parent (mem s3 x) = cpar k) by (unfold s3; mem_simpl; by rewrite Hx2).
    destruct (relink_other s3 x (Some y) x) as [Hrx _]; [rewrite Hp3; apply cpar_ne; uniq|].
    destruct (relink_other s3 x (Some y) y) as [Hry _]; [rewrite Hp3; apply cpar_ne; uniq|].
    fold s4 in Hrx, Hry |- *. simpl. unfold put at 1. case_decide as Hzx.
    + rewrite put_ne, Hrx by done. unfold s3. mem_simpl. by rewrite Hx2.
    + unfold put. case_decide as Hzy; [|done].
      rewrite Hry. unfold s3. mem_simpl. by rewrite Hx2, Hy2.
  - done.
  - intros m Hm Hmx Hmy.
    assert (Hms : forall z, (ccnt z k = 0)%nat -> z <> x -> z <> y -> m z = mem s2 z).
    { intros z Hz Hzx Hzy. rewrite Hm by done. unfold s3. by mem_simpl. }
    simpl. split_and!; [done|done|..].
    + apply (repr_ext (mem s)); [|done]. intros z Hz.
      rewrite Hms, Hs2 by uniq_in z. unfold s1. simpl. apply put_ne. uniq_in z.
    + apply (repr_ext (mem s2)); [|].
      * intros z Hz. apply Hms; uniq_in z.
      * apply (repr_reparent s1 (Some y)); [|intros z; uniq_in z].
        apply repr_put; [uniq|done].
    + apply (repr_ext (mem s)); [|done]. intros z Hz.
      rewrite Hms, Hs2 by uniq_in z. unfold s1. simpl. apply put_ne. uniq_in z.
Qed.

Lemma at_rotate_right m0 s cx a x cy b y c k :
  at_ m0 s (T cx (T cy a y b) x c) k ->
  exists s', rb_rotate_right s x = Some s' /\ at_ m0 s' (T cy a y (T cx b x c)) k.
Proof.
  intros Hat. pose proof Hat as [(Hx & (Hy & Ha & Hb) & Hc) Hk Hu Hf].
  assert (Hxy : x <> y) by uniq.
  unfold rb_rotate_right. rewrite Hx. simpl. mem_simpl. rewrite Hy. simpl.
  set (s1 := set_left x (rt b) s).
  set (s2 := on (rt b) (fun b => set_parent b (Some x)) s1).
  assert (Hs2 : forall z, tcnt z b = 0%nat -> mem s2 z = mem s1 z) by (intros; by apply on_parent_mem).
  assert (Hx2 : mem s2 x = Node (cpar k) (rt b) (rt c) cx).
  { rewrite Hs2 by uniq. unfold s1. mem_simpl. by rewrite Hx. }
  assert (Hy2 : mem s2 y = Node (Some x) (rt a) (rt b) cy).
  { rewrite Hs2 by uniq. unfold s1. mem_simpl. done. }
  set (s3 := set_parent y (parent (mem s2 x)) s2).
  assert (Hs3 : forall z, (eqn z x + eqn z y + tcnt z b = 0)%nat -> mem s3 z = mem s z).
  { intros z Hz. unfold s3. simpl. rewrite put_ne by (apply eqn_0; lia).
    rewrite Hs2 by lia. unfold s1. simpl. apply put_ne. apply eqn_0. lia. }
  assert (Hr3 : root s3 = root s) by (unfold s3, s2; simpl; by rewrite on_parent_root).
  assert (Hp3 : parent (mem s3 x) = cpar k) by (unfold s3; mem_simpl; by rewrite Hx2).
  destruct (relink_ok s3 x (Some y) k) as (_ & _ & Hrr).
  { rewrite Hr3. eapply reprc_ext; [|done]. intros z Hz. apply Hs3. uniq_in z. }
  { done. }
  { intros z. uniq_in z. }
  rewrite Hrr. eexists. split; [reflexivity|].
  set (s4 := relink x (Some y) s3).
  eapply (relink_finish m0 s s3 _ x y (Node (Some y) (rt b) (rt c) cx) (Node (cpar k) (rt a) (Some x) cy));
    [done|exact Hat|done|done|..].
  - intros z. simpl. lia.
  - intros z Hz. simpl in Hz. apply Hs3. lia.
  - done.
  - done.
  - intros z.
    destruct (relink_other s3 x (Some y) x) as [Hrx _]; [rewrite Hp3; apply cpar_ne; uniq|].
    destruct (relink_other s3 x (Some y) y) as [Hry _]; [rewrite Hp3; apply cpar_ne; uniq|].
    fold s4 in Hrx, Hry |- *. simpl. unfold put at 1. case_decide as Hzx.
    + rewrite put_ne, Hrx by done. unfold s3. mem_simpl. by rewrite Hx2.
    + unfold put. case_decide as Hzy; [|done].
      rewrite Hry. unfold s3. mem_simpl. by rewrite Hx2, Hy2.
  - done.
  - intros m Hm Hmx Hmy.
    assert (Hms : forall z, (ccnt z k = 0)%nat -> z <> x -> z <> y -> m z = mem s2 z).
    { intros z Hz Hzx Hzy. rewrite Hm by done. unfold s3. by mem_simpl. }
    simpl. split_and!; [done| |done|..].
    + apply (repr_ext (mem s)); [|done]. intros z Hz.
      rewrite Hms, Hs2 by uniq_in z. unfold s1. simpl. apply put_ne. uniq_in z.
    + apply (repr_ext (mem s2)); [|].
      * intros z Hz. apply Hms; uniq_in z.
      * apply (repr_reparent s1 (Some y)); [|intros z; uniq_in z].
        apply repr_put; [uniq|done].
    + apply (repr_ext (mem s)); [|done]. intros z Hz.
      rewrite Hms, Hs2 by uniq_in z. unfold s1. simpl. apply put_ne. uniq_in z.
Qed.

End Ops.
End RbShape.
