(* ===== verification/RbInsert.v ===== *)
(** * Insertion into the red-black tree

    The balance conditions of trees ([rbt]) and contexts ([rbc]), and the proof
    that [rb_insert] never dereferences [NULL], ends within as many iterations
    as the tree is deep, keeps the tree balanced, and puts the new node behind
    every node whose priority is not greater. *)

From S2P Require Import Prelude RbTree RbShape.
From Stdlib Require Import ZArith Lia Bool.
From stdpp Require Import base list gmap numbers sorting.
Import RbTree RbShape.
Open Scope Z_scope.

Module RbInsert.

(** [rbt t n]: no red node has a red child and every path has [n] black nodes. *)
Inductive rbt {A} : tree A -> nat -> Prop :=
  | rbt_E : rbt E 0
  | rbt_R l x r n : tcol l = 0 -> tcol r = 0 -> rbt l n -> rbt r n -> rbt (T 1 l x r) n
  | rbt_B l x r n : rbt l n -> rbt r n -> rbt (T 0 l x r) (S n).

(** [rbc k n]: a balanced tree of black height [n] fits into the hole. *)
Inductive rbc {A} : ctx A -> nat -> Prop :=
  | rbc_Top n : rbc Top n
  | rbc_LR x r k n : tcol r = 0 -> ccol k = 0 -> rbt r n -> rbc k n -> rbc (CL 1 x r k) n
  | rbc_LB x r k n : rbt r n -> rbc k (S n) -> rbc (CL 0 x r k) n
  | rbc_RR l x k n : tcol l = 0 -> ccol k = 0 -> rbt l n -> rbc k n -> rbc (CR 1 l x k) n
  | rbc_RB l x k n : rbt l n -> rbc k (S n) -> rbc (CR 0 l x k) n.
#[export] Hint Constructors rbt rbc : asd.

(** Compares the in-order sequences of two trees. *)
Ltac inord := simpl; rewrite ?inorder_plug; repeat (progress simpl || rewrite <- app_assoc).

Section Balance.
Context {A : Type} `{EqDecision A}.
Implicit Types (s : rbs A) (m : nodes A) (x y z p : A) (v q : option A) (t : tree A) (k : ctx A).

Lemma rbt_col t n : rbt t n -> tcol t = 0 \/ tcol t = 1.
Proof. destruct 1; auto. Qed.

Lemma rbt_blacken t n : rbt t n -> exists N, rbt (blacken t) N.
Proof. destruct 1; simpl; eauto with asd. Qed.

Lemma rbt_plug t k n :
  rbt t n -> rbc k n -> tcol t = 0 \/ ccol k = 0 -> exists N, rbt (plug t k) N.
Proof.
  intros Ht Hk. revert t Ht. induction Hk; intros t Ht Hc; simpl in *; eauto.
  all: try (assert (tcol t = 0) by lia); eauto with asd.
Qed.

Lemma plug_rbt t k N :
  rbt (plug t k) N -> exists n, rbt t n /\ rbc k n /\ (tcol t = 0 \/ ccol k = 0).
Proof.
  revert t. induction k as [|c x r k IH|c l x k IH]; intros t H; simpl in *.
  - eauto with asd.
  - destruct (IH _ H) as (n & Ht & Hk & Hc). inversion Ht; subst; simpl in *; eexists; eauto 6 with asd.
    destruct Hc; [done|]. eauto 6 with asd.
  - destruct (IH _ H) as (n & Ht & Hk & Hc). inversion Ht; subst; simpl in *; eexists; eauto 6 with asd.
    destruct Hc; [done|]. eauto 6 with asd.
Qed.

(** Colour tests on represented trees. *)
Lemma is_red_repr s q t : repr (mem s) q t -> is_red (rt t) s = (tcol t =? 1).
Proof. destruct t; simpl; [done|]. intros (-> & _). done. Qed.

Lemma is_black_repr s q t : repr (mem s) q t -> is_black (rt t) s = (tcol t =? 0).
Proof. destruct t; simpl; [done|]. intros (-> & _). done. Qed.

Lemma at_sib_l m0 s t c x r k : at_ m0 s t (CL c x r k) -> repr (mem s) (Some x) r.
Proof. intros [_ H _ _]. apply H. Qed.

Lemma at_sib_r m0 s t c l x k : at_ m0 s t (CR c l x k) -> repr (mem s) (Some x) l.
Proof. intros [_ H _ _]. apply H. Qed.

(** Two subtrees of one tree have different roots. *)
Lemma rt_ne_l m0 s t c x r k z : at_ m0 s t (CL c x r k) -> rt t = Some z -> Some z <> rt r.
Proof.
  intros [_ _ Hu _] Ht Hr. specialize (Hu z). destruct t, r; simplify_eq/=.
  rewrite !eqn_refl in Hu. lia.
Qed.

Lemma rt_ne_r m0 s t c l x k z : at_ m0 s t (CR c l x k) -> rt t = Some z -> Some z <> rt l.
Proof.
  intros [_ _ Hu _] Ht Hr. specialize (Hu z). destruct t, l; simplify_eq/=.
  rewrite !eqn_refl in Hu. lia.
Qed.

(** Moving the focus, in each direction. *)
Lemma at_up_l m0 s c l x r k : at_ m0 s l (CL c x r k) -> at_ m0 s (T c l x r) k.
Proof. apply at_left. Qed.
Lemma at_up_r m0 s c l x r k : at_ m0 s r (CR c l x k) -> at_ m0 s (T c l x r) k.
Proof. apply at_right. Qed.
Lemma at_dn_l m0 s c l x r k : at_ m0 s (T c l x r) k -> at_ m0 s l (CL c x r k).
Proof. apply at_left. Qed.
Lemma at_dn_r m0 s c l x r k : at_ m0 s (T c l x r) k -> at_ m0 s r (CR c l x k).
Proof. apply at_right. Qed.

(** ** The loop of [rb_insert_fixup] *)

(** The loop's invariant: the red tree [t] rooted at the node [z] is balanced,
    and so is everything around it, but its parent may be red too. *)
Record ins_inv m0 s z t k n : Prop := mk_ins_inv {
  ii_at : at_ m0 s t k;
  ii_rt : rt t = Some z;
  ii_red : tcol t = 1;
  ii_tree : rbt t n;
  ii_ctx : rbc k n }.

(** The result of an iteration that starts from the tree [whole]. *)
Definition ins_progress m0 (whole : list A) (d : nat) (o : option (rbs A * A)) : Prop :=
  exists s' z' t' k' n', o = Some (s', z') /\ ins_inv m0 s' z' t' k' n' /\
    inorder (plug t' k') = whole /\ (ccol k' = 0 \/ (depth k' + 2 <= d)%nat).

(** Red uncle: recolour and go on with the grandparent. *)
Lemma recolour_l m0 s t p r g u k n :
  at_ m0 s (T 1 t p r) (CL 0 g u k) -> rbt t n -> rbt r n -> rbt u n -> tcol u = 1 -> rbc k (S n) ->
  ins_progress m0 (inorder (plug (T 0 (T 1 t p r) g u) k)) (S (S (depth k)))
    (Some (set_color g 1 (on (rt u) (fun y => set_color y 0) (set_color p 0 s)), g)).
Proof.
  intros H Ht Hr Hu Hc Hk. destruct u as [|? ul y ur]; [done|]. simpl in Hc; subst.
  apply (at_set_color _ _ _ 0) in H. apply at_up_l, at_dn_r in H.
  apply (at_set_color _ _ _ 0) in H. apply at_up_r in H. apply (at_set_color _ _ _ 1) in H.
  inversion Hu; subst.
  exists (set_color g 1 (set_color y 0 (set_color p 0 s))), g, (T 1 (T 0 t p r) g (T 0 ul y ur)), k, (S n).
  split_and!; [done| |by rewrite !inorder_plug|right; lia].
  split; simpl; auto with asd.
Qed.

Lemma recolour_r m0 s t p r g u k n :
  at_ m0 s (T 1 t p r) (CR 0 u g k) -> rbt t n -> rbt r n -> rbt u n -> tcol u = 1 -> rbc k (S n) ->
  ins_progress m0 (inorder (plug (T 0 u g (T 1 t p r)) k)) (S (S (depth k)))
    (Some (set_color g 1 (on (rt u) (fun y => set_color y 0) (set_color p 0 s)), g)).
Proof.
  intros H Ht Hr Hu Hc Hk. destruct u as [|? ul y ur]; [done|]. simpl in Hc; subst.
  apply (at_set_color _ _ _ 0) in H. apply at_up_r, at_dn_l in H.
  apply (at_set_color _ _ _ 0) in H. apply at_up_l in H. apply (at_set_color _ _ _ 1) in H.
  inversion Hu; subst.
  exists (set_color g 1 (set_color y 0 (set_color p 0 s))), g, (T 1 (T 0 ul y ur) g (T 0 t p r)), k, (S n).
  split_and!; [done| |by rewrite !inorder_plug|right; lia].
  split; simpl; auto with asd.
Qed.

Lemma insert_step_ll m0 s z t p r g u k n :
  ins_inv m0 s z t (CL 1 p r (CL 0 g u k)) n ->
  ins_progress m0 (inorder (plug t (CL 1 p r (CL 0 g u k)))) (S (S (depth k))) (insert_fix_step s z p g).
Proof.
  intros [Hat Hz Hred Ht Hk]. inversion Hk as [|? ? ? ? Hrb _ Hr Hk'| | |]; subst. inversion Hk' as [| |? ? ? ? Hu Hk''| |]; subst.
  pose proof (rt_ne_l _ _ _ _ _ _ _ _ Hat Hz) as Hne.
  unfold insert_fix_step. pose proof (at_node_l _ _ _ _ _ _ _ Hat) as Hp.
  apply at_up_l in Hat. pose proof (at_node_l _ _ _ _ _ _ _ Hat) as Hg.
  rewrite Hg, Hp. simpl. rewrite decide_True by done.
  rewrite (is_red_repr s (Some g)) by exact (at_sib_l _ _ _ _ _ _ _ Hat).
  destruct (Z.eqb_spec (tcol u) 1) as [Hcu|Hcu].
  { by apply (recolour_l m0 s t p r g u k n). }
  assert (tcol u = 0) by (destruct (rbt_col u n Hu); done).
  destruct t as [|c a z' b]; [done|]. simplify_eq/=.
  rewrite decide_False by done. simpl. apply at_dn_l in Hat.
  rewrite (at_node _ _ _ _ _ _ _ Hat). simpl. apply at_up_l in Hat.
  apply (at_set_color _ _ _ 0) in Hat. apply at_up_l in Hat. apply (at_set_color _ _ _ 1) in Hat.
  destruct (at_rotate_right _ _ _ _ _ _ _ _ _ _ Hat) as (s' & -> & Hat').
  apply at_dn_l in Hat'. exists s', z, (T 1 a z b), (CL 0 p (T 1 r g u) k), n. split_and!; [reflexivity| | |by left].
  - split; eauto with asd.
  - by inord.
Qed.

Lemma insert_step_lr m0 s z t p r g u k n :
  ins_inv m0 s z t (CR 1 r p (CL 0 g u k)) n ->
  ins_progress m0 (inorder (plug t (CR 1 r p (CL 0 g u k)))) (S (S (depth k))) (insert_fix_step s z p g).
Proof.
  intros [Hat Hz Hred Ht Hk]. inversion Hk as [| | |? ? ? ? Hrb _ Hr Hk'|]; subst. inversion Hk' as [| |? ? ? ? Hu Hk''| |]; subst.
  pose proof (rt_ne_r _ _ _ _ _ _ _ _ Hat Hz) as Hne.
  unfold insert_fix_step. pose proof (at_node_r _ _ _ _ _ _ _ Hat) as Hp.
  apply at_up_r in Hat. pose proof (at_node_l _ _ _ _ _ _ _ Hat) as Hg.
  rewrite Hg, Hp. simpl. rewrite decide_True by done.
  rewrite (is_red_repr s (Some g)) by exact (at_sib_l _ _ _ _ _ _ _ Hat).
  destruct (Z.eqb_spec (tcol u) 1) as [Hcu|Hcu].
  { by apply (recolour_l m0 s r p t g u k n). }
  assert (tcol u = 0) by (destruct (rbt_col u n Hu); done).
  destruct t as [|c a z' b]; [done|]. simplify_eq/=.
  rewrite decide_True by done.
  destruct (at_rotate_left _ _ _ _ _ _ _ _ _ _ Hat) as (s1 & -> & Hat1). simpl.
  apply at_dn_l in Hat1. rewrite (at_node _ _ _ _ _ _ _ Hat1). simpl. apply at_up_l in Hat1.
  apply (at_set_color _ _ _ 0) in Hat1. apply at_up_l in Hat1. apply (at_set_color _ _ _ 1) in Hat1.
  destruct (at_rotate_right _ _ _ _ _ _ _ _ _ _ Hat1) as (s' & -> & Hat').
  apply at_dn_l in Hat'. exists s', p, (T 1 r p a), (CL 0 z (T 1 b g u) k), n. inversion Ht; subst.
  split_and!; [reflexivity| | |by left].
  - split; eauto with asd.
  - by inord.
Qed.

Lemma insert_step_rr m0 s z t p r g u k n :
  ins_inv m0 s z t (CR 1 r p (CR 0 u g k)) n ->
  ins_progress m0 (inorder (plug t (CR 1 r p (CR 0 u g k)))) (S (S (depth k))) (insert_fix_step s z p g).
Proof.
  intros [Hat Hz Hred Ht Hk]. inversion Hk as [| | |? ? ? ? Hrb _ Hr Hk'|]; subst. inversion Hk' as [| | | |? ? ? ? Hu Hk'']; subst.
  pose proof (rt_ne_r _ _ _ _ _ _ _ _ Hat Hz) as Hne.
  unfold insert_fix_step. pose proof (at_node_r _ _ _ _ _ _ _ Hat) as Hp.
  apply at_up_r in Hat. pose proof (at_node_r _ _ _ _ _ _ _ Hat) as Hg.
  rewrite Hg, Hp. simpl. rewrite (decide_False (P := Some p = rt u)) by exact (rt_ne_r _ _ _ _ _ _ _ p Hat eq_refl).
  rewrite (is_red_repr s (Some g)) by exact (at_sib_r _ _ _ _ _ _ _ Hat).
  destruct (Z.eqb_spec (tcol u) 1) as [Hcu|Hcu].
  { by apply (recolour_r m0 s r p t g u k n). }
  assert (tcol u = 0) by (destruct (rbt_col u n Hu); done).
  destruct t as [|c a z' b]; [done|]. simplify_eq/=.
  rewrite decide_False by done. simpl. apply at_dn_r in Hat.
  rewrite (at_node _ _ _ _ _ _ _ Hat). simpl. apply at_up_r in Hat.
  apply (at_set_color _ _ _ 0) in Hat. apply at_up_r in Hat. apply (at_set_color _ _ _ 1) in Hat.
  destruct (at_rotate_left _ _ _ _ _ _ _ _ _ _ Hat) as (s' & -> & Hat').
  apply at_dn_r in Hat'. exists s', z, (T 1 a z b), (CR 0 (T 1 u g r) p k), n. split_and!; [reflexivity| | |by left].
  - split; eauto with asd.
  - by inord.
Qed.

Lemma insert_step_rl m0 s z t p r g u k n :
  ins_inv m0 s z t (CL 1 p r (CR 0 u g k)) n ->
  ins_progress m0 (inorder (plug t (CL 1 p r (CR 0 u g k)))) (S (S (depth k))) (insert_fix_step s z p g).
Proof.
  intros [Hat Hz Hred Ht Hk]. inversion Hk as [|? ? ? ? Hrb _ Hr Hk'| | |]; subst. inversion Hk' as [| | | |? ? ? ? Hu Hk'']; subst.
  pose proof (rt_ne_l _ _ _ _ _ _ _ _ Hat Hz) as Hne.
  unfold insert_fix_step. pose proof (at_node_l _ _ _ _ _ _ _ Hat) as Hp.
  apply at_up_l in Hat. pose proof (at_node_r _ _ _ _ _ _ _ Hat) as Hg.
  rewrite Hg, Hp. simpl. rewrite (decide_False (P := Some p = rt u)) by exact (rt_ne_r _ _ _ _ _ _ _ p Hat eq_refl).
  rewrite (is_red_repr s (Some g)) by exact (at_sib_r _ _ _ _ _ _ _ Hat).
  destruct (Z.eqb_spec (tcol u) 1) as [Hcu|Hcu].
  { by apply (recolour_r m0 s t p r g u k n). }
  assert (tcol u = 0) by (destruct (rbt_col u n Hu); done).
  destruct t as [|c a z' b]; [done|]. simplify_eq/=.
  rewrite decide_True by done.
  destruct (at_rotate_right _ _ _ _ _ _ _ _ _ _ Hat) as (s1 & -> & Hat1). simpl.
  apply at_dn_r in Hat1. rewrite (at_node _ _ _ _ _ _ _ Hat1). simpl. apply at_up_r in Hat1.
  apply (at_set_color _ _ _ 0) in Hat1. apply at_up_r in Hat1. apply (at_set_color _ _ _ 1) in Hat1.
  destruct (at_rotate_left _ _ _ _ _ _ _ _ _ _ Hat1) as (s' & -> & Hat').
  apply at_dn_r in Hat'. exists s', p, (T 1 b p r), (CR 0 (T 1 u g a) z k), n. inversion Ht; subst.
  split_and!; [reflexivity| | |by left].
  - split; eauto with asd.
  - by inord.
Qed.

Lemma insert_fix_loop_ok fuel m0 s z t k n :
  ins_inv m0 s z t k n -> (ccol k = 0 /\ (0 < fuel)%nat) \/ (depth k < fuel)%nat ->
  exists s' t' N, insert_fix_loop fuel s z = Some s' /\ at_ m0 s' t' Top /\
    inorder t' = inorder (plug t k) /\ rbt (blacken t') N.
Proof.
  revert s z t k n. induction fuel as [|fuel IH]; intros s z t k n Hi Hf; [lia|].
  pose proof Hi as [Hat Hz Hred Ht Hk]. simpl.
  assert (Hpz : mem s z = Node (cpar k) (left (mem s z)) (right (mem s z)) (color (mem s z))).
  { destruct t; simplify_eq/=. by rewrite (at_node _ _ _ _ _ _ _ Hat). }
  rewrite Hpz. simpl.
  assert (Hstop : ccol k = 0 -> exists s' t' N, Some s = Some s' /\ at_ m0 s' t' Top /\
    inorder t' = inorder (plug t k) /\ rbt (blacken t') N).
  { intros Hc. destruct (rbt_plug t k n Ht Hk) as [N HN]; [auto|].
    destruct (rbt_blacken _ _ HN) as [N' HN']. exists s, (plug t k), N'. by rewrite <- at_plug. }
  assert (Hgo : forall p gp d, ins_progress m0 (inorder (plug t k)) d (insert_fix_step s z p gp) -> (1 < d <= fuel)%nat ->
    exists s' t' N, ('(s0, z0) ← insert_fix_step s z p gp; insert_fix_loop fuel s0 z0) = Some s' /\ at_ m0 s' t' Top /\
    inorder t' = inorder (plug t k) /\ rbt (blacken t') N).
  { intros p gp d (s' & z' & t' & k' & n' & -> & Hi' & <- & Hd) Hfd. simpl. apply (IH s' z' t' k' n' Hi').
    destruct Hd; [left; lia|right; lia]. }
  destruct Hk as [n|p r k n Hc1 Hc2 Hr Hk|p r k n Hr Hk|l p k n Hc1 Hc2 Hl Hk|l p k n Hl Hk]; simpl in *; auto.
  - rewrite (at_node_l _ _ _ _ _ _ _ Hat). simpl.
    destruct Hk as [n|g u k n ? Hc3| g u k n Hu Hk|u g k n ? Hc3|u g k n Hu Hk]; simpl in *; try done.
    + exists s, (T 1 t p r), (S n). split_and!; simpl; auto with asd. by apply at_up_l.
    + apply (Hgo p g (S (S (depth k)))); [|lia]. by apply (insert_step_ll m0 s z t p r g u k n).
    + apply (Hgo p g (S (S (depth k)))); [|lia]. by apply (insert_step_rl m0 s z t p r g u k n).
  - rewrite (at_node_l _ _ _ _ _ _ _ Hat). simpl. auto.
  - rewrite (at_node_r _ _ _ _ _ _ _ Hat). simpl.
    destruct Hk as [n|g u k n ? Hc3| g u k n Hu Hk|u g k n ? Hc3|u g k n Hu Hk]; simpl in *; try done.
    + exists s, (T 1 l p t), (S n). split_and!; simpl; auto with asd. by apply at_up_r.
    + apply (Hgo p g (S (S (depth k)))); [|lia]. by apply (insert_step_lr m0 s z t p l g u k n).
    + apply (Hgo p g (S (S (depth k)))); [|lia]. by apply (insert_step_rr m0 s z t p l g u k n).
  - rewrite (at_node_r _ _ _ _ _ _ _ Hat). simpl. auto.
Qed.

(** ** Trees as sequences *)

(** [seq_at m0 s q]: the root pointer of [s] leads to a balanced tree with a
    black root whose nodes are, in order, [q]. *)
Definition seq_at m0 s (q : list A) : Prop :=
  exists t N, at_ m0 s t Top /\ rbt t N /\ tcol t = 0 /\ inorder t = q.

Lemma tcnt_inorder z t : (tcnt z t = 0)%nat <-> z ∉ inorder t.
Proof.
  induction t as [|c l IHl x r IHr]; simpl; [set_solver|].
  rewrite not_elem_of_app, not_elem_of_cons, <- IHl, <- IHr, <- eqn_0. lia.
Qed.

Lemma at_blacken m0 s t :
  at_ m0 s t Top -> at_ m0 (on (root s) (fun r => set_color r 0) s) (blacken t) Top.
Proof.
  intros H. assert (root s = rt t) as -> by apply H.
  destruct t; [done|]. by apply (at_set_color m0 s c 0).
Qed.

Lemma tcol_blacken t : tcol (blacken t) = 0.
Proof. by destruct t. Qed.

Lemma inorder_blacken t : inorder (blacken t) = inorder t.
Proof. by destruct t. Qed.

Lemma inorder_nil t : inorder t = [] <-> t = E.
Proof. destruct t as [|c l x r]; simpl; [done|]. split; [|done]. intros H. destruct (inorder l); done. Qed.

Lemma insert_fixup_ok fuel m0 s z t k n :
  ins_inv m0 s z t k n -> (depth k < fuel)%nat ->
  exists s', rb_insert_fixup fuel s z = Some s' /\ seq_at m0 s' (inorder (plug t k)).
Proof.
  intros Hi Hf. destruct (insert_fix_loop_ok fuel m0 s z t k n Hi) as (s' & t' & N & Hs & Hat & Ho & Hb); [by right|].
  unfold rb_insert_fixup. rewrite Hs. simpl.
  assert (Hr : root s' = rt t') by apply Hat. apply at_blacken in Hat. rewrite Hr in *.
  destruct t' as [|c l x r]; simpl in *.
  { symmetry in Ho. apply inorder_nil in Ho. apply (f_equal (tcnt z)) in Ho.
    rewrite tcnt_plug in Ho. destruct Hi as [_ Hz _ _ _]. destruct t; simplify_eq/=. rewrite eqn_refl in Ho. lia. }
  eexists. split; [reflexivity|]. rewrite <- Ho. by exists (T 0 l x r), N.
Qed.

(** ** The descent *)

Section Descent.
Variables (prio : A -> Z) (key : Z).

(** The hole's path is the one the comparisons with [key] choose. *)
Fixpoint path_ok k : Prop :=
  match k with
  | Top => True
  | CL _ x _ k => key < prio x /\ path_ok k
  | CR _ _ x k => prio x <= key /\ path_ok k
  end.

Lemma descend_ok fuel m0 s t k :
  at_ m0 s t k -> path_ok k -> (length (inorder t) < fuel)%nat ->
  exists k', insert_descend fuel prio s key (cpar k) (rt t) = Some (cpar k') /\
    plug E k' = plug t k /\ path_ok k'.
Proof.
  revert t k. induction fuel as [|fuel IH]; intros t k Hat Hp Hf; [lia|]. simpl.
  destruct t as [|c l x r]; simpl; [by exists k|].
  rewrite (at_node _ _ _ _ _ _ _ Hat). simpl in *. rewrite length_app in Hf. simpl in Hf.
  destruct (Z.ltb_spec key (prio x)).
  - apply (IH l (CL c x r k)); [by apply at_dn_l|done|lia].
  - apply (IH r (CR c l x k)); [by apply at_dn_r|done|lia].
Qed.

(** The position in a sequence sorted by priority: behind equal priorities. *)
Fixpoint pq_insert z (q : list A) : list A :=
  match q with
  | [] => [z]
  | y :: q => if key <? prio y then z :: y :: q else y :: pq_insert z q
  end.

Definition pq_sorted (q : list A) : Prop := StronglySorted (fun x y => prio x <= prio y) q.

Lemma pq_insert_split z (q1 q2 : list A) :
  Forall (fun y => prio y <= key) q1 -> Forall (fun y => key < prio y) q2 ->
  pq_insert z (q1 ++ q2) = q1 ++ z :: q2.
Proof.
  induction 1 as [|y q1 Hy _ IH]; intros H2; simpl.
  - destruct H2 as [|y q2 Hy _]; simpl; [done|]. by rewrite (proj2 (Z.ltb_lt _ _)).
  - rewrite (proj2 (Z.ltb_ge _ _)) by done. by rewrite IH.
Qed.

Lemma pq_sorted_app (q1 q2 : list A) :
  pq_sorted (q1 ++ q2) <->
  pq_sorted q1 /\ pq_sorted q2 /\ (forall x y, x ∈ q1 -> y ∈ q2 -> prio x <= prio y).
Proof.
  unfold pq_sorted. induction q1 as [|x q1 IH]; simpl.
  - split; [intros; split_and!; [constructor|done|set_solver]|naive_solver].
  - split.
    + intros H. inversion H as [|? ? H1 H2]; subst. apply IH in H1 as (Ha & Hb & Hc).
      rewrite Forall_forall in H2. split_and!; [|done|].
      * constructor; [done|]. apply Forall_forall. set_solver.
      * intros x' y Hx Hy. apply elem_of_cons in Hx as [->|Hx]; [apply H2; set_solver|by apply Hc].
    + intros (Ha & Hb & Hc). inversion Ha as [|? ? H1 H2]; subst. constructor.
      * apply IH. split_and!; [done|done|]. intros; apply Hc; set_solver.
      * apply Forall_app. split; [done|]. apply Forall_forall. set_solver.
Qed.

Lemma path_bounds k :
  path_ok k -> pq_sorted (before k ++ after k) ->
  Forall (fun y => prio y <= key) (before k) /\ Forall (fun y => key < prio y) (after k).
Proof.
  induction k as [|c x r k IH|c l x k IH]; simpl; [intros; split; constructor|..].
  - intros [Hx Hp] Hs. apply pq_sorted_app in Hs as (Hs1 & Hs2 & Hs3).
    inversion Hs2 as [|? ? Hs4 Hs5]; subst. apply pq_sorted_app in Hs4 as (Hs6 & Hs7 & Hs8).
    destruct IH as [IH1 IH2]; [done| |].
    { apply pq_sorted_app. split_and!; [done|done|]. intros; apply Hs3; set_solver. }
    split; [done|]. constructor; [done|]. eapply Forall_impl; [exact Hs5|]. simpl. lia.
  - intros [Hx Hp] Hs. apply pq_sorted_app in Hs as (Hs1 & Hs2 & Hs3).
    apply pq_sorted_app in Hs1 as (Hs4 & Hs5 & Hs6).
    destruct IH as [IH1 IH2]; [done| |].
    { apply pq_sorted_app. split_and!; [done|done|]. intros; apply Hs3; set_solver. }
    split; [|done]. apply Forall_app. split; [done|].
    apply pq_sorted_app in Hs5 as (_ & _ & Hs5). apply Forall_app. split; [|by repeat constructor].
    apply Forall_forall. intros y Hy. specialize (Hs5 y x Hy ltac:(set_solver)). lia.
Qed.

End Descent.

Lemma depth_len k : (depth k <= length (before k ++ after k))%nat.
Proof.
  induction k as [|c x r k IH|c l x k IH]; simpl; [lia|..];
    rewrite ?length_app in *; simpl; rewrite ?length_app in *; simpl; lia.
Qed.

(** ** [rb_insert] *)

(** Writes to a node outside the tree. *)
Lemma at_outside m0 s s' t k z :
  at_ m0 s t k -> (tcnt z t + ccnt z k = 0)%nat ->
  root s' = root s -> (forall w, w <> z -> mem s' w = mem s w) ->
  at_ (put z (mem s' z) m0) s' t k.
Proof.
  intros [Ht Hk Hu Hf] Hz Hr Hs'. split.
  - apply (repr_ext (mem s)); [|done]. intros w Hw. apply Hs'. intros ->. lia.
  - rewrite Hr. apply (reprc_ext (mem s)); [|done]. intros w Hw. apply Hs'. intros ->. lia.
  - done.
  - intros w Hw. unfold put. case_decide; [by subst|]. rewrite Hs' by done. by apply Hf.
Qed.

(** The contents of a node of the tree in the frame do not matter. *)
Lemma at_base m0 s t k z n :
  at_ (put z n m0) s t k -> (tcnt z t + ccnt z k <> 0)%nat -> at_ m0 s t k.
Proof.
  intros [Ht Hk Hu Hf] Hz. split; [done..|].
  intros w Hw. rewrite Hf by done. apply put_ne. intros ->. lia.
Qed.

(** Hanging the new red leaf [z] into the hole at the end of the path. *)
Lemma attach_ok m0 s prio key k z :
  at_ m0 s E k -> path_ok prio key k -> ccnt z k = 0%nat -> mem s z = Node (cpar k) None None 1 ->
  at_ m0 (match cpar k with
          | None => set_root (Some z) s
          | Some p => if key <? prio p then set_left p (Some z) s else set_right p (Some z) s
          end) (T 1 E z E) k.
Proof.
  intros [_ Hk Hu Hf] Hp Hz Hn. destruct k as [|c x r k|c l x k]; simpl in *.
  - split; simpl; [done|done|intros w; unfold eqn; case_decide; lia|intros w Hw; apply Hf; lia].
  - rewrite (proj2 (Z.ltb_lt _ _)) by apply Hp. destruct Hk as (Hx & Hr & Hk).
    assert (Hzx : z <> x) by (apply eqn_0; lia).
    split; simpl.
    + by rewrite put_ne.
    + split_and!; [mem_simpl; by rewrite Hx|apply repr_put; [uniq|done]|apply reprc_put; [uniq|done]].
    + intros w. specialize (Hu w). destruct (decide (w = z)) as [->|]; [lia || (rewrite eqn_refl; lia)|].
      rewrite eqn_ne by done. lia.
    + intros w Hw. rewrite put_ne by (apply eqn_0; lia). apply Hf. lia.
  - rewrite (proj2 (Z.ltb_ge _ _)) by apply Hp. destruct Hk as (Hx & Hr & Hk).
    assert (Hzx : z <> x) by (apply eqn_0; lia).
    split; simpl.
    + by rewrite put_ne.
    + split_and!; [mem_simpl; by rewrite Hx|apply repr_put; [uniq|done]|apply reprc_put; [uniq|done]].
    + intros w. specialize (Hu w). destruct (decide (w = z)) as [->|]; [lia || (rewrite eqn_refl; lia)|].
      rewrite eqn_ne by done. lia.
    + intros w Hw. rewrite put_ne by (apply eqn_0; lia). apply Hf. lia.
Qed.

Lemma rb_insert_ok fuel prio m0 s (q : list A) z key :
  seq_at m0 s q -> z ∉ q -> (length q < fuel)%nat ->
  exists s' (q1 q2 : list A), rb_insert fuel prio s z key = Some s' /\ q = q1 ++ q2 /\ seq_at m0 s' (q1 ++ z :: q2) /\
    (pq_sorted prio q -> q1 ++ z :: q2 = pq_insert prio key z q).
Proof.
  intros (t & N & Hat & Hrb & _ & <-) Hz Hf. apply tcnt_inorder in Hz.
  unfold rb_insert. set (s1 := set_color z 1 _).
  assert (Hat1 : at_ (put z (mem s1 z) m0) s1 t Top).
  { apply (at_outside m0 s); simpl; [done|lia|done|]. intros w Hw. by rewrite !put_ne. }
  assert (Hr1 : root s1 = rt t) by apply Hat1. rewrite Hr1.
  destruct (descend_ok prio key fuel _ s1 t Top Hat1) as (k & Hd & Hk & Hpath); [done|done|].
  simpl in Hd, Hk. rewrite Hd. simpl. subst t.
  apply at_plug in Hat1. destruct (plug_rbt E k N Hrb) as (n & HE & Hrk & _). inversion HE; subst n.
  rewrite tcnt_plug in Hz. simpl in Hz.
  set (s2 := set_color z 1 _).
  assert (Hm2 : mem s2 z = Node (cpar k) None None 1) by (unfold s2; by mem_simpl).
  assert (Hat2 : at_ (put z (mem s2 z) (put z (mem s1 z) m0)) s2 E k).
  { apply (at_outside _ s1); simpl; [done|lia|done|]. intros w Hw. by rewrite !put_ne. }
  apply (attach_ok _ _ prio key) with (z := z) in Hat2; [|done..].
  apply at_base in Hat2; [|simpl; rewrite eqn_refl; lia].
  apply at_base in Hat2; [|simpl; rewrite eqn_refl; lia].
  assert (Hi : ins_inv m0 _ z (T 1 E z E) k 0) by (split; [exact Hat2|done|done|by constructor|done]).
  destruct (insert_fixup_ok fuel _ _ _ _ _ _ Hi) as (s' & Hs' & Hq).
  { pose proof (depth_len k). rewrite inorder_plug in Hf. simpl in Hf. lia. }
  rewrite inorder_plug in Hq |- *. simpl in Hq |- *.
  exists s', (before k), (after k). split_and!; [exact Hs'|done|done|].
  intros Hs. destruct (path_bounds prio key k Hpath Hs). symmetry. by apply pq_insert_split.
Qed.

End Balance.
End RbInsert.
