(* ===== verification/RbRemove.v ===== *)
(** * Removal from the red-black tree

    [rb_remove_node] takes exactly its node out of the sequence, and neither
    the unlinking nor the repair loop dereferences [NULL]: the sibling the loop
    relies on exists because the black heights say so. *)

From S2P Require Import Prelude RbTree RbShape RbInsert.
From Stdlib Require Import ZArith Lia Bool.
From stdpp Require Import base list gmap numbers.
Import RbTree RbShape RbInsert.
Open Scope Z_scope.

Module RbRemove.

Section Remove.
Context {A : Type} `{EqDecision A}.
Implicit Types (s : rbs A) (m : nodes A) (x y z p u : A) (v q : option A) (t : tree A) (k : ctx A).

(** Composition of contexts: [k1]'s root sits in [k2]'s hole. *)
Fixpoint capp k1 k2 : ctx A :=
  match k1 with
  | Top => k2
  | CL c x r k => CL c x r (capp k k2)
  | CR c l x k => CR c l x (capp k k2)
  end.

Lemma plug_capp t k1 k2 : plug t (capp k1 k2) = plug (plug t k1) k2.
Proof. revert t. induction k1; intros; simpl; auto. Qed.

Lemma cpar_capp k1 k2 : cpar (capp k1 k2) = match k1 with Top => cpar k2 | _ => cpar k1 end.
Proof. by destruct k1. Qed.

Lemma ccnt_capp z k1 k2 : ccnt z (capp k1 k2) = (ccnt z k1 + ccnt z k2)%nat.
Proof. induction k1; simpl; lia. Qed.

(** Balance does not depend on which node sits where. *)
Lemma rbc_relabel k1 c l z y k2 n : rbc (capp k1 (CR c l z k2)) n -> rbc (capp k1 (CR c l y k2)) n.
Proof.
  revert n. induction k1 as [|c1 x r k1 IH|c1 l1 x k1 IH]; intros n; simpl.
  - intros H. inversion H; subst; eauto with asd.
  - assert (Hc : ccol (capp k1 (CR c l z k2)) = ccol (capp k1 (CR c l y k2))) by by destruct k1.
    intros H. inversion H; subst; constructor; auto. congruence.
  - assert (Hc : ccol (capp k1 (CR c l z k2)) = ccol (capp k1 (CR c l y k2))) by by destruct k1.
    intros H. inversion H; subst; constructor; auto. congruence.
Qed.

(** A node of the tree, with the context around it. *)
Lemma locate t k z : z ∈ inorder t -> exists c l r k', plug t k = plug (T c l z r) k'.
Proof.
  revert k. induction t as [|c l IHl x r IHr]; intros k; simpl; [set_solver|].
  rewrite elem_of_app, elem_of_cons. intros [H|[->|H]].
  - apply (IHl (CL c x r k) H).
  - by exists c, l, r, k.
  - apply (IHr (CR c l x k) H).
Qed.

Lemma split_unique z (p1 p2 q1 q2 : list A) :
  z ∉ p1 -> z ∉ q1 -> p1 ++ z :: p2 = q1 ++ z :: q2 -> p1 = q1 /\ p2 = q2.
Proof.
  revert q1. induction p1 as [|x p1 IH]; intros [|y q1] Hp Hq He; simplify_eq/=; [done|set_solver|set_solver|].
  destruct (IH q1) as [-> ->]; set_solver.
Qed.

Lemma uniq_nodup t : (forall w, (tcnt w t <= 1)%nat) -> NoDup (inorder t).
Proof.
  induction t as [|c l IHl x r IHr]; intros Hu; simpl; [constructor|].
  apply list.NoDup_app. split_and!; [apply IHl; intros w; uniq_in w| |].
  - intros w Hw. rewrite elem_of_cons. intros [->|Hr].
    + assert (tcnt x l = 0%nat) as H%tcnt_inorder by uniq. done.
    + assert (tcnt w l <> 0%nat) by (rewrite tcnt_inorder; tauto).
      assert (tcnt w r <> 0%nat) by (rewrite tcnt_inorder; tauto). uniq_in w.
  - constructor; [|apply IHr; intros w; uniq_in w].
    apply tcnt_inorder. uniq.
Qed.

Lemma locate_split t (q1 q2 : list A) z :
  (forall w, (tcnt w t <= 1)%nat) -> inorder t = q1 ++ z :: q2 ->
  exists c l r k, t = plug (T c l z r) k /\ q1 = before k ++ inorder l /\ q2 = inorder r ++ after k.
Proof.
  intros Hu Ho. destruct (locate t Top z) as (c & l & r & k & Ht); [rewrite Ho; set_solver|].
  simpl in Ht. subst t. exists c, l, r, k. split; [done|].
  assert (Hc : forall (l1 l2 : list A), inorder (plug (T c l z r) k) = l1 ++ z :: l2 -> z ∉ l1).
  { intros l1 l2 Hl. apply uniq_nodup in Hu. rewrite Hl in Hu. apply list.NoDup_app in Hu as (_ & Hu & _). set_solver. }
  rewrite inorder_plug in Ho. simpl in Ho. rewrite <- app_assoc in Ho. simpl in Ho.
  rewrite (app_assoc (before k)) in Ho.
  apply split_unique in Ho as [-> ->]; [done|..].
  - apply (Hc _ (inorder r ++ after k)). rewrite inorder_plug. simpl. by rewrite <- !app_assoc.
  - apply (Hc _ q2). rewrite inorder_plug. simpl. rewrite <- !app_assoc. simpl. by rewrite app_assoc.
Qed.

(** [rb_transplant u t'] puts the tree [t'] where [u] hangs. *)
Lemma transplant_ok s u t' q k :
  reprc (mem s) (root s) (Some u) k -> parent (mem s u) = cpar k -> repr (mem s) q t' ->
  (forall z, eqn z u + tcnt z t' + ccnt z k <= 1)%nat ->
  let s' := rb_transplant s u (rt t') in
  reprc (mem s') (root s') (rt t') k /\ repr (mem s') (cpar k) t' /\
  (forall z, (tcnt z t' + ccnt z k = 0)%nat -> mem s' z = mem s z).
Proof.
  intros Hk Hp Ht Hu. unfold rb_transplant.
  destruct (relink_ok s u (rt t') k Hk Hp) as (Hk1 & Hf1 & _); [intros z; uniq_in z|].
  set (s1 := relink u (rt t') s) in *.
  assert (Hp1 : parent (mem s1 u) = cpar k) by (rewrite Hf1; [done|uniq]).
  rewrite Hp1. simpl. split_and!.
  - rewrite on_parent_root. apply (reprc_ext (mem s1)); [|done]. intros z Hz. apply on_parent_mem. uniq_in z.
  - apply (repr_reparent s1 q); [|intros z; uniq_in z].
    apply (repr_ext (mem s)); [|done]. intros z Hz. apply Hf1. uniq_in z.
  - intros z Hz. rewrite on_parent_mem by lia. apply Hf1. lia.
Qed.

Lemma at_capp m0 s t k1 k2 : at_ m0 s (plug t k1) k2 <-> at_ m0 s t (capp k1 k2).
Proof. by rewrite at_plug, (at_plug _ _ t), plug_capp. Qed.

Lemma before_capp k1 k2 : before (capp k1 k2) = before k2 ++ before k1.
Proof.
  induction k1 as [|c x r k1 IH|c l x k1 IH]; simpl; [by rewrite app_nil_r|done|].
  by rewrite IH, <- !app_assoc.
Qed.

Lemma leftmost_ok fuel m0 s t x k :
  at_ m0 s t k -> rt t = Some x -> (length (inorder t) <= fuel)%nat ->
  exists c y b k', leftmost_from fuel s x = Some y /\ t = plug (T c E y b) k' /\ before k' = [].
Proof.
  revert t x k. induction fuel as [|fuel IH]; intros t x k Hat Hx Hf.
  { destruct t; simplify_eq/=. rewrite length_app in Hf. simpl in Hf. lia. }
  destruct t as [|c l x' r]; simplify_eq/=. rewrite length_app in Hf. simpl in Hf.
  rewrite (at_node _ _ _ _ _ _ _ Hat). simpl. destruct (rt l) as [x'|] eqn:Hl.
  - destruct (IH l x' (CL c x r k)) as (c' & y & b & k' & Hy & -> & Hb); [by apply at_dn_l|done|lia|].
    exists c', y, b, (capp k' (CL c x r Top)). split_and!; [done|by rewrite plug_capp|].
    by rewrite before_capp.
  - destruct l; [|done]. by exists c, x, r, Top.
Qed.

(** [y] has no left child and right subtree [R]. *)
Lemma splice_ok m0 s z y q cz l v cy R k :
  reprc (mem s) (root s) (Some z) k -> mem s z = Node (cpar k) (rt l) v cz ->
  repr (mem s) (Some z) l -> repr (mem s) q (T cy E y R) -> l <> E ->
  (forall w, eqn w z + eqn w y + tcnt w l + tcnt w R + ccnt w k <= 1)%nat ->
  (forall w, (eqn w z + eqn w y + tcnt w l + tcnt w R + ccnt w k = 0)%nat -> mem s w = m0 w) ->
  exists s', splice s z y = Some s' /\ mem s' z = mem s z /\
    at_ (put z (mem s z) m0) s' (T cz l y R) k.
Proof.
  intros Hk Hz Hl HR HlE Hu Hf.
  destruct (transplant_ok s z (T cy E y R) q k) as (Hk1 & HR1 & Hf1);
    [done|by rewrite Hz|done|intros w; uniq_in w|].
  unfold splice. simpl rt in *. set (s1 := rb_transplant s z (Some y)) in *.
  assert (Hz1 : mem s1 z = mem s z) by (apply Hf1; uniq).
  destruct HR1 as (Hy1 & _ & HR1).
  assert (Hzy : z <> y) by uniq.
  clearbody s1. rewrite Hz1. replace (left (mem s z)) with (rt l) by (by rewrite Hz).
  mem_simpl. destruct l as [|cl ll yl lr]; [done|]. simpl.
  assert (Hl1 : repr (mem s1) (Some z) (T cl ll yl lr)).
  { apply (repr_ext (mem s)); [|done]. intros w Hw. simpl in Hw. apply Hf1. uniq_in w. }
  destruct Hl1 as (Hyl & Hll & Hlr).
  assert (Hyy : yl <> y) by uniq. assert (Hylz : yl <> z) by uniq.
  eexists. split; [reflexivity|]. split; [simpl; rewrite !put_ne by congruence; exact Hz1|].
  split; simpl.
  - rewrite put_eq. mem_simpl. rewrite Hy1, Hyl. simpl. rewrite Hz1, Hz. simpl. split_and!.
    + done.
    + done.
    + repeat (apply repr_put; [uniq|]). done.
    + repeat (apply repr_put; [uniq|]). done.
    + repeat (apply repr_put; [uniq|]). done.
  - repeat (apply reprc_put; [uniq|]). done.
  - intros w. uniq_in w.
  - intros w Hw. simpl in Hw. do 3 rewrite put_ne by (apply eqn_0; lia).
    unfold put. case_decide; [by subst|]. rewrite Hf1 by (simpl; lia). apply Hf. simpl. rewrite (eqn_ne w z) by done. lia.
Qed.

(** What unlinking hands to the repair loop: a tree [b] at a hole [K] that is
    one black node short if the unlinked colour was black. *)
Definition short_at (c : Z) t k : Prop :=
  exists n, rbt t n /\ (c = 0 /\ rbc k (S n) \/ c = 1 /\ rbc k n /\ tcol t = 0).

Definition unlinked m0 (q : list A) z s o : Prop :=
  exists s' b K c, o = Some (s', rt b, cpar K, c) /\ mem s' z = mem s z /\
    at_ (put z (mem s z) m0) s' b K /\ inorder (plug b K) = q /\ short_at c b K.

Lemma short_child c l z r k N :
  rbt (plug (T c l z r) k) N -> (l = E -> short_at c r k) /\ (r = E -> short_at c l k).
Proof.
  intros H. destruct (plug_rbt _ _ _ H) as (n & Ht & Hk & _).
  inversion Ht; subst; simpl; split; intros ->; eexists; (split; [eassumption|]); auto 6.
Qed.

Lemma unlink_one m0 s c l z r b k N fuel :
  at_ m0 s (T c l z r) k -> rbt (plug (T c l z r) k) N -> (l = E /\ b = r) \/ (r = E /\ b = l) ->
  unlinked m0 (before k ++ inorder l ++ inorder r ++ after k) z s (remove_unlink fuel s z).
Proof.
  intros Hat Hrb Hb. pose proof (at_node _ _ _ _ _ _ _ Hat) as Hz.
  pose proof Hat as [(_ & Hl & Hr) Hk Hu Hf].
  assert (Hbr : repr (mem s) (Some z) b) by (destruct Hb as [[-> ->]|[-> ->]]; done).
  assert (Hub : forall w, (tcnt w b = tcnt w l + tcnt w r)%nat).
  { intros w. destruct Hb as [[-> ->]|[-> ->]]; simpl; lia. }
  destruct (transplant_ok s z b (Some z) k) as (Hk1 & Hb1 & Hf1);
    [done|by rewrite Hz|done|intros w; rewrite Hub; uniq_in w|].
  exists (rb_transplant s z (rt b)), b, k, c. split_and!.
  - unfold remove_unlink. rewrite Hz. simpl.
    destruct Hb as [[-> ->]|[-> ->]]; simpl; [done|]. destruct (rt l) eqn:El; [done|].
    by destruct l.
  - apply Hf1. rewrite Hub. uniq.
  - split; [done|done|intros w; rewrite Hub; uniq_in w|].
    intros w Hw. rewrite Hf1 by done. unfold put. case_decide; [by subst|].
    apply Hf. simpl. rewrite eqn_ne by done. rewrite Hub in Hw. lia.
  - rewrite inorder_plug. destruct Hb as [[-> ->]|[-> ->]]; simpl; [done|by rewrite ?app_nil_r].
  - destruct (short_child _ _ _ _ _ _ Hrb). destruct Hb as [[-> ->]|[-> ->]]; auto.
Qed.

(** The state in which [splice] runs: the successor [y] is detached from the
    right subtree, of which [R] remains. *)
Definition detached m0 s0 s z y c cy l R k : Prop :=
  reprc (mem s) (root s) (Some z) k /\ mem s z = mem s0 z /\ (exists v, mem s z = Node (cpar k) (rt l) v c) /\
  repr (mem s) (Some z) l /\ (exists q, repr (mem s) q (T cy E y R)) /\
  (forall w, eqn w z + eqn w y + tcnt w l + tcnt w R + ccnt w k <= 1)%nat /\
  (forall w, (eqn w z + eqn w y + tcnt w l + tcnt w R + ccnt w k = 0)%nat -> mem s w = m0 w).

Lemma detach_direct m0 s c l z cy y b k :
  at_ m0 s (T c l z (T cy E y b)) k -> detached m0 s s z y c cy l b k.
Proof.
  intros Hat. pose proof (at_node _ _ _ _ _ _ _ Hat) as Hz. destruct Hat as [(_ & Hl & Hr) Hk Hu Hf].
  split_and!; [done|done|by eexists|done|by eexists|intros w; uniq_in w|].
  intros w Hw. apply Hf. simpl. lia.
Qed.

Lemma rt_plug k : k <> Top -> exists x, forall t, rt (plug t k) = Some x.
Proof.
  induction k as [|c x r k IH|c l x k IH]; [done|..]; intros _; simpl.
  - destruct k; [by exists x|..]; destruct IH as [y IH]; try done; exists y; intros; apply IH.
  - destruct k; [by exists x|..]; destruct IH as [y IH]; try done; exists y; intros; apply IH.
Qed.

Lemma detach_deep m0 s c l z cy y b ky k :
  at_ m0 s (T c l z (plug (T cy E y b) ky)) k -> ky <> Top ->
  exists yr s', rt (plug b ky) = Some yr /\
    (let s := rb_transplant s y (right (mem s y)) in
     let s := set_right y (right (mem s z)) s in
     yr ← right (mem s y);
     Some (set_parent yr (Some y) s, cpar ky)) = Some (s', cpar ky) /\
    detached m0 s s' z y c cy l (plug b ky) k.
Proof.
  intros Hat Hky. pose proof (at_node _ _ _ _ _ _ _ Hat) as Hz.
  pose proof (at_uniq _ _ _ _ Hat) as Hu0. pose proof (at_frame _ _ _ _ Hat) as Hf0.
  apply at_dn_r, at_capp in Hat. pose proof (at_node _ _ _ _ _ _ _ Hat) as Hy. rewrite Hy.
  cbn [right]. set (K := capp ky (CR c l z k)) in *.
  destruct Hat as [(_ & _ & Hb) Hk Hu Hf].
  destruct (transplant_ok s y b (Some y) K) as (Hk1 & Hb1 & Hf1);
    [done|by rewrite Hy|done|intros w; uniq_in w|].
  cbv zeta. set (s1 := rb_transplant s y (rt b)) in *. clearbody s1.
  assert (Hat1 : at_ (mem s1) s1 b K) by (split; [done|done|intros w; uniq_in w|done]).
  unfold K in Hat1. apply at_capp, at_up_r in Hat1.
  set (R := plug b ky) in *. pose proof (at_node _ _ _ _ _ _ _ Hat1) as Hz1.
  assert (Hcnt : forall w, (tcnt w (plug (T cy E y b) ky) = eqn w y + tcnt w R)%nat).
  { intros w. unfold R. rewrite !tcnt_plug. simpl. lia. }
  assert (HuR : forall w, (eqn w z + eqn w y + tcnt w l + tcnt w R + ccnt w k <= 1)%nat).
  { intros w. specialize (Hu0 w). simpl in Hu0. rewrite Hcnt in Hu0. lia. }
  assert (Hmz : mem s1 z = Node (cpar k) (rt l) (rt R) c) by done.
  assert (Hyb : mem s1 y = mem s y) by (apply Hf1; uniq).
  destruct (rt_plug ky Hky) as (yr & Hyr). assert (HR : rt R = Some yr) by apply Hyr.
  assert (Hzz : mem s1 z = mem s z) by (rewrite Hmz, Hz, Hyr, HR; done).
  rewrite Hmz. cbn [right]. rewrite HR. mem_simpl.
  exists yr, (set_parent yr (Some y) (set_right y (Some yr) s1)). split; [done|]. split; [done|].
  destruct Hat1 as [(_ & Hl1 & HR1) Hk1' _ _].
  assert (Hnyr : forall w, (eqn w yr <= tcnt w R)%nat).
  { intros w. clearbody R. destruct R; simplify_eq/=. lia. }
  pose proof (Hnyr yr) as Hyr1. rewrite eqn_refl in Hyr1.
  assert (yr <> y) by (apply eqn_0; uniq). assert (yr <> z) by (apply eqn_0; uniq).
  assert (y <> z) by uniq.
  split_and!.
  - simpl. apply reprc_put; [uniq|]. apply reprc_put; [uniq|]. done.
  - simpl. rewrite !put_ne by done. done.
  - eexists. simpl. rewrite !put_ne by done. exact Hmz.
  - simpl. apply repr_put; [uniq|]. apply repr_put; [uniq|]. done.
  - eexists (parent (mem s y)). simpl. split_and!; [rewrite put_ne by done; by rewrite put_eq, HR, Hyb, Hy|done|].
    pose proof (repr_reparent (set_right y (Some yr) s1) (Some z) (Some y) R) as Hrp. rewrite HR in Hrp. simpl in Hrp.
    apply Hrp; [|intros w; uniq_in w]. apply repr_put; [uniq|done].
  - done.
  - intros w Hw. simpl. specialize (Hnyr w). rewrite !put_ne by (apply eqn_0; lia).
    rewrite Hf1, Hf0; [done|simpl; rewrite Hcnt; lia|].
    unfold K. rewrite ccnt_capp. simpl. unfold R in Hw. rewrite tcnt_plug in Hw. lia.
Qed.

Lemma unlink_two m0 s c l z r k N fuel :
  at_ m0 s (T c l z r) k -> rbt (plug (T c l z r) k) N -> l <> E -> r <> E ->
  (length (inorder r) <= fuel)%nat ->
  unlinked m0 (before k ++ inorder l ++ inorder r ++ after k) z s (remove_unlink fuel s z).
Proof.
  intros Hat Hrb Hl Hr Hf. pose proof (at_node _ _ _ _ _ _ _ Hat) as Hz.
  destruct (rt r) as [r0|] eqn:Er; [|by destruct r].
  destruct (leftmost_ok fuel m0 s r r0 (CR c l z k)) as (cy & y & b & ky & Hy & -> & Hb);
    [by apply at_dn_r|done|done|].
  pose proof Hat as Hat'. apply at_dn_r, at_capp in Hat'. pose proof (at_node _ _ _ _ _ _ _ Hat') as Hny.
  pose proof (at_uniq _ _ _ _ Hat) as Hu. clear Hat'.
  assert (Hsplice : forall s1, detached m0 s s1 z y c cy l (plug b ky) k ->
    unlinked m0 (before k ++ inorder l ++ inorder (plug (T cy E y b) ky) ++ after k) z s
      (s ← splice s1 z y; Some (s, rt b, cpar (capp ky (CR c l y k)), cy))).
  { intros s1 (H1 & H2 & (v & H3) & H4 & (q & H5) & H6 & H7).
    destruct (splice_ok m0 s1 z y q c l v cy (plug b ky) k) as (s2 & -> & Hz2 & Hat2); [done..|].
    exists s2, b, (capp ky (CR c l y k)), cy. split_and!; [done|by rewrite Hz2| | |].
    - rewrite H2 in Hat2. by apply at_dn_r, at_capp in Hat2.
    - rewrite plug_capp. inord. rewrite !inorder_plug, Hb. by inord.
    - change (plug (T c l z (plug (T cy E y b) ky)) k) with (plug (plug (T cy E y b) ky) (CR c l z k)) in Hrb.
      rewrite <- plug_capp in Hrb. destruct (plug_rbt _ _ _ Hrb) as (n & Ht & Hk & _).
      inversion Ht; subst; eexists; (split; [eassumption|]); eauto 6 using rbc_relabel. }
  unfold remove_unlink. rewrite Hz. cbn [left right].
  destruct (rt l) as [l0|] eqn:El; [|by destruct l]. rewrite Hy. cbn [mbind option_bind].
  rewrite Hny. cbn [parent right color].
  assert (ky = Top \/ ky <> Top) as [->|Hky] by (destruct ky; auto).
  - simpl. rewrite decide_True by done. apply Hsplice. by apply detach_direct in Hat.
  - destruct (detach_deep m0 s c l z cy y b ky k Hat Hky) as (yr & s' & _ & Hs' & Hdet).
    rewrite cpar_capp.
    replace (match ky with Top => cpar (CR c l z k) | _ => cpar ky end) with (cpar ky) by by destruct ky.
    rewrite decide_False.
    + rewrite Hny in Hs'. cbn [right] in Hs'. rewrite Hs'. simpl.
      specialize (Hsplice s' Hdet). rewrite cpar_capp in Hsplice. by destruct ky.
    + apply cpar_ne. specialize (Hu z). simpl in Hu. rewrite eqn_refl, tcnt_plug in Hu. lia.
Qed.

Lemma unlink_node_ok m0 s c l z r k N fuel :
  at_ m0 s (T c l z r) k -> rbt (plug (T c l z r) k) N -> (length (inorder r) <= fuel)%nat ->
  unlinked m0 (before k ++ inorder l ++ inorder r ++ after k) z s (remove_unlink fuel s z).
Proof.
  intros Hat Hrb Hf. destruct l as [|cl ll xl lr]; [by eapply unlink_one; eauto|].
  destruct r as [|cr rl xr rr]; [by eapply unlink_one; eauto|]. by eapply unlink_two; eauto.
Qed.

End Remove.
End RbRemove.
