(* ===== verification/RbFixup.v ===== *)
(** * The repair loop after a removal

    [rb_delete_fixup] on a tree that misses one black node at a hole: each
    iteration either moves the hole up or ends the loop, the sibling of the hole
    is never [NULL], and the tree is balanced again at the end.  [rb_remove_node]
    and [rb_leftmost] are then described on the sequence the tree holds. *)

From S2P Require Import Prelude RbTree RbShape RbInsert RbRemove.
From Stdlib Require Import ZArith Lia Bool.
From stdpp Require Import base list gmap numbers.
Import RbTree RbShape RbInsert RbRemove.
Open Scope Z_scope.

Module RbFixup.

Section Fixup.
Context {A : Type} `{EqDecision A}.
Implicit Types (s : rbs A) (m : nodes A) (x y z p u w : A) (v q : option A) (t : tree A) (k : ctx A).

(** The tree at the hole is one black node short of the [n + 1] its context
    expects; a red root makes up for it when it is painted black. *)
Definition dinv t n : Prop := (tcol t = 0 /\ rbt t n) \/ (tcol t = 1 /\ rbt (blacken t) (S n)).

(** The result of an iteration that starts from the sequence [whole]: either
    the loop goes on with the tree [t'], or it ends with [x] the root. *)
Definition del_progress m0 (whole : list A) (d : nat) (o : option (rbs A * option A * option A)) : Prop :=
  exists s' t' k' xp, o = Some (s', rt t', xp) /\ at_ m0 s' t' k' /\ inorder (plug t' k') = whole /\
    ((xp = cpar k' /\ (exists n, dinv t' n /\ rbc k' (S n)) /\ ((depth k' < d)%nat \/ tcol t' = 1)) \/
     (k' = Top /\ exists N, rbt t' N)).

(** ** The hole is a left child *)

Lemma left_far_ok m0 s t cp p wl w ra wr rb k n d :
  at_ m0 s (T cp t p (T 0 wl w (T 1 ra wr rb))) k ->
  rbt t n -> rbt wl n -> rbt (T 1 ra wr rb) n ->
  (cp = 0 /\ rbc k (S (S n))) \/ (cp = 1 /\ rbc k (S n) /\ ccol k = 0) ->
  del_progress m0 (inorder (plug (T cp t p (T 0 wl w (T 1 ra wr rb))) k)) d
    (delete_left_far s (Some p) (Some w)).
Proof.
  intros Hat Ht Hwl Hwr Hk. unfold delete_left_far. cbv zeta. cbn [on field].
  rewrite (at_node _ _ _ _ _ _ _ Hat). cbn [color].
  apply at_dn_r in Hat. apply (at_set_color _ _ _ cp) in Hat. apply at_up_r in Hat.
  apply (at_set_color _ _ _ 0) in Hat. apply at_dn_r in Hat.
  pose proof (at_node _ _ _ _ _ _ _ Hat) as Hw. rewrite Hw. cbn [right rt on].
  apply at_dn_r in Hat. apply (at_set_color _ _ _ 0) in Hat. apply at_up_r, at_up_r in Hat.
  destruct (at_rotate_left _ _ _ _ _ _ _ _ _ _ Hat) as (s' & Hs' & Hat').
  rewrite Hs'. cbn [mbind option_bind].
  assert (Hrbt : exists N, rbt (plug (T cp (T 0 t p wl) w (T 0 ra wr rb)) k) N).
  { inversion Hwr; subst. destruct Hk as [(-> & Hk)|(-> & Hk & Hc)].
    - apply (rbt_plug _ k (S (S n))); [repeat constructor; done|done|by left].
    - apply (rbt_plug _ k (S n)); [repeat constructor; done|done|by right]. }
  destruct Hrbt as [N HN]. exists s', (plug (T cp (T 0 t p wl) w (T 0 ra wr rb)) k), Top, None.
  apply at_plug in Hat'. split_and!; [|done| |right; eauto].
  - assert (root s' = rt (plug (T cp (T 0 t p wl) w (T 0 ra wr rb)) k)) as -> by apply Hat'. done.
  - simpl. by inord.
Qed.

(** Black sibling [w]. *)
Lemma left_rest_ok m0 s t cp p wl w wr k n d :
  at_ m0 s t (CL cp p (T 0 wl w wr) k) -> rbt t n -> tcol t = 0 ->
  rbc (CL cp p (T 0 wl w wr) k) (S n) -> (depth k < d)%nat \/ cp = 1 ->
  del_progress m0 (inorder (plug t (CL cp p (T 0 wl w wr) k))) d
    (if is_black (left (mem s w)) s && is_black (right (mem s w)) s then
       let s := set_color w 1 s in Some (s, Some p, field parent None (Some p) s)
     else '(s, w) ← delete_left_near s (Some p) w; delete_left_far s (Some p) w).
Proof.
  intros Hat Ht Hct Hk Hd.
  assert (Hk' : (cp = 0 /\ rbc k (S (S n))) \/ (cp = 1 /\ rbc k (S n) /\ ccol k = 0)).
  { inversion Hk; subst; auto. }
  assert (Hw : rbt wl n /\ rbt wr n).
  { inversion Hk; subst; match goal with H : rbt (T 0 _ _ _) _ |- _ => inversion H; subst; done end. }
  destruct Hw as [Hwl Hwr].
  apply at_up_l, at_dn_r in Hat. pose proof (at_node _ _ _ _ _ _ _ Hat) as Hnw.
  pose proof Hat as [(_ & Hrl & Hrr) _ _ _]. rewrite Hnw. cbn [left right].
  rewrite (is_black_repr s (Some w) wl), (is_black_repr s (Some w) wr) by done.
  destruct (Z.eqb_spec (tcol wl) 0) as [Hcl|Hcl], (Z.eqb_spec (tcol wr) 0) as [Hcr|Hcr]; simpl.
  - apply (at_set_color _ _ _ 1) in Hat. apply at_up_r in Hat.
    assert (Hp : field parent None (Some p) (set_color w 1 s) = cpar k).
    { simpl field. pose proof (at_node _ _ _ _ _ _ _ Hat) as Hp. simpl in Hp. simpl. by rewrite Hp. }
    simpl in Hp. rewrite Hp.
    exists (set_color w 1 s), (T cp t p (T 1 wl w wr)), k, (cpar k). split_and!; [done|done|simpl; by inord|left].
    split_and!; [done| |done]. destruct Hk' as [(-> & Hk')|(-> & Hk' & Hc)].
    + exists (S n). split; [left; split; [done|repeat constructor; done]|done].
    + exists n. split; [right; split; [done|repeat constructor; done]|done].
  - destruct wr as [|c a v b]; [done|]. assert (c = 1) as -> by (destruct (rbt_col _ _ Hwr); done).
    unfold delete_left_near. rewrite Hnw. cbn [left right rt is_black].
    replace (color (mem s v)) with 1 by (by destruct Hrr as [-> _]). simpl.
    apply at_up_r in Hat.
    destruct (left_far_ok m0 s t cp p wl w a v b k n d) as (s2 & t2 & k2 & xp & Ho & H2' & H3' & H4'); auto with asd.
    exists s2, t2, k2, xp. split_and!; [exact Ho|done| |done]. rewrite H3'. simpl. by inord.
  - destruct wl as [|c a v b]; [done|]. assert (c = 1) as -> by (destruct (rbt_col _ _ Hwl); done).
    unfold delete_left_near. rewrite Hnw. cbn [left right].
    rewrite (is_black_repr s (Some w) wr) by done. rewrite (proj2 (Z.eqb_eq _ _) Hcr). cbn [rt on].
    apply at_dn_l in Hat. apply (at_set_color _ _ _ 0) in Hat. apply at_up_l in Hat.
    apply (at_set_color _ _ _ 1) in Hat.
    destruct (at_rotate_right _ _ _ _ _ _ _ _ _ _ Hat) as (s' & Hs' & Hat').
    simpl in Hs' |- *. rewrite Hs'. cbn [mbind option_bind]. apply at_up_r in Hat'.
    rewrite (at_node _ _ _ _ _ _ _ Hat'). cbn [left right rt].
    inversion Hwl; subst.
    destruct (left_far_ok m0 s' t cp p a v b w wr k n d) as (s2 & t2 & k2 & xp & Ho & H2' & H3' & H4'); auto with asd.
    exists s2, t2, k2, xp. split_and!; [exact Ho|done| |done]. rewrite H3'. simpl. by inord.
  - destruct wr as [|c a v b]; [done|]. assert (c = 1) as -> by (destruct (rbt_col _ _ Hwr); done).
    unfold delete_left_near. rewrite Hnw. cbn [left right rt is_black].
    replace (color (mem s v)) with 1 by (by destruct Hrr as [-> _]). simpl.
    apply at_up_r in Hat.
    destruct (left_far_ok m0 s t cp p wl w a v b k n d) as (s2 & t2 & k2 & xp & Ho & H2' & H3' & H4'); auto with asd.
    exists s2, t2, k2, xp. split_and!; [exact Ho|done| |done]. rewrite H3'. simpl. by inord.
Qed.

(** Any sibling. *)
Lemma fix_left_ok m0 s t cp p W k n :
  at_ m0 s t (CL cp p W k) -> rbt t n -> tcol t = 0 -> rbc (CL cp p W k) (S n) ->
  del_progress m0 (inorder (plug t (CL cp p W k))) (S (depth k)) (delete_fix_left s (Some p)).
Proof.
  intros Hat Ht Hct Hk. unfold delete_fix_left, delete_left_red. simpl field.
  pose proof (at_sib_l _ _ _ _ _ _ _ Hat) as HW. rewrite (at_node_l _ _ _ _ _ _ _ Hat). cbn [left right].
  rewrite (is_red_repr s (Some p) W) by done.
  destruct (Z.eqb_spec (tcol W) 1) as [HcW|HcW].
  - destruct W as [|cw wl w wr]; [done|]. simpl in HcW; subst cw.
    assert (cp = 0 /\ rbc k (S (S n)) /\ rbt wl (S n) /\ rbt wr (S n) /\ tcol wl = 0 /\ tcol wr = 0) as (-> & Hk' & Hwl & Hwr & Hcl & Hcr).
    { inversion Hk; subst; [done|]. match goal with H : rbt (T 1 _ _ _) _ |- _ => inversion H; subst; done end. }
    apply at_up_l, at_dn_r in Hat. apply (at_set_color _ _ _ 0) in Hat. apply at_up_r in Hat.
    apply (at_set_color _ _ _ 1) in Hat.
    destruct (at_rotate_left _ _ _ _ _ _ _ _ _ _ Hat) as (s' & Hs' & Hat').
    cbn [mbind option_bind rt]. simpl in Hs'. rewrite Hs'. cbn [mbind option_bind].
    apply at_dn_l in Hat'. rewrite (at_node _ _ _ _ _ _ _ Hat'). cbn [left right].
    apply at_dn_l in Hat'. destruct wl as [|c1 wl1 w1 wr1]; [inversion Hwl|]. simpl in Hcl; subst c1.
    cbn [rt mbind option_bind].
    assert (Hk1 : rbc (CL 1 p (T 0 wl1 w1 wr1) (CL 0 w wr k)) (S n)) by (apply rbc_LR; [done|done|done|by apply rbc_LB]).
    destruct (left_rest_ok m0 s' t 1 p wl1 w1 wr1 (CL 0 w wr k) n (S (depth k)) Hat' Ht Hct Hk1 (or_intror eq_refl)) as (s2 & t2 & k2 & xp & Ho & H2 & H3 & H4).
    exists s2, t2, k2, xp. split_and!; [exact Ho|done| |].
    + rewrite H3. simpl. by inord.
    + exact H4.
  - assert (HW0 : exists wl w wr, W = (T 0 wl w wr)).
    { assert (rbt W (S n)) as HrW by (inversion Hk; subst; done).
      inversion HrW; subst; [done|]. eauto. }
    destruct HW0 as (wl & w & wr & ->). cbn [rt mbind option_bind]. apply (left_rest_ok m0 s t cp p wl w wr k n (S (depth k))); auto.
Qed.

(** ** The hole is a right child *)

Lemma right_far_ok m0 s t cp p wl w ra wr rb k n d :
  at_ m0 s (T cp (T 0 (T 1 rb wr ra) w wl) p t) k ->
  rbt t n -> rbt wl n -> rbt (T 1 rb wr ra) n ->
  (cp = 0 /\ rbc k (S (S n))) \/ (cp = 1 /\ rbc k (S n) /\ ccol k = 0) ->
  del_progress m0 (inorder (plug (T cp (T 0 (T 1 rb wr ra) w wl) p t) k)) d
    (delete_right_far s (Some p) (Some w)).
Proof.
  intros Hat Ht Hwl Hwr Hk. unfold delete_right_far. cbv zeta. cbn [on field].
  rewrite (at_node _ _ _ _ _ _ _ Hat). cbn [color].
  apply at_dn_l in Hat. apply (at_set_color _ _ _ cp) in Hat. apply at_up_l in Hat.
  apply (at_set_color _ _ _ 0) in Hat. apply at_dn_l in Hat.
  pose proof (at_node _ _ _ _ _ _ _ Hat) as Hw. rewrite Hw. cbn [left rt on].
  apply at_dn_l in Hat. apply (at_set_color _ _ _ 0) in Hat. apply at_up_l, at_up_l in Hat.
  destruct (at_rotate_right _ _ _ _ _ _ _ _ _ _ Hat) as (s' & Hs' & Hat').
  rewrite Hs'. cbn [mbind option_bind].
  assert (Hrbt : exists N, rbt (plug (T cp (T 0 rb wr ra) w (T 0 wl p t)) k) N).
  { inversion Hwr; subst. destruct Hk as [(-> & Hk)|(-> & Hk & Hc)].
    - apply (rbt_plug _ k (S (S n))); [repeat constructor; done|done|by left].
    - apply (rbt_plug _ k (S n)); [repeat constructor; done|done|by right]. }
  destruct Hrbt as [N HN]. exists s', (plug (T cp (T 0 rb wr ra) w (T 0 wl p t)) k), Top, None.
  apply at_plug in Hat'. split_and!; [|done| |right; eauto].
  - assert (root s' = rt (plug (T cp (T 0 rb wr ra) w (T 0 wl p t)) k)) as -> by apply Hat'. done.
  - simpl. by inord.
Qed.

(** Black sibling [w]. *)
Lemma right_rest_ok m0 s t cp p wl w wr k n d :
  at_ m0 s t (CR cp (T 0 wr w wl) p k) -> rbt t n -> tcol t = 0 ->
  rbc (CR cp (T 0 wr w wl) p k) (S n) -> (depth k < d)%nat \/ cp = 1 ->
  del_progress m0 (inorder (plug t (CR cp (T 0 wr w wl) p k))) d
    (if is_black (right (mem s w)) s && is_black (left (mem s w)) s then
       let s := set_color w 1 s in Some (s, Some p, field parent None (Some p) s)
     else '(s, w) ← delete_right_near s (Some p) w; delete_right_far s (Some p) w).
Proof.
  intros Hat Ht Hct Hk Hd.
  assert (Hk' : (cp = 0 /\ rbc k (S (S n))) \/ (cp = 1 /\ rbc k (S n) /\ ccol k = 0)).
  { inversion Hk; subst; auto. }
  assert (Hw : rbt wl n /\ rbt wr n).
  { inversion Hk; subst; match goal with H : rbt (T 0 _ _ _) _ |- _ => inversion H; subst; done end. }
  destruct Hw as [Hwl Hwr].
  apply at_up_r, at_dn_l in Hat. pose proof (at_node _ _ _ _ _ _ _ Hat) as Hnw.
  pose proof Hat as [(_ & Hrr & Hrl) _ _ _]. rewrite Hnw. cbn [left right].
  rewrite (is_black_repr s (Some w) wl), (is_black_repr s (Some w) wr) by done.
  destruct (Z.eqb_spec (tcol wl) 0) as [Hcl|Hcl], (Z.eqb_spec (tcol wr) 0) as [Hcr|Hcr]; simpl.
  - apply (at_set_color _ _ _ 1) in Hat. apply at_up_l in Hat.
    assert (Hp : field parent None (Some p) (set_color w 1 s) = cpar k).
    { simpl field. pose proof (at_node _ _ _ _ _ _ _ Hat) as Hp. simpl in Hp. simpl. by rewrite Hp. }
    simpl in Hp. rewrite Hp.
    exists (set_color w 1 s), (T cp (T 1 wr w wl) p t), k, (cpar k). split_and!; [done|done|simpl; by inord|left].
    split_and!; [done| |done]. destruct Hk' as [(-> & Hk')|(-> & Hk' & Hc)].
    + exists (S n). split; [left; split; [done|repeat constructor; done]|done].
    + exists n. split; [right; split; [done|repeat constructor; done]|done].
  - destruct wr as [|c b v a]; [done|]. assert (c = 1) as -> by (destruct (rbt_col _ _ Hwr); done).
    unfold delete_right_near. rewrite Hnw. cbn [left right rt is_black].
    replace (color (mem s v)) with 1 by (by destruct Hrr as [-> _]). simpl.
    apply at_up_l in Hat.
    destruct (right_far_ok m0 s t cp p wl w a v b k n d) as (s2 & t2 & k2 & xp & Ho & H2' & H3' & H4'); auto with asd.
    exists s2, t2, k2, xp. split_and!; [exact Ho|done| |done]. rewrite H3'. simpl. by inord.
  - destruct wl as [|c b v a]; [done|]. assert (c = 1) as -> by (destruct (rbt_col _ _ Hwl); done).
    unfold delete_right_near. rewrite Hnw. cbn [left right].
    rewrite (is_black_repr s (Some w) wr) by done. rewrite (proj2 (Z.eqb_eq _ _) Hcr). cbn [rt on].
    apply at_dn_r in Hat. apply (at_set_color _ _ _ 0) in Hat. apply at_up_r in Hat.
    apply (at_set_color _ _ _ 1) in Hat.
    destruct (at_rotate_left _ _ _ _ _ _ _ _ _ _ Hat) as (s' & Hs' & Hat').
    simpl in Hs' |- *. rewrite Hs'. cbn [mbind option_bind]. apply at_up_l in Hat'.
    rewrite (at_node _ _ _ _ _ _ _ Hat'). cbn [left right rt].
    inversion Hwl; subst.
    destruct (right_far_ok m0 s' t cp p a v b w wr k n d) as (s2 & t2 & k2 & xp & Ho & H2' & H3' & H4'); auto with asd.
    exists s2, t2, k2, xp. split_and!; [exact Ho|done| |done]. rewrite H3'. simpl. by inord.
  - destruct wr as [|c b v a]; [done|]. assert (c = 1) as -> by (destruct (rbt_col _ _ Hwr); done).
    unfold delete_right_near. rewrite Hnw. cbn [left right rt is_black].
    replace (color (mem s v)) with 1 by (by destruct Hrr as [-> _]). simpl.
    apply at_up_l in Hat.
    destruct (right_far_ok m0 s t cp p wl w a v b k n d) as (s2 & t2 & k2 & xp & Ho & H2' & H3' & H4'); auto with asd.
    exists s2, t2, k2, xp. split_and!; [exact Ho|done| |done]. rewrite H3'. simpl. by inord.
Qed.

(** Any sibling. *)
Lemma fix_right_ok m0 s t cp p W k n :
  at_ m0 s t (CR cp W p k) -> rbt t n -> tcol t = 0 -> rbc (CR cp W p k) (S n) ->
  del_progress m0 (inorder (plug t (CR cp W p k))) (S (depth k)) (delete_fix_right s (Some p)).
Proof.
  intros Hat Ht Hct Hk. unfold delete_fix_right, delete_right_red. simpl field.
  pose proof (at_sib_r _ _ _ _ _ _ _ Hat) as HW. rewrite (at_node_r _ _ _ _ _ _ _ Hat). cbn [left right].
  rewrite (is_red_repr s (Some p) W) by done.
  destruct (Z.eqb_spec (tcol W) 1) as [HcW|HcW].
  - destruct W as [|cw wr w wl]; [done|]. simpl in HcW; subst cw.
    assert (cp = 0 /\ rbc k (S (S n)) /\ rbt wl (S n) /\ rbt wr (S n) /\ tcol wl = 0 /\ tcol wr = 0) as (-> & Hk' & Hwl & Hwr & Hcl & Hcr).
    { inversion Hk; subst; [done|]. match goal with H : rbt (T 1 _ _ _) _ |- _ => inversion H; subst; done end. }
    apply at_up_r, at_dn_l in Hat. apply (at_set_color _ _ _ 0) in Hat. apply at_up_l in Hat.
    apply (at_set_color _ _ _ 1) in Hat.
    destruct (at_rotate_right _ _ _ _ _ _ _ _ _ _ Hat) as (s' & Hs' & Hat').
    cbn [mbind option_bind rt]. simpl in Hs'. rewrite Hs'. cbn [mbind option_bind].
    apply at_dn_r in Hat'. rewrite (at_node _ _ _ _ _ _ _ Hat'). cbn [left right].
    apply at_dn_r in Hat'. destruct wl as [|c1 wr1 w1 wl1]; [inversion Hwl|]. simpl in Hcl; subst c1.
    cbn [rt mbind option_bind].
    assert (Hk1 : rbc (CR 1 (T 0 wr1 w1 wl1) p (CR 0 wr w k)) (S n)) by (apply rbc_RR; [done|done|done|by apply rbc_RB]).
    destruct (right_rest_ok m0 s' t 1 p wl1 w1 wr1 (CR 0 wr w k) n (S (depth k)) Hat' Ht Hct Hk1 (or_intror eq_refl)) as (s2 & t2 & k2 & xp & Ho & H2 & H3 & H4).
    exists s2, t2, k2, xp. split_and!; [exact Ho|done| |].
    + rewrite H3. simpl. by inord.
    + exact H4.
  - assert (HW0 : exists wl w wr, W = (T 0 wr w wl)).
    { assert (rbt W (S n)) as HrW by (inversion Hk; subst; done).
      inversion HrW; subst; [done|]. eauto. }
    destruct HW0 as (wl & w & wr & ->). cbn [rt mbind option_bind]. apply (right_rest_ok m0 s t cp p wl w wr k n (S (depth k))); auto.
Qed.

(** ** The loop *)

Lemma reprc_root m rp v k : reprc m rp v k -> k <> Top -> exists r, rp = Some r /\ ccnt r k <> 0%nat.
Proof.
  revert v. induction k as [|c x r k IH|c l x k IH]; intros v; simpl; [done|..]; intros (_ & _ & Hk) _.
  all: destruct k; [exists x; simpl in *; split; [done|rewrite eqn_refl; lia]|..].
  all: destruct (IH _ Hk) as (rr & -> & Hr); [done|]; exists rr; split; [done|lia].
Qed.

Lemma root_ne m0 s t k : at_ m0 s t k -> k <> Top -> rt t <> root s.
Proof.
  intros [_ Hk Hu _] Hne. destruct (reprc_root _ _ _ _ Hk Hne) as (r & -> & Hr).
  intros Ht. specialize (Hu r). destruct t; simplify_eq/=. rewrite eqn_refl in Hu. lia.
Qed.

(** A state in which painting [x] black leaves a balanced tree. *)
Definition repaired m0 (whole : list A) (o : option (rbs A * option A)) : Prop :=
  exists s' (x : option A) t N, o = Some (s', x) /\ at_ m0 (on x (fun x => set_color x 0) s') t Top /\
    inorder t = whole /\ rbt t N.

Lemma loop_top fuel m0 s t xp N :
  at_ m0 s t Top -> rbt t N -> (0 < fuel)%nat -> repaired m0 (inorder t) (delete_fix_loop fuel s (rt t) xp).
Proof.
  intros Hat Ht Hf. destruct fuel; [lia|]. assert (Hr : root s = rt t) by apply Hat. simpl.
  rewrite bool_decide_eq_false_2 by (rewrite Hr; tauto). simpl.
  destruct (rbt_blacken _ _ Ht) as [N' HN]. exists s, (rt t), (blacken t), N'.
  split_and!; [done| |apply inorder_blacken|done]. rewrite <- Hr. by apply at_blacken.
Qed.

Lemma loop_red fuel m0 s t k n xp :
  at_ m0 s t k -> dinv t n -> tcol t = 1 -> rbc k (S n) -> (0 < fuel)%nat ->
  repaired m0 (inorder (plug t k)) (delete_fix_loop fuel s (rt t) xp).
Proof.
  intros Hat [[? _]|[_ Ht]] Hc Hk Hf; [congruence|]. destruct fuel; [lia|]. destruct t as [|c l x r]; [done|].
  simpl in Hc; subst c. simpl. rewrite (at_node _ _ _ _ _ _ _ Hat). simpl. rewrite andb_false_r.
  destruct (rbt_plug _ k (S n) Ht Hk) as [N HN]; [by left|].
  exists s, (Some x), (plug (T 0 l x r) k), N. split_and!; [done| |by rewrite !inorder_plug|done].
  rewrite <- at_plug. by apply (at_set_color _ _ 1).
Qed.

(** A black node with a parent: one iteration, on the side the pointers say. *)
Lemma loop_step fuel m0 s t k n :
  at_ m0 s t k -> rbt t n -> tcol t = 0 -> rbc k (S n) -> k <> Top ->
  exists o, del_progress m0 (inorder (plug t k)) (depth k) o /\
    delete_fix_loop (S fuel) s (rt t) (cpar k) = '(s, x, xp) ← o; delete_fix_loop fuel s x xp.
Proof.
  intros Hat Ht Hc Hk Hne. pose proof (root_ne _ _ _ _ Hat Hne) as Hr.
  cbn [delete_fix_loop]. rewrite bool_decide_eq_true_2 by done.
  rewrite (is_black_repr s (cpar k)) by apply Hat. rewrite Hc. simpl.
  destruct k as [|cp p W k|cp W p k]; [done|..]; simpl.
  - rewrite (at_node_l _ _ _ _ _ _ _ Hat). simpl. rewrite decide_True by done.
    eexists. split; [|done]. by apply (fix_left_ok m0 s t cp p W k n).
  - rewrite (at_node_r _ _ _ _ _ _ _ Hat). simpl.
    assert (rbt W (S n)) as HW by (inversion Hk; subst; done).
    rewrite decide_False.
    + eexists. split; [|done]. by apply (fix_right_ok m0 s t cp p W k n).
    + destruct t as [|c l x r]; simpl; [by inversion HW|]. by apply (rt_ne_r _ _ _ _ _ _ _ x Hat).
Qed.

Lemma delete_loop_ok fuel m0 s t k n :
  at_ m0 s t k -> dinv t n -> rbc k (S n) -> (tcol t = 1 /\ (0 < fuel)%nat) \/ (depth k + 1 < fuel)%nat ->
  repaired m0 (inorder (plug t k)) (delete_fix_loop fuel s (rt t) (cpar k)).
Proof.
  revert s t k n. induction fuel as [|fuel IH]; intros s t k n Hat Hd Hk Hf; [lia|].
  pose proof Hd as [[Hc Ht]|[Hc _]]; [|by apply (loop_red _ _ _ _ _ n); auto; lia].
  assert (k = Top \/ k <> Top) as [->|Hne] by (destruct k; auto).
  { by apply (loop_top _ _ _ _ _ n); auto; lia. }
  destruct Hf as [[? _]|Hf]; [congruence|].
  destruct (loop_step fuel m0 s t k n) as (o & (s' & t' & k' & xp & -> & Hat' & <- & Hp) & ->); auto.
  cbn [mbind option_bind]. destruct Hp as [(-> & (n' & Hd' & Hk') & Hm)|(-> & N & HN)].
  - apply (IH _ _ _ n'); auto. destruct Hm; [right; lia|left; lia].
  - by apply (loop_top _ _ _ _ _ N); auto; lia.
Qed.

(** ** [rb_remove_node] and [rb_leftmost] on sequences *)

Lemma at_rebase m0 m1 s t k : (forall w, m0 w = m1 w) -> at_ m0 s t k -> at_ m1 s t k.
Proof. intros He [H1 H2 H3 H4]. split; [done..|]. intros w Hw. rewrite <- He. by apply H4. Qed.

Lemma rb_remove_ok fuel m0 s (q1 q2 : list A) z :
  seq_at m0 s (q1 ++ z :: q2) -> (length (q1 ++ z :: q2) + 1 < fuel)%nat ->
  exists s', rb_remove_node fuel s z = Some s' /\
    seq_at (put z (Node None None None (color (mem s z))) m0) s' (q1 ++ q2).
Proof.
  intros (t & N & Hat & Hrb & _ & Ho) Hf.
  destruct (locate_split t q1 q2 z) as (c & l & r & k & -> & -> & ->).
  { intros w. pose proof (at_uniq _ _ _ _ Hat w). simpl in *. lia. }
  { done. }
  assert (Hlen : (length (inorder r) <= fuel)%nat) by (rewrite !length_app in Hf; simpl in Hf; rewrite !length_app in Hf; lia).
  apply at_plug in Hat.
  destruct (unlink_node_ok m0 s c l z r k N fuel Hat Hrb Hlen) as (s1 & b & K & co & Hu & Hz & Hat1 & Ho1 & Hs).
  unfold rb_remove_node. rewrite Hu. cbn [mbind option_bind].
  set (s2 := set_parent z None _).
  assert (Hzb : (tcnt z b + ccnt z K = 0)%nat).
  { rewrite <- tcnt_plug. apply tcnt_inorder. rewrite Ho1.
    assert (Hnd : NoDup (inorder (plug (T c l z r) k))).
    { apply uniq_nodup. intros w. rewrite tcnt_plug. apply Hat. }
    rewrite Ho in Hnd. apply list.NoDup_app in Hnd as (_ & Hn1 & Hn2). apply list.NoDup_cons in Hn2. set_solver. }
  assert (Hat2 : at_ (put z (Node None None None (color (mem s z))) m0) s2 b K).
  { eapply at_rebase; [|apply (at_outside _ s1 s2 b K z Hat1 Hzb); [done|]].
    - intros w. unfold put. case_decide; [|done]. subst w. unfold s2. simpl. by rewrite !put_eq, <- Hz.
    - intros w Hw. unfold s2. simpl. by rewrite !put_ne. }
  clearbody s2. rewrite <- !app_assoc, <- Ho1. destruct Hs as (n & Hb & [[-> HK]|(-> & HK & Hcb)]); simpl.
  - unfold rb_delete_fixup.
    destruct (delete_loop_ok fuel _ s2 b K n Hat2) as (s3 & x & t3 & N3 & Hl3 & Hat3 & Ho3 & Hrb3); auto.
    { destruct (rbt_col _ _ Hb) as [Hc|Hc]; [by left|]. right. split; [done|].
      inversion Hb; subst; try done. by constructor. }
    { right. pose proof (depth_len K) as Hd. apply (f_equal length) in Ho1.
      rewrite inorder_plug, !length_app in Ho1. rewrite !length_app in Hd, Hf. simpl in Hf. rewrite !length_app in Hf. lia. }
    rewrite Hl3. cbn [mbind option_bind]. eexists. split; [reflexivity|].
    destruct (rbt_blacken _ _ Hrb3) as [N' HN']. exists (blacken t3), N'.
    split_and!; [by apply at_blacken|done|apply tcol_blacken|by rewrite inorder_blacken].
  - eexists. split; [reflexivity|]. destruct (rbt_plug _ _ _ Hb HK) as [N2 HN2]; [by left|].
    destruct (rbt_blacken _ _ HN2) as [N' HN']. exists (blacken (plug b K)), N'.
    split_and!; [apply at_blacken; by rewrite <- at_plug|done|apply tcol_blacken|by rewrite inorder_blacken].
Qed.

Lemma rb_leftmost_ok fuel m0 s (q : list A) :
  seq_at m0 s q -> (length q <= fuel)%nat -> rb_leftmost fuel s = Some (head q).
Proof.
  intros (t & N & Hat & _ & _ & <-) Hf. unfold rb_leftmost.
  assert (root s = rt t) as -> by apply Hat. destruct (rt t) as [x|] eqn:Hx; [|by destruct t].
  destruct (leftmost_ok fuel m0 s t x Top Hat Hx Hf) as (c & y & b & k & -> & -> & Hb).
  by rewrite inorder_plug, Hb.
Qed.

Lemma seq_at_nil m0 s (q : list A) : seq_at m0 s q -> (root s = None <-> q = []).
Proof.
  intros (t & N & Hat & _ & _ & <-). assert (root s = rt t) as -> by apply Hat.
  rewrite inorder_nil. by destruct t.
Qed.

Lemma seq_at_nodup m0 s (q : list A) : seq_at m0 s q -> NoDup q.
Proof.
  intros (t & N & Hat & _ & _ & <-). apply uniq_nodup. intros w.
  pose proof (at_uniq _ _ _ _ Hat w). simpl in *. lia.
Qed.

Lemma seq_at_outside m0 s (q : list A) w : seq_at m0 s q -> w ∉ q -> mem s w = m0 w.
Proof.
  intros (t & N & Hat & _ & _ & <-) Hw. apply tcnt_inorder in Hw.
  apply (at_frame _ _ _ _ Hat). simpl. lia.
Qed.

End Fixup.
End RbFixup.
