(* ===== verification/Sched.v ===== *)
(** * The scheduler (src/kernel/sched/sched.c): state and operations

    Per-CPU run queues of three red-black trees, the process table, spawning,
    exit and reaping.  Process control blocks are static objects named by
    [pcb_ref]; their [rq_node] fields live in [rqnodes], the memory the tree
    operations of [RbTree] work on.  Operations return [Ok], [Hang] for a spin
    lock that no other CPU will ever release (the scheduler runs on one CPU:
    [this_cpu_id] is 0), or [Fault] for a dereference of [NULL]. *)

From S2P Require Import Prelude RbTree.
From Stdlib Require Import ZArith Lia Bool.
From stdpp Require Import base list gmap numbers.
Import RbTree.
Open Scope Z_scope.

Module Sched.

Definition MAX_PROCS : Z := 4096.
Definition MAX_CPUS : Z := 64.
Definition SCHED_STEAL_THRESHOLD : Z := 2.
Definition SCHED_QUANTUM_INTR_NS : Z := 4000000.
Definition SCHED_QUANTUM_BATCH_NS : Z := 50000000.
Definition SCHED_BOOST : Z := 20.
Definition SCHED_NAME_LEN : nat := 32.
Definition SCHED_KSTACK_SIZE : Z := 65536.
Definition SCHED_BOOTSTRAP_KSTACK_SIZE : Z := 2097152.
Definition SCHED_STATE_MAGIC : Z := 1397245261.
Definition UINT64_MAX : Z := 2 ^ 64 - 1.
Definition SIGCHLD : Z := 17.

Definition SCHED_RT : Z := 0.
Definition SCHED_INTR : Z := 1.
Definition SCHED_BATCH : Z := 2.

Definition PROC_NEW : Z := 0.
Definition PROC_READY : Z := 1.
Definition PROC_RUN : Z := 2.
Definition PROC_WAIT : Z := 3.
Definition PROC_DEAD : Z := 4.

(** [g_proc_table[i]], [g_idle_pcb[i]] and [g_bootstrap_pcb]. *)
Inductive pcb_ref := Proc (i : Z) | Idle (i : Z) | Boot.
#[export] Instance pcb_ref_eq_dec : EqDecision pcb_ref.
Proof. solve_decision. Defined.

(** The fields of [cpu_context_t] that the C code itself uses. *)
Record cpu_context_t := mkRegs {
  rsp : Z;
  rip : Z;
  rflags : Z;
  cr3 : Z;
  cs : Z;
  ss : Z }.

Record pcb_t := mkPcb {
  pid : Z;
  state : Z (* PROC_* *);
  sched_class : Z;
  cpu : Z (* uint8_t *);
  priority : Z (* int16_t *);
  base_pri : Z (* int16_t *);
  cpu_ns : Z;
  wake_ns : Z;
  deadline_ns : Z;
  va_map : Z (* 0: NULL *);
  exit_code : Z;
  name : list Z (* the string *);
  uid : Z;
  gid : Z;
  groups : Z;
  ppid : Z;
  sig_pending : Z;
  cwd : list Z (* the string *);
  mmap_bump : Z;
  brk_cur : Z;
  kstack : Z (* 0: NULL *);
  kstack_top : Z;
  regs : cpu_context_t }.

Record runq_t := mkRq {
  lock : Z;
  cpu_id : Z;
  rt_tree : option pcb_ref;
  intr_tree : option pcb_ref;
  batch_tree : option pcb_ref;
  rt_count : Z;
  intr_count : Z;
  batch_count : Z;
  current : option pcb_ref;
  idle_pcb : option pcb_ref;
  steal_ns : Z;
  total_ns : Z;
  idle_ns : Z }.

Record cpu_stat := mkStat {
  s_rt : Z;
  s_intr : Z;
  s_batch : Z;
  s_pid : Z;
  s_idle_ns : Z;
  s_busy_ns : Z }.

Record sched_state_t := mkSS {
  magic : Z;
  ss_cpu_count : Z;
  cpus : Z -> cpu_stat;
  total_procs : Z;
  seq : Z }.

(** Operations of other components: the heap, address spaces, descriptor tables. *)
Class SchedEnv (E : Type) := {
  kmalloc : E -> Z -> Z * E;
  kfree : E -> Z -> E;
  amm_vmap_create : E -> Z * E;
  amm_vmap_destroy : E -> Z -> E;
  vfs_fd_inherit : E -> pcb_ref -> pcb_ref -> E;
  vfs_close_all : E -> pcb_ref -> E }.

Record sched (E : Type) := mkSched {
  g_runq : Z -> runq_t;
  g_cpu_count : Z;
  procs : pcb_ref -> pcb_t (* the pcbs without their [rq_node] *);
  rqnodes : nodes pcb_ref (* the [rq_node] of every pcb *);
  g_proc_table_lock : Z;
  g_next_pid : Z;
  g_proc_count : Z;
  g_sched_state : sched_state_t;
  g_current : Z -> option pcb_ref;
  g_reap_waiter : option pcb_ref;
  g_reap_jmp_active : Z;
  cpu_cr3 : Z (* the CR3 register *);
  kernel_rsp : Z (* [g_percpu.kernel_rsp] and [TSS.rsp0] *);
  env : E }.
Arguments g_runq {E}.
Arguments g_cpu_count {E}.
Arguments procs {E}.
Arguments rqnodes {E}.
Arguments g_proc_table_lock {E}.
Arguments g_next_pid {E}.
Arguments g_proc_count {E}.
Arguments g_sched_state {E}.
Arguments g_current {E}.
Arguments g_reap_waiter {E}.
Arguments g_reap_jmp_active {E}.
Arguments cpu_cr3 {E}.
Arguments kernel_rsp {E}.
Arguments env {E}.
Arguments mkSched {E}.

Inductive res (A : Type) := Ok (a : A) | Hang | Fault.
Arguments Ok {A}.
Arguments Hang {A}.
Arguments Fault {A}.
Definition rbind {A B} (x : res A) (f : A -> res B) : res B :=
  match x with Ok a => f a | Hang => Hang | Fault => Fault end.
Notation "'let!' p ':=' e 'in' k" := (rbind e (fun p => k)) (at level 10, p pattern, e at level 200, k at level 200) : asd_scope.
Definition opt {A} (x : option A) : res A := match x with Some a => Ok a | None => Fault end.

(** ** Field updates *)

Definition set_cr3 (r : cpu_context_t) (v : Z) : cpu_context_t :=
  mkRegs (rsp r) (rip r) (rflags r) v (cs r) (ss r).
Definition set_pid (p : pcb_t) (v : Z) : pcb_t :=
  mkPcb v (state p) (sched_class p) (cpu p) (priority p) (base_pri p) (cpu_ns p) (wake_ns p) (deadline_ns p) (va_map p) (exit_code p) (name p) (uid p) (gid p) (groups p) (ppid p) (sig_pending p) (cwd p) (mmap_bump p) (brk_cur p) (kstack p) (kstack_top p) (regs p).
Definition set_state (p : pcb_t) (v : Z) : pcb_t :=
  mkPcb (pid p) v (sched_class p) (cpu p) (priority p) (base_pri p) (cpu_ns p) (wake_ns p) (deadline_ns p) (va_map p) (exit_code p) (name p) (uid p) (gid p) (groups p) (ppid p) (sig_pending p) (cwd p) (mmap_bump p) (brk_cur p) (kstack p) (kstack_top p) (regs p).
Definition set_sched_class (p : pcb_t) (v : Z) : pcb_t :=
  mkPcb (pid p) (state p) v (cpu p) (priority p) (base_pri p) (cpu_ns p) (wake_ns p) (deadline_ns p) (va_map p) (exit_code p) (name p) (uid p) (gid p) (groups p) (ppid p) (sig_pending p) (cwd p) (mmap_bump p) (brk_cur p) (kstack p) (kstack_top p) (regs p).
Definition set_cpu (p : pcb_t) (v : Z) : pcb_t :=
  mkPcb (pid p) (state p) (sched_class p) v (priority p) (base_pri p) (cpu_ns p) (wake_ns p) (deadline_ns p) (va_map p) (exit_code p) (name p) (uid p) (gid p) (groups p) (ppid p) (sig_pending p) (cwd p) (mmap_bump p) (brk_cur p) (kstack p) (kstack_top p) (regs p).
Definition set_priority (p : pcb_t) (v : Z) : pcb_t :=
  mkPcb (pid p) (state p) (sched_class p) (cpu p) v (base_pri p) (cpu_ns p) (wake_ns p) (deadline_ns p) (va_map p) (exit_code p) (name p) (uid p) (gid p) (groups p) (ppid p) (sig_pending p) (cwd p) (mmap_bump p) (brk_cur p) (kstack p) (kstack_top p) (regs p).
Definition set_base_pri (p : pcb_t) (v : Z) : pcb_t :=
  mkPcb (pid p) (state p) (sched_class p) (cpu p) (priority p) v (cpu_ns p) (wake_ns p) (deadline_ns p) (va_map p) (exit_code p) (name p) (uid p) (gid p) (groups p) (ppid p) (sig_pending p) (cwd p) (mmap_bump p) (brk_cur p) (kstack p) (kstack_top p) (regs p).
Definition set_wake_ns (p : pcb_t) (v : Z) : pcb_t :=
  mkPcb (pid p) (state p) (sched_class p) (cpu p) (priority p) (base_pri p) (cpu_ns p) v (deadline_ns p) (va_map p) (exit_code p) (name p) (uid p) (gid p) (groups p) (ppid p) (sig_pending p) (cwd p) (mmap_bump p) (brk_cur p) (kstack p) (kstack_top p) (regs p).
Definition set_deadline_ns (p : pcb_t) (v : Z) : pcb_t :=
  mkPcb (pid p) (state p) (sched_class p) (cpu p) (priority p) (base_pri p) (cpu_ns p) (wake_ns p) v (va_map p) (exit_code p) (name p) (uid p) (gid p) (groups p) (ppid p) (sig_pending p) (cwd p) (mmap_bump p) (brk_cur p) (kstack p) (kstack_top p) (regs p).
Definition set_va_map (p : pcb_t) (v : Z) : pcb_t :=
  mkPcb (pid p) (state p) (sched_class p) (cpu p) (priority p) (base_pri p) (cpu_ns p) (wake_ns p) (deadline_ns p) v (exit_code p) (name p) (uid p) (gid p) (groups p) (ppid p) (sig_pending p) (cwd p) (mmap_bump p) (brk_cur p) (kstack p) (kstack_top p) (regs p).
Definition set_exit_code (p : pcb_t) (v : Z) : pcb_t :=
  mkPcb (pid p) (state p) (sched_class p) (cpu p) (priority p) (base_pri p) (cpu_ns p) (wake_ns p) (deadline_ns p) (va_map p) v (name p) (uid p) (gid p) (groups p) (ppid p) (sig_pending p) (cwd p) (mmap_bump p) (brk_cur p) (kstack p) (kstack_top p) (regs p).
Definition set_sig_pending (p : pcb_t) (v : Z) : pcb_t :=
  mkPcb (pid p) (state p) (sched_class p) (cpu p) (priority p) (base_pri p) (cpu_ns p) (wake_ns p) (deadline_ns p) (va_map p) (exit_code p) (name p) (uid p) (gid p) (groups p) (ppid p) v (cwd p) (mmap_bump p) (brk_cur p) (kstack p) (kstack_top p) (regs p).
Definition set_regs (p : pcb_t) (v : cpu_context_t) : pcb_t :=
  mkPcb (pid p) (state p) (sched_class p) (cpu p) (priority p) (base_pri p) (cpu_ns p) (wake_ns p) (deadline_ns p) (va_map p) (exit_code p) (name p) (uid p) (gid p) (groups p) (ppid p) (sig_pending p) (cwd p) (mmap_bump p) (brk_cur p) (kstack p) (kstack_top p) v.
Definition set_kstack (p : pcb_t) (ks top : Z) : pcb_t :=
  mkPcb (pid p) (state p) (sched_class p) (cpu p) (priority p) (base_pri p) (cpu_ns p) (wake_ns p) (deadline_ns p) (va_map p) (exit_code p) (name p) (uid p) (gid p) (groups p) (ppid p) (sig_pending p) (cwd p) (mmap_bump p) (brk_cur p) ks top (regs p).
(** The parent's process id, working directory. *)
Definition set_parent_info (p : pcb_t) (pp : Z) (d : list Z) : pcb_t :=
  mkPcb (pid p) (state p) (sched_class p) (cpu p) (priority p) (base_pri p) (cpu_ns p) (wake_ns p) (deadline_ns p) (va_map p) (exit_code p) (name p) (uid p) (gid p) (groups p) pp (sig_pending p) d (mmap_bump p) (brk_cur p) (kstack p) (kstack_top p) (regs p).
Definition set_lock (q : runq_t) (v : Z) : runq_t :=
  mkRq v (cpu_id q) (rt_tree q) (intr_tree q) (batch_tree q) (rt_count q) (intr_count q) (batch_count q) (current q) (idle_pcb q) (steal_ns q) (total_ns q) (idle_ns q).
Definition set_current (q : runq_t) (v : option pcb_ref) : runq_t :=
  mkRq (lock q) (cpu_id q) (rt_tree q) (intr_tree q) (batch_tree q) (rt_count q) (intr_count q) (batch_count q) v (idle_pcb q) (steal_ns q) (total_ns q) (idle_ns q).

Section Setters.
Context {E : Type}.
Definition put_g_runq (s : sched E) (v : Z -> runq_t) : sched E :=
  mkSched v (g_cpu_count s) (procs s) (rqnodes s) (g_proc_table_lock s) (g_next_pid s) (g_proc_count s) (g_sched_state s) (g_current s) (g_reap_waiter s) (g_reap_jmp_active s) (cpu_cr3 s) (kernel_rsp s) (env s).
Definition put_g_cpu_count (s : sched E) (v : Z) : sched E :=
  mkSched (g_runq s) v (procs s) (rqnodes s) (g_proc_table_lock s) (g_next_pid s) (g_proc_count s) (g_sched_state s) (g_current s) (g_reap_waiter s) (g_reap_jmp_active s) (cpu_cr3 s) (kernel_rsp s) (env s).
Definition put_procs (s : sched E) (v : pcb_ref -> pcb_t) : sched E :=
  mkSched (g_runq s) (g_cpu_count s) v (rqnodes s) (g_proc_table_lock s) (g_next_pid s) (g_proc_count s) (g_sched_state s) (g_current s) (g_reap_waiter s) (g_reap_jmp_active s) (cpu_cr3 s) (kernel_rsp s) (env s).
Definition put_rqnodes (s : sched E) (v : nodes pcb_ref) : sched E :=
  mkSched (g_runq s) (g_cpu_count s) (procs s) v (g_proc_table_lock s) (g_next_pid s) (g_proc_count s) (g_sched_state s) (g_current s) (g_reap_waiter s) (g_reap_jmp_active s) (cpu_cr3 s) (kernel_rsp s) (env s).
Definition put_g_proc_table_lock (s : sched E) (v : Z) : sched E :=
  mkSched (g_runq s) (g_cpu_count s) (procs s) (rqnodes s) v (g_next_pid s) (g_proc_count s) (g_sched_state s) (g_current s) (g_reap_waiter s) (g_reap_jmp_active s) (cpu_cr3 s) (kernel_rsp s) (env s).
Definition put_g_next_pid (s : sched E) (v : Z) : sched E :=
  mkSched (g_runq s) (g_cpu_count s) (procs s) (rqnodes s) (g_proc_table_lock s) v (g_proc_count s) (g_sched_state s) (g_current s) (g_reap_waiter s) (g_reap_jmp_active s) (cpu_cr3 s) (kernel_rsp s) (env s).
Definition put_g_proc_count (s : sched E) (v : Z) : sched E :=
  mkSched (g_runq s) (g_cpu_count s) (procs s) (rqnodes s) (g_proc_table_lock s) (g_next_pid s) v (g_sched_state s) (g_current s) (g_reap_waiter s) (g_reap_jmp_active s) (cpu_cr3 s) (kernel_rsp s) (env s).
Definition put_g_sched_state (s : sched E) (v : sched_state_t) : sched E :=
  mkSched (g_runq s) (g_cpu_count s) (procs s) (rqnodes s) (g_proc_table_lock s) (g_next_pid s) (g_proc_count s) v (g_current s) (g_reap_waiter s) (g_reap_jmp_active s) (cpu_cr3 s) (kernel_rsp s) (env s).
Definition put_g_current (s : sched E) (v : Z -> option pcb_ref) : sched E :=
  mkSched (g_runq s) (g_cpu_count s) (procs s) (rqnodes s) (g_proc_table_lock s) (g_next_pid s) (g_proc_count s) (g_sched_state s) v (g_reap_waiter s) (g_reap_jmp_active s) (cpu_cr3 s) (kernel_rsp s) (env s).
Definition put_g_reap_waiter (s : sched E) (v : option pcb_ref) : sched E :=
  mkSched (g_runq s) (g_cpu_count s) (procs s) (rqnodes s) (g_proc_table_lock s) (g_next_pid s) (g_proc_count s) (g_sched_state s) (g_current s) v (g_reap_jmp_active s) (cpu_cr3 s) (kernel_rsp s) (env s).
Definition put_g_reap_jmp_active (s : sched E) (v : Z) : sched E :=
  mkSched (g_runq s) (g_cpu_count s) (procs s) (rqnodes s) (g_proc_table_lock s) (g_next_pid s) (g_proc_count s) (g_sched_state s) (g_current s) (g_reap_waiter s) v (cpu_cr3 s) (kernel_rsp s) (env s).
Definition put_cpu_cr3 (s : sched E) (v : Z) : sched E :=
  mkSched (g_runq s) (g_cpu_count s) (procs s) (rqnodes s) (g_proc_table_lock s) (g_next_pid s) (g_proc_count s) (g_sched_state s) (g_current s) (g_reap_waiter s) (g_reap_jmp_active s) v (kernel_rsp s) (env s).
Definition put_kernel_rsp (s : sched E) (v : Z) : sched E :=
  mkSched (g_runq s) (g_cpu_count s) (procs s) (rqnodes s) (g_proc_table_lock s) (g_next_pid s) (g_proc_count s) (g_sched_state s) (g_current s) (g_reap_waiter s) (g_reap_jmp_active s) (cpu_cr3 s) v (env s).
Definition put_env (s : sched E) (v : E) : sched E :=
  mkSched (g_runq s) (g_cpu_count s) (procs s) (rqnodes s) (g_proc_table_lock s) (g_next_pid s) (g_proc_count s) (g_sched_state s) (g_current s) (g_reap_waiter s) (g_reap_jmp_active s) (cpu_cr3 s) (kernel_rsp s) v.
End Setters.

(** ** Integer types *)

Definition i16 (x : Z) : Z := (x + 32768) mod 65536 - 32768.

Definition upd {B} (f : Z -> B) (i : Z) (v : B) : Z -> B := fun j => if j =? i then v else f j.

(** ** Run queues *)

(** The three trees of a run queue, and the [switch] on the scheduling class. *)
Inductive qsel := QRT | QINTR | QBATCH.
#[export] Instance qsel_eq_dec : EqDecision qsel.
Proof. solve_decision. Defined.

Definition qsel_of (c : Z) : qsel :=
  if c =? SCHED_RT then QRT else if c =? SCHED_INTR then QINTR else QBATCH.

Definition tree_of (q : runq_t) (c : qsel) : option pcb_ref :=
  match c with QRT => rt_tree q | QINTR => intr_tree q | QBATCH => batch_tree q end.
Definition count_of (q : runq_t) (c : qsel) : Z :=
  match c with QRT => rt_count q | QINTR => intr_count q | QBATCH => batch_count q end.
Definition set_queue (q : runq_t) (c : qsel) (r : option pcb_ref) (n : Z) : runq_t :=
  match c with
  | QRT => mkRq (lock q) (cpu_id q) r (intr_tree q) (batch_tree q) n (intr_count q) (batch_count q)
             (current q) (idle_pcb q) (steal_ns q) (total_ns q) (idle_ns q)
  | QINTR => mkRq (lock q) (cpu_id q) (rt_tree q) r (batch_tree q) (rt_count q) n (batch_count q)
             (current q) (idle_pcb q) (steal_ns q) (total_ns q) (idle_ns q)
  | QBATCH => mkRq (lock q) (cpu_id q) (rt_tree q) (intr_tree q) r (rt_count q) (intr_count q) n
             (current q) (idle_pcb q) (steal_ns q) (total_ns q) (idle_ns q)
  end.

(** Every tree holds at most one node per pcb, so no loop over a tree runs longer. *)
Definition rb_fuel : nat := Z.to_nat (MAX_PROCS + MAX_CPUS + 4).

(** [rdtsc() * 1000000000ULL / g_tsc_hz], [g_tsc_hz] being [1000000000ULL]. *)
Definition asd_time_ns (tsc : Z) : Z := u64 (tsc * 1000000000) / 1000000000.

(** What the noreturn functions end with: [sched_context_restore] of a process,
    or [sched_jmp_restore] into [sched_reap]. *)
Inductive outcome (E : Type) :=
  | Returned (s : sched E)
  | Resumes (p : pcb_ref) (s : sched E)
  | ReapReturn (s : sched E).
Arguments Returned {E}.
Arguments Resumes {E}.
Arguments ReapReturn {E}.

Record spawn_args_t := mkArgs {
  a_binary : list Z;
  a_class : Z;
  a_priority : Z;
  a_cpu_affinity : Z;
  a_va_map : Z }.

Record exit_info_t := mkInfo { i_exit_code : Z; i_cpu_ns : Z; i_wall_ns : Z }.

Definition zero_regs : cpu_context_t := mkRegs 0 0 0 0 0 0.
Definition zero_pcb : pcb_t := mkPcb 0 0 0 0 0 0 0 0 0 0 0 [] 0 0 0 0 0 [] 0 0 0 0 zero_regs.
Definition zero_node : rb_node pcb_ref := Node None None None 0.

Section Ops.
Context {E : Type} `{SchedEnv E}.
(** [amm_get_kernel_cr3()], and the addresses of [g_bootstrap_kstack] and [idle_fn]. *)
Variables (kernel_cr3 g_bootstrap_kstack idle_fn : Z).
Implicit Types (s : sched E) (p : pcb_ref) (i : Z).

Definition put_rq s i (q : runq_t) : sched E := put_g_runq s (upd (g_runq s) i q).
Definition put_pcb s p (v : pcb_t) : sched E :=
  put_procs s (fun r => if decide (r = p) then v else procs s r).
Definition prio s (p : pcb_ref) : Z := priority (procs s p).

Definition spin_lock_rq s i : res (sched E) :=
  if lock (g_runq s i) =? 0 then Ok (put_rq s i (set_lock (g_runq s i) 1)) else Hang.
Definition spin_unlock_rq s i : sched E := put_rq s i (set_lock (g_runq s i) 0).
Definition spin_lock_table s : res (sched E) :=
  if g_proc_table_lock s =? 0 then Ok (put_g_proc_table_lock s 1) else Hang.
Definition spin_unlock_table s : sched E := put_g_proc_table_lock s 0.

(** A tree of a run queue as [RbTree] sees it, and the way back. *)
Definition tree_state s i (c : qsel) : rbs pcb_ref := Rbs (tree_of (g_runq s i) c) (rqnodes s).
Definition put_tree s i (c : qsel) (t : rbs pcb_ref) (n : Z) : sched E :=
  put_rqnodes (put_rq s i (set_queue (g_runq s i) c (root t) n)) (mem t).

(** [rb_insert(&rq->tree, &pcb->rq_node, key); rq->count++] *)
Definition rq_insert s i (c : qsel) p (key : Z) : res (sched E) :=
  let! t := opt (rb_insert rb_fuel (prio s) (tree_state s i c) p key) in
  Ok (put_tree s i c t (u32 (count_of (g_runq s i) c + 1))).

(** [rb_remove_node(&rq->tree, n); rq->count--] *)
Definition rq_remove s i (c : qsel) p : res (sched E) :=
  let! t := opt (rb_remove_node rb_fuel (tree_state s i c) p) in
  Ok (put_tree s i c t (u32 (count_of (g_runq s i) c - 1))).

Definition this_cpu_id : Z := 0.

Definition sched_current s : option pcb_ref := g_current s this_cpu_id.

Definition sched_runq s (cpu_id : Z) : option Z := if cpu_id <? g_cpu_count s then Some cpu_id else None.

Definition sched_find s (pid' : Z) : option pcb_ref :=
  if (pid' =? 0) || (MAX_PROCS <=? pid') then None
  else
    let p := Proc (pid' mod MAX_PROCS) in
    if (pid (procs s p) =? pid') && negb (state (procs s p) =? PROC_DEAD) then Some p else None.

Definition sched_kstack_alloc s p : Z * sched E :=
  if negb (kstack (procs s p) =? 0) && negb (kstack_top (procs s p) =? 0) then (0, s)
  else
    let '(ks, e) := kmalloc (env s) SCHED_KSTACK_SIZE in
    let s := put_env s e in
    if ks =? 0 then (-1, s)
    else (0, put_pcb s p (set_kstack (procs s p) ks (u64 (ks + SCHED_KSTACK_SIZE)))).

(** src/kernel/arch/syscall.c; the MSR it rewrites is not part of the model. *)
Definition syscall_on_thread_switch s (v : option pcb_ref) : sched E :=
  match v with
  | None => s
  | Some p => if kstack_top (procs s p) =? 0 then s else put_kernel_rsp s (kstack_top (procs s p))
  end.

Definition sched_load_cr3 s (c : Z) : sched E :=
  let c := if c =? 0 then kernel_cr3 else c in
  if c =? cpu_cr3 s then s else put_cpu_cr3 s c.

(** ** Choice of a CPU, enqueueing and dequeueing *)

Definition rq_load (q : runq_t) : Z := u32 (rt_count q + intr_count q + batch_count q).

(** [n] rounds of the search for the least loaded CPU, from CPU [i]. *)
Fixpoint least_loaded s (n : nat) i (min_load best : Z) : Z :=
  match n with
  | O => best
  | S n =>
      let load := rq_load (g_runq s i) in
      if load <? min_load then least_loaded s n (i + 1) load i
      else least_loaded s n (i + 1) min_load best
  end.

Definition pick_cpu s p : Z :=
  let c := cpu (procs s p) in
  if g_cpu_count s <=? c then least_loaded s (Z.to_nat (g_cpu_count s)) 0 4294967295 0 else c.

Definition sched_enqueue s p : res (sched E) :=
  let c := pick_cpu s p in
  let s := put_pcb s p (set_cpu (procs s p) (u8 c)) in
  let s := put_pcb s p (set_state (procs s p) PROC_READY) in
  let! s := spin_lock_rq s c in
  let! s := rq_insert s c (qsel_of (sched_class (procs s p))) p (priority (procs s p)) in
  Ok (spin_unlock_rq s c).

Definition sched_takeoff_runq_locked s i (v : option pcb_ref) : res (sched E) :=
  match v with
  | None => Ok s
  | Some p =>
      if negb (state (procs s p) =? PROC_READY) then Ok s
      else
        let c := qsel_of (sched_class (procs s p)) in
        if (count_of (g_runq s i) c =? 0) || bool_decide (tree_of (g_runq s i) c = None) then Ok s
        else if bool_decide (parent (rqnodes s p) <> None) || bool_decide (tree_of (g_runq s i) c = Some p) then
          let! s := rq_remove s i c p in
          let n := rqnodes s p in
          Ok (put_rqnodes s (put p (Node None None None (color n)) (rqnodes s)))
        else Ok s
  end.

(** [n = rb_leftmost(tree); if (n) { rb_remove_node(tree, n); count--; }] *)
Definition take_first s i (c : qsel) : res (option pcb_ref * sched E) :=
  let! n := opt (rb_leftmost rb_fuel (tree_state s i c)) in
  match n with
  | None => Ok (None, s)
  | Some p => let! s := rq_remove s i c p in Ok (Some p, s)
  end.

Definition sched_dequeue s i : res (option pcb_ref * sched E) :=
  let! (n, s) :=
    (if 0 <? rt_count (g_runq s i) then take_first s i QRT
     else if 0 <? intr_count (g_runq s i) then take_first s i QINTR
     else if 0 <? batch_count (g_runq s i) then take_first s i QBATCH
     else Ok (None, s)) in
  match n with
  | None => Ok (idle_pcb (g_runq s i), s)
  | Some p => Ok (Some p, s)
  end.

(** ** The shared state page *)

Definition pid_of s (v : option pcb_ref) : Z := match v with Some p => pid (procs s p) | None => 0 end.

Definition cpu_stat_of s i : cpu_stat :=
  let q := g_runq s i in
  mkStat (rt_count q) (intr_count q) (batch_count q) (pid_of s (g_current s i)) (idle_ns q) (total_ns q).

Definition sched_state_update s : sched E :=
  let g := g_sched_state s in
  let seq1 := u32 (seq g + 1) in
  let cpus' := fun i => if (0 <=? i) && (i <? g_cpu_count s) then cpu_stat_of s i else cpus g i in
  put_g_sched_state s (mkSS (magic g) (ss_cpu_count g) cpus' (g_proc_count s) (u32 (seq1 + 1))).

(** ** Switching *)

(** [regs_now]: the register contents [sched_context_save] stores, except CR3,
    which it reads from the register. *)
Definition sched_switch_to s (tsc : Z) (regs_now : cpu_context_t) (v : option pcb_ref) : res (outcome E) :=
  match v with
  | None => Ok (Returned s)
  | Some next =>
      if rip (regs (procs s next)) =? 0 then Ok (Returned s)
      else if decide (g_current s this_cpu_id = Some next) then Ok (Returned s)
      else
        let quantum :=
          match qsel_of (sched_class (procs s next)) with
          | QRT => 0 | QINTR => SCHED_QUANTUM_INTR_NS | QBATCH => SCHED_QUANTUM_BATCH_NS
          end in
        let s := if 0 <? quantum
                 then put_pcb s next (set_deadline_ns (procs s next) (u64 (asd_time_ns tsc + quantum)))
                 else s in
        let! cur := opt (g_current s this_cpu_id) in
        let s := if bool_decide (Some cur <> g_reap_waiter s) && (state (procs s cur) =? PROC_RUN)
                 then put_pcb s cur (set_state (procs s cur) PROC_READY) else s in
        let s := put_pcb s next (set_state (procs s next) PROC_RUN) in
        let s := put_g_current s (upd (g_current s) this_cpu_id (Some next)) in
        let s := put_rq s this_cpu_id (set_current (g_runq s this_cpu_id) (Some next)) in
        let s := sched_state_update s in
        let s := syscall_on_thread_switch s (Some next) in
        let s := sched_load_cr3 s (cr3 (regs (procs s next))) in
        let s := put_pcb s cur (set_regs (procs s cur) (set_cr3 regs_now (cpu_cr3 s))) in
        Ok (Resumes next s)
  end.

Definition decay s p : sched E :=
  let v := procs s p in
  if sched_class v =? SCHED_INTR then
    let delta := i16 (base_pri v - priority v) in
    put_pcb s p (set_priority v (i16 (priority v + Z.quot delta 10)))
  else s.

Definition sched_tick s (tsc : Z) (regs_now : cpu_context_t) (now_ns : Z) : res (outcome E) :=
  if g_cpu_count s <=? this_cpu_id then Ok (Returned s)
  else
    match g_current s this_cpu_id, idle_pcb (g_runq s this_cpu_id) with
    | Some cur, Some idle =>
        if decide (g_reap_waiter s <> None) then Ok (Returned s)
        else if decide (cur = Boot) then Ok (Returned s)
        else
          let s := decay s cur in
          if bool_decide (cur <> idle) && (deadline_ns (procs s cur) <=? now_ns) && (state (procs s cur) =? PROC_RUN) then
            let! s := spin_lock_rq s this_cpu_id in
            let! s := sched_enqueue s cur in
            let! (next, s) := sched_dequeue s this_cpu_id in
            let s := spin_unlock_rq s this_cpu_id in
            sched_switch_to s tsc regs_now next
          else Ok (Returned s)
    | _, _ => Ok (Returned s)
    end.

Definition sched_yield s (tsc : Z) (regs_now : cpu_context_t) : res (outcome E) :=
  let cur := g_current s this_cpu_id in
  let! s := spin_lock_rq s this_cpu_id in
  let! s := (if bool_decide (cur <> idle_pcb (g_runq s this_cpu_id)) && bool_decide (cur <> g_reap_waiter s)
        then let! c := opt cur in sched_enqueue s c else Ok s) in
  let! (next, s) := sched_dequeue s this_cpu_id in
  let s := spin_unlock_rq s this_cpu_id in
  sched_switch_to s tsc regs_now next.

Definition sched_wake s (tsc : Z) p : res (sched E) :=
  if negb (state (procs s p) =? PROC_WAIT) then Ok s
  else
    let s := put_pcb s p (set_wake_ns (procs s p) (asd_time_ns tsc)) in
    let s := if sched_class (procs s p) =? SCHED_INTR then
               let s := put_pcb s p (set_priority (procs s p) (i16 (base_pri (procs s p) - SCHED_BOOST))) in
               if priority (procs s p) <? 0 then put_pcb s p (set_priority (procs s p) 0) else s
             else s in
    sched_enqueue s p.

(** ** Initialisation *)

Definition init_cpu s i : sched E :=
  let idle := Idle i in
  let q := mkRq 0 (u8 i) None None None 0 0 0 (current (g_runq s i)) (idle_pcb (g_runq s i)) 0 0 0 in
  let s := put_rq s i q in
  let s := put_rqnodes s (put idle zero_node (rqnodes s)) in
  let v := mkPcb 0 PROC_RUN SCHED_BATCH (u8 i) 127 127 0 0 UINT64_MAX 0 0 [105; 100; 108; 101]
             0 0 0 0 0 [] 0 0 0 0 (mkRegs 0 idle_fn 514 kernel_cr3 8 16) in
  let s := put_pcb s idle v in
  let '(r, s) := sched_kstack_alloc s idle in
  let s := if r =? 0 then s
           else put_pcb s idle (set_kstack (procs s idle) g_bootstrap_kstack
                                  (u64 (g_bootstrap_kstack + SCHED_BOOTSTRAP_KSTACK_SIZE))) in
  let q := g_runq s i in
  let s := put_rq s i (mkRq (lock q) (cpu_id q) (rt_tree q) (intr_tree q) (batch_tree q) (rt_count q)
             (intr_count q) (batch_count q) (Some idle) (Some idle) (steal_ns q) (total_ns q) (idle_ns q)) in
  put_g_current s (upd (g_current s) i (Some idle)).

Fixpoint init_cpus s (n : nat) i : sched E :=
  match n with O => s | S n => init_cpus (init_cpu s i) n (i + 1) end.

Definition sched_init s (cpu_count : Z) : sched E :=
  let s := put_g_cpu_count s (if MAX_CPUS <? cpu_count then MAX_CPUS else cpu_count) in
  let s := put_g_proc_count (put_g_next_pid s 1) 0 in
  let s := init_cpus s (Z.to_nat (g_cpu_count s)) 0 in
  let g := g_sched_state s in
  put_g_sched_state s (mkSS SCHED_STATE_MAGIC (g_cpu_count s) (cpus g) (total_procs g) (seq g)).

Definition sched_bootstrap_init_thread s : sched E :=
  let s := put_rqnodes s (put Boot zero_node (rqnodes s)) in
  let s := put_pcb s Boot
             (mkPcb 1 PROC_RUN SCHED_BATCH 0 0 0 0 0 UINT64_MAX 0 0 [97; 115; 100; 105; 110; 105; 116]
                0 0 0 0 0 [] 0 0 g_bootstrap_kstack (u64 (g_bootstrap_kstack + SCHED_BOOTSTRAP_KSTACK_SIZE))
                (mkRegs 0 0 514 kernel_cr3 8 16)) in
  let s := put_g_current s (upd (g_current s) 0 (Some Boot)) in
  let s := put_rq s 0 (set_current (g_runq s 0) (Some Boot)) in
  syscall_on_thread_switch s (Some Boot).

Definition sched_cpu_init s (cpu_id : Z) : sched E :=
  put_g_current s (upd (g_current s) cpu_id (Some (Idle cpu_id))).

(** ** Creating a process *)

(** The last component of a path, at most [SCHED_NAME_LEN - 1] characters. *)
Fixpoint basename (p n : list Z) : list Z :=
  match p with
  | [] => n
  | c :: p => basename p (if c =? 47 then p else n)
  end.

(** [while (slot busy) { pid++; if (pid == g_next_pid) return 0; }] *)
Definition slot_busy s (pid' : Z) : bool :=
  let v := procs s (Proc (pid' mod MAX_PROCS)) in
  negb (state v =? PROC_DEAD) && negb (pid v =? 0).
Fixpoint find_slot (fuel : nat) s (pid' : Z) : option Z :=
  match fuel with
  | O => None
  | S fuel =>
      if slot_busy s pid' then
        let pid' := u32 (pid' + 1) in
        if pid' =? g_next_pid s then None else find_slot fuel s pid'
      else Some pid'
  end.

(** Working directory, parent and descriptors of the new process. *)
Definition inherit s p : sched E :=
  match sched_current s with
  | Some par =>
      let d := match cwd (procs s par) with
               | 47 :: _ => take 255 (cwd (procs s par))
               | _ => [47]
               end in
      let s := put_pcb s p (set_parent_info (procs s p) (pid (procs s par)) d) in
      put_env s (vfs_fd_inherit (env s) p par)
  | None => put_pcb s p (set_parent_info (procs s p) 1 [47])
  end.

Definition new_pcb s (a : spawn_args_t) (pid' : Z) : pcb_t :=
  mkPcb pid' PROC_NEW (a_class a)
    (if a_cpu_affinity a =? 255 then u8 (g_cpu_count s) else a_cpu_affinity a)
    (i16 (a_priority a)) (i16 (a_priority a)) 0 0 0 0 0
    (take (SCHED_NAME_LEN - 1) (basename (a_binary a) (a_binary a)))
    0 0 0 0 0 [] 0 0 0 0 zero_regs.

(** One full turn over the table decides the search ([find_slot_enough]). *)
Definition slot_fuel : nat := Z.to_nat MAX_PROCS.

Definition sched_spawn s (a : spawn_args_t) : res (Z * sched E) :=
  let! s := spin_lock_table s in
  if MAX_PROCS <=? g_proc_count s then Ok (0, spin_unlock_table s)
  else
    match find_slot slot_fuel s (g_next_pid s) with
    | None => Ok (0, spin_unlock_table s)
    | Some pid' =>
        let n := u32 (pid' + 1) mod MAX_PROCS in
        let s := put_g_next_pid s (if n =? 0 then 1 else n) in
        let p := Proc (pid' mod MAX_PROCS) in
        let s := put_rqnodes s (put p zero_node (rqnodes s)) in
        let s := put_pcb s p (new_pcb s a pid') in
        let s := inherit s p in
        let '(r, s) := sched_kstack_alloc s p in
        if negb (r =? 0) then Ok (0, spin_unlock_table s)
        else
          let s := put_g_proc_count s (u32 (g_proc_count s + 1)) in
          let s := spin_unlock_table s in
          let '(m, s) := if a_va_map a =? 0
                         then let '(m, e) := amm_vmap_create (env s) in (m, put_env s e)
                         else (a_va_map a, s) in
          let s := put_pcb s p (set_va_map (procs s p) m) in
          let r := regs (procs s p) in
          let s := put_pcb s p (set_regs (procs s p) (mkRegs (rsp r) (rip r) 514 (cr3 r) 8 16)) in
          let s := put_pcb s p (set_state (procs s p) PROC_NEW) in
          let s := put_pcb s p (set_deadline_ns (procs s p) UINT64_MAX) in
          Ok (pid', s)
    end.

(** ** Exit and reaping *)

Definition notify_parent s cur : sched E :=
  if 0 <? ppid (procs s cur) then
    match sched_find s (ppid (procs s cur)) with
    | Some par =>
        if negb (state (procs s par) =? PROC_DEAD)
        then put_pcb s par (set_sig_pending (procs s par) (Z.lor (sig_pending (procs s par)) (Z.shiftl 1 SIGCHLD)))
        else s
    | None => s
    end
  else s.

Definition mark_dead s cur (code : Z) : sched E :=
  let s := put_pcb s cur (set_exit_code (procs s cur) code) in
  let s := put_pcb s cur (set_state (procs s cur) PROC_DEAD) in
  let s := put_pcb s cur (set_va_map (procs s cur) 0) in
  put_env s (vfs_close_all (env s) cur).

Definition dec_proc_count s : res (sched E) :=
  let! s := spin_lock_table s in
  Ok (spin_unlock_table (put_g_proc_count s (u32 (g_proc_count s - 1)))).

Definition destroy_map s (m : Z) : sched E :=
  if m =? 0 then s else put_env s (amm_vmap_destroy (env s) m).

Definition free_kstack s p : sched E :=
  let v := procs s p in
  if negb (kstack v =? 0) && negb (kstack v =? g_bootstrap_kstack) && negb (pid v =? 0) then
    put_pcb (put_env s (kfree (env s) (kstack v))) p (set_kstack v 0 0)
  else s.

(** [cur] has been killed; the parent waits in [sched_reap]. *)
Definition exit_to_reaper s cur (w : pcb_ref) (dead_map : Z) : res (outcome E) :=
  let! s := dec_proc_count s in
  let s := sched_load_cr3 s (cr3 (regs (procs s w))) in
  let s := destroy_map s dead_map in
  let s := free_kstack s cur in
  let s := put_g_current s (upd (g_current s) this_cpu_id (Some w)) in
  let s := put_rq s this_cpu_id (set_current (g_runq s this_cpu_id) (Some w)) in
  let s := put_pcb s w (set_state (procs s w) PROC_RUN) in
  let s := put_g_reap_jmp_active s 0 in
  Ok (ReapReturn (syscall_on_thread_switch s (Some w))).

Definition exit_to_next s (dead_map : Z) : res (outcome E) :=
  let! s := dec_proc_count s in
  let! (next, s) :=
    (match g_reap_waiter s with
     | Some w =>
         if negb (state (procs s w) =? PROC_DEAD) then Ok (Some w, put_g_reap_waiter s None)
         else let! s := spin_lock_rq s this_cpu_id in let! (n, s) := sched_dequeue s this_cpu_id in Ok (n, spin_unlock_rq s this_cpu_id)
     | None =>
         let! s := spin_lock_rq s this_cpu_id in let! (n, s) := sched_dequeue s this_cpu_id in Ok (n, spin_unlock_rq s this_cpu_id)
     end) in
  let next := match next with
              | Some n => if state (procs s n) =? PROC_DEAD then idle_pcb (g_runq s this_cpu_id) else Some n
              | None => idle_pcb (g_runq s this_cpu_id)
              end in
  let! n := opt next in
  let s := put_rq s this_cpu_id (set_current (g_runq s this_cpu_id) (Some n)) in
  let s := put_g_current s (upd (g_current s) this_cpu_id (Some n)) in
  let s := put_pcb s n (set_state (procs s n) PROC_RUN) in
  let s := sched_state_update s in
  let s := syscall_on_thread_switch s (Some n) in
  let s := sched_load_cr3 s (cr3 (regs (procs s n))) in
  let s := destroy_map s dead_map in
  Ok (Resumes n s).

Definition sched_exit s (code : Z) : res (outcome E) :=
  let! cur := opt (g_current s this_cpu_id) in
  let dead_map := va_map (procs s cur) in
  let s := notify_parent s cur in
  let jmp := negb (g_reap_jmp_active s =? 0) in
  let s := mark_dead s cur code in
  match g_reap_waiter s with
  | Some w => if jmp then exit_to_reaper s cur w dead_map else exit_to_next s dead_map
  | None => exit_to_next s dead_map
  end.

(** The locals of [sched_reap] that live across the child's run. *)
Record reap_frame := mkFrame { rf_pcb : pcb_ref; rf_waiter : option pcb_ref; rf_class : Z; rf_pri : Z }.

(** Up to the moment control leaves, or [sched_jmp_restore] is called at once:
    [None] is the result -1; [Some p]: the child runs. *)
Definition sched_reap_begin s (pid' : Z) : res (option (reap_frame * option pcb_ref) * sched E) :=
  match sched_find s pid' with
  | None => Ok (None, s)
  | Some p =>
      let waiter := sched_current s in
      let s := put_g_reap_jmp_active (put_g_reap_waiter s waiter) 1 in
      let fr := mkFrame p waiter (sched_class (procs s p)) (priority (procs s p)) in
      if (state (procs s p) =? PROC_READY) && negb (rip (regs (procs s p)) =? 0) then
        let! s := spin_lock_rq s this_cpu_id in
        let! s := sched_takeoff_runq_locked s this_cpu_id (Some p) in
        let s := spin_unlock_rq s this_cpu_id in
        let s := put_pcb s p (set_sched_class (procs s p) SCHED_RT) in
        let s := put_pcb s p (set_priority (procs s p) 0) in
        let s := put_g_current s (upd (g_current s) this_cpu_id (Some p)) in
        let s := put_rq s this_cpu_id (set_current (g_runq s this_cpu_id) (Some p)) in
        let s := put_pcb s p (set_state (procs s p) PROC_RUN) in
        let s := syscall_on_thread_switch s (Some p) in
        let s := sched_load_cr3 s (cr3 (regs (procs s p))) in
        Ok (Some (fr, Some p), s)
      else Ok (Some (fr, None), s)
  end.

(** After [sched_jmp_save] has returned for the second time. *)
Definition sched_reap_end s (fr : reap_frame) : exit_info_t * sched E :=
  let p := rf_pcb fr in
  let s := syscall_on_thread_switch s (rf_waiter fr) in
  let s := put_pcb s p (set_sched_class (procs s p) (rf_class fr)) in
  let s := put_pcb s p (set_priority (procs s p) (rf_pri fr)) in
  let s := put_g_reap_jmp_active s 0 in
  let s := if negb (state (procs s p) =? PROC_DEAD) then
             let s := put_pcb s p (set_state (procs s p) PROC_DEAD) in
             put_pcb s p (set_exit_code (procs s p) (-1))
           else s in
  let s := put_g_reap_waiter s None in
  let info := mkInfo (exit_code (procs s p)) (cpu_ns (procs s p)) 0 in
  let s := free_kstack s p in
  let s := put_pcb s p (set_pid (procs s p) 0) in
  (info, put_pcb s p (set_state (procs s p) PROC_DEAD)).

Definition sched_set s (pid' cls priority' : Z) : Z * sched E :=
  match sched_find s pid' with
  | None => (-1, s)
  | Some p =>
      let s := put_pcb s p (set_sched_class (procs s p) cls) in
      let s := put_pcb s p (set_base_pri (procs s p) (i16 priority')) in
      (0, put_pcb s p (set_priority (procs s p) (i16 priority')))
  end.

(** ** Work stealing *)

Definition steal_load (q : runq_t) : Z := u32 (intr_count q + batch_count q).

Fixpoint most_loaded s (n : nat) i (this_cpu max_load victim : Z) : Z * Z :=
  match n with
  | O => (max_load, victim)
  | S n =>
      if i =? this_cpu then most_loaded s n (i + 1) this_cpu max_load victim
      else
        let load := steal_load (g_runq s i) in
        if max_load <? load then most_loaded s n (i + 1) this_cpu load i
        else most_loaded s n (i + 1) this_cpu max_load victim
  end.

(** One round of the moving loop; [None]: the [break]. *)
Definition steal_one s (this_cpu victim : Z) : res (option (sched E)) :=
  let! n := (if 0 <? batch_count (g_runq s victim) then opt (rb_leftmost rb_fuel (tree_state s victim QBATCH))
        else if 0 <? intr_count (g_runq s victim) then opt (rb_leftmost rb_fuel (tree_state s victim QINTR))
        else Ok None) in
  match n with
  | None => Ok None
  | Some p =>
      let c := if sched_class (procs s p) =? SCHED_BATCH then QBATCH else QINTR in
      let! s := rq_remove s victim c p in
      let s := put_pcb s p (set_cpu (procs s p) (u8 this_cpu)) in
      let! s := rq_insert s this_cpu c p (priority (procs s p)) in
      Ok (Some s)
  end.

Fixpoint steal_loop (n : nat) s (this_cpu victim : Z) : res (sched E) :=
  match n with
  | O => Ok s
  | S n =>
      let! r := steal_one s this_cpu victim in
      match r with None => Ok s | Some s => steal_loop n s this_cpu victim end
  end.

Definition sched_steal s (this_cpu : Z) : res (sched E) :=
  let '(max_load, victim) := most_loaded s (Z.to_nat (g_cpu_count s)) 0 this_cpu 0 0 in
  let my_load := steal_load (g_runq s this_cpu) in
  if max_load <=? u32 (my_load + SCHED_STEAL_THRESHOLD) then Ok s
  else
    let first := if this_cpu <? victim then this_cpu else victim in
    let second := if this_cpu <? victim then victim else this_cpu in
    let! s := spin_lock_rq s first in
    let! s := spin_lock_rq s second in
    let to_move := steal_load (g_runq s victim) / 2 in
    let! s := steal_loop (Z.to_nat to_move) s this_cpu victim in
    Ok (spin_unlock_rq (spin_unlock_rq s second) first).

End Ops.
End Sched.
