(* ===== verification/RbThm.v ===== *)
(** * What the run-queue tree promises

    The theorems on [rb_insert], [rb_remove_node] and [rb_leftmost], and their
    use on a small tree of numbered nodes. *)

From S2P Require Import Prelude RbTree RbShape RbInsert RbRemove RbFixup.
From Stdlib Require Import ZArith Lia Bool.
From stdpp Require Import base list gmap numbers sorting.
Import RbTree RbShape RbInsert RbRemove RbFixup.
Open Scope Z_scope.

Module RbThm.

Section Theorems.
Context {A : Type} `{EqDecision A}.
Implicit Types (s : rbs A) (m : nodes A) (z : A) (q : list A).

(** C28: [rb_insert] into a balanced tree returns: it never dereferences NULL and its loops end within as many
    rounds as there are nodes.  The new tree is balanced with a black root and holds the old sequence of nodes
    with the new one put in; if the nodes were in priority order, it goes behind exactly those whose priority is
    not greater.  Nodes outside the tree are not written. *)
Theorem rb_insert_correct (fuel : nat) prio m0 s q z key :
  seq_at m0 s q -> z ∉ q -> (length q < fuel)%nat ->
  exists s' q1 q2, rb_insert fuel prio s z key = Some s' /\ q = q1 ++ q2 /\ seq_at m0 s' (q1 ++ z :: q2) /\
    (pq_sorted prio q -> q1 ++ z :: q2 = pq_insert prio key z q).
Proof. apply rb_insert_ok. Qed.

(** C8: [rb_remove_node] of any node of a balanced tree returns, without a NULL dereference in the unlinking or
    in the repair loop and within as many rounds as there are nodes; it takes out exactly that node, keeps the
    order of the others and the balance, clears the node's links, and writes no node outside the tree.
    [rb_leftmost] is the first node of the sequence. *)
Theorem rb_remove_correct (fuel : nat) m0 s q1 z q2 :
  seq_at m0 s (q1 ++ z :: q2) -> (length (q1 ++ z :: q2) + 1 < fuel)%nat ->
  rb_leftmost fuel s = Some (head (q1 ++ z :: q2)) /\
  exists s', rb_remove_node fuel s z = Some s' /\
    seq_at (put z (Node None None None (color (mem s z))) m0) s' (q1 ++ q2).
Proof.
  intros Hs Hf. split; [|by apply rb_remove_ok].
  apply (rb_leftmost_ok fuel m0); [done|]. lia.
Qed.

End Theorems.

(** ** Five nodes *)

Definition clean : nodes nat := fun _ => Node None None None 0.
Definition nprio (n : nat) : Z := Z.of_nat n / 10.
Definition ins (s : rbs nat) (n : nat) : rbs nat := default s (rb_insert 20 nprio s n (nprio n)).
Definition five : rbs nat := ins (ins (ins (ins (ins (Rbs None clean) 30) 10) 20) 11) 12.

Lemma seq_at_empty (m : nodes nat) : seq_at m (Rbs None m) [].
Proof. exists E, 0%nat. split_and!; [|constructor|done|done]. split; simpl; [done|done|lia|done]. Qed.

Lemma ins_ok (m0 : nodes nat) (s : rbs nat) (q : list nat) (z : nat) :
  seq_at m0 s q -> pq_sorted nprio q -> z ∉ q -> (length q < 20)%nat ->
  seq_at m0 (ins s z) (pq_insert nprio (nprio z) z q).
Proof.
  intros Hs Hso Hz Hl. destruct (rb_insert_ok 20 nprio m0 s q z (nprio z)) as (s' & q1 & q2 & H1 & _ & H3 & H4); [done..|].
  unfold ins. rewrite H1, <- H4 by done. exact H3.
Qed.

Ltac small :=
  first [ simpl; lia
        | repeat (rewrite not_elem_of_cons; split; [discriminate|]); apply not_elem_of_nil
        | repeat constructor; vm_compute; discriminate ].

Lemma five_seq : seq_at clean five [10; 11; 12; 20; 30]%nat.
Proof.
  pose proof (seq_at_empty clean) as H0.
  apply (ins_ok _ _ _ 30%nat) in H0; [|small..]. vm_compute pq_insert in H0.
  apply (ins_ok _ _ _ 10%nat) in H0; [|small..]. vm_compute pq_insert in H0.
  apply (ins_ok _ _ _ 20%nat) in H0; [|small..]. vm_compute pq_insert in H0.
  apply (ins_ok _ _ _ 11%nat) in H0; [|small..]. vm_compute pq_insert in H0.
  apply (ins_ok _ _ _ 12%nat) in H0; [|small..]. vm_compute pq_insert in H0.
  exact H0.
Qed.

(** Node 13 has the priority of 10, 11 and 12, and goes behind them. *)
Lemma rb_insert_witness :
  exists s', rb_insert 20 nprio five 13%nat (nprio 13) = Some s' /\ seq_at clean s' [10; 11; 12; 13; 20; 30]%nat.
Proof.
  destruct (rb_insert_correct 20 nprio clean five [10; 11; 12; 20; 30]%nat 13%nat (nprio 13) five_seq) as (s' & q1 & q2 & H1 & _ & H3 & H4).
  - small.
  - simpl. lia.
  - exists s'. split; [exact H1|]. rewrite H4 in H3 by small. exact H3.
Defined.

Lemma rb_remove_witness :
  rb_leftmost 20 five = Some (Some 10%nat) /\
  exists s', rb_remove_node 20 five 20%nat = Some s' /\ exists m, seq_at m s' [10; 11; 12; 30]%nat.
Proof.
  destruct (rb_remove_correct 20 clean five [10; 11; 12]%nat 20%nat [30]%nat five_seq) as (H0 & s' & H1 & H2).
  - simpl. lia.
  - split; [exact H0|]. exists s'. split; [exact H1|]. eexists. exact H2.
Defined.

End RbThm.
