(* ===== verification/SchedQueue.v ===== *)
(** * Run queues as sequences

    [runqs s Q]: the trees of every CPU are balanced, hold the sequences [Q],
    share no node, and the counters are the lengths.  Inserting and removing
    keep this, and on queues in priority order they are insertion behind equal
    priorities and removal. *)

From S2P Require Import Prelude RbTree RbShape RbInsert RbRemove RbFixup Sched.
From Stdlib Require Import ZArith Lia Bool.
From stdpp Require Import base list gmap numbers sorting.
Import RbTree RbShape RbInsert RbRemove RbFixup Sched.
Open Scope Z_scope.

Module SchedQueue.

(** A tree with its memory, nothing said about other nodes. *)
Definition tree_ok (m : nodes pcb_ref) (r : option pcb_ref) (q : list pcb_ref) : Prop :=
  seq_at m (Rbs r m) q.

Lemma tree_ok_ext m m' r q :
  tree_ok m r q -> (forall z, z ∈ q -> m' z = m z) -> tree_ok m' r q.
Proof.
  intros (t & N & [H1 H2 H3 H4] & Hr & Hc & Ho) He. exists t, N. split_and!; [|done..].
  split; simpl in *; [|done|done|done].
  apply (repr_ext m); [|done]. intros z Hz. apply He. rewrite <- Ho.
  destruct (decide (z ∈ inorder t)) as [|Hn]; [done|]. by apply tcnt_inorder in Hn.
Qed.

Lemma seq_at_self m0 s (q : list pcb_ref) : seq_at m0 s q -> tree_ok (mem s) (root s) q.
Proof. destruct s as [r m]. intros (t & N & [H1 H2 H3 H4] & Hr). exists t, N. split; [|done]. by split. Qed.

(** The pcbs that exist. *)
Definition valid (p : pcb_ref) : Prop :=
  match p with Proc i => 0 <= i < MAX_PROCS | Idle i => 0 <= i < MAX_CPUS | Boot => True end.

Definition all_pcbs : list pcb_ref :=
  Boot :: (Proc <$> seqZ 0 MAX_PROCS) ++ (Idle <$> seqZ 0 MAX_CPUS).

Lemma valid_all p : valid p -> p ∈ all_pcbs.
Proof.
  unfold all_pcbs, valid. rewrite elem_of_cons, elem_of_app, !list_elem_of_fmap.
  destruct p as [i|i|]; intros Hi; [right; left|right; right|by left].
  all: exists i; split; [done|]; apply elem_of_seqZ; lia.
Qed.

Lemma all_pcbs_length : length all_pcbs = Z.to_nat (1 + MAX_PROCS + MAX_CPUS).
Proof.
  unfold all_pcbs. rewrite length_cons, length_app, !length_fmap, !length_seqZ.
  unfold MAX_PROCS, MAX_CPUS. lia.
Qed.

Lemma queue_short (q : list pcb_ref) :
  NoDup q -> Forall valid q -> (length q + 2 < rb_fuel)%nat.
Proof.
  intros Hnd Hv.
  assert (Hl : (length q <= length all_pcbs)%nat).
  { apply submseteq_length. apply NoDup_submseteq; [done|]. rewrite Forall_forall in Hv.
    intros x Hx. by apply valid_all, Hv. }
  rewrite all_pcbs_length in Hl. unfold rb_fuel, MAX_PROCS, MAX_CPUS in *. lia.
Qed.

Abbreviation queues := (Z -> qsel -> list pcb_ref).

Definition updQ (Q : queues) (i : Z) (c : qsel) (q : list pcb_ref) : queues :=
  fun j d => if decide (j = i /\ d = c) then q else Q j d.

Lemma updQ_eq Q i c q : updQ Q i c q i c = q.
Proof. unfold updQ. by rewrite decide_True. Qed.

Lemma updQ_ne Q i c q j d : ~ (j = i /\ d = c) -> updQ Q i c q j d = Q j d.
Proof. intros. unfold updQ. by rewrite decide_False. Qed.

Section Queues.
Context {E : Type}.
Implicit Types (s : sched E) (p : pcb_ref) (i : Z) (Q : queues).

Definition on_cpu s i : Prop := 0 <= i < g_cpu_count s.

Record runqs s Q : Prop := mk_runqs {
  rq_tree : forall i c, on_cpu s i -> tree_ok (rqnodes s) (tree_of (g_runq s i) c) (Q i c);
  rq_count : forall i c, on_cpu s i -> count_of (g_runq s i) c = Z.of_nat (length (Q i c));
  rq_disj : forall i c j d x, x ∈ Q i c -> x ∈ Q j d -> i = j /\ c = d;
  rq_valid : forall i c, Forall valid (Q i c);
  rq_range : forall i c, ~ on_cpu s i -> Q i c = [] }.

Definition queued Q p : Prop := exists i c, p ∈ Q i c.

Lemma runqs_nodup s Q i c : runqs s Q -> on_cpu s i -> NoDup (Q i c).
Proof. intros H Hi. apply (seq_at_nodup _ _ _ (rq_tree _ _ H i c Hi)). Qed.

(** Only the trees and counters matter. *)
Lemma runqs_ext s s' Q :
  rqnodes s' = rqnodes s -> g_cpu_count s' = g_cpu_count s ->
  (forall i c, tree_of (g_runq s' i) c = tree_of (g_runq s i) c /\ count_of (g_runq s' i) c = count_of (g_runq s i) c) ->
  runqs s Q -> runqs s' Q.
Proof.
  intros Hn Hc Hq [H1 H2 H3 H4 H5]. unfold on_cpu in *. split; unfold on_cpu; rewrite ?Hn, ?Hc; auto.
  - intros i c Hi. rewrite (proj1 (Hq i c)). auto.
  - intros i c Hi. rewrite (proj2 (Hq i c)). auto.
Qed.

Lemma runqs_len s Q i c : runqs s Q -> on_cpu s i -> (length (Q i c) + 2 < rb_fuel)%nat.
Proof. intros H Hi. apply queue_short; [by apply (runqs_nodup s)|apply H]. Qed.

(** ** Replacing one tree *)

Lemma set_queue_eq (q : runq_t) c r n : tree_of (set_queue q c r n) c = r /\ count_of (set_queue q c r n) c = n.
Proof. by destruct c. Qed.

Lemma set_queue_ne (q : runq_t) c d r n :
  d <> c -> tree_of (set_queue q c r n) d = tree_of q d /\ count_of (set_queue q c r n) d = count_of q d.
Proof. by destruct c, d. Qed.

Lemma put_tree_queue s i c t n j d :
  tree_of (g_runq (put_tree s i c t n) j) d =
    (if decide (j = i /\ d = c) then root t else tree_of (g_runq s j) d) /\
  count_of (g_runq (put_tree s i c t n) j) d =
    (if decide (j = i /\ d = c) then n else count_of (g_runq s j) d).
Proof.
  unfold put_tree, put_rq, upd. cbn [g_runq put_rqnodes put_g_runq].
  destruct (Z.eqb_spec j i) as [->|Hj].
  - destruct (decide (d = c)) as [->|Hd].
    + rewrite !decide_True by done. apply set_queue_eq.
    + rewrite !decide_False by tauto. by apply set_queue_ne.
  - by rewrite !decide_False by tauto.
Qed.

(** Writing back a tree that holds the sequence [q]: the other trees keep
    their nodes. *)
Lemma runqs_put s Q i c t n (q : list pcb_ref) :
  runqs s Q -> on_cpu s i -> tree_ok (mem t) (root t) q -> n = Z.of_nat (length q) ->
  Forall valid q ->
  (forall x, x ∈ q -> x ∈ Q i c \/ ~ queued Q x) ->
  (forall x j d, x ∈ Q j d -> ~ (j = i /\ d = c) -> mem t x = rqnodes s x) ->
  runqs (put_tree s i c t n) (updQ Q i c q).
Proof.
  intros [H1 H2 H3 H4 H5] Hi Ht Hn Hv Hq Hf. split; unfold on_cpu in *.
  - intros j d Hj. cbn [g_cpu_count put_tree put_rqnodes put_rq put_g_runq rqnodes] in *.
    rewrite (proj1 (put_tree_queue _ _ _ _ _ _ _)). unfold updQ. case_decide; [done|].
    apply (tree_ok_ext (rqnodes s)); [by apply H1|]. intros z Hz. by apply (Hf z j d).
  - intros j d Hj. rewrite (proj2 (put_tree_queue _ _ _ _ _ _ _)). unfold updQ. case_decide; [done|]. by apply H2.
  - intros j d j' d' x. unfold updQ. do 2 case_decide; intros Hx Hx'; destruct_and?; subst; [done|..].
    + destruct (Hq x Hx) as [Hx2|Hx2]; [by apply (H3 _ _ _ _ x)|]. exfalso. apply Hx2. by eexists _, _.
    + destruct (Hq x Hx') as [Hx2|Hx2]; [by apply (H3 _ _ _ _ x)|]. exfalso. apply Hx2. by eexists _, _.
    + by apply (H3 _ _ _ _ x).
  - intros j d. unfold updQ. by case_decide.
  - intros j d Hj. unfold updQ. case_decide as Hd; [destruct Hd as [-> _]; by destruct Hj|by apply H5].
Qed.

Context `{SchedEnv E}.

Lemma rq_insert_ok s Q i c p key :
  runqs s Q -> on_cpu s i -> valid p -> ~ queued Q p ->
  exists t n (q1 q2 : list pcb_ref), rq_insert s i c p key = Ok (put_tree s i c t n) /\ Q i c = q1 ++ q2 /\
    runqs (put_tree s i c t n) (updQ Q i c (q1 ++ p :: q2)) /\
    (forall x, x <> p -> x ∉ Q i c -> mem t x = rqnodes s x) /\
    (pq_sorted (prio s) (Q i c) -> q1 ++ p :: q2 = pq_insert (prio s) key p (Q i c)).
Proof.
  intros Hr Hi Hv Hp. pose proof (runqs_len _ _ i c Hr Hi) as Hlen.
  destruct (rb_insert_ok rb_fuel (prio s) (rqnodes s) (tree_state s i c) (Q i c) p key) as (t & q1 & q2 & Hins & Hq & Hseq & Hso).
  { apply Hr, Hi. }
  { intros Hx. apply Hp. by eexists _, _. }
  { lia. }
  unfold rq_insert. rewrite Hins. cbn [opt rbind].
  assert (Hout : forall x, x <> p -> x ∉ Q i c -> mem t x = rqnodes s x).
  { intros x Hx Hx'. apply (seq_at_outside _ _ _ _ Hseq). rewrite Hq in Hx'. set_solver. }
  eexists t, _, q1, q2. split_and!; [reflexivity|done| |done|done].
  apply runqs_put; [done|done|by apply (seq_at_self (rqnodes s))|..].
  - rewrite (rq_count _ _ Hr) by done. rewrite Hq, !length_app. simpl.
    rewrite u32_small; [lia|]. rewrite Hq, length_app in Hlen. unfold rb_fuel, MAX_PROCS, MAX_CPUS in Hlen. lia.
  - pose proof (rq_valid _ _ Hr i c) as Hva. rewrite Hq, Forall_app in Hva. apply Forall_app. split; [naive_solver|].
    constructor; naive_solver.
  - intros x Hx. destruct (decide (x = p)) as [->|]; [by right|]. left. rewrite Hq. set_solver.
  - intros x j d Hx Hne. apply Hout.
    + intros ->. apply Hp. by eexists _, _.
    + intros Hx'. destruct (rq_disj _ _ Hr _ _ _ _ x Hx Hx'). tauto.
Qed.

Lemma rq_remove_ok s Q i c p (q1 q2 : list pcb_ref) :
  runqs s Q -> on_cpu s i -> Q i c = q1 ++ p :: q2 ->
  exists t n, rq_remove s i c p = Ok (put_tree s i c t n) /\
    runqs (put_tree s i c t n) (updQ Q i c (q1 ++ q2)) /\
    mem t p = Node None None None (color (rqnodes s p)).
Proof.
  intros Hr Hi Hq. pose proof (runqs_len _ _ i c Hr Hi) as Hlen.
  destruct (rb_remove_ok rb_fuel (rqnodes s) (tree_state s i c) q1 q2 p) as (t & Hrem & Hseq).
  { rewrite <- Hq. apply Hr, Hi. }
  { rewrite <- Hq. lia. }
  unfold rq_remove. rewrite Hrem. cbn [opt rbind].
  pose proof (runqs_nodup _ _ i c Hr Hi) as Hnd. rewrite Hq in Hnd. apply list.NoDup_app in Hnd as (Hn1 & Hn2 & Hn3).
  apply list.NoDup_cons in Hn3 as [Hn3 Hn4].
  assert (Hp : p ∉ q1 ++ q2) by set_solver.
  eexists t, _. split_and!; [reflexivity| |].
  - apply runqs_put; [done|done|by apply (seq_at_self _ _ _ Hseq)|..].
    + rewrite (rq_count _ _ Hr) by done. rewrite Hq, !length_app. simpl.
      rewrite u32_small; [lia|]. rewrite Hq, length_app in Hlen. simpl in Hlen. unfold rb_fuel, MAX_PROCS, MAX_CPUS in Hlen. lia.
    + pose proof (rq_valid _ _ Hr i c) as Hva. rewrite Hq, Forall_app, Forall_cons in Hva. apply Forall_app. tauto.
    + intros x Hx. left. rewrite Hq. set_solver.
    + intros x j d Hx Hne. assert (x ∉ Q i c) as Hx'.
      { intros Hx'. destruct (rq_disj _ _ Hr _ _ _ _ x Hx Hx'). tauto. }
      rewrite Hq in Hx'. rewrite (seq_at_outside _ _ _ x Hseq) by set_solver. apply put_ne. set_solver.
  - rewrite (seq_at_outside _ _ _ p Hseq) by done. apply put_eq.
Qed.

Lemma leftmost_queue s Q i c :
  runqs s Q -> on_cpu s i -> rb_leftmost rb_fuel (tree_state s i c) = Some (head (Q i c)).
Proof.
  intros Hr Hi. pose proof (runqs_len _ _ i c Hr Hi) as Hlen.
  apply (rb_leftmost_ok rb_fuel (rqnodes s)); [apply Hr, Hi|lia].
Qed.

End Queues.
End SchedQueue.
