(* ===== verification/SchedInv.v ===== *)
(** * Enqueueing, dequeueing and taking off

    The invariant of the run queues: [runqs], every queue in priority order,
    every member READY and homed where it is queued.  The operations are shown
    to implement stable priority queues, one per CPU and class. *)

From S2P Require Import Prelude RbTree RbInsert RbFixup Sched SchedQueue.
From Stdlib Require Import ZArith Lia Bool.
From stdpp Require Import base list gmap numbers sorting.
Import RbTree RbInsert RbFixup Sched SchedQueue.
Open Scope Z_scope.

Module SchedInv.

Section Inv.
Context {E : Type} `{SchedEnv E}.
Implicit Types (s : sched E) (p : pcb_ref) (i : Z) (Q : queues).

(** Members are where their [cpu] and [sched_class] say, and READY. *)
Definition homed s Q : Prop := forall i c x, x ∈ Q i c ->
  cpu (procs s x) = i /\ qsel_of (sched_class (procs s x)) = c /\ state (procs s x) = PROC_READY /\ pid (procs s x) <> 0.

Record sched_inv s Q : Prop := mk_inv {
  inv_runqs : runqs s Q;
  inv_sorted : forall i c, pq_sorted (prio s) (Q i c);
  inv_homed : homed s Q;
  inv_cpus : 0 < g_cpu_count s <= MAX_CPUS }.

(** ** Lemmas on the abstract queues *)

Lemma pq_sorted_ext (f g : pcb_ref -> Z) (q : list pcb_ref) :
  (forall x, x ∈ q -> f x = g x) -> pq_sorted f q -> pq_sorted g q.
Proof.
  unfold pq_sorted. induction q as [|x q IH]; intros He Hs; [constructor|].
  inversion Hs as [|? ? H1 H2]; subst. constructor; [apply IH; [set_solver|done]|].
  rewrite Forall_forall in H2 |- *. intros y Hy. rewrite <- !He by set_solver. by apply H2.
Qed.

Lemma pq_insert_elem f key p (q : list pcb_ref) x : x ∈ pq_insert f key p q <-> x = p \/ x ∈ q.
Proof.
  induction q as [|y q IH]; simpl; [set_solver|]. destruct (key <? f y); rewrite !elem_of_cons, ?IH; tauto.
Qed.

Lemma pq_insert_sorted f p (q : list pcb_ref) : pq_sorted f q -> pq_sorted f (pq_insert f (f p) p q).
Proof.
  unfold pq_sorted. induction q as [|y q IH]; intros Hs; simpl; [repeat constructor|].
  inversion Hs as [|? ? H1 H2]; subst. rewrite Forall_forall in H2.
  destruct (Z.ltb_spec (f p) (f y)).
  - constructor; [done|]. apply Forall_forall. intros z Hz. apply elem_of_cons in Hz as [->|Hz]; [lia|].
    specialize (H2 z Hz). simpl in H2. lia.
  - constructor; [by apply IH|]. apply Forall_forall. intros z Hz.
    apply pq_insert_elem in Hz as [->|Hz]; [done|by apply H2].
Qed.

Lemma pq_insert_ext (f g : pcb_ref -> Z) key p (q : list pcb_ref) :
  (forall x, x ∈ q -> f x = g x) -> pq_insert f key p q = pq_insert g key p q.
Proof.
  induction q as [|y q IH]; intros He; simpl; [done|].
  rewrite He by set_solver. rewrite IH by set_solver. done.
Qed.

Lemma pq_sorted_sub f (q1 q2 : list pcb_ref) p : pq_sorted f (q1 ++ p :: q2) -> pq_sorted f (q1 ++ q2).
Proof.
  rewrite !pq_sorted_app. intros (H1 & H2 & H3). inversion H2; subst. split_and!; [done|done|].
  intros; apply H3; set_solver.
Qed.

(** ** Choice of the CPU *)

Definition load s i : Z := rq_load (g_runq s i).

Lemma load_bound s Q i : runqs s Q -> on_cpu s i ->
  load s i = Z.of_nat (length (Q i QRT) + length (Q i QINTR) + length (Q i QBATCH)) /\ load s i < 4294967295.
Proof.
  intros Hr Hi. unfold load, rq_load.
  pose proof (rq_count _ _ Hr i QRT Hi) as H1. pose proof (rq_count _ _ Hr i QINTR Hi) as H2.
  pose proof (rq_count _ _ Hr i QBATCH Hi) as H3. simpl in *. rewrite H1, H2, H3.
  pose proof (runqs_len _ _ i QRT Hr Hi). pose proof (runqs_len _ _ i QINTR Hr Hi).
  pose proof (runqs_len _ _ i QBATCH Hr Hi). unfold rb_fuel, MAX_PROCS, MAX_CPUS in *.
  rewrite u32_small by lia. lia.
Qed.

(** [b] is the first CPU below [n] with the least load. *)
Definition least s n b : Prop :=
  0 <= b < n /\ (forall j, 0 <= j < n -> load s b <= load s j) /\ (forall j, 0 <= j < b -> load s b < load s j).

Lemma least_loaded_ok s n i b :
  least s i b -> least s (i + Z.of_nat n) (least_loaded s n i (load s b) b).
Proof.
  revert i b. induction n as [|n IH]; intros i b Hl; simpl.
  - by rewrite Z.add_0_r.
  - replace (i + Z.of_nat (S n)) with (i + 1 + Z.of_nat n) by lia.
    destruct Hl as (H1 & H2 & H3). fold (load s i). destruct (Z.ltb_spec (load s i) (load s b)); apply IH.
    + split_and!; [lia|lia|..]; intros j Hj.
      * destruct (decide (j = i)) as [->|]; [lia|]. specialize (H2 j). lia.
      * specialize (H2 j). lia.
    + split_and!; [lia|lia|..]; intros j Hj; [|by apply H3].
      destruct (decide (j = i)) as [->|]; [lia|]. specialize (H2 j). lia.
Qed.

(** The CPU [sched_enqueue] chooses: the affinity if there is such a CPU,
    otherwise the first of the least loaded. *)
Lemma pick_cpu_ok s Q p :
  runqs s Q -> 0 < g_cpu_count s -> 0 <= cpu (procs s p) ->
  on_cpu s (pick_cpu s p) /\
  (cpu (procs s p) < g_cpu_count s -> pick_cpu s p = cpu (procs s p)) /\
  (g_cpu_count s <= cpu (procs s p) -> least s (g_cpu_count s) (pick_cpu s p)).
Proof.
  intros Hr Hc Hp. unfold pick_cpu, on_cpu. destruct (Z.leb_spec (g_cpu_count s) (cpu (procs s p))) as [Hge|Hlt];
    [|split_and!; lia].
  assert (Hl : least s (g_cpu_count s) (least_loaded s (Z.to_nat (g_cpu_count s)) 0 4294967295 0)).
  { destruct (Z.to_nat (g_cpu_count s)) as [|n] eqn:Hn; [lia|]. simpl. fold (load s 0).
    destruct (load_bound s Q 0 Hr) as [_ Hb]; [unfold on_cpu; lia|]. rewrite (proj2 (Z.ltb_lt _ _)) by done.
    replace (g_cpu_count s) with (1 + Z.of_nat n) by lia. apply least_loaded_ok.
    split_and!; [lia|lia|..]; intros j Hj; [|lia]. replace j with 0 by lia. lia. }
  pose proof Hl as (? & _ & _). split_and!; [lia|lia|lia|done].
Qed.

(** ** Enqueueing *)

Lemma put_pcb_eq s p v : procs (put_pcb s p v) p = v.
Proof. simpl. by rewrite decide_True. Qed.

Lemma put_pcb_ne s p v x : x <> p -> procs (put_pcb s p v) x = procs s x.
Proof. intros. simpl. by rewrite decide_False. Qed.

(** Writing the lock word of a run queue changes no queue. *)
Lemma runqs_lock s Q i v : runqs s Q -> runqs (put_rq s i (set_lock (g_runq s i) v)) Q.
Proof.
  apply runqs_ext; [done|done|]. intros j c. simpl. unfold upd.
  destruct (Z.eqb_spec j i) as [->|]; by destruct c.
Qed.

Lemma lock_free s i : lock (g_runq s i) = 0 -> spin_lock_rq s i = Ok (put_rq s i (set_lock (g_runq s i) 1)).
Proof. intros Hl. unfold spin_lock_rq. by rewrite Hl. Qed.

Lemma runqs_pcb s Q p v : runqs s Q -> runqs (put_pcb s p v) Q.
Proof. by apply runqs_ext. Qed.

Definition enqueued s p : pcb_t := set_state (set_cpu (procs s p) (u8 (pick_cpu s p))) PROC_READY.

Lemma sched_enqueue_ok s Q p :
  sched_inv s Q -> valid p -> ~ queued Q p -> pid (procs s p) <> 0 -> 0 <= cpu (procs s p) ->
  lock (g_runq s (pick_cpu s p)) = 0 ->
  exists s', sched_enqueue s p = Ok s' /\
    sched_inv s' (updQ Q (pick_cpu s p) (qsel_of (sched_class (procs s p)))
                    (pq_insert (prio s) (prio s p) p (Q (pick_cpu s p) (qsel_of (sched_class (procs s p)))))) /\
    procs s' p = enqueued s p /\ (forall x, x <> p -> procs s' x = procs s x) /\
    (forall j, lock (g_runq s' j) = lock (g_runq s j)) /\
    (cpu (procs s p) < g_cpu_count s -> pick_cpu s p = cpu (procs s p)) /\
    (g_cpu_count s <= cpu (procs s p) -> least s (g_cpu_count s) (pick_cpu s p)).
Proof.
  intros [Hr Hs Hh Hc] Hv Hq Hpid Hcpu Hl.
  destruct (pick_cpu_ok s Q p Hr) as (Hi & Haff & Hleast); [lia|done|].
  set (i := pick_cpu s p) in *. set (c := qsel_of (sched_class (procs s p))).
  unfold sched_enqueue. fold i. set (s1 := put_pcb (put_pcb s p _) p _).
  assert (Hp1 : procs s1 p = enqueued s p) by (unfold s1; by rewrite !put_pcb_eq).
  assert (Ho1 : forall x, x <> p -> procs s1 x = procs s x) by (intros; unfold s1; by rewrite !put_pcb_ne).
  assert (Hprio : forall x, prio s1 x = prio s x).
  { intros x. unfold prio. destruct (decide (x = p)) as [->|]; [by rewrite Hp1|by rewrite Ho1]. }
  rewrite (lock_free s1 i Hl). cbn [rbind]. set (s2 := put_rq s1 i _).
  assert (Hr2 : runqs s2 Q) by by apply runqs_lock, runqs_pcb, runqs_pcb.
  assert (Hc2 : qsel_of (sched_class (procs s2 p)) = c) by (change (procs s2) with (procs s1); by rewrite Hp1).
  rewrite Hc2.
  destruct (rq_insert_ok s2 Q i c p (priority (procs s2 p)) Hr2 Hi Hv Hq) as (t & n & q1 & q2 & Hins & HQ & Hr3 & _ & Hso).
  rewrite Hins. cbn [rbind]. eexists. split; [reflexivity|].
  assert (Hq12 : q1 ++ p :: q2 = pq_insert (prio s) (prio s p) p (Q i c)).
  { rewrite Hso by (apply (pq_sorted_ext (prio s)); [by intros; rewrite <- Hprio|apply Hs]).
    rewrite (pq_insert_ext _ (prio s)) by (intros; apply Hprio). f_equal. exact (Hprio p). }
  rewrite <- Hq12. split_and!; [|exact Hp1|exact Ho1| |done|done].
  - split; [by apply runqs_lock| | |done].
    + intros j d. apply (pq_sorted_ext (prio s)); [by intros; rewrite <- Hprio|].
      unfold updQ. case_decide; [|apply Hs]. rewrite Hq12. apply pq_insert_sorted, Hs.
    + intros j d x Hx. change (procs _) with (procs s1). unfold updQ in Hx. case_decide as Hd.
      * destruct Hd as [-> ->]. destruct (decide (x = p)) as [->|Hne].
        -- rewrite Hp1. unfold enqueued. simpl. split_and!; [|done|done|done].
           apply Z.mod_small. fold i. unfold on_cpu, MAX_CPUS in *. lia.
        -- rewrite Ho1 by done. apply Hh. rewrite HQ. set_solver.
      * rewrite Ho1; [by apply Hh|]. intros ->. apply Hq. by eexists _, _.
  - intros j. unfold spin_unlock_rq. simpl. unfold upd. destruct (Z.eqb_spec j i) as [->|]; [by rewrite Hl|done].
Qed.

(** ** Dequeueing *)

(** The process to run next, by class, and the rest of its queue. *)
Definition next_of Q i : option (qsel * pcb_ref * list pcb_ref) :=
  match Q i QRT, Q i QINTR, Q i QBATCH with
  | x :: q, _, _ => Some (QRT, x, q)
  | [], x :: q, _ => Some (QINTR, x, q)
  | [], [], x :: q => Some (QBATCH, x, q)
  | [], [], [] => None
  end.

Lemma next_of_queue Q i c x q : next_of Q i = Some (c, x, q) -> Q i c = x :: q.
Proof. unfold next_of. intros. repeat case_match; simplify_eq; done. Qed.

(** Taking a member out keeps the invariant of the others. *)
Lemma inv_remove s Q i c t n p (q1 q2 : list pcb_ref) :
  sched_inv s Q -> Q i c = q1 ++ p :: q2 ->
  runqs (put_tree s i c t n) (updQ Q i c (q1 ++ q2)) ->
  sched_inv (put_tree s i c t n) (updQ Q i c (q1 ++ q2)).
Proof.
  intros [Hr Hs Hh Hc] Hq Hr'. split; [done| | |done].
  - intros j d. change (prio (put_tree s i c t n)) with (prio s). unfold updQ. case_decide; [|apply Hs].
    apply (pq_sorted_sub _ _ _ p). rewrite <- Hq. apply Hs.
  - intros j d x Hx. change (procs (put_tree s i c t n)) with (procs s). apply Hh. unfold updQ in Hx.
    case_decide as Hd; [|done]. destruct Hd as [-> ->]. rewrite Hq. set_solver.
Qed.

Lemma take_first_ok s Q i c p (q : list pcb_ref) :
  sched_inv s Q -> on_cpu s i -> Q i c = p :: q ->
  exists t n, take_first s i c = Ok (Some p, put_tree s i c t n) /\
    sched_inv (put_tree s i c t n) (updQ Q i c q) /\ mem t p = Node None None None (color (rqnodes s p)).
Proof.
  intros Hinv Hi Hq. unfold take_first. rewrite (leftmost_queue s Q i c) by (apply Hinv || done).
  rewrite Hq. cbn [opt rbind head]. destruct (rq_remove_ok s Q i c p [] q) as (t & n & -> & Hr & Hm); [apply Hinv|done|done|].
  exists t, n. split_and!; [done| |done]. by apply (inv_remove s Q i c t n p [] q).
Qed.

Lemma sched_dequeue_ok s Q i :
  sched_inv s Q -> on_cpu s i ->
  match next_of Q i with
  | Some (c, p, q) =>
      exists t n, sched_dequeue s i = Ok (Some p, put_tree s i c t n) /\
        sched_inv (put_tree s i c t n) (updQ Q i c q) /\ mem t p = Node None None None (color (rqnodes s p))
  | None => sched_dequeue s i = Ok (idle_pcb (g_runq s i), s)
  end.
Proof.
  intros Hinv Hi. pose proof (inv_runqs _ _ Hinv) as Hr.
  pose proof (rq_count _ _ Hr i QRT Hi) as H1. pose proof (rq_count _ _ Hr i QINTR Hi) as H2.
  pose proof (rq_count _ _ Hr i QBATCH Hi) as H3. simpl in H1, H2, H3.
  unfold sched_dequeue. rewrite H1, H2, H3. unfold next_of.
  destruct (Q i QRT) as [|x q] eqn:E1; [destruct (Q i QINTR) as [|x q] eqn:E2; [destruct (Q i QBATCH) as [|x q] eqn:E3|]|].
  - done.
  - destruct (take_first_ok s Q i QBATCH x q Hinv Hi E3) as (t & n & Ht & Hr').
    exists t, n. rewrite Ht. done.
  - destruct (take_first_ok s Q i QINTR x q Hinv Hi E2) as (t & n & Ht & Hr').
    exists t, n. rewrite Ht. done.
  - destruct (take_first_ok s Q i QRT x q Hinv Hi E1) as (t & n & Ht & Hr').
    exists t, n. rewrite Ht. done.
Qed.

(** [n] calls of [sched_dequeue] in a row. *)
Fixpoint drain (n : nat) s i : res (list (option pcb_ref) * sched E) :=
  match n with
  | O => Ok ([], s)
  | S n =>
      let! (p, s) := sched_dequeue s i in
      let! (l, s) := drain n s i in
      Ok (p :: l, s)
  end.

Definition run_order Q i : list pcb_ref := Q i QRT ++ Q i QINTR ++ Q i QBATCH.

Lemma run_order_next Q i c p q :
  next_of Q i = Some (c, p, q) -> run_order Q i = p :: run_order (updQ Q i c q) i.
Proof.
  unfold next_of, run_order. intros Hn.
  repeat case_match; simplify_eq; rewrite updQ_eq, ?updQ_ne by naive_solver;
    repeat match goal with H : Q i _ = _ |- _ => rewrite H; clear H end; done.
Qed.

Lemma run_order_nil Q i : next_of Q i = None -> run_order Q i = [].
Proof. unfold next_of, run_order. intros. by repeat case_match. Qed.

Lemma drain_ok (n : nat) s Q i :
  sched_inv s Q -> on_cpu s i -> length (run_order Q i) = n ->
  exists s' Q', drain n s i = Ok (Some <$> run_order Q i, s') /\ sched_inv s' Q' /\ run_order Q' i = [] /\
    (forall j, j <> i -> run_order Q' j = run_order Q j) /\ g_cpu_count s' = g_cpu_count s.
Proof.
  revert s Q. induction n as [|n IH]; intros s Q Hinv Hi Hn.
  - apply nil_length_inv in Hn. exists s, Q. rewrite Hn. done.
  - pose proof (sched_dequeue_ok s Q i Hinv Hi) as Hd. destruct (next_of Q i) as [[[c p] q]|] eqn:Hnx.
    + destruct Hd as (t & m & Hd & Hinv' & _). pose proof (run_order_next _ _ _ _ _ Hnx) as Hro.
      destruct (IH (put_tree s i c t m) (updQ Q i c q)) as (s' & Q' & Hdr & H1 & H2 & H3 & H4); [done|done| |].
      { rewrite Hro in Hn. simpl in Hn. lia. }
      exists s', Q'. simpl. rewrite Hd. cbn [rbind]. rewrite Hdr, Hro. cbn [rbind]. split_and!; [done|done|done| |done].
      intros j Hj. rewrite H3 by done. unfold run_order. rewrite !updQ_ne by naive_solver. done.
    + rewrite (run_order_nil _ _ Hnx) in Hn. done.
Qed.

(** ** The theorems *)

(** C29: [sched_enqueue] puts a process that is on no queue behind all processes of its class whose
    priority value is not greater, on the CPU it asks for or, if there is no such CPU, on the first of the
    least loaded; it becomes READY, all other queues and processes stay, the lock is released, and the
    run queues stay balanced, sorted and counted. *)
Theorem sched_enqueue_correct s Q p :
  sched_inv s Q -> valid p -> ~ queued Q p -> pid (procs s p) <> 0 -> 0 <= cpu (procs s p) ->
  lock (g_runq s (pick_cpu s p)) = 0 ->
  exists s', sched_enqueue s p = Ok s' /\
    sched_inv s' (updQ Q (pick_cpu s p) (qsel_of (sched_class (procs s p)))
                    (pq_insert (prio s) (prio s p) p (Q (pick_cpu s p) (qsel_of (sched_class (procs s p)))))) /\
    procs s' p = enqueued s p /\ (forall x, x <> p -> procs s' x = procs s x) /\
    (forall j, lock (g_runq s' j) = lock (g_runq s j)) /\
    (cpu (procs s p) < g_cpu_count s -> pick_cpu s p = cpu (procs s p)) /\
    (g_cpu_count s <= cpu (procs s p) -> least s (g_cpu_count s) (pick_cpu s p)).
Proof. apply sched_enqueue_ok. Qed.

(** C30: Every queued process gets its turn: calling [sched_dequeue] as often as CPU [i] has queued
    processes returns each of them exactly once, first the real-time, then the interactive, then the batch
    queue, each in priority order and first-in-first-out among equals; then only the idle process is
    returned, and no other CPU's queue has changed. *)
Theorem sched_dequeue_order s Q i :
  sched_inv s Q -> on_cpu s i ->
  exists s' Q', drain (length (run_order Q i)) s i = Ok (Some <$> run_order Q i, s') /\
    sched_inv s' Q' /\ (forall j, j <> i -> run_order Q' j = run_order Q j) /\
    sched_dequeue s' i = Ok (idle_pcb (g_runq s' i), s').
Proof.
  intros Hinv Hi. destruct (drain_ok _ s Q i Hinv Hi eq_refl) as (s' & Q' & H1 & H2 & H3 & H4 & Hc).
  exists s', Q'. split_and!; [done|done|done|].
  pose proof (sched_dequeue_ok s' Q' i H2) as Hd. destruct (next_of Q' i) as [[[c p] q]|] eqn:Hnx.
  - rewrite (run_order_next _ _ _ _ _ Hnx) in H3. done.
  - apply Hd. unfold on_cpu in *. lia.
Qed.

End Inv.
End SchedInv.
