(* ===== verification/SchedSteal.v ===== *)
(** * Taking a process off its queue, and work stealing *)

From S2P Require Import Prelude RbTree RbShape RbInsert RbRemove RbFixup Sched SchedQueue SchedInv.
From Stdlib Require Import ZArith Lia Bool.
From stdpp Require Import base list gmap numbers sorting.
Import RbTree RbShape RbInsert RbRemove RbFixup Sched SchedQueue SchedInv.
Open Scope Z_scope.

Module SchedSteal.

Section Steal.
Context {E : Type} `{SchedEnv E}.
Implicit Types (s : sched E) (p : pcb_ref) (i : Z) (Q : queues).

(** A member of a tree has a parent or is the root. *)
Lemma member_linked m r (q : list pcb_ref) p :
  tree_ok m r q -> p ∈ q -> parent (m p) <> None \/ r = Some p.
Proof.
  intros (t & N & Hat & _ & _ & <-) Hp. destruct (locate t Top p Hp) as (c & l & r0 & k & Ht).
  simpl in Ht. subst t. apply at_plug in Hat. pose proof (at_node _ _ _ _ _ _ _ Hat) as Hn. simpl in Hn. rewrite Hn.
  destruct k as [|? ? ? ?|? ? ? ?]; [right|by left..]. exact (at_ctx _ _ _ _ Hat).
Qed.

(** The node of a process on no queue may be written. *)
Lemma runqs_node s Q p n : runqs s Q -> ~ queued Q p -> runqs (put_rqnodes s (put p n (rqnodes s))) Q.
Proof.
  intros [H1 H2 H3 H4 H5] Hq. split; try done. intros i c Hi.
  apply (tree_ok_ext (rqnodes s)); [by apply H1|]. intros z Hz. apply put_ne. intros ->. apply Hq. by eexists _, _.
Qed.

Lemma removed_unqueued s Q i c p (q1 q2 : list pcb_ref) :
  runqs s Q -> on_cpu s i -> Q i c = q1 ++ p :: q2 -> ~ queued (updQ Q i c (q1 ++ q2)) p.
Proof.
  intros Hr Hi Hq (j & d & Hx). pose proof (runqs_nodup _ _ i c Hr Hi) as Hnd. rewrite Hq in Hnd.
  apply list.NoDup_app in Hnd as (_ & Hn & Hn'). apply list.NoDup_cons in Hn' as [Hn' _].
  unfold updQ in Hx. case_decide as Hd; [set_solver|].
  destruct (rq_disj _ _ Hr j d i c p); [done|rewrite Hq; set_solver|]. tauto.
Qed.

(** [sched_takeoff_runq_locked] takes a queued process out of its queue. *)
Lemma takeoff_ok s Q i p c (q1 q2 : list pcb_ref) :
  sched_inv s Q -> on_cpu s i -> Q i c = q1 ++ p :: q2 ->
  exists s', sched_takeoff_runq_locked s i (Some p) = Ok s' /\
    sched_inv s' (updQ Q i c (q1 ++ q2)) /\ ~ queued (updQ Q i c (q1 ++ q2)) p /\
    procs s' = procs s /\ parent (rqnodes s' p) = None /\
    exists t n, s' = put_tree s i c t n.
Proof.
  intros Hinv Hi Hq. pose proof Hinv as [Hr Hs Hh Hc].
  destruct (Hh i c p) as (_ & Hcl & Hst & _); [rewrite Hq; set_solver|].
  unfold sched_takeoff_runq_locked. rewrite Hst, Hcl. simpl negb. cbv iota.
  rewrite (rq_count _ _ Hr) by done. rewrite Hq, length_app. simpl length.
  replace (Z.of_nat (length q1 + S (length q2)) =? 0) with false by (symmetry; apply Z.eqb_neq; lia).
  assert (Hne : tree_of (g_runq s i) c <> None).
  { intros Hn. apply (seq_at_nil _ _ _ (rq_tree _ _ Hr i c Hi)) in Hn. rewrite Hq in Hn. by destruct q1. }
  rewrite bool_decide_eq_false_2 by done. simpl orb.
  assert (Hl : bool_decide (parent (rqnodes s p) <> None) || bool_decide (tree_of (g_runq s i) c = Some p) = true).
  { apply orb_true_iff. rewrite !bool_decide_eq_true.
    apply (member_linked _ _ (Q i c)); [by apply Hr|rewrite Hq; set_solver]. }
  rewrite Hl. destruct (rq_remove_ok s Q i c p q1 q2 Hr Hi Hq) as (t & n & -> & Hr' & Hm). cbn [rbind].
  pose proof (removed_unqueued s Q i c p q1 q2 Hr Hi Hq) as Hun.
  pose proof (inv_remove _ _ _ _ _ _ _ _ _ Hinv Hq Hr') as [Ha Hb Hd He].
  set (m' := put p _ _).
  eexists. split; [reflexivity|]. split_and!; [|done|done|unfold m'; simpl; by rewrite put_eq|].
  - split; [by apply runqs_node|exact Hb|exact Hd|exact He].
  - exists (Rbs (root t) m'), n. done.
Qed.

(** ** The busiest other CPU *)

Definition sload s i : Z := steal_load (g_runq s i).

Lemma sload_ok s Q i : runqs s Q -> on_cpu s i ->
  sload s i = Z.of_nat (length (Q i QINTR) + length (Q i QBATCH)) /\ 0 <= sload s i < 2 ^ 32 - 3.
Proof.
  intros Hr Hi. unfold sload, steal_load.
  pose proof (rq_count _ _ Hr i QINTR Hi) as H2. pose proof (rq_count _ _ Hr i QBATCH Hi) as H3. simpl in H2, H3.
  rewrite H2, H3. pose proof (runqs_len _ _ i QINTR Hr Hi). pose proof (runqs_len _ _ i QBATCH Hr Hi).
  unfold rb_fuel, MAX_PROCS, MAX_CPUS in *. rewrite u32_small by lia. lia.
Qed.

(** The victim of CPU [me]: the first other CPU with the greatest load, or none loaded at all. *)
Definition busiest s me n (mv : Z * Z) : Prop :=
  (forall j, 0 <= j < n -> j <> me -> sload s j <= mv.1) /\
  (mv.1 = 0 \/ (0 <= mv.2 < n /\ mv.2 <> me /\ mv.1 = sload s mv.2)).

Lemma most_loaded_ok s me n i mx v :
  busiest s me i (mx, v) -> 0 <= i -> 0 <= mx -> busiest s me (i + Z.of_nat n) (most_loaded s n i me mx v).
Proof.
  revert i mx v. induction n as [|n IH]; intros i mx v Hb Hi Hm; simpl; [by rewrite Z.add_0_r|].
  replace (i + Z.of_nat (S n)) with (i + 1 + Z.of_nat n) by lia. destruct Hb as [H1 H2]. simpl in H1, H2.
  destruct (Z.eqb_spec i me) as [->|Hne]; [|fold (sload s i); destruct (Z.ltb_spec mx (sload s i))]; apply IH; try lia.
  - split; simpl; [intros j Hj Hjm; apply H1; lia|]. destruct H2; [by left|right; lia].
  - split; simpl; [|right; lia]. intros j Hj Hjm. destruct (decide (j = i)) as [->|]; [lia|]. specialize (H1 j). lia.
  - split; simpl; [|destruct H2; [by left|right; lia]]. intros j Hj Hjm.
    destruct (decide (j = i)) as [->|]; [lia|]. specialize (H1 j). lia.
Qed.

(** ** Moving processes *)

(** Only the three documented scheduling classes occur. *)
Definition plain s Q : Prop := forall x, queued Q x ->
  sched_class (procs s x) = SCHED_RT \/ sched_class (procs s x) = SCHED_INTR \/ sched_class (procs s x) = SCHED_BATCH.

(** The move of the first process of queue [c] from CPU [v] to CPU [me]. *)
Definition moved s Q v me c p (q : list pcb_ref) : queues :=
  updQ (updQ Q v c q) me c (pq_insert (prio s) (prio s p) p (Q me c)).

Lemma moved_queued s Q v me c p (q : list pcb_ref) x :
  Q v c = p :: q -> queued (moved s Q v me c p q) x -> queued Q x.
Proof.
  intros Hq (j & d & Hx). unfold moved, updQ in Hx. case_decide as H1; [|case_decide as H2].
  - destruct H1 as [-> ->]. apply pq_insert_elem in Hx as [->|Hx]; [exists v, c; rewrite Hq; set_solver|by exists me, c].
  - destruct H2 as [-> ->]. exists v, c. rewrite Hq. set_solver.
  - by exists j, d.
Qed.

Lemma put_tree_lock s i c t n j : lock (g_runq (put_tree s i c t n) j) = lock (g_runq s j).
Proof. simpl. unfold upd. destruct (Z.eqb_spec j i) as [->|]; [by destruct c|done]. Qed.

Lemma move_ok s Q v me c p (q : list pcb_ref) :
  sched_inv s Q -> on_cpu s v -> on_cpu s me -> v <> me -> Q v c = p :: q ->
  exists s', (let! s := rq_remove s v c p in
              let s := put_pcb s p (set_cpu (procs s p) (u8 me)) in
              let! s := rq_insert s me c p (priority (procs s p)) in
              Ok (Some s)) = Ok (Some s') /\
    sched_inv s' (moved s Q v me c p q) /\ procs s' p = set_cpu (procs s p) me /\
    (forall x, x <> p -> procs s' x = procs s x) /\ (forall j, lock (g_runq s' j) = lock (g_runq s j)) /\
    g_cpu_count s' = g_cpu_count s.
Proof.
  intros Hinv Hv Hme Hne Hq. pose proof Hinv as [Hr Hs Hh Hc].
  destruct (rq_remove_ok s Q v c p [] q Hr Hv Hq) as (t & n & -> & Hr1 & _). cbn [rbind app] in *.
  pose proof (inv_remove _ _ _ _ _ _ _ [] _ Hinv Hq Hr1) as [_ Hs1 Hh1 _]. cbn [app] in *.
  pose proof (removed_unqueued s Q v c p [] q Hr Hv Hq) as Hun. cbn [app] in Hun.
  set (s1 := put_tree s v c t n) in *. set (s2 := put_pcb s1 p _).
  assert (Hp2 : procs s2 p = set_cpu (procs s p) me).
  { unfold s2. rewrite put_pcb_eq. f_equal. apply Z.mod_small. unfold on_cpu, MAX_CPUS in *. lia. }
  assert (Ho2 : forall x, x <> p -> procs s2 x = procs s x) by (intros; unfold s2; by rewrite put_pcb_ne).
  assert (Hprio : forall x, prio s2 x = prio s x).
  { intros x. unfold prio. destruct (decide (x = p)) as [->|]; [by rewrite Hp2|by rewrite Ho2]. }
  assert (Hr2 : runqs s2 (updQ Q v c q)) by by apply runqs_pcb.
  assert (Hvp : valid p). { pose proof (rq_valid _ _ Hr v c) as Hva. rewrite Hq in Hva. by inversion Hva. }
  destruct (rq_insert_ok s2 _ me c p (priority (procs s2 p)) Hr2 Hme Hvp Hun) as (t3 & n3 & q1 & q2 & -> & HQ & Hr3 & _ & Hso).
  cbn [rbind]. eexists. split; [reflexivity|].
  assert (HQme : updQ Q v c q me c = Q me c) by (apply updQ_ne; naive_solver).
  assert (Hq12 : q1 ++ p :: q2 = pq_insert (prio s) (prio s p) p (Q me c)).
  { rewrite Hso by (rewrite HQme; apply (pq_sorted_ext (prio s)); [by intros; rewrite <- Hprio|apply Hs]).
    rewrite HQme. rewrite (pq_insert_ext _ (prio s)) by (intros; apply Hprio). f_equal. exact (Hprio p). }
  rewrite Hq12 in Hr3. split_and!; [|exact Hp2|exact Ho2| |done].
  - split; [exact Hr3| | |done].
    + intros j d. apply (pq_sorted_ext (prio s)); [by intros; rewrite <- Hprio|].
      unfold moved. unfold updQ at 1. case_decide; [apply pq_insert_sorted, Hs|apply Hs1].
    + intros j d x Hx. change (procs _) with (procs s2). unfold moved in Hx.
      destruct (decide (j = me /\ d = c)) as [[-> ->]|Hd].
      * rewrite updQ_eq in Hx. destruct (Hh v c p) as (_ & ? & ? & ?); [rewrite Hq; set_solver|].
        apply pq_insert_elem in Hx as [->|Hx]; [rewrite Hp2; simpl; done|].
        destruct (decide (x = p)) as [->|]; [rewrite Hp2; simpl; done|]. rewrite Ho2 by done. by apply Hh.
      * rewrite updQ_ne in Hx by done. rewrite Ho2; [by apply Hh1|]. intros ->. apply Hun. by eexists _, _.
  - intros j. rewrite put_tree_lock. change (g_runq s2) with (g_runq s1). apply put_tree_lock.
Qed.

(** The queue [steal_one] takes from. *)
Definition steal_from Q v : option (qsel * pcb_ref * list pcb_ref) :=
  match Q v QBATCH, Q v QINTR with
  | p :: q, _ => Some (QBATCH, p, q)
  | [], p :: q => Some (QINTR, p, q)
  | [], [] => None
  end.

Lemma steal_one_ok s Q me v c p (q : list pcb_ref) :
  sched_inv s Q -> plain s Q -> on_cpu s v -> on_cpu s me -> v <> me -> steal_from Q v = Some (c, p, q) ->
  exists s', steal_one s me v = Ok (Some s') /\
    sched_inv s' (moved s Q v me c p q) /\ procs s' p = set_cpu (procs s p) me /\
    (forall x, x <> p -> procs s' x = procs s x) /\ (forall j, lock (g_runq s' j) = lock (g_runq s j)) /\
    g_cpu_count s' = g_cpu_count s.
Proof.
  intros Hinv Hpl Hv Hme Hne Hst. pose proof (inv_runqs _ _ Hinv) as Hr.
  assert (Hq : Q v c = p :: q) by (unfold steal_from in Hst; repeat case_match; simplify_eq; done).
  destruct (move_ok s Q v me c p q Hinv Hv Hme Hne Hq) as (s' & Hs' & Hrest). exists s'. split; [|exact Hrest].
  rewrite <- Hs'. unfold steal_one.
  pose proof (rq_count _ _ Hr v QINTR Hv) as H2. pose proof (rq_count _ _ Hr v QBATCH Hv) as H3. simpl in H2, H3.
  rewrite H2, H3, !(leftmost_queue s Q) by done.
  destruct (inv_homed _ _ Hinv v c p) as (_ & Hcl & _); [rewrite Hq; set_solver|].
  assert (Hpq : queued Q p) by (exists v, c; rewrite Hq; set_solver).
  assert (Hsel : (if sched_class (procs s p) =? SCHED_BATCH then QBATCH else QINTR) = c).
  { unfold steal_from in Hst. destruct (Hpl p Hpq) as [Hx|[Hx|Hx]]; rewrite Hx in Hcl |- *; subst c;
      repeat case_match; simplify_eq; done. }
  unfold steal_from in Hst.
  destruct (Q v QBATCH) as [|x y] eqn:EB; [destruct (Q v QINTR) as [|x y] eqn:EI|]; simplify_eq;
    replace (0 <? Z.of_nat (length (p :: q))) with true by (symmetry; apply Z.ltb_lt; simpl; lia);
    cbn [length]; change (Z.of_nat 0) with 0; rewrite ?Z.ltb_irrefl; cbn [opt rbind head]; by rewrite Hsel.
Qed.

(** What [n] moves from CPU [v] to CPU [me] amount to: the first [n] of the
    batch queue, then of the interactive queue. *)
Record stolen Q Q' v me (n : nat) : Prop := mk_stolen {
  st_batch : Q' v QBATCH = drop n (Q v QBATCH);
  st_intr : Q' v QINTR = drop (n - length (Q v QBATCH)) (Q v QINTR);
  st_to_batch : Q' me QBATCH ≡ₚ take n (Q v QBATCH) ++ Q me QBATCH;
  st_to_intr : Q' me QINTR ≡ₚ take (n - length (Q v QBATCH)) (Q v QINTR) ++ Q me QINTR;
  st_rt : forall j, Q' j QRT = Q j QRT;
  st_other : forall j c, j <> v -> j <> me -> Q' j c = Q j c }.

Lemma pq_insert_perm f key p (q : list pcb_ref) : pq_insert f key p q ≡ₚ p :: q.
Proof.
  induction q as [|y q IH]; simpl; [done|]. destruct (key <? f y); [done|].
  rewrite IH. apply Permutation_swap.
Qed.

Lemma stolen_step s Q Q' v me c p (q : list pcb_ref) n :
  v <> me -> steal_from Q v = Some (c, p, q) -> stolen (moved s Q v me c p q) Q' v me n -> stolen Q Q' v me (S n).
Proof.
  intros Hne Hst [H1 H2 H3 H4 H5 H6]. unfold moved in *. unfold steal_from in Hst.
  destruct (Q v QBATCH) as [|x b] eqn:EB; [destruct (Q v QINTR) as [|x b] eqn:EI; [done|]|]; simplify_eq;
    repeat (rewrite updQ_eq in * || rewrite updQ_ne in * by naive_solver).
  - rewrite EB in *. simpl in *. rewrite Nat.sub_0_r in *. split; rewrite ?EB, ?EI; simpl.
    + by rewrite H1, !drop_nil.
    + done.
    + by rewrite H3, take_nil.
    + rewrite H4, pq_insert_perm. by rewrite Permutation_middle.
    + intros j. rewrite H5. by rewrite !updQ_ne by naive_solver.
    + intros j d ??. rewrite H6 by done. by rewrite !updQ_ne by naive_solver.
  - split; rewrite ?EB; simpl.
    + done.
    + done.
    + rewrite H3, pq_insert_perm. by rewrite Permutation_middle.
    + done.
    + intros j. rewrite H5. by rewrite !updQ_ne by naive_solver.
    + intros j d ??. rewrite H6 by done. by rewrite !updQ_ne by naive_solver.
Qed.

Lemma steal_loop_ok (n : nat) s Q me v :
  sched_inv s Q -> plain s Q -> on_cpu s v -> on_cpu s me -> v <> me ->
  (n <= length (Q v QINTR) + length (Q v QBATCH))%nat ->
  exists s' Q', steal_loop n s me v = Ok s' /\ sched_inv s' Q' /\ stolen Q Q' v me n /\
    (forall j, lock (g_runq s' j) = lock (g_runq s j)).
Proof.
  revert s Q. induction n as [|n IH]; intros s Q Hinv Hpl Hv Hme Hne Hn.
  - exists s, Q. split_and!; [done|done| |done]. split; simpl; done.
  - destruct (steal_from Q v) as [[[c p] q]|] eqn:Hst.
    + destruct (steal_one_ok s Q me v c p q) as (s1 & Hs1 & Hinv1 & Hp1 & Ho1 & Hl1 & Hc1); try done.
      assert (Hq : Q v c = p :: q) by (unfold steal_from in Hst; repeat case_match; simplify_eq; done).
      destruct (IH s1 (moved s Q v me c p q)) as (s' & Q' & Hs' & Hinv' & Hsto & Hl'); try done.
      * intros x Hx. apply moved_queued in Hx; [|done]. specialize (Hpl x Hx).
        destruct (decide (x = p)) as [->|]; [by rewrite Hp1|by rewrite Ho1].
      * unfold on_cpu. by rewrite Hc1.
      * unfold on_cpu. by rewrite Hc1.
      * unfold moved, steal_from in *. repeat case_match; simplify_eq;
          repeat (rewrite updQ_eq in * || rewrite updQ_ne in * by naive_solver);
          repeat match goal with H : Q v _ = _ |- _ => rewrite H in *; clear H end; simpl in *; lia.
      * exists s', Q'. simpl. rewrite Hs1. cbn [rbind]. split_and!; [done|done| |].
        -- by apply (stolen_step s _ _ _ _ c p q).
        -- intros j. by rewrite Hl'.
    + exfalso. unfold steal_from in Hst. repeat case_match; simplify_eq;
        repeat match goal with H : Q v _ = _ |- _ => rewrite H in *; clear H end; simpl in *; lia.
Qed.

Lemma inv_lock s Q i v : sched_inv s Q -> sched_inv (put_rq s i (set_lock (g_runq s i) v)) Q.
Proof. intros [H1 H2 H3 H4]. split; [by apply runqs_lock|done|done|done]. Qed.

Lemma put_lock s i v j : lock (g_runq (put_rq s i (set_lock (g_runq s i) v)) j) = if j =? i then v else lock (g_runq s j).
Proof. simpl. unfold upd. by destruct (j =? i). Qed.

(** [sched_steal] leaves everything alone unless another CPU has at least three interactive and batch
    processes more than this one; then it takes exactly half of those of the busiest CPU, batch first,
    from the front of the queues, and files them on this CPU by priority.  No process is lost or
    duplicated, real-time queues and other CPUs are untouched, both locks are free again, and all queues
    stay balanced, sorted and counted. *)
Theorem sched_steal_correct s Q me :
  sched_inv s Q -> plain s Q -> on_cpu s me -> (forall i, lock (g_runq s i) = 0) ->
  exists s', sched_steal s me = Ok s' /\ (forall i, lock (g_runq s' i) = 0) /\
    ((forall j, on_cpu s j -> j <> me -> sload s j <= sload s me + SCHED_STEAL_THRESHOLD) /\ s' = s \/
     exists v Q', on_cpu s v /\ v <> me /\ (forall j, on_cpu s j -> j <> me -> sload s j <= sload s v) /\
       sload s me + SCHED_STEAL_THRESHOLD < sload s v /\
       sched_inv s' Q' /\ stolen Q Q' v me (Z.to_nat (sload s v / 2))).
Proof.
  intros Hinv Hpl Hme Hl. pose proof Hinv as [Hr _ _ Hc].
  pose proof (sload_ok s Q me Hr Hme) as [_ Hbm]. unfold sched_steal.
  assert (Hb : busiest s me (g_cpu_count s) (most_loaded s (Z.to_nat (g_cpu_count s)) 0 me 0 0)).
  { pose proof (most_loaded_ok s me (Z.to_nat (g_cpu_count s)) 0 0 0) as Hm. rewrite Z2Nat.id in Hm by lia.
    apply Hm; [|lia|lia]. split; simpl; [intros; lia|by left]. }
  destruct (most_loaded _ _ _ _ _ _) as [mx v]. destruct Hb as [Hb1 Hb2]. simpl in Hb1, Hb2.
  fold (sload s me). rewrite u32_small by (unfold SCHED_STEAL_THRESHOLD; lia).
  destruct (Z.leb_spec mx (sload s me + SCHED_STEAL_THRESHOLD)) as [Hle|Hgt].
  { exists s. split_and!; [done|done|]. left. split; [|done]. intros j Hj Hjm. specialize (Hb1 j Hj Hjm). lia. }
  destruct Hb2 as [->|(Hv & Hvm & ->)]; [unfold SCHED_STEAL_THRESHOLD in *; lia|].
  set (a := if me <? v then me else v). set (b := if me <? v then v else me).
  assert (Hab : (a = me /\ b = v \/ a = v /\ b = me) /\ a <> b) by (unfold a, b; destruct (me <? v); naive_solver).
  destruct Hab as [Hab Hne]. rewrite (lock_free s a) by apply Hl. cbn [rbind]. set (s1 := put_rq s a _).
  assert (Hl1 : lock (g_runq s1 b) = 0).
  { unfold s1. rewrite put_lock. by rewrite (proj2 (Z.eqb_neq b a)) by congruence. }
  rewrite (lock_free s1 b) by done. cbn [rbind]. set (s2 := put_rq s1 b _).
  assert (Hinv2 : sched_inv s2 Q) by by apply inv_lock, inv_lock.
  pose proof (sload_ok s2 Q v (inv_runqs _ _ Hinv2) Hv) as [Hs2 Hb2]. pose proof (sload_ok s Q v Hr Hv) as [Hs0 _].
  fold (sload s2 v). rewrite Hs2, <- Hs0.
  destruct (steal_loop_ok (Z.to_nat (sload s v / 2)) s2 Q me v) as (s3 & Q' & -> & Hinv3 & Hsto & Hl3); try done.
  { rewrite Hs0. apply Nat2Z.inj_le. rewrite Z2Nat.id by (apply Z.div_pos; lia). apply Z.div_le_upper_bound; lia. }
  cbn [rbind]. eexists. split; [reflexivity|]. split.
  - intros j. unfold spin_unlock_rq. rewrite put_lock. destruct (Z.eqb_spec j a) as [->|Ha]; [done|].
    rewrite put_lock. destruct (Z.eqb_spec j b) as [->|Hb]; [done|]. rewrite Hl3. unfold s2, s1. rewrite !put_lock.
    rewrite (proj2 (Z.eqb_neq j b)), (proj2 (Z.eqb_neq j a)) by done. apply Hl.
  - right. exists v, Q'. split; [done|]. split; [done|]. split; [done|]. split; [lia|]. split; [by apply inv_lock, inv_lock|done].
Qed.

End Steal.
End SchedSteal.
