(* ===== verification/SchedProc.v ===== *)
(** * Initialisation and creation of processes *)

From S2P Require Import Prelude RbTree RbShape RbInsert RbFixup Sched SchedQueue SchedInv SchedSteal.
From Stdlib Require Import ZArith Lia Bool.
From stdpp Require Import base list gmap numbers sorting.
Import RbTree RbShape RbInsert RbFixup Sched SchedQueue SchedInv SchedSteal.
Open Scope Z_scope.

Module SchedProc.

Section Proc.
Context {E : Type} `{SchedEnv E}.
Variables (kernel_cr3 g_bootstrap_kstack idle_fn : Z).
Implicit Types (s : sched E) (p : pcb_ref) (i : Z) (Q : queues).

Abbreviation init_cpu := (init_cpu kernel_cr3 g_bootstrap_kstack idle_fn).
Abbreviation init_cpus := (init_cpus kernel_cr3 g_bootstrap_kstack idle_fn).
Abbreviation sched_init := (sched_init kernel_cr3 g_bootstrap_kstack idle_fn).

(** ** Initialisation *)

Definition no_queues : queues := fun _ _ => [].

Lemma tree_ok_nil m : tree_ok m None [].
Proof. exists RbShape.E, 0%nat. split_and!; [|constructor|done|done]. split; simpl; [done|done|lia|done]. Qed.

Lemma inv_empty s :
  0 < g_cpu_count s <= MAX_CPUS ->
  (forall i c, on_cpu s i -> tree_of (g_runq s i) c = None /\ count_of (g_runq s i) c = 0) ->
  sched_inv s no_queues.
Proof.
  intros Hc Hq. split; [|intros; constructor|intros ? ? ? Hx; by apply elem_of_nil in Hx|done].
  split; unfold no_queues; intros.
  - rewrite (proj1 (Hq i c ltac:(done))). apply tree_ok_nil.
  - by rewrite (proj2 (Hq i c ltac:(done))).
  - by apply elem_of_nil in H0.
  - constructor.
  - done.
Qed.

(** The fields [sched_kstack_alloc] does not touch. *)
Lemma kstack_alloc_frame s p r s' :
  sched_kstack_alloc s p = (r, s') ->
  exists e f, s' = put_procs (put_env s e) f /\ (forall x, x <> p -> f x = procs s x) /\
    (f p = procs s p \/ exists ks top, f p = set_kstack (procs s p) ks top).
Proof.
  unfold sched_kstack_alloc. intros Hk.
  destruct (negb (kstack (procs s p) =? 0) && negb (kstack_top (procs s p) =? 0)).
  - simplify_eq. exists (env s'), (procs s'). split_and!; [by destruct s'|done|by left].
  - destruct (kmalloc (env s) SCHED_KSTACK_SIZE) as [ks e]. destruct (ks =? 0); simplify_eq.
    + exists e, (procs s). split_and!; [by destruct s|done|by left].
    + eexists e, _. split_and!; [reflexivity| |].
      * intros x Hx. simpl. by rewrite decide_False.
      * right. eexists _, _. simpl. by rewrite decide_True.
Qed.

(** What [sched_init] leaves for a CPU. *)
Definition idle_cpu s i : Prop :=
  lock (g_runq s i) = 0 /\ (forall c, tree_of (g_runq s i) c = None /\ count_of (g_runq s i) c = 0) /\
  current (g_runq s i) = Some (Idle i) /\ idle_pcb (g_runq s i) = Some (Idle i) /\ g_current s i = Some (Idle i).

Lemma init_cpu_ok s i :
  idle_cpu (init_cpu s i) i /\ g_cpu_count (init_cpu s i) = g_cpu_count s /\
  g_next_pid (init_cpu s i) = g_next_pid s /\ g_proc_count (init_cpu s i) = g_proc_count s /\
  (forall j, j <> i -> g_runq (init_cpu s i) j = g_runq s j /\ g_current (init_cpu s i) j = g_current s j).
Proof.
  unfold Sched.init_cpu. set (s1 := put_pcb _ (Idle i) _).
  destruct (sched_kstack_alloc s1 (Idle i)) as [r s2] eqn:Hk.
  apply kstack_alloc_frame in Hk as (e & f & -> & _ & _). cbv zeta.
  destruct (r =? 0); unfold idle_cpu; simpl; unfold upd; rewrite !Z.eqb_refl; simpl;
    (split_and!; [done|by intros []|done|done|done|done|done|done|]);
    intros j Hj; by rewrite !(proj2 (Z.eqb_neq j i)) by done.
Qed.

Lemma init_cpus_ok (n : nat) s i :
  let s' := init_cpus s n i in
  (forall j, i <= j < i + Z.of_nat n -> idle_cpu s' j) /\
  (forall j, j < i \/ i + Z.of_nat n <= j -> g_runq s' j = g_runq s j /\ g_current s' j = g_current s j) /\
  g_cpu_count s' = g_cpu_count s /\ g_next_pid s' = g_next_pid s /\ g_proc_count s' = g_proc_count s.
Proof.
  revert s i. induction n as [|n IH]; intros s i; simpl.
  - split_and!; [lia|done|done|done|done].
  - destruct (init_cpu_ok s i) as (Ha & Hb & Hc & Hd & He).
    destruct (IH (init_cpu s i) (i + 1)) as (H1 & H2 & H3 & H4 & H5).
    split_and!; [| |congruence..].
    + intros j Hj. destruct (decide (j = i)) as [->|]; [|apply H1; lia].
      unfold idle_cpu. destruct (H2 i) as [-> ->]; [lia|]. exact Ha.
    + intros j Hj. destruct (H2 j) as [-> ->]; [lia|]. apply He. lia.
Qed.

(** [sched_init] brings up every CPU, at most 64, with empty queues, free locks and its idle process
    running, and establishes the scheduler's invariant, whatever the memory held before. *)
Lemma sched_init_ok s (n : Z) :
  0 < n ->
  sched_inv (sched_init s n) no_queues /\ g_cpu_count (sched_init s n) = Z.min n MAX_CPUS /\
  g_next_pid (sched_init s n) = 1 /\ g_proc_count (sched_init s n) = 0 /\
  (forall i, on_cpu (sched_init s n) i -> idle_cpu (sched_init s n) i) /\
  (forall i, ~ on_cpu (sched_init s n) i -> g_runq (sched_init s n) i = g_runq s i).
Proof.
  intros Hn. unfold Sched.sched_init. set (cnt := if MAX_CPUS <? n then MAX_CPUS else n).
  assert (Hcnt : cnt = Z.min n MAX_CPUS) by (unfold cnt; destruct (Z.ltb_spec MAX_CPUS n); lia).
  assert (0 < cnt <= MAX_CPUS) by (unfold MAX_CPUS in *; lia).
  set (s1 := put_g_proc_count _ 0). destruct (init_cpus_ok (Z.to_nat cnt) s1 0) as (H1 & H2 & H3 & H4 & H5).
  change (g_cpu_count s1) with cnt in *. cbv zeta in *. rewrite Z2Nat.id in H1, H2 by lia.
  set (s2 := init_cpus s1 (Z.to_nat cnt) 0) in *. clearbody s2.
  assert (Hall : forall i, 0 <= i < cnt -> idle_cpu s2 i) by (intros; apply H1; lia).
  split_and!; [|simpl; lia|done|done|..].
  - apply inv_empty; unfold on_cpu; simpl; rewrite H3; [done|]. intros i c Hi. apply (Hall i Hi).
  - intros i Hi. unfold on_cpu in Hi. simpl in Hi. rewrite H3 in Hi. exact (Hall i Hi).
  - intros i Hi. unfold on_cpu in Hi. simpl in Hi. rewrite H3 in Hi. apply (H2 i). lia.
Qed.

(** ** The search for a slot *)

Lemma slot_busy_mod s k : slot_busy s (k mod MAX_PROCS) = slot_busy s k.
Proof. unfold slot_busy. by rewrite Z.mod_mod. Qed.

Lemma find_slot_ok (fuel : nat) s k :
  g_next_pid s <= k -> k + Z.of_nat fuel < 2 ^ 32 -> 0 <= g_next_pid s ->
  match find_slot fuel s k with
  | Some r => k <= r < k + Z.of_nat fuel /\ slot_busy s r = false /\ (forall j, k <= j < r -> slot_busy s j = true)
  | None => forall j, k <= j < k + Z.of_nat fuel -> slot_busy s j = true
  end.
Proof.
  revert k. induction fuel as [|fuel IH]; intros k Hk Hf Hn; simpl; [lia|].
  destruct (slot_busy s k) eqn:Hb; [|split_and!; [lia|lia|done|lia]].
  rewrite (u32_small (k + 1)) by lia. rewrite (proj2 (Z.eqb_neq _ _)) by lia.
  specialize (IH (k + 1) ltac:(lia) ltac:(lia) Hn). destruct (find_slot fuel s (k + 1)) as [r|].
  - destruct IH as (H1 & H2 & H3). split_and!; [lia|lia|done|].
    intros j Hj. destruct (decide (j = k)) as [->|]; [done|]. apply H3. lia.
  - intros j Hj. destruct (decide (j = k)) as [->|]; [done|]. apply IH. lia.
Qed.

(** Any 4096 consecutive process ids cover the table. *)
Lemma turn_covers s n :
  0 <= n -> (forall j, n <= j < n + MAX_PROCS -> slot_busy s j = true) -> forall k, slot_busy s k = true.
Proof.
  intros Hn Hs k. rewrite <- slot_busy_mod. set (d := (k - n) mod MAX_PROCS).
  pose proof (Z.mod_pos_bound (k - n) MAX_PROCS ltac:(done)) as Hd. fold d in Hd.
  replace (k mod MAX_PROCS) with ((n + d) mod MAX_PROCS).
  - rewrite slot_busy_mod. apply Hs. lia.
  - unfold d. rewrite Zplus_mod_idemp_r. f_equal. lia.
Qed.

(** One turn over the table is enough: the loop of the source, which may go on
    for [2 ^ 32] rounds, finds a slot exactly when the first turn does. *)
Lemma find_slot_enough (extra : nat) s :
  0 <= g_next_pid s < MAX_PROCS ->
  find_slot (slot_fuel + extra) s (g_next_pid s) = find_slot slot_fuel s (g_next_pid s).
Proof.
  intros Hn.
  assert (Hmono : forall f g k r, find_slot f s k = Some r -> find_slot (f + g) s k = Some r).
  { induction f as [|f IH]; intros g k r; simpl; [done|]. destruct (slot_busy s k); [|done].
    case_match; [done|]. apply IH. }
  assert (Hnone : forall f k, (forall j, slot_busy s j = true) -> find_slot f s k = None).
  { induction f as [|f IH]; intros k Hall; simpl; [done|]. rewrite Hall. case_match; [done|by apply IH]. }
  assert (Hfu : Z.of_nat slot_fuel = MAX_PROCS) by (unfold slot_fuel, MAX_PROCS; by rewrite Z2Nat.id).
  pose proof (find_slot_ok slot_fuel s (g_next_pid s)) as Hs. rewrite Hfu in Hs.
  destruct (find_slot slot_fuel s (g_next_pid s)) as [r|] eqn:Hf; [by apply Hmono|].
  apply Hnone. apply (turn_covers s (g_next_pid s)); [lia|]. apply Hs; unfold MAX_PROCS in *; lia.
Qed.

(** ** Spawning *)

Lemma inv_ext s s' Q :
  rqnodes s' = rqnodes s -> g_cpu_count s' = g_cpu_count s ->
  (forall i c, tree_of (g_runq s' i) c = tree_of (g_runq s i) c /\ count_of (g_runq s' i) c = count_of (g_runq s i) c) ->
  (forall x, queued Q x -> procs s' x = procs s x) -> sched_inv s Q -> sched_inv s' Q.
Proof.
  intros Hn Hc Hq Hp [H1 H2 H3 H4]. split.
  - by apply (runqs_ext s).
  - intros i c. apply (pq_sorted_ext (prio s)); [|apply H2]. intros x Hx. unfold prio. rewrite Hp; [done|by eexists _, _].
  - intros i c x Hx. rewrite Hp by by eexists _, _. by apply H3.
  - by rewrite Hc.
Qed.

Lemma inv_frame s s' Q :
  rqnodes s' = rqnodes s -> g_runq s' = g_runq s -> g_cpu_count s' = g_cpu_count s ->
  (forall x, queued Q x -> procs s' x = procs s x) -> sched_inv s Q -> sched_inv s' Q.
Proof. intros Hn Hq Hc Hp. apply inv_ext; [done|done|by rewrite Hq|done]. Qed.

Lemma inv_node s Q p n : sched_inv s Q -> ~ queued Q p -> sched_inv (put_rqnodes s (put p n (rqnodes s))) Q.
Proof. intros [H1 H2 H3 H4] Hq. split; [by apply runqs_node|done|done|done]. Qed.

(** A free slot is on no queue. *)
Lemma free_unqueued s Q k : sched_inv s Q -> slot_busy s k = false -> ~ queued Q (Proc (k mod MAX_PROCS)).
Proof.
  intros Hinv Hb (i & c & Hx). destruct (inv_homed _ _ Hinv i c _ Hx) as (_ & _ & Hst & Hpid).
  unfold slot_busy in Hb. rewrite Hst in Hb. apply Z.eqb_neq in Hpid. by rewrite Hpid in Hb.
Qed.

(** What [sched_spawn] promises about the new process. *)
Record spawned s (a : spawn_args_t) (r : Z) (v : pcb_t) : Prop := mk_spawned {
  sp_pid : pid v = r;
  sp_state : state v = PROC_NEW;
  sp_class : sched_class v = a_class a;
  sp_pri : priority v = i16 (a_priority a) /\ base_pri v = i16 (a_priority a);
  sp_cpu : cpu v = if a_cpu_affinity a =? 255 then u8 (g_cpu_count s) else a_cpu_affinity a;
  sp_name : name v = take 31 (basename (a_binary a) (a_binary a));
  sp_parent : ppid v = match sched_current s with Some q => pid (procs s q) | None => 1 end;
  sp_stack : kstack v <> 0 /\ kstack_top v = u64 (kstack v + SCHED_KSTACK_SIZE);
  sp_deadline : deadline_ns v = UINT64_MAX }.

Lemma inherit_frame s p :
  exists e d, inherit s p =
    put_env (put_pcb s p (set_parent_info (procs s p)
      (match sched_current s with Some q => pid (procs s q) | None => 1 end) d)) e.
Proof.
  unfold inherit. destruct (sched_current s) as [par|]; [by eexists _, _|].
  exists (env s), [47]. by destruct s.
Qed.

(** The kernel stack of a new process. *)
Lemma kstack_alloc_new s p :
  kstack (procs s p) = 0 ->
  let ks := (kmalloc (env s) SCHED_KSTACK_SIZE).1 in let e := (kmalloc (env s) SCHED_KSTACK_SIZE).2 in
  sched_kstack_alloc s p =
    if ks =? 0 then (-1, put_env s e)
    else (0, put_pcb (put_env s e) p (set_kstack (procs s p) ks (u64 (ks + SCHED_KSTACK_SIZE)))).
Proof.
  intros Hk. unfold sched_kstack_alloc. rewrite Hk. simpl. by destruct (kmalloc (env s) SCHED_KSTACK_SIZE) as [ks e].
Qed.

(** The slot a spawn takes, reset and filled. *)
Definition spawn_slot s (a : spawn_args_t) (r : Z) : sched E :=
  let n := u32 (r + 1) mod MAX_PROCS in
  let s := put_g_next_pid s (if n =? 0 then 1 else n) in
  let p := Proc (r mod MAX_PROCS) in
  let s := put_rqnodes s (put p zero_node (rqnodes s)) in
  let s := put_pcb s p (new_pcb s a r) in
  inherit s p.

(** The end of a successful spawn. *)
Definition spawn_finish s (a : spawn_args_t) (r : Z) : sched E :=
  let p := Proc (r mod MAX_PROCS) in
  let s := put_g_proc_count s (u32 (g_proc_count s + 1)) in
  let s := spin_unlock_table s in
  let '(m, s) := if a_va_map a =? 0
                 then let '(m, e) := amm_vmap_create (env s) in (m, put_env s e)
                 else (a_va_map a, s) in
  let s := put_pcb s p (set_va_map (procs s p) m) in
  let r := regs (procs s p) in
  let s := put_pcb s p (set_regs (procs s p) (mkRegs (rsp r) (rip r) 514 (cr3 r) 8 16)) in
  let s := put_pcb s p (set_state (procs s p) PROC_NEW) in
  put_pcb s p (set_deadline_ns (procs s p) UINT64_MAX).

Lemma sched_spawn_eq s a :
  sched_spawn s a =
    let! s := spin_lock_table s in
    if MAX_PROCS <=? g_proc_count s then Ok (0, spin_unlock_table s)
    else match find_slot slot_fuel s (g_next_pid s) with
         | None => Ok (0, spin_unlock_table s)
         | Some r =>
             let '(k, s) := sched_kstack_alloc (spawn_slot s a r) (Proc (r mod MAX_PROCS)) in
             if negb (k =? 0) then Ok (0, spin_unlock_table s) else Ok (r, spawn_finish s a r)
         end.
Proof.
  unfold sched_spawn, spawn_slot, spawn_finish. destruct (spin_lock_table s) as [s1| |]; cbn [rbind]; [|done..].
  case_match; [done|]. destruct (find_slot slot_fuel s1 (g_next_pid s1)) as [r|]; [|done].
  destruct (sched_kstack_alloc _ _) as [k s2]. case_match; [done|]. destruct (a_va_map a =? 0); [by destruct (amm_vmap_create _)|done].
Qed.

(** The running process is not a free slot. *)
Definition cur_live s : Prop := forall k, sched_current s = Some (Proc k) -> 0 <= k < MAX_PROCS /\ slot_busy s k = true.

Lemma spawn_slot_ok s a r Q :
  sched_inv s Q -> slot_busy s r = false -> cur_live s ->
  let p := Proc (r mod MAX_PROCS) in let s' := spawn_slot s a r in
  exists d, procs s' p = set_parent_info (new_pcb s a r) (match sched_current s with Some q => pid (procs s q) | None => 1 end) d /\
  (forall x, x <> p -> procs s' x = procs s x) /\ sched_inv s' Q /\ g_proc_count s' = g_proc_count s /\
  g_proc_table_lock s' = g_proc_table_lock s.
Proof.
  intros Hinv Hb Hcur. pose proof (free_unqueued s Q r Hinv Hb) as Hun. simpl.
  unfold spawn_slot. set (p := Proc (r mod MAX_PROCS)) in *. cbv zeta. set (s1 := put_pcb _ p _).
  destruct (inherit_frame s1 p) as (e & d & ->). exists d.
  assert (Hpp : match sched_current s1 with Some q => pid (procs s1 q) | None => 1 end =
                match sched_current s with Some q => pid (procs s q) | None => 1 end).
  { change (sched_current s1) with (sched_current s). destruct (sched_current s) as [q|] eqn:Hq; [|done].
    unfold s1. rewrite put_pcb_ne; [done|]. intros ->. destruct (Hcur _ Hq) as [_ Hbusy].
    by rewrite slot_busy_mod, Hb in Hbusy. }
  rewrite Hpp. change (procs (put_env ?a ?b)) with (procs a). split_and!; [..|done|done].
  - rewrite put_pcb_eq. unfold s1. by rewrite put_pcb_eq.
  - intros x Hx. rewrite put_pcb_ne by done. unfold s1. by rewrite put_pcb_ne.
  - pose proof (inv_node s Q p zero_node Hinv Hun) as Hn. revert Hn. apply inv_frame; [done|done|done|].
    intros x Hx. change (procs (put_env ?a ?b)) with (procs a).
    assert (x <> p) by (intros ->; done). rewrite put_pcb_ne by done. unfold s1. by rewrite put_pcb_ne.
Qed.

Lemma spawn_finish_ok s a r :
  let p := Proc (r mod MAX_PROCS) in let s' := spawn_finish s a r in
  exists m c, procs s' p = set_deadline_ns (set_state (set_regs (set_va_map (procs s p) m) c) PROC_NEW) UINT64_MAX /\
    (forall x, x <> p -> procs s' x = procs s x) /\ rqnodes s' = rqnodes s /\ g_runq s' = g_runq s /\
    g_cpu_count s' = g_cpu_count s /\ g_proc_count s' = u32 (g_proc_count s + 1) /\ g_proc_table_lock s' = 0.
Proof.
  cbv zeta. unfold spawn_finish. set (p := Proc (r mod MAX_PROCS)). set (s1 := spin_unlock_table _).
  assert (Hs : forall m e,
    let s := put_env s1 e in
    let s := put_pcb s p (set_va_map (procs s p) m) in
    let r := regs (procs s p) in
    let s := put_pcb s p (set_regs (procs s p) (mkRegs (rsp r) (rip r) 514 (cr3 r) 8 16)) in
    let s := put_pcb s p (set_state (procs s p) PROC_NEW) in
    let s' := put_pcb s p (set_deadline_ns (procs s p) UINT64_MAX) in
    exists c, procs s' p = set_deadline_ns (set_state (set_regs (set_va_map (procs s1 p) m) c) PROC_NEW) UINT64_MAX /\
      (forall x, x <> p -> procs s' x = procs s1 x)).
  { intros m e. cbv zeta. eexists. split; [by rewrite !put_pcb_eq|]. intros x Hx. by rewrite !put_pcb_ne. }
  destruct (a_va_map a =? 0).
  - destruct (amm_vmap_create (env s1)) as [m e]. destruct (Hs m e) as (c & H1 & H2). by exists m, c.
  - destruct (Hs (a_va_map a) (env s1)) as (c & H1 & H2). by exists (a_va_map a), c.
Qed.

Lemma sched_spawn_ok s Q a :
  sched_inv s Q -> cur_live s -> g_proc_table_lock s = 0 -> 0 < g_next_pid s < MAX_PROCS -> 0 <= g_proc_count s ->
  exists r s', sched_spawn s a = Ok (r, s') /\ sched_inv s' Q /\ g_proc_table_lock s' = 0 /\
    (r = 0 /\ g_proc_count s' = g_proc_count s /\
       (MAX_PROCS <= g_proc_count s \/ (forall k, slot_busy s k = true) \/
        exists k, slot_busy s k = false /\
          (kmalloc (env (spawn_slot (put_g_proc_table_lock s 1) a k)) SCHED_KSTACK_SIZE).1 = 0) \/
     0 < r /\ g_proc_count s' = g_proc_count s + 1 /\
       slot_busy s r = false /\ (forall k, g_next_pid s <= k < r -> slot_busy s k = true) /\
       spawned s a r (procs s' (Proc (r mod MAX_PROCS))) /\
       (forall x, x <> Proc (r mod MAX_PROCS) -> procs s' x = procs s x) /\
       (r < MAX_PROCS -> sched_find s' r = Some (Proc r))).
Proof.
  intros Hinv Hcur Hl Hn Hc. rewrite sched_spawn_eq. unfold spin_lock_table. rewrite Hl. cbn [rbind Z.eqb].
  set (s1 := put_g_proc_table_lock s 1).
  assert (Hinv1 : sched_inv s1 Q) by by apply (inv_frame s).
  destruct (Z.leb_spec MAX_PROCS (g_proc_count s1)) as [Hfull|Hroom].
  { exists 0, (spin_unlock_table s1). split_and!; [done|by apply (inv_frame s)|done|left; auto]. }
  assert (Hfu : Z.of_nat slot_fuel = MAX_PROCS) by (unfold slot_fuel, MAX_PROCS; by rewrite Z2Nat.id).
  pose proof (find_slot_ok slot_fuel s1 (g_next_pid s1)) as Hs. rewrite Hfu in Hs.
  specialize (Hs ltac:(lia) ltac:(unfold MAX_PROCS in *; simpl; lia) ltac:(simpl; lia)).
  destruct (find_slot slot_fuel s1 (g_next_pid s1)) as [r|].
  2:{ exists 0, (spin_unlock_table s1). split_and!; [done|by apply (inv_frame s)|done|left]. split_and!; [done|done|].
      right. left. apply (turn_covers s1 (g_next_pid s1)); [simpl; lia|done]. }
  destruct Hs as (Hr & Hb & Hmin).
  destruct (spawn_slot_ok s1 a r Q Hinv1 Hb) as (d & Hp & Ho & Hinv2 & Hpc & Hpl); [done|].
  set (p := Proc (r mod MAX_PROCS)) in *. set (s2 := spawn_slot s1 a r) in *.
  rewrite (kstack_alloc_new s2 p) by by rewrite Hp.
  destruct (kmalloc (env s2) SCHED_KSTACK_SIZE) as [ks e] eqn:Hk. cbn [fst snd]. cbv zeta.
  destruct (Z.eqb_spec ks 0) as [->|Hks]; cbn [negb Z.eqb].
  { exists 0, (spin_unlock_table (put_env s2 e)). split_and!; [done|by apply (inv_frame s2)|done|left].
    split_and!; [done|done|]. right. right. exists r. split; [done|]. fold s1 s2. by rewrite Hk. }
  set (s3 := put_pcb (put_env s2 e) p _).
  destruct (spawn_finish_ok s3 a r) as (m & c & Hfp & Hfo & Hf1 & Hf2 & Hf3 & Hfc & Hfl). fold p in Hfp, Hfo.
  set (s4 := spawn_finish s3 a r) in *.
  assert (Hp3 : procs s3 p = set_kstack (procs s2 p) ks (u64 (ks + SCHED_KSTACK_SIZE))) by (unfold s3; by rewrite put_pcb_eq).
  assert (Ho3 : forall x, x <> p -> procs s3 x = procs s x).
  { intros x Hx. unfold s3. rewrite put_pcb_ne by done. by apply Ho. }
  exists r, s4. split; [reflexivity|]. split_and!.
  - revert Hinv2. apply inv_frame; [by rewrite Hf1|by rewrite Hf2|by rewrite Hf3|]. intros x Hx.
    assert (x <> p) by (intros ->; by apply (free_unqueued s1 Q r Hinv1 Hb)).
    rewrite Hfo by done. unfold s3. by rewrite put_pcb_ne.
  - done.
  - right. split_and!.
    + simpl in Hr; lia.
    + rewrite Hfc. change (g_proc_count s3) with (g_proc_count s2). rewrite Hpc. apply u32_small.
      simpl in *. unfold MAX_PROCS in *. lia.
    + done.
    + done.
    + fold p. rewrite Hfp, Hp3, Hp. by split.
    + intros x Hx. rewrite Hfo by done. by apply Ho3.
    + intros Hlt. simpl in Hr. assert (Hm : r mod MAX_PROCS = r) by (apply Z.mod_small; lia).
      unfold sched_find. rewrite (proj2 (Z.eqb_neq r 0)), (proj2 (Z.leb_gt MAX_PROCS r)) by lia. cbn [orb]. cbv zeta.
      fold p. rewrite Hfp, Hp3, Hp. cbn. rewrite Z.eqb_refl. unfold p. by rewrite Hm.
Qed.

Lemma spawn_slot_queues s a k : g_runq (spawn_slot s a k) = g_runq s /\ g_cpu_count (spawn_slot s a k) = g_cpu_count s.
Proof.
  unfold spawn_slot. cbv zeta. match goal with |- context [inherit ?x ?p] => destruct (inherit_frame x p) as (e & d & ->) end. done.
Qed.

(** Its calls into other components, when it is given an address space. *)
Lemma sched_spawn_env (R : E -> E -> Prop) s a r s' :
  (forall e, R e e) -> (forall e f g, R e f -> R f g -> R e g) ->
  (forall e p q, R e (vfs_fd_inherit e p q)) -> (forall e n, R e (kmalloc e n).2) ->
  sched_spawn s a = Ok (r, s') -> a_va_map a <> 0 -> R (env s) (env s').
Proof.
  intros Hr Ht Hi Hk. rewrite sched_spawn_eq. unfold spin_lock_table. destruct (g_proc_table_lock s =? 0); cbn [rbind]; [|done].
  set (s1 := put_g_proc_table_lock s 1).
  destruct (MAX_PROCS <=? g_proc_count s1); [by intros [= <- <-] _; apply Hr|].
  destruct (find_slot slot_fuel s1 (g_next_pid s1)) as [k|]; [|by intros [= <- <-] _; apply Hr].
  set (p := Proc (k mod MAX_PROCS)).
  assert (H1 : R (env s) (env (spawn_slot s1 a k))).
  { unfold spawn_slot, inherit. cbv zeta. destruct (sched_current _); [apply Hi|apply Hr]. }
  destruct (sched_kstack_alloc (spawn_slot s1 a k) p) as [c s2] eqn:Ek.
  assert (H2 : R (env s) (env s2)).
  { unfold sched_kstack_alloc in Ek. destruct (negb _ && negb _); [by injection Ek as <- <-|].
    pose proof (Hk (env (spawn_slot s1 a k)) SCHED_KSTACK_SIZE) as H3. destruct (kmalloc _ _) as [ks e'].
    destruct (ks =? 0); injection Ek as <- <-; by eapply Ht. }
  destruct (negb (c =? 0)); [by intros [= <- <-]|]. intros [= <- <-] Ha.
  unfold spawn_finish. by rewrite (proj2 (Z.eqb_neq _ _)).
Qed.

(** What a spawn leaves alone, and the address space it was given. *)
Lemma sched_spawn_frame s a r s' : sched_spawn s a = Ok (r, s') ->
  g_runq s' = g_runq s /\ g_cpu_count s' = g_cpu_count s /\
  (a_va_map a <> 0 -> r <> 0 -> va_map (procs s' (Proc (r mod MAX_PROCS))) = a_va_map a).
Proof.
  rewrite sched_spawn_eq. unfold spin_lock_table. destruct (g_proc_table_lock s =? 0); cbn [rbind]; [|done].
  set (s1 := put_g_proc_table_lock s 1).
  assert (Hz : forall s2, g_runq s2 = g_runq s -> g_cpu_count s2 = g_cpu_count s -> Ok (0, spin_unlock_table s2) = Ok (r, s') ->
    g_runq s' = g_runq s /\ g_cpu_count s' = g_cpu_count s /\
    (a_va_map a <> 0 -> r <> 0 -> va_map (procs s' (Proc (r mod MAX_PROCS))) = a_va_map a)).
  { intros s2 H1 H2 [= <- <-]. split_and!; [done|done|]. intros _ Hr. done. }
  destruct (MAX_PROCS <=? g_proc_count s1); [by apply Hz|].
  destruct (find_slot slot_fuel s1 (g_next_pid s1)) as [k|]; [|by apply Hz].
  set (p := Proc (k mod MAX_PROCS)). destruct (spawn_slot_queues s1 a k) as [Hq Hc].
  destruct (sched_kstack_alloc (spawn_slot s1 a k) p) as [c s2] eqn:Ek.
  assert (H2 : g_runq s2 = g_runq s /\ g_cpu_count s2 = g_cpu_count s).
  { unfold sched_kstack_alloc in Ek. destruct (negb _ && negb _); [by injection Ek as <- <-|].
    destruct (kmalloc _ _) as [ks e']. destruct (ks =? 0); by injection Ek as <- <-. }
  destruct H2 as [H2 H3]. destruct (negb (c =? 0)); [by apply Hz|]. intros [= <- <-].
  unfold spawn_finish. fold p. destruct (Z.eqb_spec (a_va_map a) 0) as [E0|E0].
  - destruct (amm_vmap_create _) as [m e]. split_and!; [done|done|]. done.
  - split_and!; [done|done|]. intros _ _. by rewrite !put_pcb_eq.
Qed.

(** C31: [sched_spawn] returns 0 only if 4096 processes exist, if all 4096 slots are taken, or if there is no
    memory for a kernel stack; otherwise it fills the first free slot from [g_next_pid] on with a new process
    made from the arguments, with its own stack and the caller as parent, counts it, and returns its pid, by
    which [sched_find] finds it if it is below 4096.  No other process and no run queue changes, and the
    table's lock is free again in every case. *)
Theorem sched_spawn_correct s Q a :
  sched_inv s Q -> cur_live s -> g_proc_table_lock s = 0 -> 0 < g_next_pid s < MAX_PROCS -> 0 <= g_proc_count s ->
  exists r s', sched_spawn s a = Ok (r, s') /\ sched_inv s' Q /\ g_proc_table_lock s' = 0 /\
    (r = 0 /\ g_proc_count s' = g_proc_count s /\
       (MAX_PROCS <= g_proc_count s \/ (forall k, slot_busy s k = true) \/
        exists k, slot_busy s k = false /\
          (kmalloc (env (spawn_slot (put_g_proc_table_lock s 1) a k)) SCHED_KSTACK_SIZE).1 = 0) \/
     0 < r /\ g_proc_count s' = g_proc_count s + 1 /\
       slot_busy s r = false /\ (forall k, g_next_pid s <= k < r -> slot_busy s k = true) /\
       spawned s a r (procs s' (Proc (r mod MAX_PROCS))) /\
       (forall x, x <> Proc (r mod MAX_PROCS) -> procs s' x = procs s x) /\
       (r < MAX_PROCS -> sched_find s' r = Some (Proc r))).
Proof. apply sched_spawn_ok. Qed.

End Proc.
End SchedProc.
