(* ===== verification/SchedReap.v ===== *)
(** * Waiting for a child, switching and waking *)

From S2P Require Import Prelude RbTree RbShape RbInsert RbFixup Sched SchedQueue SchedInv SchedSteal SchedProc.
From Stdlib Require Import ZArith Lia Bool.
From stdpp Require Import base list gmap numbers sorting.
Import RbTree RbShape RbInsert RbFixup Sched SchedQueue SchedInv SchedSteal SchedProc.
Open Scope Z_scope.

Module SchedReap.

Section Reap.
Context {E : Type} `{SchedEnv E}.
Variables (kernel_cr3 g_bootstrap_kstack : Z).
Implicit Types (s : sched E) (p w : pcb_ref) (i : Z) (Q : queues).

Abbreviation sched_exit := (sched_exit kernel_cr3 g_bootstrap_kstack).
Abbreviation sched_reap_begin := (sched_reap_begin kernel_cr3).
Abbreviation sched_reap_end := (sched_reap_end g_bootstrap_kstack).
Abbreviation sched_load_cr3 := (sched_load_cr3 kernel_cr3).
Abbreviation sched_switch_to := (sched_switch_to kernel_cr3).
Abbreviation sched_yield := (sched_yield kernel_cr3).
Abbreviation sched_tick := (sched_tick kernel_cr3).

(** ** [sched_reap] up to the child's run *)

Lemma load_cr3_frame s c : exists v, sched_load_cr3 s c = put_cpu_cr3 s v.
Proof.
  unfold Sched.sched_load_cr3. destruct (c =? 0); case_match; try by eexists.
  all: exists (cpu_cr3 s); by destruct s.
Qed.

Lemma thread_switch_frame s v : exists k, syscall_on_thread_switch s v = put_kernel_rsp s k.
Proof.
  unfold syscall_on_thread_switch. destruct v as [p|]; [destruct (kstack_top (procs s p) =? 0)|].
  2: by eexists.
  all: exists (kernel_rsp s); by destruct s.
Qed.

(** The state in which a child [p] runs while [w] waits for it. *)
Definition waiting_for s p w : Prop :=
  g_current s this_cpu_id = Some p /\ g_reap_waiter s = Some w /\ g_reap_jmp_active s <> 0.

Lemma reap_begin_ok s Q k p w c (q1 q2 : list pcb_ref) :
  sched_inv s Q -> sched_find s k = Some p -> Q this_cpu_id c = q1 ++ p :: q2 ->
  sched_current s = Some w -> w <> p -> lock (g_runq s this_cpu_id) = 0 -> rip (regs (procs s p)) <> 0 ->
  exists s', sched_reap_begin s k = Ok (Some (mkFrame p (Some w) (sched_class (procs s p)) (priority (procs s p)), Some p), s') /\
    waiting_for s' p w /\ sched_inv s' (updQ Q this_cpu_id c (q1 ++ q2)) /\ ~ queued (updQ Q this_cpu_id c (q1 ++ q2)) p /\
    state (procs s' p) = PROC_RUN /\ (forall x, x <> p -> procs s' x = procs s x) /\
    lock (g_runq s' this_cpu_id) = 0 /\ g_proc_table_lock s' = g_proc_table_lock s /\
    g_proc_count s' = g_proc_count s /\ env s' = env s.
Proof.
  intros Hinv Hf Hq Hcur Hwp Hl Hrip.
  assert (Hi : on_cpu s this_cpu_id) by (destruct Hinv; unfold on_cpu, this_cpu_id; lia).
  destruct (inv_homed _ _ Hinv this_cpu_id c p) as (_ & _ & Hst & _); [rewrite Hq; set_solver|].
  unfold Sched.sched_reap_begin. rewrite Hf, Hcur.
  set (s1 := put_g_reap_jmp_active _ 1).
  change (procs s1) with (procs s). rewrite Hst. rewrite (proj2 (Z.eqb_neq _ _) Hrip). cbn [andb negb Z.eqb Pos.eqb PROC_READY].
  rewrite (lock_free s1) by done. cbn [rbind]. set (s2 := put_rq s1 this_cpu_id _).
  assert (Hinv2 : sched_inv s2 Q) by (apply inv_lock; by apply (inv_frame s)).
  destruct (takeoff_ok s2 Q this_cpu_id p c q1 q2 Hinv2 Hi Hq) as (s3 & -> & Hinv3 & Hun & Hp3 & _ & (t & n & ->)).
  cbn [rbind].
  set (s4 := spin_unlock_rq _ _). set (s5 := put_pcb (put_pcb s4 p _) p _). set (s6 := put_rq _ _ _).
  set (s7 := put_pcb s6 p _). destruct (thread_switch_frame s7 (Some p)) as [kr ->].
  destruct (load_cr3_frame (put_kernel_rsp s7 kr) (cr3 (regs (procs (put_kernel_rsp s7 kr) p)))) as [v ->].
  eexists. split; [reflexivity|]. split_and!; try done.
  - revert Hinv3. apply inv_ext; [done|done| |].
    + intros j d. simpl. unfold upd. destruct (Z.eqb_spec j this_cpu_id) as [->|]; [|done]. by destruct d.
    + intros x Hx. assert (x <> p) by (intros ->; done). simpl. by rewrite !decide_False.
  - simpl. by rewrite decide_True.
  - intros x Hx. simpl. by rewrite !decide_False.
Qed.

(** ** The child's exit *)

Lemma sig_id (v : pcb_t) : set_sig_pending v (sig_pending v) = v.
Proof. by destruct v. Qed.

Lemma notify_frame s p : exists f, notify_parent s p = put_procs s f /\
  forall x, exists g, f x = set_sig_pending (procs s x) g.
Proof.
  assert (Hid : exists f, s = put_procs s f /\ forall x, exists g, f x = set_sig_pending (procs s x) g).
  { exists (procs s). split; [by destruct s|]. intros x. exists (sig_pending (procs s x)). by rewrite sig_id. }
  unfold notify_parent. case_match; [|done]. case_match; [|done]. case_match; [|done].
  eexists. split; [reflexivity|]. intros x. simpl. case_decide as Hd; [subst; by eexists|].
  exists (sig_pending (procs s x)). by rewrite sig_id.
Qed.

(** What an exit leaves of the process, and what it gives back. *)
Definition exit_env (e : E) p (v : pcb_t) : E :=
  let e := vfs_close_all e p in
  let e := if va_map v =? 0 then e else amm_vmap_destroy e (va_map v) in
  kfree e (kstack v).

Record exited s2 s3 p w (code : Z) : Prop := mk_exited {
  ex_code : exit_code (procs s3 p) = code;
  ex_dead : state (procs s3 p) = PROC_DEAD;
  ex_cpu : cpu_ns (procs s3 p) = cpu_ns (procs s2 p);
  ex_stack : kstack (procs s3 p) = 0;
  ex_map : va_map (procs s3 p) = 0;
  ex_cur : g_current s3 this_cpu_id = Some w;
  ex_run : state (procs s3 w) = PROC_RUN;
  ex_count : g_proc_count s3 = u32 (g_proc_count s2 - 1);
  ex_lock : g_proc_table_lock s3 = 0;
  ex_rq : lock (g_runq s3 this_cpu_id) = lock (g_runq s2 this_cpu_id);
  ex_env : env s3 = exit_env (env s2) p (procs s2 p) }.

Lemma exit_ok s p w code :
  waiting_for s p w -> w <> p -> g_proc_table_lock s = 0 ->
  kstack (procs s p) <> 0 -> kstack (procs s p) <> g_bootstrap_kstack -> pid (procs s p) <> 0 ->
  exists s', sched_exit s code = Ok (ReapReturn s') /\ exited s s' p w code.
Proof.
  intros (Hcur & Hwait & Hjmp) Hwp Hl Hk1 Hk2 Hpid. unfold Sched.sched_exit. rewrite Hcur. cbn [opt rbind].
  destruct (notify_frame s p) as (f & -> & Hf). destruct (Hf p) as [g Hfp].
  cbn [g_reap_jmp_active put_procs]. rewrite (proj2 (Z.eqb_neq _ _) Hjmp). cbn [negb].
  set (s1 := mark_dead _ p code). change (g_reap_waiter s1) with (g_reap_waiter s). rewrite Hwait.
  unfold exit_to_reaper, dec_proc_count, spin_lock_table. change (g_proc_table_lock s1) with (g_proc_table_lock s).
  rewrite Hl. cbn [rbind Z.eqb]. set (s2 := spin_unlock_table _).
  assert (Hp2 : procs s2 p = set_va_map (set_state (set_exit_code (set_sig_pending (procs s p) g) code) PROC_DEAD) 0).
  { unfold s2, s1, mark_dead. simpl. rewrite !decide_True by done. by rewrite Hfp. }
  destruct (load_cr3_frame s2 (cr3 (regs (procs s2 w)))) as [v ->]. set (s3 := put_cpu_cr3 s2 v).
  set (s4 := destroy_map s3 _).
  assert (Hp4 : procs s4 = procs s2) by (unfold s4, destroy_map; by case_match).
  assert (Hs4 : s4 = put_env s3 (if va_map (procs s p) =? 0 then env s3 else amm_vmap_destroy (env s3) (va_map (procs s p)))).
  { unfold s4, destroy_map. case_match; [by destruct s|done]. }
  unfold free_kstack. rewrite Hp4, Hp2. cbn [kstack pid set_va_map set_state set_exit_code set_sig_pending].
  rewrite !(proj2 (Z.eqb_neq _ _)) by done. cbn [negb andb].
  eexists. split; [reflexivity|]. match goal with |- context [syscall_on_thread_switch ?x ?y] =>
    destruct (thread_switch_frame x y) as [kr ->] end.
  split; rewrite ?Hs4; simpl; rewrite ?decide_True, ?decide_False by done; simpl; rewrite ?decide_True by done; try done.
Qed.

Lemma reap_end_ok s2 s3 p w cls pri code :
  exited s2 s3 p w code -> w <> p ->
  exists s4, sched_reap_end s3 (mkFrame p (Some w) cls pri) = (mkInfo code (cpu_ns (procs s2 p)) 0, s4) /\
    pid (procs s4 p) = 0 /\ state (procs s4 p) = PROC_DEAD /\ kstack (procs s4 p) = 0 /\
    g_current s4 this_cpu_id = Some w /\ state (procs s4 w) = PROC_RUN /\
    g_reap_waiter s4 = None /\ g_reap_jmp_active s4 = 0 /\ g_proc_table_lock s4 = 0 /\
    g_proc_count s4 = g_proc_count s3 /\ env s4 = env s3.
Proof.
  intros [] Hwp. unfold Sched.sched_reap_end. cbn [rf_pcb rf_waiter rf_class rf_pri].
  destruct (thread_switch_frame s3 (Some w)) as [kr ->]. set (s4 := put_pcb (put_pcb _ p _) p _).
  assert (Hp4 : procs s4 p = set_priority (set_sched_class (procs s3 p) cls) pri).
  { unfold s4. rewrite !put_pcb_eq. done. }
  change (procs (put_g_reap_jmp_active s4 0) p) with (procs s4 p). rewrite Hp4.
  cbn [state set_priority set_sched_class]. rewrite ex_dead0. cbn [negb Z.eqb Pos.eqb PROC_DEAD].
  unfold free_kstack. change (procs (put_g_reap_waiter ?x None) p) with (procs s4 p). rewrite Hp4.
  cbn [kstack exit_code cpu_ns set_priority set_sched_class]. rewrite ex_stack0, ex_code0, ex_cpu0. cbn [negb andb Z.eqb].
  eexists. split; [reflexivity|]. simpl. rewrite !decide_True, !decide_False by done. simpl.
  rewrite ?decide_True by done. simpl. done.
Qed.


End Reap.
End SchedReap.
