(* ===== verification/SchedSwitch.v ===== *)
(** * Time, waking, decay, switching and preemption *)

From S2P Require Import Prelude RbTree RbShape RbInsert RbFixup Sched SchedQueue SchedInv SchedSteal SchedProc SchedReap.
From Stdlib Require Import ZArith Lia Bool.
From stdpp Require Import base list gmap numbers sorting.
Import RbTree RbShape RbInsert RbFixup Sched SchedQueue SchedInv SchedSteal SchedProc SchedReap.
Open Scope Z_scope.

Module SchedSwitch.

Section Switch.
Context {E : Type} `{SchedEnv E}.
Variables (kernel_cr3 g_bootstrap_kstack : Z).
Implicit Types (s : sched E) (p w : pcb_ref) (i : Z) (Q : queues).

Abbreviation sched_switch_to := (sched_switch_to kernel_cr3).
Abbreviation sched_yield := (sched_yield kernel_cr3).
Abbreviation sched_tick := (sched_tick kernel_cr3).

(** ** Time *)

(** The multiplication overflows: the clock is right for the first
    18446744073 ticks and starts again from 0 after them. *)
Lemma asd_time_wraps :
  (forall t, 0 <= t <= 18446744073 -> asd_time_ns t = t) /\ asd_time_ns 18446744074 = 0 /\
  (forall t, asd_time_ns t <= 18446744073).
Proof.
  split_and!; [| reflexivity |].
  - intros t Ht. unfold asd_time_ns. rewrite u64_small by lia. apply Z.div_mul. lia.
  - intros t. unfold asd_time_ns. pose proof (Z.mod_pos_bound (t * 1000000000) (2 ^ 64) ltac:(lia)).
    apply Z.lt_succ_r, Z.div_lt_upper_bound; lia.
Qed.

(** ** The decay of an interactive priority *)

Definition int16 (x : Z) : Prop := -32768 <= x < 32768.

Lemma i16_small x : int16 x -> i16 x = x.
Proof. unfold int16, i16. intros. rewrite Z.mod_small by lia. lia. Qed.

(** Division by ten towards zero. *)
Lemma quot10 d : (0 <= d -> 0 <= Z.quot d 10 <= d) /\ (d <= 0 -> d <= Z.quot d 10 <= 0).
Proof.
  assert (Hpos : forall e, 0 <= e -> 0 <= Z.quot e 10 <= e).
  { intros e He. pose proof (Z.quot_rem' e 10). pose proof (Z.rem_bound_pos e 10 He ltac:(lia)). lia. }
  split; [apply Hpos|]. intros Hd. specialize (Hpos (- d)). rewrite Z.quot_opp_l in Hpos by lia. lia.
Qed.

(** One tick brings the priority a tenth of the way back, never past the base,
    and not at all when it is closer than ten. *)
Lemma decay_step s p :
  sched_class (procs s p) = SCHED_INTR -> int16 (priority (procs s p)) -> int16 (base_pri (procs s p)) ->
  int16 (base_pri (procs s p) - priority (procs s p)) ->
  let d := base_pri (procs s p) - priority (procs s p) in
  let v := procs (decay s p) p in
  priority v = priority (procs s p) + Z.quot d 10 /\ base_pri v = base_pri (procs s p) /\
  base_pri v - priority v = d - Z.quot d 10 /\ int16 (priority v).
Proof.
  intros Hc Hp Hb Hd d v. unfold v, decay. rewrite Hc. cbn [Z.eqb SCHED_INTR Pos.eqb]. rewrite put_pcb_eq.
  cbn [priority base_pri set_priority]. fold d in Hd |- *. rewrite (i16_small d) by done.
  pose proof (quot10 d).
  rewrite i16_small by (unfold int16 in *; lia). unfold int16 in *. split_and!; [done|done|lia|lia|lia].
Qed.

(** The distance from the base priority after one tick. *)
Definition decayed (d : Z) : Z := d - Z.quot d 10.

Lemma decay_iter (n : nat) s p :
  sched_class (procs s p) = SCHED_INTR -> int16 (priority (procs s p)) -> int16 (base_pri (procs s p)) ->
  int16 (base_pri (procs s p) - priority (procs s p)) ->
  let v := procs (Nat.iter n (fun s => decay s p) s) p in
  sched_class v = SCHED_INTR /\ base_pri v = base_pri (procs s p) /\ int16 (priority v) /\
  base_pri v - priority v = Nat.iter n decayed (base_pri (procs s p) - priority (procs s p)) /\
  int16 (base_pri v - priority v).
Proof.
  intros Hc Hp Hb Hd. induction n as [|n IH]; simpl; [done|].
  destruct IH as (H1 & H2 & H3 & H4 & H5). set (s' := Nat.iter n _ s) in *.
  destruct (decay_step s' p) as (G1 & G2 & G3 & G4); [done|done|by rewrite H2|done|].
  split_and!.
  - unfold decay. rewrite H1. cbn [Z.eqb SCHED_INTR Pos.eqb]. by rewrite put_pcb_eq.
  - by rewrite G2.
  - apply G4.
  - rewrite G3, H4. done.
  - rewrite G3. pose proof (quot10 (base_pri (procs s' p) - priority (procs s' p))). unfold int16 in *. lia.
Qed.

Lemma decayed_pos (n : nat) d : 0 <= d ->
  0 <= Nat.iter n decayed d <= d /\ (Nat.iter n decayed d <= 9 \/ Nat.iter n decayed d + Z.of_nat n <= d).
Proof.
  intros Hd. induction n as [|n [IH1 IH2]]; simpl; [lia|]. set (e := Nat.iter n decayed d) in *.
  unfold decayed at 1 2 3 4. pose proof (quot10 e) as [Hq _]. specialize (Hq ltac:(lia)). split; [lia|].
  destruct (decide (e < 10)); [left; lia|right]. assert (1 <= Z.quot e 10); [|lia].
  apply Z.quot_le_lower_bound; lia.
Qed.

Lemma decayed_opp (n : nat) d : Nat.iter n decayed (- d) = - Nat.iter n decayed d.
Proof.
  induction n as [|n IH]; simpl; [done|]. rewrite IH. unfold decayed. rewrite Z.quot_opp_l by lia. lia.
Qed.

(** Timer ticks move an interactive process's priority towards its base: it never overshoots and never
    leaves the 16-bit range, and after as many ticks as it was away it is within 9 of the base.  The boost of
    20 that a wake-up gives is never taken back completely: from the tenth tick on, 9 of it remain. *)
Theorem tick_decay_correct (n : nat) s p :
  sched_class (procs s p) = SCHED_INTR -> int16 (priority (procs s p)) -> int16 (base_pri (procs s p)) ->
  int16 (base_pri (procs s p) - priority (procs s p)) ->
  let d := base_pri (procs s p) - priority (procs s p) in
  let v := procs (Nat.iter n (fun s => decay s p) s) p in
  let d' := base_pri v - priority v in
  base_pri v = base_pri (procs s p) /\ int16 (priority v) /\
  (0 <= d -> 0 <= d' <= d) /\ (d <= 0 -> d <= d' <= 0) /\
  (Z.abs d <= Z.of_nat n -> Z.abs d' <= 9) /\
  (d = SCHED_BOOST -> (10 <= n)%nat -> d' = 9).
Proof.
  intros Hc Hp Hb Hd d v d'. destruct (decay_iter n s p) as (_ & H2 & H3 & H4 & _); [done..|].
  fold v d' d in H2, H3, H4 |- *. pose proof (decayed_pos n d) as Hpos. pose proof (decayed_pos n (- d)) as Hneg.
  rewrite decayed_opp in Hneg. rewrite H4. split; [done|]. split; [done|].
  split; [lia|]. split; [lia|]. split; [lia|].
  intros Hd20 Hn. rewrite Hd20. replace n with ((n - 10) + 10)%nat by lia. rewrite Nat.iter_add.
  change (Nat.iter 10 decayed SCHED_BOOST) with 9.
  induction (n - 10)%nat as [|m IH]; simpl; [done|]. by rewrite IH.
Qed.

(** ** Waking *)

Lemma sched_wake_ok s Q tsc p :
  sched_inv s Q -> valid p -> ~ queued Q p -> pid (procs s p) <> 0 -> 0 <= cpu (procs s p) ->
  -32748 <= base_pri (procs s p) < 32768 -> state (procs s p) = PROC_WAIT -> (forall i, lock (g_runq s i) = 0) ->
  exists s' i q, sched_wake s tsc p = Ok s' /\ on_cpu s i /\
    sched_inv s' (updQ Q i (qsel_of (sched_class (procs s p))) q) /\ p ∈ q /\
    state (procs s' p) = PROC_READY /\ wake_ns (procs s' p) = asd_time_ns tsc /\
    priority (procs s' p) = (if sched_class (procs s p) =? SCHED_INTR
                             then Z.max 0 (base_pri (procs s p) - SCHED_BOOST) else priority (procs s p)) /\
    (forall x, x <> p -> procs s' x = procs s x).
Proof.
  intros Hinv Hv Hun Hpid Hcpu Hb Hst Hl. unfold sched_wake. rewrite Hst. cbn [negb Z.eqb PROC_WAIT Pos.eqb].
  set (s1 := put_pcb s p _). set (s2 := if sched_class (procs s1 p) =? SCHED_INTR then _ else s1).
  assert (H1 : procs s1 p = set_wake_ns (procs s p) (asd_time_ns tsc)) by apply put_pcb_eq.
  assert (H2 : exists f, s2 = put_procs s1 f /\ (forall x, x <> p -> f x = procs s x) /\
    f p = set_priority (procs s1 p) (if sched_class (procs s p) =? SCHED_INTR
                             then Z.max 0 (base_pri (procs s p) - SCHED_BOOST) else priority (procs s p))).
  { unfold s2. rewrite H1. cbn [sched_class set_wake_ns]. destruct (sched_class (procs s p) =? SCHED_INTR).
    - rewrite put_pcb_eq. cbn [priority set_priority base_pri set_wake_ns].
      rewrite i16_small by (unfold int16, SCHED_BOOST; lia).
      destruct (Z.ltb_spec (base_pri (procs s p) - SCHED_BOOST) 0); eexists; (split; [reflexivity|]); split.
      + intros x Hx. simpl. by rewrite !decide_False.
      + simpl. rewrite !decide_True by done. rewrite Z.max_l by lia. done.
      + intros x Hx. simpl. by rewrite !decide_False.
      + simpl. rewrite !decide_True by done. rewrite Z.max_r by lia. done.
    - exists (procs s1). split_and!; [done| |].
      + intros x Hx. simpl. by rewrite decide_False.
      + rewrite H1. by destruct (procs s p). }
  destruct H2 as (f & -> & Hf & Hfp). set (s3 := put_procs s1 f).
  assert (Hinv3 : sched_inv s3 Q).
  { apply (inv_frame s); [done|done|done| |done]. intros x Hx. simpl. apply Hf. by intros ->. }
  assert (Hp3 : procs s3 p = f p) by done. rewrite H1 in Hfp.
  destruct (sched_enqueue_ok s3 Q p) as (s' & He & Hinv' & Hp' & Ho' & _ & _ & _); try done.
  { by rewrite Hp3, Hfp. } { by rewrite Hp3, Hfp. } { simpl. apply Hl. }
  exists s', (pick_cpu s3 p), (pq_insert (prio s3) (prio s3 p) p (Q (pick_cpu s3 p) (qsel_of (sched_class (procs s3 p))))).
  destruct (pick_cpu_ok s3 Q p (inv_runqs _ _ Hinv3)) as (Hi & _ & _); [apply Hinv3|by rewrite Hp3, Hfp|].
  assert (Hcl : sched_class (procs s3 p) = sched_class (procs s p)) by (by rewrite Hp3, Hfp). rewrite Hcl in *.
  split; [done|]. split; [exact Hi|]. split; [done|]. split; [apply pq_insert_elem; by left|].
  rewrite Hp'. unfold enqueued. rewrite Hp3, Hfp. split_and!; [done|done|done|].
  intros x Hx. rewrite Ho' by done. simpl. by apply Hf.
Qed.

(** ** Preemption on one CPU *)

Lemma pick_cpu_single s p : g_cpu_count s = 1 -> 0 <= cpu (procs s p) -> pick_cpu s p = 0.
Proof.
  intros Hc Hp. unfold pick_cpu. rewrite Hc. destruct (Z.leb_spec 1 (cpu (procs s p))); [|lia].
  simpl. by case_match.
Qed.

(** A process cannot be enqueued on a queue whose lock is held. *)
Lemma enqueue_hangs s p : lock (g_runq s (pick_cpu s p)) <> 0 -> sched_enqueue s p = Hang.
Proof.
  intros Hl. unfold sched_enqueue, spin_lock_rq. simpl. by rewrite (proj2 (Z.eqb_neq _ _) Hl).
Qed.

(** On the one CPU the kernel starts, giving up the processor never succeeds: [sched_yield] of a process
    other than the idle one, and a timer tick that finds its quantum used up, both take the run queue's lock
    and then call [sched_enqueue], which spins on the same lock for ever. *)
Theorem preemption_hangs s p tsc r now :
  g_cpu_count s = 1 -> g_current s 0 = Some p -> 0 <= cpu (procs s p) -> idle_pcb (g_runq s 0) <> Some p ->
  (g_reap_waiter s <> Some p -> sched_yield s tsc r = Hang) /\
  (forall q, idle_pcb (g_runq s 0) = Some q -> g_reap_waiter s = None -> p <> Boot -> state (procs s p) = PROC_RUN ->
     deadline_ns (procs s p) <= now -> sched_tick s tsc r now = Hang).
Proof.
  intros Hc Hcur Hp Hidle.
  assert (Hlock : forall s', g_cpu_count s' = 1 -> cpu (procs s' p) = cpu (procs s p) ->
    (let! s := spin_lock_rq s' 0 in sched_enqueue s p) = Hang).
  { intros s' Hc' Hp'. unfold spin_lock_rq. case_match; [|done]. cbn [rbind]. apply enqueue_hangs.
    rewrite pick_cpu_single; [|done|simpl; lia]. simpl. unfold upd. simpl. done. }
  split.
  - intros Hw. unfold Sched.sched_yield, this_cpu_id. rewrite Hcur.
    specialize (Hlock s Hc eq_refl). destruct (spin_lock_rq s 0) as [s1| |] eqn:Hs1; [|done..]. cbn [rbind] in *.
    assert (Hs : idle_pcb (g_runq s1 0) = idle_pcb (g_runq s 0) /\ g_reap_waiter s1 = g_reap_waiter s).
    { unfold spin_lock_rq in Hs1. case_match; [|done]. simplify_eq. done. }
    destruct Hs as [-> ->]. rewrite !bool_decide_eq_true_2 by congruence. cbn [andb opt rbind]. by rewrite Hlock.
  - intros q Hq Hw Hb Hst Hd. unfold Sched.sched_tick, this_cpu_id. rewrite Hc, Hcur, Hq. cbn [Z.leb Z.compare].
    rewrite decide_False by (rewrite Hw; tauto). rewrite decide_False by done.
    set (s1 := decay s p).
    assert (Hs1 : g_cpu_count s1 = 1 /\ cpu (procs s1 p) = cpu (procs s p) /\ deadline_ns (procs s1 p) = deadline_ns (procs s p) /\
      state (procs s1 p) = state (procs s p)).
    { unfold s1, decay. case_match; [|done]. by rewrite put_pcb_eq. }
    destruct Hs1 as (H1 & H2 & H3 & H4). rewrite H3, H4, Hst. rewrite bool_decide_eq_true_2 by congruence.
    rewrite (proj2 (Z.leb_le _ _) Hd). cbn [andb Z.eqb PROC_RUN Pos.eqb].
    specialize (Hlock s1 H1 H2). destruct (spin_lock_rq s1 0) as [s2| |]; [|done..]. cbn [rbind] in *. by rewrite Hlock.
Qed.

(** ** The switch *)

Definition effective_cr3 (c : Z) : Z := if c =? 0 then kernel_cr3 else c.

Lemma load_cr3_eq s c : cpu_cr3 (sched_load_cr3 kernel_cr3 s c) = effective_cr3 c.
Proof.
  unfold Sched.sched_load_cr3, effective_cr3. set (x := if c =? 0 then kernel_cr3 else c).
  by destruct (Z.eqb_spec x (cpu_cr3 s)).
Qed.

(** A switch makes the next process current and running in its own address space, with the quantum of
    its class, turns a running predecessor READY, publishes the queue lengths, and resumes it.  The registers
    of the predecessor are saved after CR3 has been reloaded: what is recorded as its address space is that of
    its successor, in which it will continue when it runs again. *)
Theorem sched_switch_to_correct s tsc r p n :
  g_current s 0 = Some p -> rip (regs (procs s n)) <> 0 -> p <> n ->
  exists s', sched_switch_to s tsc r (Some n) = Ok (Resumes n s') /\
    g_current s' 0 = Some n /\ state (procs s' n) = PROC_RUN /\
    state (procs s' p) = (if bool_decide (Some p <> g_reap_waiter s) && (state (procs s p) =? PROC_RUN)
                          then PROC_READY else state (procs s p)) /\
    deadline_ns (procs s' n) =
      (match qsel_of (sched_class (procs s n)) with
       | QRT => deadline_ns (procs s n)
       | QINTR => u64 (asd_time_ns tsc + 4000000)
       | QBATCH => u64 (asd_time_ns tsc + 50000000)
       end) /\
    cpu_cr3 s' = effective_cr3 (cr3 (regs (procs s n))) /\
    cr3 (regs (procs s' p)) = effective_cr3 (cr3 (regs (procs s n))) /\
    regs (procs s' n) = regs (procs s n) /\
    seq (g_sched_state s') = u32 (u32 (seq (g_sched_state s) + 1) + 1) /\
    (forall i, on_cpu s i -> rt_count (g_runq s i) = s_rt (cpus (g_sched_state s') i) /\
       intr_count (g_runq s i) = s_intr (cpus (g_sched_state s') i) /\
       batch_count (g_runq s i) = s_batch (cpus (g_sched_state s') i)).
Proof.
  intros Hcur Hrip Hpn. unfold Sched.sched_switch_to, this_cpu_id. rewrite (proj2 (Z.eqb_neq _ _) Hrip).
  rewrite decide_False by (rewrite Hcur; congruence).
  set (qn := match qsel_of _ with QRT => _ | QINTR => _ | QBATCH => _ end).
  set (s1 := if 0 <? qn then _ else s).
  assert (H1 : exists f, s1 = put_procs s f /\ f p = procs s p /\ (exists d, f n = set_deadline_ns (procs s n) d /\
    d = (match qsel_of (sched_class (procs s n)) with QRT => deadline_ns (procs s n)
         | QINTR => u64 (asd_time_ns tsc + 4000000) | QBATCH => u64 (asd_time_ns tsc + 50000000) end))).
  { unfold s1, qn. destruct (qsel_of (sched_class (procs s n))); cbn [Z.ltb Z.compare SCHED_QUANTUM_INTR_NS SCHED_QUANTUM_BATCH_NS].
    - exists (procs s). split_and!; [by destruct s|done|]. eexists. split; [|done]. by destruct (procs s n).
    - eexists. split_and!; [reflexivity| |]; [simpl; by rewrite decide_False|]. eexists. split; [|done]. simpl. by rewrite decide_True.
    - eexists. split_and!; [reflexivity| |]; [simpl; by rewrite decide_False|]. eexists. split; [|done]. simpl. by rewrite decide_True. }
  destruct H1 as (f & -> & Hfp & d & Hfn & Hd). change (g_current (put_procs s f)) with (g_current s).
  rewrite Hcur. cbn [opt rbind]. cbn [procs put_procs g_reap_waiter]. rewrite Hfp.
  set (b := bool_decide _ && _). set (s2 := if b then _ else put_procs s f).
  assert (H2 : exists g, s2 = put_procs s g /\ g n = f n /\
    g p = set_state (procs s p) (if b then PROC_READY else state (procs s p))).
  { unfold s2. destruct b; eexists; (split; [reflexivity|]); simpl.
    - split; [by rewrite decide_False by congruence|by rewrite decide_True].
    - split; [done|]. rewrite Hfp. by destruct (procs s p). }
  destruct H2 as (g & -> & Hgn & Hgp). set (s3 := put_rq _ _ _).
  assert (Hp3 : procs s3 p = g p) by (simpl; by rewrite decide_False).
  assert (Hn3 : procs s3 n = set_state (f n) PROC_RUN) by (simpl; by rewrite decide_True, Hgn).
  set (s4 := sched_state_update s3).
  destruct (thread_switch_frame s4 (Some n)) as [kr ->]. set (s5 := put_kernel_rsp s4 kr).
  pose proof (load_cr3_eq s5 (cr3 (regs (procs s5 n)))) as Hcr. destruct (load_cr3_frame kernel_cr3 s5 (cr3 (regs (procs s5 n)))) as [v Hv].
  rewrite Hv in Hcr |- *. cbn [cpu_cr3 put_cpu_cr3] in Hcr. subst v.
  assert (Hn5 : procs s5 n = set_state (f n) PROC_RUN) by exact Hn3.
  assert (Hp5 : procs s5 p = g p) by exact Hp3.
  rewrite Hn5, Hfn. eexists. split; [reflexivity|]. set (s6 := put_cpu_cr3 s5 _).
  cbn [regs set_state set_deadline_ns].
  assert (Hn6 : procs (put_pcb s6 p (set_regs (procs s6 p) (set_cr3 r (cpu_cr3 s6)))) n = set_state (f n) PROC_RUN).
  { rewrite put_pcb_ne by congruence. exact Hn5. }
  rewrite Hn6, put_pcb_eq, Hfn. change (procs s6 p) with (procs s5 p). rewrite Hp5, Hgp.
  split_and!; try done.
  intros i Hi. simpl. unfold on_cpu in Hi. rewrite (proj2 (Z.leb_le 0 i)), (proj2 (Z.ltb_lt i _)) by lia.
  unfold cpu_stat_of. simpl. unfold upd. destruct (Z.eqb_spec i 0) as [->|]; done.
Qed.

End Switch.
End SchedSwitch.
