(* ===== verification/SchedCases.v ===== *)
(** * Concrete scheduler states

    A machine with a bump allocator, brought up by [sched_init]: the theorems
    applied to it, and the runs that show where the code departs from its
    intent. *)

From S2P Require Import Prelude RbTree RbShape RbInsert RbFixup Sched SchedQueue SchedInv SchedSteal SchedProc SchedReap SchedSwitch.
From Stdlib Require Import ZArith Lia Bool.
From stdpp Require Import base list gmap numbers sorting.
Import RbTree RbShape RbInsert RbFixup Sched SchedQueue SchedInv SchedSteal SchedProc SchedReap SchedSwitch.
Open Scope Z_scope.

Module SchedCases.

(** The environment is the next free address; 0: out of memory. *)
#[local] Instance bump_env : SchedEnv Z := {
  kmalloc e n := if e =? 0 then (0, 0) else (e, e + n);
  kfree e _ := e;
  amm_vmap_create e := (e, e + 4096);
  amm_vmap_destroy e _ := e;
  vfs_fd_inherit e _ _ := e;
  vfs_close_all e _ := e }.

Definition raw_rq : runq_t := mkRq 0 0 None None None 0 0 0 None None 0 0 0.
Definition raw (e : Z) : sched Z :=
  mkSched (fun _ => raw_rq) 0 (fun _ => zero_pcb) (fun _ => zero_node) 0 0 0
    (mkSS 0 0 (fun _ => mkStat 0 0 0 0 0 0) 0 0) (fun _ => None) None 0 0 0 e.

Definition booted (e cpus : Z) : sched Z := sched_init 4096 8192 12288 (raw e) cpus.

Definition after (r : res (sched Z)) (d : sched Z) : sched Z := match r with Ok s => s | _ => d end.
Definition enq (s : sched Z) (p : pcb_ref) : sched Z := after (sched_enqueue s p) s.

(** A process in table slot [k]. *)
Definition proc (k cls c pri : Z) : pcb_t :=
  mkPcb k PROC_NEW cls c pri pri 0 0 UINT64_MAX 0 0 [] 0 0 0 1 0 [47] 0 0 77 78 (mkRegs 0 4198400 514 20480 27 35).

(** ** States reached by enqueueing *)

Definition ready (s : sched Z) (Q : queues) : Prop := sched_inv s Q /\ forall i, lock (g_runq s i) = 0.

Lemma booted_ready e n : 0 < n -> ready (booted e n) no_queues.
Proof.
  intros Hn. destruct (sched_init_ok 4096 8192 12288 (raw e) n) as (H1 & H2 & _ & _ & H3 & H4); [lia|].
  split; [exact H1|]. intros i. unfold booted.
  destruct (decide (0 <= i < g_cpu_count (sched_init 4096 8192 12288 (raw e) n))) as [Hi|Hi]; [by apply H3|].
  rewrite H4; [done|exact Hi].
Qed.

(** Filling a free slot, and enqueueing it. *)
Lemma ready_pcb s Q p v : ready s Q -> ~ queued Q p -> ready (put_pcb s p v) Q.
Proof.
  intros [H1 H2] Hun. split; [|exact H2]. apply (inv_frame s); [done|done|done| |done].
  intros x Hx. apply put_pcb_ne. by intros ->.
Qed.

Lemma ready_enq s Q p :
  ready s Q -> valid p -> ~ queued Q p -> pid (procs s p) <> 0 -> 0 <= cpu (procs s p) ->
  let i := pick_cpu s p in let c := qsel_of (sched_class (procs s p)) in
  ready (enq s p) (updQ Q i c (pq_insert (prio s) (prio s p) p (Q i c))).
Proof.
  intros [H1 H2] Hv Hun Hp Hc. destruct (sched_enqueue_ok s Q p) as (s' & Hs & Hinv & _ & _ & Hl & _); try done.
  unfold enq. rewrite Hs. split; [exact Hinv|]. intros i. simpl. rewrite Hl. apply H2.
Qed.

Lemma queued_none p : ~ queued no_queues p.
Proof. intros (i & c & Hx). by apply elem_of_nil in Hx. Qed.

Lemma queued_insert (s : sched Z) Q i c x p :
  ~ queued Q p -> p <> x -> ~ queued (updQ Q i c (pq_insert (prio s) (prio s x) x (Q i c))) p.
Proof.
  intros Hun Hne (j & d & Hx). unfold updQ in Hx. case_decide as Hd; [|apply Hun; by exists j, d].
  apply pq_insert_elem in Hx as [->|Hx]; [done|]. apply Hun. by exists i, c.
Qed.

Definition add (s : sched Z) (k cls c pri : Z) : sched Z := enq (put_pcb s (Proc k) (proc k cls c pri)) (Proc k).
Definition addQ (s : sched Z) (Q : queues) (k cls c pri : Z) : queues :=
  let s := put_pcb s (Proc k) (proc k cls c pri) in
  updQ Q (pick_cpu s (Proc k)) (qsel_of cls) (pq_insert (prio s) (prio s (Proc k)) (Proc k) (Q (pick_cpu s (Proc k)) (qsel_of cls))).

Lemma ready_add s Q k cls c pri :
  ready s Q -> 0 < k < MAX_PROCS -> ~ queued Q (Proc k) -> 0 <= c -> ready (add s k cls c pri) (addQ s Q k cls c pri).
Proof.
  intros Hr Hk Hun Hc. pose proof (ready_pcb s Q (Proc k) (proc k cls c pri) Hr Hun) as Hr'.
  pose proof (ready_enq _ Q (Proc k) Hr') as Hq. rewrite put_pcb_eq in Hq. apply Hq; [simpl; lia|done|simpl; lia|done].
Qed.

Lemma queued_addQ s Q k cls c pri x : queued (addQ s Q k cls c pri) x -> x = Proc k \/ queued Q x.
Proof.
  intros Hq. destruct (decide (x = Proc k)) as [->|Hne]; [by left|]. right.
  destruct Hq as (i & d & Hx). unfold addQ, updQ in Hx. case_decide as Hd; [|by exists i, d].
  apply pq_insert_elem in Hx as [->|Hx]; [done|]. by eexists _, _.
Qed.

(** Two CPUs; three batch processes on CPU 1, the third the most urgent. *)
Definition st1 : sched Z := add (booted 1048576 2) 1 SCHED_BATCH 1 5.
Definition st2 : sched Z := add st1 2 SCHED_BATCH 1 5.
Definition st3 : sched Z := add st2 3 SCHED_BATCH 1 4.
Definition Q1 : queues := addQ (booted 1048576 2) no_queues 1 SCHED_BATCH 1 5.
Definition Q2 : queues := addQ st1 Q1 2 SCHED_BATCH 1 5.
Definition Q3 : queues := addQ st2 Q2 3 SCHED_BATCH 1 4.

Lemma st1_ready : ready st1 Q1.
Proof. apply ready_add; [by apply booted_ready|done|apply queued_none|done]. Qed.
Lemma st2_ready : ready st2 Q2.
Proof. apply ready_add; [apply st1_ready|done|apply queued_insert; [apply queued_none|done]|done]. Qed.
Lemma st3_ready : ready st3 Q3.
Proof.
  apply ready_add; [apply st2_ready|done|apply queued_insert; [|done]|done].
  apply queued_insert; [apply queued_none|done].
Qed.

Lemma Q3_order : run_order Q3 1 = [Proc 3; Proc 1; Proc 2].
Proof. vm_compute. reflexivity. Qed.

(** A fourth process that does not ask for a CPU goes to CPU 0, which has no load. *)
Lemma sched_enqueue_witness :
  exists s', sched_enqueue (put_pcb st3 (Proc 9) (proc 9 SCHED_INTR 255 7)) (Proc 9) = Ok s' /\
    procs s' (Proc 9) = enqueued (put_pcb st3 (Proc 9) (proc 9 SCHED_INTR 255 7)) (Proc 9) /\
    cpu (enqueued (put_pcb st3 (Proc 9) (proc 9 SCHED_INTR 255 7)) (Proc 9)) = 0.
Proof.
  assert (Hun : ~ queued Q3 (Proc 9)).
  { apply queued_insert; [apply queued_insert; [apply queued_insert; [apply queued_none|done]|done]|done]. }
  destruct (ready_pcb st3 Q3 (Proc 9) (proc 9 SCHED_INTR 255 7) st3_ready Hun) as [Hinv Hl].
  destruct (sched_enqueue_correct _ Q3 (Proc 9) Hinv) as (s' & H1 & _ & H2 & _).
  - simpl. unfold MAX_PROCS. lia.
  - exact Hun.
  - rewrite put_pcb_eq. simpl. lia.
  - rewrite put_pcb_eq. simpl. lia.
  - apply Hl.
  - exists s'. split; [exact H1|]. split; [exact H2|]. vm_compute. reflexivity.
Defined.

Lemma sched_dequeue_witness :
  exists s', drain 3 st3 1 = Ok ([Some (Proc 3); Some (Proc 1); Some (Proc 2)], s').
Proof.
  destruct (sched_dequeue_order st3 Q3 1 (proj1 st3_ready)) as (s' & Q' & H1 & _).
  - unfold on_cpu. split; [lia|]. vm_compute. reflexivity.
  - exists s'. rewrite Q3_order in H1. exact H1.
Defined.

Lemma sched_steal_witness : exists s', sched_steal st3 0 = Ok s' /\ batch_count (g_runq st3 1) = 3.
Proof.
  destruct (sched_steal_correct st3 Q3 0 (proj1 st3_ready)) as (s' & H1 & _).
  - intros x Hx. unfold Q3, Q2, Q1 in Hx.
    repeat (apply queued_addQ in Hx as [->|Hx]; [right; right; vm_compute; reflexivity|]).
    by apply queued_none in Hx.
  - unfold on_cpu. split; [lia|]. vm_compute. reflexivity.
  - apply st3_ready.
  - exists s'. split; [exact H1|]. vm_compute. reflexivity.
Defined.

(** ** Processes *)

Definition args (aff : Z) : spawn_args_t := mkArgs [47; 98; 105; 110; 47; 115; 104] SCHED_INTR 10 aff 0.

Lemma sched_spawn_witness :
  exists s', sched_spawn st3 (args 255) = Ok (4, s') /\ name (procs s' (Proc 4)) = [115; 104].
Proof.
  destruct (sched_spawn_correct st3 Q3 (args 255) (proj1 st3_ready)) as (r & s' & H1 & _ & _ & _).
  - intros k Hk. vm_compute in Hk. discriminate Hk.
  - vm_compute. reflexivity.
  - vm_compute. split; reflexivity.
  - vm_compute. discriminate.
  - exists s'. assert (Hr : match sched_spawn st3 (args 255) with Ok (r, s) => r = 4 /\ name (procs s (Proc 4)) = [115; 104] | _ => False end).
    { vm_compute. split; reflexivity. }
    rewrite H1 in Hr. destruct Hr as [-> Hr]. split; [exact H1|exact Hr].
Defined.

(** The init thread runs; process 3 waits in the batch queue of CPU 0. *)
Definition boot1 : sched Z := sched_bootstrap_init_thread 4096 8192 (booted 1048576 1).
Definition st4 : sched Z := add boot1 3 SCHED_BATCH 0 5.
Definition Q4 : queues := addQ boot1 no_queues 3 SCHED_BATCH 0 5.

Lemma bootstrap_ready cr ks s Q :
  ready s Q -> ~ queued Q Boot -> ready (sched_bootstrap_init_thread cr ks s) Q.
Proof.
  intros [H1 H2] Hun. unfold sched_bootstrap_init_thread.
  set (s1 := put_rqnodes s _). pose proof (inv_node s Q Boot zero_node H1 Hun) as Hn. fold s1 in Hn.
  match goal with |- context [syscall_on_thread_switch ?x ?y] => destruct (thread_switch_frame x y) as [kr ->] end.
  split.
  - apply (inv_ext s1); [done|done| | |done].
    + intros i c. simpl. unfold upd. destruct (Z.eqb_spec i 0) as [->|]; [|done]. by destruct c.
    + intros x Hx. simpl. rewrite decide_False; [done|]. by intros ->.
  - intros i. simpl. unfold upd. destruct (i =? 0); [apply (H2 0)|apply H2].
Qed.

Lemma st4_ready : ready st4 Q4.
Proof.
  apply ready_add; [|done|apply queued_none|done].
  apply bootstrap_ready; [by apply booted_ready|apply queued_none].
Qed.

Lemma Q4_head : Q4 this_cpu_id QBATCH = [] ++ Proc 3 :: [].
Proof. vm_compute. reflexivity. Qed.


Lemma tick_decay_witness :
  let s := put_pcb st4 (Proc 5) (set_base_pri (proc 5 SCHED_INTR 0 10) 30) in
  priority (procs (Nat.iter 25 (fun s => decay s (Proc 5)) s) (Proc 5)) = 21.
Proof.
  intros s. destruct (tick_decay_correct 25 s (Proc 5)) as (H1 & _ & _ & _ & _ & H2);
    [vm_compute; reflexivity|vm_compute; split; [discriminate|reflexivity]..|].
  specialize (H2 ltac:(vm_compute; reflexivity) ltac:(lia)).
  assert (Hb : base_pri (procs s (Proc 5)) = 30) by (vm_compute; reflexivity). rewrite H1, Hb in H2. lia.
Defined.

(** Process 3 running on the only CPU. *)
Definition st5 : sched Z :=
  put_g_current (put_pcb st4 (Proc 3) (set_state (proc 3 SCHED_BATCH 0 5) PROC_RUN)) (fun _ => Some (Proc 3)).

Lemma preemption_witness :
  sched_yield 4096 st5 0 zero_regs = Hang /\ sched_tick 4096 st5 0 zero_regs UINT64_MAX = Hang.
Proof.
  destruct (preemption_hangs 4096 st5 (Proc 3) 0 zero_regs UINT64_MAX) as [H1 H2];
    [vm_compute; reflexivity|vm_compute; reflexivity|vm_compute; discriminate|vm_compute; discriminate|].
  split; [apply H1|apply (H2 (Idle 0))]; vm_compute; reflexivity || discriminate.
Defined.

Lemma sched_switch_to_witness :
  exists s', sched_switch_to 4096 st5 5 zero_regs (Some (Idle 0)) = Ok (Resumes (Idle 0) s') /\
    cr3 (regs (procs st5 (Proc 3))) = 20480 /\ cr3 (regs (procs s' (Proc 3))) = 4096.
Proof.
  destruct (sched_switch_to_correct 4096 st5 5 zero_regs (Proc 3) (Idle 0)) as (s' & H1 & _ & _ & _ & _ & _ & H2 & _);
    [vm_compute; reflexivity|vm_compute; discriminate|discriminate|].
  exists s'. split; [exact H1|]. split; [vm_compute; reflexivity|]. rewrite H2. vm_compute. reflexivity.
Defined.

(** ** Where the code departs from its intent *)

(** The first process spawned gets pid 1, the pid of the init thread, and is its
    own parent. *)
Lemma first_spawn_shares_pid1 :
  match sched_spawn boot1 (args 255) with
  | Ok (r, s) => r = 1 /\ pid (procs s Boot) = 1 /\ ppid (procs s (Proc 1)) = 1 /\ sched_find s 1 = Some (Proc 1)
  | _ => False
  end.
Proof. vm_compute. repeat split; reflexivity. Qed.

(** A spawn that finds no memory for the stack leaves its slot taken for ever. *)
Lemma spawn_leaks_slot :
  match sched_spawn (sched_bootstrap_init_thread 4096 8192 (booted 0 1)) (args 255) with
  | Ok (r, s) => r = 0 /\ g_proc_count s = 0 /\ slot_busy s 1 = true
  | _ => False
  end.
Proof. vm_compute. repeat split; reflexivity. Qed.

(** When slot 4095 is taken the next pid is 4096, which [sched_find] refuses. *)
Lemma spawn_unfindable :
  match sched_spawn (put_pcb (put_g_next_pid boot1 4095) (Proc 4095) (proc 4095 SCHED_BATCH 0 0)) (args 255) with
  | Ok (r, s) => r = 4096 /\ sched_find s r = None
  | _ => False
  end.
Proof. vm_compute. repeat split; reflexivity. Qed.

(** [sched_set] moves a queued process to another class without moving its
    node: taking it off afterwards shrinks the wrong queue, and the process
    there is never dequeued. *)
Lemma sched_set_loses_process :
  let s := add (add (add boot1 1 SCHED_RT 0 5) 2 SCHED_RT 0 6) 3 SCHED_BATCH 0 5 in
  match sched_takeoff_runq_locked (sched_set s 2 SCHED_BATCH 6).2 0 (Some (Proc 2)) with
  | Ok s => batch_count (g_runq s 0) = 0 /\ batch_tree (g_runq s 0) = Some (Proc 3) /\
            match drain 3 s 0 with Ok (l, _) => l = [Some (Proc 1); Some (Idle 0); Some (Idle 0)] | _ => False end
  | _ => False
  end.
Proof. vm_compute. repeat split; reflexivity. Qed.

(** A process of an undocumented class is queued as batch but stolen as
    interactive: the counters go wrong. *)
Lemma steal_wrong_queue :
  match sched_steal (add (add (add (booted 1048576 2) 1 3 1 5) 2 3 1 5) 3 3 1 4) 0 with
  | Ok s => batch_count (g_runq s 1) = 3 /\ intr_count (g_runq s 1) = 4294967295
  | _ => False
  end.
Proof. vm_compute. repeat split; reflexivity. Qed.

End SchedCases.
