(* ===== verification/UserMem.v ===== *)
(** * kernel/arch/elf.c: writing to the memory of a process

    The loaders fill a new address space from outside, page by page, through
    the direct map.  Words of the direct map are split into bytes
    ([ldb], [stb]); [ubyte] is what the process itself reads at one of its
    addresses; [uwrites] describes a store of bytes into the process. *)

From S2P Require Import Prelude Phys PhysInv PhysInit PageAlloc PageTable Region AddrSpace Bytes.
From Stdlib Require Import ZArith Lia.
From stdpp Require Import base list gmap numbers.
Open Scope Z_scope.

Module UserMem.
Import PageAlloc PageTable AddrSpace.
Abbreviation is_byte := Bytes.is_byte.

(** ** Loops *)

(** [while]-loops: [inl] is the next round, [inr] leaves the loop.  The bound
    on the number of rounds is binary, so that it may be as large as the
    integers of the program and still be run. *)
Fixpoint loop {X R : Type} (f : X -> X + R) (n : positive) (x : X) : X + R :=
  match n with
  | xH => f x
  | xO n => match loop f n x with inl x => loop f n x | inr r => inr r end
  | xI n => match f x with
            | inl x => match loop f n x with inl x => loop f n x | inr r => inr r end
            | inr r => inr r
            end
  end.

(** A loop whose measure goes down ends within its bound. *)
Lemma loop_steps {X R} (f : X -> X + R) (I : X -> Prop) (m : X -> Z) (Q : R -> Prop) :
  (forall x, I x -> match f x with inl y => I y /\ 0 <= m y < m x | inr r => Q r end) ->
  forall n x, I x -> match loop f n x with inl y => I y /\ 0 <= m y <= m x - Zpos n | inr r => Q r end.
Proof.
  intros Hf. induction n as [n IH|n IH|]; intros x Hx; cbn [loop].
  - pose proof (Hf x Hx) as H0. destruct (f x) as [y|r]; [|done]. destruct H0 as [Hy Hm].
    pose proof (IH y Hy) as H1. destruct (loop f n y) as [z|r]; [|done]. destruct H1 as [Hz Hm1].
    pose proof (IH z Hz) as H2. destruct (loop f n z) as [u|r]; [|done]. destruct H2. split; [done|lia].
  - pose proof (IH x Hx) as H1. destruct (loop f n x) as [z|r]; [|done]. destruct H1 as [Hz Hm1].
    pose proof (IH z Hz) as H2. destruct (loop f n z) as [u|r]; [|done]. destruct H2. split; [done|lia].
  - pose proof (Hf x Hx) as H0. destruct (f x) as [y|r]; [|done]. destruct H0. split; [done|lia].
Qed.

Lemma loop_rule {X R} (f : X -> X + R) (I : X -> Prop) (m : X -> Z) (Q : R -> Prop) n x :
  (forall x, I x -> match f x with inl y => I y /\ 0 <= m y < m x | inr r => Q r end) ->
  I x -> m x < Zpos n -> exists r, loop f n x = inr r /\ Q r.
Proof.
  intros Hf Hx Hm. pose proof (loop_steps f I m Q Hf n x Hx) as H.
  destruct (loop f n x) as [y|r]; [lia|]. by exists r.
Qed.

(** Loops that agree on the states they reach agree. *)
Lemma loop_ext {X R} (f g : X -> X + R) (I : X -> Prop) :
  (forall x, I x -> f x = g x /\ match f x with inl y => I y | inr _ => True end) ->
  forall n x, I x -> loop f n x = loop g n x /\ match loop f n x with inl y => I y | inr _ => True end.
Proof.
  intros H. induction n as [n IH|n IH|]; intros x Hx; cbn [loop]; [| |by apply H].
  - destruct (H x Hx) as [<- H1]. destruct (f x) as [y|]; [|done].
    destruct (IH y H1) as [<- H2]. destruct (loop f n y) as [z|]; [|done]. by apply IH.
  - destruct (IH x Hx) as [<- H2]. destruct (loop f n x) as [z|]; [|done]. by apply IH.
Qed.

(** More rounds than any [size_t] counts. *)
Definition ROUNDS : positive := (2 ^ 64 + 1)%positive.

Definition leave {X R} (r : X + R) : option R := match r with inl _ => None | inr r => Some r end.

(** ** Bytes of the direct map *)

Section Ops.
Context {S : Type} `{PageMem S}.

Definition ldb (s : S) (a : Z) : Z := Z.land (Z.shiftr (ld s (a - a mod 8)) (8 * (a mod 8))) 255.
Definition stb (s : S) (a b : Z) : S :=
  let w := a - a mod 8 in
  let k := 8 * (a mod 8) in
  st s w (Z.lor (Z.ldiff (ld s w) (Z.shiftl 255 k)) (Z.shiftl b k)).

(** [memcpy(a, bs, length bs)] *)
Fixpoint put_bytes (s : S) (a : Z) (bs : list Z) : S :=
  match bs with
  | [] => s
  | b :: bs => put_bytes (stb s a b) (a + 1) bs
  end.

(** One round of [vm_copy_to_user]; [src] is what is left to copy. *)
Definition copy_round (cr3 : Z) (x : S * Z * list Z) : (S * Z * list Z) + (Z * S) :=
  let '(s, dst, src) := x in
  let len := Z.of_nat (length src) in
  if negb (0 <? len) then inr (0, s)
  else
    let page_off := Z.land dst (PAGE_SIZE - 1) in
    let chunk := PAGE_SIZE - page_off in
    let chunk := if len <? chunk then len else chunk in
    let kva := amm_virt_to_kva s cr3 dst in
    if kva =? 0 then inr (-1, s)
    else inl (put_bytes s kva (take (Z.to_nat chunk) src), u64 (dst + chunk), drop (Z.to_nat chunk) src).

Definition vm_copy_to_user (s : S) (cr3 dst : Z) (src : list Z) : option (Z * S) :=
  leave (loop (copy_round cr3) ROUNDS (s, dst, src)).

Definition zero_round (cr3 : Z) (x : S * Z * Z) : (S * Z * Z) + (Z * S) :=
  let '(s, dst, len) := x in
  if negb (0 <? len) then inr (0, s)
  else
    let page_off := Z.land dst (PAGE_SIZE - 1) in
    let chunk := PAGE_SIZE - page_off in
    let chunk := if len <? chunk then len else chunk in
    let kva := amm_virt_to_kva s cr3 dst in
    if kva =? 0 then inr (-1, s)
    else inl (put_bytes s kva (replicate (Z.to_nat chunk) 0), u64 (dst + chunk), len - chunk).

Definition vm_zero_user (s : S) (cr3 dst len : Z) : option (Z * S) :=
  leave (loop (zero_round cr3) ROUNDS (s, dst, len)).

(** What the process reads at [x]; [None]: the page is not present. *)
Definition ubyte (s : S) (cr3 x : Z) : option Z :=
  match walk s cr3 (idx x) with
  | Some p => Some (ldb s (dmap s + p + x mod PAGE_SIZE))
  | None => None
  end.

End Ops.

(** ** Bytes of a word *)

Definition byte_of (v k : Z) : Z := Z.land (Z.shiftr v (8 * k)) 255.
Definition set_byte (v k b : Z) : Z := Z.lor (Z.ldiff v (Z.shiftl 255 (8 * k))) (Z.shiftl b (8 * k)).

Lemma testbit_255 n : 0 <= n -> Z.testbit 255 n = (n <? 8).
Proof. intros Hn. change 255 with (Z.ones 8). destruct (Z.ltb_spec n 8); [by apply Z.ones_spec_low|by apply Z.ones_spec_high]. Qed.

Lemma testbit_byte b n : 0 <= b < 256 -> 8 <= n -> Z.testbit b n = false.
Proof.
  intros Hb Hn. destruct (decide (b = 0)) as [->|]; [apply Z.bits_0|]. apply Z.bits_above_log2; [lia|].
  apply Z.lt_le_trans with 8; [|done]. apply Z.log2_lt_pow2; [lia|]. change (2 ^ 8) with 256. lia.
Qed.

Lemma byte_of_set v k b j : 0 <= k -> 0 <= j -> 0 <= b < 256 ->
  byte_of (set_byte v k b) j = if decide (j = k) then b else byte_of v j.
Proof.
  intros Hk Hj Hb. apply Z.bits_inj'. intros n Hn. unfold byte_of, set_byte.
  rewrite Z.land_spec, Z.shiftr_spec, testbit_255, Z.lor_spec, Z.ldiff_spec, !Z.shiftl_spec by lia.
  destruct (decide (j = k)) as [->|Hne].
  - replace (n + 8 * k - 8 * k) with n by lia. rewrite testbit_255 by lia.
    destruct (Z.ltb_spec n 8); [by rewrite andb_false_r, andb_true_r|]. rewrite andb_false_r.
    symmetry. by apply testbit_byte.
  - rewrite Z.land_spec, Z.shiftr_spec, (testbit_255 n) by lia.
    destruct (Z.ltb_spec n 8); [|by rewrite !andb_false_r]. rewrite !andb_true_r.
    destruct (Z_lt_le_dec j k).
    + rewrite (Z.testbit_neg_r b), (Z.testbit_neg_r 255) by lia. by rewrite andb_true_r, orb_false_r.
    + rewrite (testbit_byte b), testbit_255 by lia. rewrite (proj2 (Z.ltb_ge _ _)) by lia.
      by rewrite andb_true_r, orb_false_r.
Qed.

Lemma byte_of_0 k : byte_of 0 k = 0.
Proof. unfold byte_of. by rewrite Z.shiftr_0_l. Qed.

Section Proofs.
Context {S : Type} `{HM : PageMem S} `{HO : !PageMemOk S}.
Implicit Types (s : S) (A : list blk).

Lemma ldb_byte s a : is_byte (ldb s a).
Proof.
  unfold ldb, is_byte. change 255 with (2 ^ 8 - 1). rewrite land_mask_low by lia.
  change 256 with (2 ^ 8). apply Z.mod_pos_bound. lia.
Qed.

Lemma ldb_stb s a b x : is_byte b -> ldb (stb s a b) x = if decide (x = a) then b else ldb s x.
Proof.
  intros Hb. unfold ldb at 1, stb. rewrite ld_st. fold (set_byte (ld s (a - a mod 8)) (a mod 8) b).
  pose proof (Z.mod_pos_bound a 8 ltac:(lia)). pose proof (Z.mod_pos_bound x 8 ltac:(lia)).
  destruct (decide (x - x mod 8 = a - a mod 8)) as [E|E].
  - fold (byte_of (set_byte (ld s (a - a mod 8)) (a mod 8) b) (x mod 8)). rewrite byte_of_set by (done || lia).
    destruct (decide (x = a)) as [->|]; [by rewrite decide_True|]. rewrite decide_False by lia.
    unfold ldb, byte_of. by rewrite E.
  - rewrite decide_False; [done|]. intros ->. done.
Qed.

(** [x] lies in the page [p] of the direct map. *)
Definition in_page s (p x : Z) : Prop := dmap s + p <= x < dmap s + p + PAGE_SIZE.

Lemma word_in_page s A p x : held s A -> (p, 0%nat) ∈ A -> in_page s p x -> in_page s p (x - x mod 8).
Proof.
  intros Hh Hp Hx. destruct (held_dmap s A Hh) as [d Hd]. destruct (held_page s A p Hh Hp) as (_ & [q Hq] & _).
  unfold in_page in *. change PAGE_SIZE with 4096 in *. rewrite Hd, Hq in *.
  pose proof (Z.mod_pos_bound x 8 ltac:(lia)). Z.div_mod_to_equations. lia.
Qed.

Lemma in_page_word s p x : in_page s p x -> word_of (dmap s) (p, 0%nat) x.
Proof.
  unfold in_page, word_of, PhysInv.in_block. cbn [fst snd]. rewrite PhysInv.bsize_0. change PAGE_SIZE with 4096. lia.
Qed.

(** Stores that stay in one held page. *)
Lemma put_bytes_ok bs : forall s A p a, held s A -> (p, 0%nat) ∈ A -> Forall is_byte bs ->
  (forall k, 0 <= k < Z.of_nat (length bs) -> in_page s p (a + k)) ->
  let s' := put_bytes s a bs in
  held s' A /\ dmap s' = dmap s /\
  (forall x, ldb s' x = if decide (a <= x < a + Z.of_nat (length bs)) then nth (Z.to_nat (x - a)) bs 0 else ldb s x) /\
  (forall w, ~ in_page s p w -> ld s' w = ld s w).
Proof.
  induction bs as [|b bs IH]; intros s A p a Hh Hp Hb Ha; cbn [put_bytes].
  { split_and!; try done. intros x. rewrite decide_False; [done|simpl; lia]. }
  apply list.Forall_cons in Hb as [Hb Hbs]. simpl length in Ha.
  assert (H0 : in_page s p (a - a mod 8)).
  { apply (word_in_page s A); [done|done|]. replace a with (a + 0) by lia. apply Ha. lia. }
  assert (Ed : dmap (stb s a b) = dmap s) by apply dmap_st.
  assert (Hh1 : held (stb s a b) A) by (eapply held_st; [done|done|by apply in_page_word]).
  destruct (IH (stb s a b) A p (a + 1) Hh1 Hp Hbs) as (I1 & I2 & I3 & I4).
  { intros k Hk. unfold in_page. rewrite Ed. replace (a + 1 + k) with (a + (k + 1)) by lia. apply Ha. lia. }
  split_and!; [done|congruence| |].
  - intros x. rewrite I3, ldb_stb by done. simpl length. destruct (decide (x = a)) as [->|].
    + rewrite decide_False, decide_True by lia. rewrite Z.sub_diag. done.
    + destruct (decide (a + 1 <= x < a + 1 + Z.of_nat (length bs))).
      * rewrite decide_True by lia. by replace (Z.to_nat (x - a)) with (Datatypes.S (Z.to_nat (x - (a + 1)))) by lia.
      * rewrite decide_False by lia. done.
  - intros w Hw. rewrite I4 by (unfold in_page; by rewrite Ed). unfold stb. rewrite ld_st, decide_False; [done|].
    intros ->. done.
Qed.

(** ** Stores into the process *)

(** Only the tables on the way decide a translation. *)
Lemma tables_walk s s' r : (forall rho t j, user rho -> (length rho <= 3)%nat -> walk s r rho = Some t ->
    0 <= j < 512 -> ent s' t j = ent s t j) ->
  forall rho, user rho -> walk s' r rho = walk s r rho.
Proof.
  intros He rho. induction rho as [|j rho IH] using rev_ind; intros Hu; [done|].
  pose proof (user_len _ Hu) as Hl. rewrite length_app in Hl. simpl in Hl. apply user_snoc in Hu as [Hu Hj].
  rewrite !walk_app, IH by done. destruct (walk s r rho) as [t|] eqn:E; [|done]. cbn [walk].
  unfold child. by rewrite (He rho) by (done || lia).
Qed.

Lemma tables_owns s s' r A : owns user s r A -> (forall rho t j, user rho -> (length rho <= 3)%nat -> walk s r rho = Some t ->
    0 <= j < 512 -> ent s' t j = ent s t j) -> owns user s' r A.
Proof.
  intros Ho He. pose proof (tables_walk s s' r He) as Hw. split.
  - intros pi p Hu E. rewrite Hw in E by done. by apply (ow_held _ _ _ _ Ho pi).
  - intros pi rho p U1 U2 E1 E2. rewrite Hw in E1, E2 by done. by apply (ow_inj _ _ _ _ Ho pi rho p).
  - intros pi t i Hu Hl E Hi. rewrite Hw in E by done. rewrite (He pi t i) by (done || lia). by apply (ow_pd _ _ _ _ Ho).
Qed.

(** [s'] is [s] with the bytes [bs] stored at the process addresses from [x0]
    on; [A] are the held blocks, [r] the root of the process' tables. *)
Record uwrites A (r x0 : Z) (bs : list Z) s s' : Prop := {
  uw_held : held s' A;
  uw_owns : owns user s' r A;
  uw_dmap : dmap s' = dmap s;
  uw_walk : forall rho, user rho -> walk s' r rho = walk s r rho;
  uw_byte : forall x, user_va x -> ubyte s' r x =
    if decide (x0 <= x < x0 + Z.of_nat (length bs)) then bs !! Z.to_nat (x - x0) else ubyte s r x;
  uw_frame : forall b w, b ∈ A -> (forall x, x0 <= x < x0 + Z.of_nat (length bs) -> walk s r (idx x) <> Some b.1) ->
    word_of (dmap s) b w -> ld s' w = ld s w }.

Lemma uwrites_nil A r x0 s : held s A -> owns user s r A -> uwrites A r x0 [] s s.
Proof. intros. split; try done. intros x Hx. rewrite decide_False; [done|simpl; lia]. Qed.

Lemma uwrites_app A r x0 bs cs s s1 s2 : uwrites A r x0 bs s s1 ->
  uwrites A r (x0 + Z.of_nat (length bs)) cs s1 s2 ->
  (forall x, x0 <= x < x0 + Z.of_nat (length (bs ++ cs)) -> user_va x) ->
  uwrites A r x0 (bs ++ cs) s s2.
Proof.
  intros [a1 a2 a3 a4 a5 a6] [b1 b2 b3 b4 b5 b6] Hv. rewrite length_app in Hv.
  split; [done|done|congruence|intros; by rewrite b4, a4| |].
  - intros x Hx. rewrite b5, a5, length_app by done.
    destruct (decide (x0 <= x < x0 + Z.of_nat (length bs))).
    + rewrite decide_False, decide_True by lia. rewrite lookup_app_l by lia. done.
    + destruct (decide (x0 + Z.of_nat (length bs) <= x < _)).
      * rewrite decide_True by lia. rewrite lookup_app_r by lia. f_equal. lia.
      * rewrite decide_False by lia. done.
  - intros b w Hb Hn Hw. rewrite length_app in Hn. rewrite (b6 b); [apply (a6 b)|done| |by rewrite a3]; try done.
    + intros x Hx. apply Hn. lia.
    + intros x Hx. rewrite a4; [apply Hn; lia|]. apply user_va_path, Hv. lia.
Qed.

(** A block is reached from one page of addresses only. *)
Lemma same_page x y : 0 <= x -> x mod PAGE_SIZE <= y - (x - x mod PAGE_SIZE) < PAGE_SIZE -> y / PAGE_SIZE = x / PAGE_SIZE.
Proof. change PAGE_SIZE with 4096. intros. Z.div_mod_to_equations. lia. Qed.

Lemma user_va_lt x : user_va x -> 0 <= x < 2 ^ 48.
Proof. intros [? _]. lia. Qed.

(** The bytes of two process addresses are different. *)
Lemma kva_inj s A r x y p q : held s A -> owns user s r A -> user_va x -> user_va y ->
  walk s r (idx x) = Some p -> walk s r (idx y) = Some q ->
  in_page s p (dmap s + q + y mod PAGE_SIZE) -> p = q /\ x / PAGE_SIZE = y / PAGE_SIZE.
Proof.
  intros Hh Ho Hx Hy Ep Eq Hin. pose proof (user_va_path x Hx) as Ux. pose proof (user_va_path y Hy) as Uy.
  assert (HpA : (p, 0%nat) ∈ A) by (by apply (ow_held _ _ _ _ Ho (idx x))).
  assert (HqA : (q, 0%nat) ∈ A) by (by apply (ow_held _ _ _ _ Ho (idx y))).
  assert (E : (p, 0%nat) = (q, 0%nat)).
  { apply (held_disj s A _ _ (q + y mod PAGE_SIZE) Hh); [done|done| |]; unfold PhysInv.in_block; cbn [fst snd];
      rewrite PhysInv.bsize_0; pose proof (Z.mod_pos_bound y PAGE_SIZE ltac:(done)); unfold in_page in Hin;
      change PAGE_SIZE with 4096 in *; lia. }
  injection E as ->. split; [done|]. apply idx_inj; [by apply user_va_lt|by apply user_va_lt|].
  by apply (ow_inj _ _ _ _ Ho (idx x) (idx y) q).
Qed.

(** Storing into the page of [x0] at the address [amm_virt_to_kva] gives. *)
Lemma page_store s A r x0 p bs : held s A -> owns user s r A -> user_va x0 -> walk s r (idx x0) = Some p ->
  Forall is_byte bs -> x0 mod PAGE_SIZE + Z.of_nat (length bs) <= PAGE_SIZE ->
  uwrites A r x0 bs s (put_bytes s (dmap s + p + x0 mod PAGE_SIZE) bs).
Proof.
  intros Hh Ho Hx Ep Hb Hl. pose proof (user_va_path x0 Hx) as Ux.
  assert (HpA : (p, 0%nat) ∈ A) by (by apply (ow_held _ _ _ _ Ho (idx x0))).
  pose proof (Z.mod_pos_bound x0 PAGE_SIZE ltac:(done)) as Hm.
  destruct (put_bytes_ok bs s A p (dmap s + p + x0 mod PAGE_SIZE) Hh HpA Hb) as (I1 & I2 & I3 & I4).
  { intros k Hk. unfold in_page. lia. }
  set (s' := put_bytes s _ bs) in *. assert (Hnil : bs = [] -> s' = s) by (intros ->; done). clearbody s'.
  assert (Hfr : forall b w, b ∈ A -> b <> (p, 0%nat) -> word_of (dmap s) b w -> ld s' w = ld s w).
  { intros b w HbA Hne Hw. apply I4. intros Hin. apply Hne, (held_disj s A _ _ (w - dmap s) Hh); [done|done|done|].
    by apply in_page_word. }
  assert (Het : forall rho t j, user rho -> (length rho <= 3)%nat -> walk s r rho = Some t -> 0 <= j < 512 -> ent s' t j = ent s t j).
  { intros rho t j Hu Hlen E Hj. assert (HtA : (t, 0%nat) ∈ A) by (by apply (ow_held _ _ _ _ Ho rho)).
    apply (ent_frame s s' A t Hh HtA I2); [|done]. intros w Hw. apply (Hfr (t, 0%nat)); [done| |done].
    intros [= ->]. assert (rho = idx x0) as -> by (by apply (ow_inj _ _ _ _ Ho _ _ p)). simpl in Hlen. lia. }
  pose proof (tables_walk s s' r Het) as Hw. split; [done|by apply (tables_owns s)|done|done| |].
  - intros x Hxv. unfold ubyte. rewrite Hw by (by apply user_va_path). rewrite I2.
    destruct (decide (x0 <= x < x0 + Z.of_nat (length bs))) as [Hr|Hr].
    + assert (Epg : x / PAGE_SIZE = x0 / PAGE_SIZE) by (apply same_page; destruct Hx; lia).
      assert (Ei : idx x = idx x0) by (apply idx_inj; [by apply user_va_lt|by apply user_va_lt|done]).
      assert (Em : x mod PAGE_SIZE = x0 mod PAGE_SIZE + (x - x0)) by (rewrite !Z.mod_eq, Epg by done; lia).
      rewrite Ei, Ep, I3, decide_True by lia. rewrite Em.
      replace (dmap s + p + (x0 mod PAGE_SIZE + (x - x0)) - (dmap s + p + x0 mod PAGE_SIZE)) with (x - x0) by lia.
      destruct (lookup_lt_is_Some_2 bs (Z.to_nat (x - x0)) ltac:(lia)) as [v Ev]. rewrite Ev. f_equal.
      by apply nth_lookup_Some.
    + destruct (walk s r (idx x)) as [q|] eqn:Eq; [|done]. f_equal. rewrite I3, decide_False; [done|].
      intros Hin. apply Hr. destruct (kva_inj s A r x0 x p q Hh Ho Hx Hxv Ep Eq) as [-> Epg]; [unfold in_page; lia|].
      rewrite !Z.mod_eq, Epg in Hin by done. lia.
  - intros b w HbA Hn Hbw. destruct (decide (bs = [])) as [Hn0|Hne].
    + by rewrite Hnil.
    + apply (Hfr b); [done| |done]. intros ->. apply (Hn x0); [|done].
      destruct bs; [done|]. simpl length. lia.
Qed.

(** ** [vm_copy_to_user] and [vm_zero_user] *)

(** The outcome: a prefix of [src] has been stored; 0 if it is all of it, -1 if
    it ends where the first missing page begins. *)
Definition copied A (r dst : Z) (src : list Z) s (res : Z * S) : Prop :=
  exists n, (n <= length src)%nat /\ uwrites A r dst (take n src) s res.2 /\
    (res.1 = 0 /\ n = length src \/
     res.1 = -1 /\ (n < length src)%nat /\ walk s r (idx (dst + Z.of_nat n)) = None).

(** The size of a chunk: up to the end of the page, or of the source. *)
Definition chunk_at (dst len : Z) : Z :=
  if len <? PAGE_SIZE - Z.land dst (PAGE_SIZE - 1) then len else PAGE_SIZE - Z.land dst (PAGE_SIZE - 1).

Lemma chunk_bounds dst len : 0 < len -> 0 < chunk_at dst len <= len /\ dst mod PAGE_SIZE + chunk_at dst len <= PAGE_SIZE.
Proof.
  intros Hl. unfold chunk_at. change (PAGE_SIZE - 1) with (2 ^ 12 - 1). rewrite land_mask_low by lia.
  change (2 ^ 12) with PAGE_SIZE. pose proof (Z.mod_pos_bound dst PAGE_SIZE ltac:(done)).
  destruct (Z.ltb_spec len (PAGE_SIZE - dst mod PAGE_SIZE)); lia.
Qed.

(** Storing one more chunk. *)
Lemma copy_chunk A r dst src s n s1 : uwrites A r dst (take n src) s s1 -> (n < length src)%nat ->
  Forall is_byte src -> (forall x, dst <= x < dst + Z.of_nat (length src) -> user_va x) ->
  let d := dst + Z.of_nat n in
  let c := Z.to_nat (chunk_at d (Z.of_nat (length (drop n src)))) in
  let kva := amm_virt_to_kva s1 r d in
  (kva = 0 /\ walk s r (idx d) = None) \/
  (kva <> 0 /\ (0 < c)%nat /\ (n + c <= length src)%nat /\
   uwrites A r dst (take (n + c) src) s (put_bytes s1 kva (take c (drop n src)))).
Proof.
  intros Hw Hn Hb Hv d c kva. assert (Hd : user_va d) by (apply Hv; lia).
  pose proof (uw_held _ _ _ _ _ _ Hw) as Hh. pose proof (uw_owns _ _ _ _ _ _ Hw) as Ho.
  assert (Ew : walk s1 r (idx d) = walk s r (idx d)) by (by apply (uw_walk _ _ _ _ _ _ Hw), user_va_path).
  pose proof (kva_present s1 A r d Hh Ho Hd) as Hp. pose proof (kva_walk s1 A r d Hh Ho Hd) as Hk. fold kva in Hp, Hk.
  destruct (walk s1 r (idx d)) as [p|] eqn:E; [right|left; done].
  rewrite bool_decide_eq_true_2 in Hp by eauto. unfold truthy in Hp. apply negb_true_iff, Z.eqb_neq in Hp.
  assert (Hlen : (length (drop n src) = length src - n)%nat) by apply length_drop.
  destruct (chunk_bounds d (Z.of_nat (length (drop n src))) ltac:(lia)) as [Hc1 Hc2].
  split; [done|]. split; [unfold c; lia|]. split; [unfold c; lia|].
  assert (Etk : take (n + c) src = take n src ++ take c (drop n src)) by (symmetry; apply take_take_drop).
  assert (Ln : length (take n src) = n) by (rewrite length_take; lia).
  assert (Lc : length (take c (drop n src)) = c) by (rewrite length_take; unfold c; lia).
  rewrite Etk. apply (uwrites_app _ _ _ _ _ _ s1); [done| |].
  - rewrite Ln. fold d. rewrite Hk. apply page_store; [done|done|done|done|by apply Forall_take, Forall_drop|].
    rewrite Lc. unfold c. lia.
  - rewrite length_app, Ln, Lc. intros x Hx. apply Hv. unfold c in Hx. lia.
Qed.

(** The state at the head of the loop, after [n] bytes. *)
Definition copy_inv A (r dst : Z) (src : list Z) s (x : S * Z * list Z) : Prop :=
  let '(s1, d, l) := x in
  exists n, (n <= length src)%nat /\ l = drop n src /\ d = dst + Z.of_nat n /\ uwrites A r dst (take n src) s s1.

Lemma copy_inv_start A r dst src s : held s A -> owns user s r A -> copy_inv A r dst src s (s, dst, src).
Proof. exists 0%nat. split_and!; [lia|done|lia|]. by apply uwrites_nil. Qed.

Lemma copy_round_ok A r dst src s x : Forall is_byte src ->
  (forall x, dst <= x < dst + Z.of_nat (length src) -> user_va x) -> copy_inv A r dst src s x ->
  match copy_round r x with
  | inl y => copy_inv A r dst src s y /\ 0 <= Z.of_nat (length y.2) < Z.of_nat (length x.2)
  | inr res => copied A r dst src s res
  end.
Proof.
  intros Hb Hv. destruct x as [[s1 d] l]. intros (n & Hn & -> & -> & Hw). unfold copy_round.
  set (len := Z.of_nat (length (drop n src))). assert (El : len = Z.of_nat (length src) - Z.of_nat n)
    by (unfold len; rewrite length_drop; lia).
  destruct (Z.ltb_spec 0 len); cbn [negb].
  - fold (chunk_at (dst + Z.of_nat n) len).
    destruct (copy_chunk A r dst src s n s1 Hw ltac:(lia) Hb Hv) as [[Hk Hno]|(Hk & Hc & Hle & Hw')].
    + rewrite Hk. cbn. exists n. split; [done|]. split; [done|]. right. split_and!; [done|lia|done].
    + apply Z.eqb_neq in Hk. rewrite Hk. destruct (chunk_bounds (dst + Z.of_nat n) len ltac:(lia)).
      fold len in Hc, Hle, Hw'. set (c := chunk_at _ len) in *.
      assert (dst + Z.of_nat n + c <= 2 ^ 47) by (destruct (Hv (dst + Z.of_nat n + c - 1)); lia).
      destruct (Hv dst) as [Hd0 _]; [lia|].
      split; [|cbn [snd]; rewrite !length_drop; lia]. exists (n + Z.to_nat c)%nat. split_and!; [lia|by rewrite drop_drop| |done].
      rewrite u64_small by lia. lia.
  - exists n. split; [done|]. split; [done|]. left. split; [done|lia].
Qed.

Lemma copy_ok A r dst src s : held s A -> owns user s r A -> Forall is_byte src ->
  Z.of_nat (length src) <= 2 ^ 64 ->
  (forall x, dst <= x < dst + Z.of_nat (length src) -> user_va x) ->
  exists res, vm_copy_to_user s r dst src = Some res /\ copied A r dst src s res.
Proof.
  intros Hh Ho Hb Hlen Hv. unfold vm_copy_to_user.
  edestruct (loop_rule (copy_round r) (copy_inv A r dst src s) (fun x => Z.of_nat (length x.2)) (copied A r dst src s) ROUNDS (s, dst, src))
    as (res & E & Hres).
  - intros x. by apply copy_round_ok.
  - by apply copy_inv_start.
  - change (Z.pos ROUNDS) with (2 ^ 64 + 1). cbn [snd]. lia.
  - rewrite E. by exists res.
Qed.

(** Zeroing is copying zeros. *)
Lemma zero_round_copy r s dst len : 0 <= len ->
  zero_round r (s, dst, len) =
  match copy_round r (s, dst, replicate (Z.to_nat len) 0) with
  | inl (s, dst, l) => inl (s, dst, Z.of_nat (length l)) | inr res => inr res end /\
  match copy_round r (s, dst, replicate (Z.to_nat len) 0) with
  | inl (_, _, l) => exists k, l = replicate k 0 | inr _ => True end.
Proof.
  intros Hl. unfold zero_round, copy_round. rewrite length_replicate, Z2Nat.id by done.
  destruct (Z.ltb_spec 0 len); cbn [negb]; [|done]. fold (chunk_at dst len).
  destruct (chunk_bounds dst len ltac:(lia)). set (c := chunk_at dst len) in *.
  destruct (amm_virt_to_kva s r dst =? 0); [done|]. rewrite take_replicate, drop_replicate, length_replicate.
  replace (Z.to_nat c `min` Z.to_nat len)%nat with (Z.to_nat c) by lia.
  split; [|eauto]. do 2 f_equal. lia.
Qed.

Lemma zero_copy_steps r n : forall s dst len, 0 <= len ->
  loop (zero_round r) n (s, dst, len) =
  match loop (copy_round r) n (s, dst, replicate (Z.to_nat len) 0) with
  | inl (s, dst, l) => inl (s, dst, Z.of_nat (length l)) | inr res => inr res end /\
  match loop (copy_round r) n (s, dst, replicate (Z.to_nat len) 0) with
  | inl (_, _, l) => exists k, l = replicate k 0 | inr _ => True end.
Proof.
  induction n as [n IH|n IH|]; intros s dst len Hl; cbn [loop].
  - destruct (zero_round_copy r s dst len Hl) as [-> H2]. destruct (copy_round r _) as [[[s1 d1] l1]|]; [|done]. destruct H2 as [k1 ->].
    rewrite length_replicate. destruct (IH s1 d1 (Z.of_nat k1) ltac:(lia)) as [-> H2]. rewrite Nat2Z.id in *.
    destruct (loop (copy_round r) n _) as [[[s2 d2] l2]|]; [|done]. destruct H2 as [k2 ->]. rewrite length_replicate.
    destruct (IH s2 d2 (Z.of_nat k2) ltac:(lia)) as [-> H2]. by rewrite Nat2Z.id in *.
  - destruct (IH s dst len Hl) as [-> H2]. destruct (loop (copy_round r) n _) as [[[s2 d2] l2]|]; [|done].
    destruct H2 as [k2 ->]. rewrite length_replicate.
    destruct (IH s2 d2 (Z.of_nat k2) ltac:(lia)) as [-> H2]. by rewrite Nat2Z.id in *.
  - by apply zero_round_copy.
Qed.

Lemma zero_copy r s dst len : 0 <= len -> vm_zero_user s r dst len = vm_copy_to_user s r dst (replicate (Z.to_nat len) 0).
Proof.
  intros Hl. unfold vm_zero_user, vm_copy_to_user. destruct (zero_copy_steps r ROUNDS s dst len Hl) as [-> _].
  by destruct (loop (copy_round r) ROUNDS _) as [[[? ?] ?]|].
Qed.

Lemma zero_ok A r dst len s : held s A -> owns user s r A -> 0 <= len <= 2 ^ 64 ->
  (forall x, dst <= x < dst + len -> user_va x) ->
  exists res, vm_zero_user s r dst len = Some res /\ copied A r dst (replicate (Z.to_nat len) 0) s res.
Proof.
  intros Hh Ho Hl Hv. rewrite zero_copy by lia. apply copy_ok; [done|done| | |].
  - apply Forall_replicate. unfold Bytes.is_byte. lia.
  - rewrite length_replicate. lia.
  - rewrite length_replicate. intros x Hx. apply Hv. lia.
Qed.

End Proofs.
End UserMem.
