(* ===== verification/UserStack.v ===== *)
(** * kernel/arch/elf.c: the initial stack of a process

    [build_user_stack_vm] lays the argument and environment strings and the
    pointers to them out below the top of the stack, by pushing through the
    page tables of the new process.  The theorem states the layout the program
    finds at its entry point: [process_start]. *)

From S2P Require Import Prelude Phys PhysInv PhysInit PageAlloc PageTable Region AddrSpace Bytes UserMem.
From Stdlib Require Import ZArith Lia.
From stdpp Require Import base list gmap numbers.
Open Scope Z_scope.

Module UserStack.
Import PageAlloc PageTable AddrSpace UserMem.
Import Bytes(le_bytes).

Definition USER_STACK_SIZE : Z := 2 * 1024 * 1024.
Definition USER_STACK_TOP : Z := 0x00007FFF00000000.

(** A C string: its bytes before the terminating zero. *)
Abbreviation cstr := (list Z).

(** The strings before the [NULL] of an argument array; [None] is a null array. *)
Abbreviation strs := (option (list cstr)).

Definition count_strs (arr : strs) : Z :=
  match arr with None => 0 | Some l => Z.of_nat (length l) end.
Definition str_len (s : cstr) : Z := Z.of_nat (length s).
Definition elems (arr : strs) : list cstr := default [] arr.

Section Ops.
Context {S : Type} `{PageMem S}.

(** A function body that may leave early: [None] does not end, [inl] is a
    [return] with its result. *)
Definition flow (X : Type) : Type := option ((Z * S) + X).
Definition fbind {X Y} (e : flow X) (k : X -> flow Y) : flow Y :=
  match e with
  | None => None
  | Some (inl r) => Some (inl r)
  | Some (inr x) => k x
  end.
Definition go {X} (x : X) : flow X := Some (inr x).
Definition finish (e : flow (Z * S)) : option (Z * S) :=
  match e with None => None | Some (inl r) => Some r | Some (inr r) => Some r end.

(** The result code, the new stack pointer and the state. *)
Definition push_user_bytes (s : S) (cr3 sp : Z) (src : list Z) : option (Z * Z * S) :=
  let sp := u64 (sp - Z.of_nat (length src)) in
  match vm_copy_to_user s cr3 sp src with None => None | Some (rc, s) => Some (rc, sp, s) end.

Definition push_user_u64 (s : S) (cr3 sp val : Z) : option (Z * Z * S) :=
  let sp := u64 (sp - 8) in
  match vm_copy_to_user s cr3 sp (le_bytes 8 val) with None => None | Some (rc, s) => Some (rc, sp, s) end.

(** [PUSH_BYTES_VM] and [PUSH_U64_VM] *)
Definition returns_0_on_error (e : option (Z * Z * S)) : flow (Z * S) :=
  match e with
  | None => None
  | Some (rc, sp, s) => if negb (rc =? 0) then Some (inl (0, s)) else go (sp, s)
  end.

(** [for (int i = n - 1; i >= 0; i--)] over the strings: [l] is the array
    backwards, [ptrs] the pointers of the strings already pushed. *)
Fixpoint push_strings (cr3 : Z) (l : list cstr) (ptrs : list Z) (sp : Z) (s : S) : flow (list Z * Z * S) :=
  match l with
  | [] => go (ptrs, sp, s)
  | str :: l =>
      fbind (returns_0_on_error (push_user_bytes s cr3 sp (str ++ [0])))
        (fun '(sp, s) => push_strings cr3 l (sp :: ptrs) sp s)
  end.

Fixpoint push_words (cr3 : Z) (l : list Z) (sp : Z) (s : S) : flow (Z * S) :=
  match l with
  | [] => go (sp, s)
  | v :: l => fbind (returns_0_on_error (push_user_u64 s cr3 sp v)) (fun '(sp, s) => push_words cr3 l sp s)
  end.

(** At most 63 strings of either array are passed on. *)
Definition passed (arr : strs) : list cstr :=
  take (Z.to_nat (if 63 <? count_strs arr then 63 else count_strs arr)) (elems arr).

Definition build_user_stack_vm (argv envp : strs) (s : S) (cr3 : Z) : option (Z * S) :=
  let argc := count_strs argv in
  let envc := count_strs envp in
  let user_sp := USER_STACK_TOP in
  let env_count := if 63 <? envc then 63 else envc in
  let arg_count := if 63 <? argc then 63 else argc in
  finish
    (fbind (push_strings cr3 (rev (passed envp)) [] user_sp s) (fun '(envp_ptrs, user_sp, s) =>
     fbind (push_strings cr3 (rev (passed argv)) [] user_sp s) (fun '(argv_ptrs, user_sp, s) =>
     let user_sp := Z.land user_sp (2 ^ 64 - 1 - 15) in
     fbind (if negb ((arg_count + env_count + 3) mod 2 =? 0)
            then returns_0_on_error (push_user_u64 s cr3 user_sp 0) else go (user_sp, s)) (fun '(user_sp, s) =>
     fbind (returns_0_on_error (push_user_u64 s cr3 user_sp 0)) (fun '(user_sp, s) =>
     fbind (push_words cr3 (rev envp_ptrs) user_sp s) (fun '(user_sp, s) =>
     fbind (returns_0_on_error (push_user_u64 s cr3 user_sp 0)) (fun '(user_sp, s) =>
     fbind (push_words cr3 (rev argv_ptrs) user_sp s) (fun '(user_sp, s) =>
     returns_0_on_error (push_user_u64 s cr3 user_sp arg_count))))))))).

(** ** What the program finds *)

Definition uword (s : S) (cr3 a v : Z) : Prop :=
  forall i, (i < 8)%nat -> ubyte s cr3 (a + Z.of_nat i) = le_bytes 8 v !! i.
Definition ustr (s : S) (cr3 a : Z) (str : cstr) : Prop :=
  forall i, (i <= length str)%nat -> ubyte s cr3 (a + Z.of_nat i) = (str ++ [0]) !! i.

(** A pointer to a string that lies in the stack area. *)
Definition points_to (s : S) (cr3 : Z) (p : Z) (str : cstr) : Prop :=
  USER_STACK_TOP - USER_STACK_SIZE < p /\ p + str_len str < USER_STACK_TOP /\ ustr s cr3 p str.

(** The System V layout at the entry point: the number of arguments at [sp],
    above it the pointers to the arguments, a null pointer, the pointers to
    the environment strings, a null pointer. *)
Definition process_start (s : S) (cr3 sp : Z) (av ev : list cstr) : Prop :=
  USER_STACK_TOP - USER_STACK_SIZE < sp /\
  uword s cr3 sp (Z.of_nat (length av)) /\
  exists ap ep,
    sp + 8 + 8 * Z.of_nat (length (ap ++ [0] ++ ep ++ [0])) <= USER_STACK_TOP /\
    (forall i v, (ap ++ [0] ++ ep ++ [0]) !! i = Some v -> uword s cr3 (sp + 8 + 8 * Z.of_nat i) v) /\
    Forall2 (points_to s cr3) ap av /\ Forall2 (points_to s cr3) ep ev.

End Ops.

(** The bytes of an array of strings, and where each begins. *)
Definition flat (l : list cstr) : list Z := concat (map (fun str => str ++ [0]) l).
Fixpoint addrs (x : Z) (l : list cstr) : list Z :=
  match l with [] => [] | str :: l => x :: addrs (x + str_len str + 1) l end.
Definition words (l : list Z) : list Z := concat (map (le_bytes 8) l).
Definition zlen (l : list Z) : Z := Z.of_nat (length l).

Lemma flat_snoc l str : flat (l ++ [str]) = flat l ++ str ++ [0].
Proof. unfold flat. rewrite map_app, concat_app. cbn [map concat]. by rewrite app_nil_r. Qed.
Lemma flat_cons l str : flat (str :: l) = (str ++ [0]) ++ flat l.
Proof. done. Qed.
Lemma addrs_snoc l str : forall x, addrs x (l ++ [str]) = addrs x l ++ [x + zlen (flat l)].
Proof.
  induction l as [|t l IH]; intros x; simpl; [unfold zlen, flat; simpl; do 2 f_equal; lia|].
  f_equal. rewrite IH. do 2 f_equal. rewrite flat_cons. unfold zlen, str_len. rewrite !length_app. cbn [length]. lia.
Qed.
Lemma words_snoc l v : words (l ++ [v]) = words l ++ le_bytes 8 v.
Proof. unfold words. rewrite map_app, concat_app. cbn [map concat]. by rewrite app_nil_r. Qed.
Lemma words_one v : words [v] = le_bytes 8 v.
Proof. unfold words. cbn [map concat]. apply app_nil_r. Qed.
Lemma words_app l k : words (l ++ k) = words l ++ words k.
Proof. unfold words. by rewrite map_app, concat_app. Qed.
Lemma zlen_words l : zlen (words l) = 8 * Z.of_nat (length l).
Proof.
  unfold zlen, words. induction l as [|v l IH]; [done|]. cbn [map concat].
  rewrite length_app, Bytes.length_le_bytes. cbn [length]. lia.
Qed.
Lemma zlen_app l k : zlen (l ++ k) = zlen l + zlen k.
Proof. unfold zlen. rewrite length_app. lia. Qed.
Lemma zlen_nonneg l : 0 <= zlen l.
Proof. unfold zlen. lia. Qed.

Lemma words_byte l : Forall is_byte (words l).
Proof. unfold words. apply Forall_concat, Forall_map, Forall_true. intros v. apply Bytes.le_bytes_byte. Qed.
Lemma flat_byte l : Forall (Forall is_byte) l -> Forall is_byte (flat l).
Proof.
  intros Hl. unfold flat. apply Forall_concat, Forall_map. eapply List.Forall_impl; [|exact Hl]. intros str Hs.
  apply Forall_app. split; [done|]. repeat constructor; unfold Bytes.is_byte; lia.
Qed.

Section Proofs.
Context {S : Type} `{HM : PageMem S} `{HO : !PageMemOk S}.
Implicit Types (s : S) (A : list blk).

(** A store just below another. *)
Lemma uwrites_below A r x bs cs s s1 s2 : uwrites A r x bs s s1 -> uwrites A r (x - zlen cs) cs s1 s2 ->
  (forall y, x - zlen cs <= y < x + zlen bs -> user_va y) -> uwrites A r (x - zlen cs) (cs ++ bs) s s2.
Proof.
  unfold zlen. intros [a1 a2 a3 a4 a5 a6] [b1 b2 b3 b4 b5 b6] Hv.
  split; [done|done|congruence|intros; by rewrite b4, a4| |].
  - intros y Hy. rewrite b5, a5, length_app by done.
    destruct (decide (x - Z.of_nat (length cs) <= y < x - Z.of_nat (length cs) + Z.of_nat (length cs))).
    + rewrite decide_True by lia. rewrite lookup_app_l by lia. done.
    + destruct (decide (x <= y < x + _)).
      * rewrite decide_True by lia. rewrite lookup_app_r by lia. f_equal. lia.
      * rewrite decide_False by lia. done.
  - intros b w Hb Hn Hw. rewrite length_app in Hn. rewrite (b6 b); [apply (a6 b)|done| |by rewrite a3]; try done.
    + intros y Hy. apply Hn. lia.
    + intros y Hy. rewrite a4; [apply Hn; lia|]. apply user_va_path, Hv. lia.
Qed.

(** What every exit leaves in order. *)
Record kept A (r : Z) s s' : Prop := {
  k_held : held s' A;
  k_owns : owns user s' r A;
  k_dmap : dmap s' = dmap s;
  k_walk : forall rho, user rho -> walk s' r rho = walk s r rho }.

Lemma uwrites_kept A r x bs s s' : uwrites A r x bs s s' -> kept A r s s'.
Proof. intros [? ? ? ? ? ?]. by split. Qed.

Lemma kept_trans A r s s1 s2 : kept A r s s1 -> kept A r s1 s2 -> kept A r s s2.
Proof. intros [] []. split; [done|done|congruence|]. intros rho Hu. rewrite k_walk1, k_walk0; done. Qed.

(** The result of a piece of the function: it returns 0 because a page in
    [lo, hi) is missing, or goes on with [Q]. *)
Definition pushes {X} A (r lo hi : Z) s (Q : X -> Prop) (e : flow X) : Prop :=
  match e with
  | None => False
  | Some (inl (v, s')) => v = 0 /\ kept A r s s' /\ exists x, lo <= x < hi /\ walk s r (idx x) = None
  | Some (inr x) => Q x
  end.

Lemma pushes_bind {X Y} A r lo hi mid s (st1 : X -> S) (Q : X -> Prop) (Q' : Y -> Prop) e k :
  lo <= mid <= hi -> pushes A r mid hi s Q e ->
  (forall x, Q x -> kept A r s (st1 x) /\ pushes A r lo mid (st1 x) Q' (k x)) -> (forall x, lo <= x < hi -> user_va x) ->
  pushes A r lo hi s Q' (fbind e k).
Proof.
  intros Hm He Hk Hv. unfold fbind. destruct e as [[[v s']|x]|]; [| |done]; cbn [pushes] in *.
  - destruct He as (-> & Hkp & x & Hx & Ew). split_and!; [done|done|]. exists x. split; [lia|done].
  - destruct (Hk x He) as [Hkp Hp]. destruct (k x) as [[[v s']|y]|]; [| |done]; cbn [pushes] in *; [|done].
    destruct Hp as (-> & Hkp' & x' & Hx & Ew). split_and!; [done|by eapply kept_trans|].
    exists x'. split; [lia|]. rewrite <- (k_walk _ _ _ _ Hkp); [done|]. apply user_va_path, Hv. lia.
Qed.

Lemma push_bytes_ok A r sp bs s : held s A -> owns user s r A -> Forall is_byte bs ->
  (forall x, sp - zlen bs <= x < sp -> user_va x) -> 0 <= sp - zlen bs -> sp < 2 ^ 64 ->
  pushes A r (sp - zlen bs) sp s (fun '(sp', s') => sp' = sp - zlen bs /\ uwrites A r (sp - zlen bs) bs s s')
    (returns_0_on_error (push_user_bytes s r sp bs)).
Proof.
  intros Hh Ho Hb Hv H0 Hsp. unfold push_user_bytes. fold (zlen bs). pose proof (zlen_nonneg bs).
  rewrite u64_small by lia.
  destruct (copy_ok A r (sp - zlen bs) bs s Hh Ho Hb) as ([rc s'] & -> & n & Hn & Hw & Hres);
    [unfold zlen in *; lia|intros; apply Hv; unfold zlen in *; lia|]. cbn [fst snd] in *.
  destruct Hres as [[-> ->]|(-> & Hlt & Ew)]; cbn [returns_0_on_error Z.eqb negb pushes go].
  - rewrite firstn_all in Hw. done.
  - split_and!; [done|by eapply uwrites_kept|]. exists (sp - zlen bs + Z.of_nat n).
    split; [unfold zlen; lia|done].
Qed.

Lemma push_u64_bytes s r sp v : push_user_u64 s r sp v = push_user_bytes s r sp (le_bytes 8 v).
Proof. unfold push_user_u64, push_user_bytes. by rewrite Bytes.length_le_bytes. Qed.

Lemma push_u64_ok A r sp v s : held s A -> owns user s r A ->
  (forall x, sp - 8 <= x < sp -> user_va x) -> 0 <= sp - 8 -> sp < 2 ^ 64 ->
  pushes A r (sp - 8) sp s (fun '(sp', s') => sp' = sp - 8 /\ uwrites A r (sp - 8) (words [v]) s s')
    (returns_0_on_error (push_user_u64 s r sp v)).
Proof.
  intros Hh Ho Hv H0 Hsp. rewrite push_u64_bytes, <- words_one.
  pose proof (push_bytes_ok A r sp (words [v]) s Hh Ho (words_byte _)) as H. rewrite zlen_words in H. by apply H.
Qed.

Lemma push_strings_ok A r l : forall ptrs sp s, held s A -> owns user s r A -> Forall (Forall is_byte) l ->
  (forall x, sp - zlen (flat l) <= x < sp -> user_va x) -> 0 <= sp - zlen (flat l) -> sp < 2 ^ 64 ->
  pushes A r (sp - zlen (flat l)) sp s
    (fun '(ps, sp', s') => ps = addrs (sp - zlen (flat l)) l ++ ptrs /\ sp' = sp - zlen (flat l) /\
       uwrites A r (sp - zlen (flat l)) (flat l) s s')
    (push_strings r (rev l) ptrs sp s).
Proof.
  induction l as [|str l IH] using rev_ind; intros ptrs sp s Hh Ho Hb Hv H0 Hsp.
  { simpl. replace (sp - zlen (flat [])) with sp by (unfold zlen; simpl; lia). split_and!; [done|done|]. by apply uwrites_nil. }
  apply Forall_app in Hb as [Hb Hs]. apply list.Forall_cons in Hs as [Hs _].
  rewrite rev_app_distr. cbn [rev app push_strings]. rewrite flat_snoc, zlen_app in *.
  set (c := str ++ [0]) in *. pose proof (zlen_nonneg (flat l)). pose proof (zlen_nonneg c).
  assert (Hc : Forall is_byte c) by (apply Forall_app; split; [done|repeat constructor; unfold Bytes.is_byte; lia]).
  eapply (pushes_bind _ _ _ _ (sp - zlen c) _ snd); [lia|apply push_bytes_ok; try done; [intros; apply Hv; lia|lia]| |done].
  intros [sp1 s1] [-> Hw]. split; [by eapply uwrites_kept|]. cbn [snd].
  pose proof (IH ((sp - zlen c) :: ptrs) (sp - zlen c) s1 (uw_held _ _ _ _ _ _ Hw) (uw_owns _ _ _ _ _ _ Hw) Hb) as IH1.
  replace (sp - zlen c - zlen (flat l)) with (sp - (zlen (flat l) + zlen c)) in IH1 by lia.
  specialize (IH1 ltac:(intros; apply Hv; lia) ltac:(lia) ltac:(lia)).
  destruct (push_strings r (rev l) _ _ s1) as [[[v s']|[[ps sp'] s']]|]; cbn [pushes] in *; [done| |done].
  destruct IH1 as (-> & -> & Hw'). split_and!; [|done|].
  - rewrite addrs_snoc, <- app_assoc. do 2 f_equal. simpl. f_equal. lia.
  - replace (sp - (zlen (flat l) + zlen c)) with (sp - zlen c - zlen (flat l)) in * by lia.
    apply (uwrites_below _ _ (sp - zlen c) _ _ _ s1); [done|done|]. intros; apply Hv; lia.
Qed.

Lemma push_words_ok A r l : forall sp s, held s A -> owns user s r A ->
  (forall x, sp - zlen (words l) <= x < sp -> user_va x) -> 0 <= sp - zlen (words l) -> sp < 2 ^ 64 ->
  pushes A r (sp - zlen (words l)) sp s
    (fun '(sp', s') => sp' = sp - zlen (words l) /\ uwrites A r (sp - zlen (words l)) (words l) s s')
    (push_words r (rev l) sp s).
Proof.
  induction l as [|v l IH] using rev_ind; intros sp s Hh Ho Hv H0 Hsp.
  { simpl. replace (sp - zlen (words [])) with sp by (unfold zlen; simpl; lia). split; [done|]. by apply uwrites_nil. }
  rewrite rev_app_distr. cbn [rev app push_words]. rewrite words_app, zlen_app in *.
  assert (E8 : zlen (words [v]) = 8) by (by rewrite zlen_words).
  pose proof (zlen_nonneg (words l)). rewrite E8 in *.
  eapply (pushes_bind _ _ _ _ (sp - 8) _ snd); [lia|apply push_u64_ok; try done; [intros; apply Hv; lia|lia]| |done].
  intros [sp1 s1] [-> Hw]. split; [by eapply uwrites_kept|]. cbn [snd].
  pose proof (IH (sp - 8) s1 (uw_held _ _ _ _ _ _ Hw) (uw_owns _ _ _ _ _ _ Hw)) as IH1.
  replace (sp - 8 - zlen (words l)) with (sp - (zlen (words l) + 8)) in IH1 by lia.
  specialize (IH1 ltac:(intros; apply Hv; lia) ltac:(lia) ltac:(lia)).
  destruct (push_words r (rev l) _ s1) as [[[v' s']|[sp' s']]|]; cbn [pushes] in *; [done| |done].
  destruct IH1 as (-> & Hw'). split; [done|].
  replace (sp - (zlen (words l) + 8)) with (sp - 8 - zlen (words l)) in * by lia.
  apply (uwrites_below _ _ (sp - 8) _ _ _ s1); [done|done|]. rewrite E8. intros; apply Hv; lia.
Qed.

(** ** The whole stack *)

Lemma fbind_ext {X Y} (e : flow (S := S) X) (k k' : X -> flow Y) : (forall x, k x = k' x) -> fbind e k = fbind e k'.
Proof. intros Hk. destruct e as [[r|x]|]; [done|apply Hk|done]. Qed.
Lemma fbind_go {X} (e : flow (S := S) X) : fbind e go = e.
Proof. by destruct e as [[r|x]|]. Qed.

(** Pushing words one at a time or as a list: [pw] pushes a list, [p1] a word. *)
Record word_pusher (pw : list Z -> Z -> S -> flow (Z * S)) (p1 : S -> Z -> Z -> option (Z * Z * S)) : Prop := {
  wp_nil : forall sp s, pw [] sp s = go (sp, s);
  wp_cons : forall v l sp s, pw (v :: l) sp s = fbind (returns_0_on_error (p1 s sp v)) (fun '(sp, s) => pw l sp s) }.

Lemma push_words_pusher r : word_pusher (push_words r) (fun s sp v => push_user_u64 s r sp v).
Proof. by split. Qed.

Lemma pusher_app pw p1 l k : word_pusher pw p1 -> forall sp s,
  pw (l ++ k) sp s = fbind (pw l sp s) (fun '(sp, s) => pw k sp s).
Proof.
  intros [H0 H1]. induction l as [|v l IH]; intros sp s; cbn [app]; [by rewrite H0|]. rewrite !H1.
  destruct (returns_0_on_error _) as [[?|[sp' s']]|]; cbn [fbind]; [done|apply IH|done].
Qed.
Lemma pusher_one pw p1 v sp s : word_pusher pw p1 -> pw [v] sp s = returns_0_on_error (p1 s sp v).
Proof.
  intros [H0 H1]. rewrite H1. transitivity (fbind (returns_0_on_error (p1 s sp v)) go); [|apply fbind_go].
  apply fbind_ext. intros [? ?]. apply H0.
Qed.

(** The words between the aligned stack pointer and the strings, upwards. *)
Definition pad (n : Z) : list Z := if negb (n mod 2 =? 0) then [0] else [].
Definition vector (ap ep : list Z) : list Z :=
  Z.of_nat (length ap) :: ap ++ [0] ++ ep ++ [0] ++ pad (Z.of_nat (length ap) + Z.of_nat (length ep) + 3).

Lemma vector_even ap ep : (2 | Z.of_nat (length (vector ap ep))).
Proof.
  unfold vector, pad. cbn [length]. rewrite !length_app. cbn [length].
  set (n := Z.of_nat (length ap) + Z.of_nat (length ep) + 3).
  destruct (Z.eqb_spec (n mod 2) 0) as [E|E]; cbn [negb length];
    [exists (n / 2)|exists (n / 2 + 1)]; unfold n in *; Z.div_mod_to_equations; lia.
Qed.

Lemma length_addrs l : forall x, length (addrs x l) = length l.
Proof. induction l as [|str l IH]; intros x; simpl; [done|]. by rewrite IH. Qed.

Lemma passed_count arr : (if 63 <? count_strs arr then 63 else count_strs arr) = Z.of_nat (length (passed arr)).
Proof.
  unfold passed, count_strs, elems. destruct arr as [l|]; [|done]. simpl default.
  rewrite length_take. destruct (Z.ltb_spec 63 (Z.of_nat (length l))); lia.
Qed.
Lemma length_passed arr : (length (passed arr) <= 63)%nat.
Proof. pose proof (passed_count arr). destruct (Z.ltb_spec 63 (count_strs arr)); lia. Qed.

(** The pointers, word by word, are the vector. *)
Lemma vector_pushes pw p1 n ac ep ap sp s : word_pusher pw p1 ->
  fbind (if negb (n mod 2 =? 0) then returns_0_on_error (p1 s sp 0) else go (sp, s)) (fun '(sp, s) =>
  fbind (returns_0_on_error (p1 s sp 0)) (fun '(sp, s) =>
  fbind (pw (rev ep) sp s) (fun '(sp, s) =>
  fbind (returns_0_on_error (p1 s sp 0)) (fun '(sp, s) =>
  fbind (pw (rev ap) sp s) (fun '(sp, s) => returns_0_on_error (p1 s sp ac)))))) =
  pw (pad n ++ [0] ++ rev ep ++ [0] ++ rev ap ++ [ac]) sp s.
Proof.
  intros Hp. rewrite (pusher_app pw p1) by done. unfold pad.
  destruct (negb _); [rewrite (pusher_one pw p1) by done|rewrite (wp_nil pw p1) by done]; apply fbind_ext; intros [sp4 s4];
    (rewrite (pusher_app pw p1), (pusher_one pw p1) by done; apply fbind_ext; intros [sp5 s5];
     rewrite (pusher_app pw p1) by done; apply fbind_ext; intros [sp6 s6];
     rewrite (pusher_app pw p1), (pusher_one pw p1) by done; apply fbind_ext; intros [sp7 s7];
     rewrite (pusher_app pw p1) by done; apply fbind_ext; intros [sp8 s8]; by rewrite (pusher_one pw p1)).
Qed.

(** The stack is two stores: the strings, and below them the vector. *)
Lemma build_eq argv envp s r :
  build_user_stack_vm argv envp s r =
  finish
    (fbind (push_strings r (rev (passed envp)) [] USER_STACK_TOP s) (fun '(ep, sp, s) =>
     fbind (push_strings r (rev (passed argv)) [] sp s) (fun '(ap, sp, s) =>
     push_words r (pad (Z.of_nat (length (passed argv)) + Z.of_nat (length (passed envp)) + 3) ++ [0] ++ rev ep ++ [0] ++ rev ap ++
       [Z.of_nat (length (passed argv))]) (Z.land sp (2 ^ 64 - 1 - 15)) s))).
Proof.
  unfold build_user_stack_vm. rewrite !passed_count. f_equal. apply fbind_ext. intros [[ep sp] s1].
  apply fbind_ext. intros [[ap sp2] s2].
  exact (vector_pushes _ _ _ _ ep ap _ s2 (push_words_pusher r)).
Qed.

Lemma align16 x : 0 <= x < 2 ^ 64 -> Z.land x (2 ^ 64 - 1 - 15) = x - x mod 16.
Proof.
  intros Hx. change (x mod 16) with (x mod 2 ^ 4). rewrite <- (ldiff_mask_low x 4) by lia.
  change (2 ^ 64 - 1 - 15) with (Z.ldiff (Z.ones 64) (2 ^ 4 - 1)). apply Z.bits_inj'. intros n Hn.
  rewrite Z.land_spec, !Z.ldiff_spec. destruct (Z_lt_le_dec n 64).
  - by rewrite Z.ones_spec_low by lia.
  - assert (Z.testbit x n = false) as ->; [|done]. destruct (decide (x = 0)) as [->|]; [apply Z.bits_0|].
    apply Z.bits_above_log2; [lia|]. apply Z.lt_le_trans with 64; [apply Z.log2_lt_pow2; lia|done].
Qed.

(** Sizes: [strings] bytes of strings, and the stack pointer below them. *)
Definition strings_of (argv envp : strs) : list Z := flat (passed argv) ++ flat (passed envp).
Definition strings_at (argv envp : strs) : Z := USER_STACK_TOP - zlen (strings_of argv envp).
Definition vector_of (argv envp : strs) : list Z :=
  vector (addrs (strings_at argv envp) (passed argv))
    (addrs (USER_STACK_TOP - zlen (flat (passed envp))) (passed envp)).
Definition start_sp (argv envp : strs) : Z :=
  let x := strings_at argv envp in x - x mod 16 - zlen (words (vector_of argv envp)).

Lemma vector_rev argv envp :
  pad (Z.of_nat (length (passed argv)) + Z.of_nat (length (passed envp)) + 3) ++ [0] ++
    rev (addrs (USER_STACK_TOP - zlen (flat (passed envp))) (passed envp)) ++ [0] ++
    rev (addrs (strings_at argv envp) (passed argv)) ++ [Z.of_nat (length (passed argv))] = rev (vector_of argv envp).
Proof.
  unfold vector_of, vector. rewrite !length_addrs. cbn [rev app]. rewrite !rev_app_distr. unfold pad.
  cbn [rev app]. destruct (negb _); cbn [rev app]; rewrite <- ?app_assoc; cbn [app]; rewrite <- ?app_assoc, rev_app_distr; done.
Qed.

Lemma build_stack_ok A r s argv envp : held s A -> owns user s r A ->
  Forall (Forall is_byte) (passed argv) -> Forall (Forall is_byte) (passed envp) ->
  0 < start_sp argv envp ->
  (forall x, start_sp argv envp <= x < USER_STACK_TOP -> user_va x) ->
  exists v s', build_user_stack_vm argv envp s r = Some (v, s') /\
    ((v = 0 /\ kept A r s s' /\ exists x, start_sp argv envp <= x < USER_STACK_TOP /\ walk s r (idx x) = None) \/
     (v = start_sp argv envp /\ exists s1, uwrites A r (strings_at argv envp) (strings_of argv envp) s s1 /\
        uwrites A r (start_sp argv envp) (words (vector_of argv envp)) s1 s')).
Proof.
  intros Hh Ho Ha He H0 Hv. rewrite build_eq. set (lo := start_sp argv envp) in *.
  set (F1 := flat (passed argv)). set (F2 := flat (passed envp)).
  assert (Esat : strings_at argv envp = USER_STACK_TOP - zlen F2 - zlen F1)
    by (unfold strings_at, strings_of; rewrite zlen_app; fold F1 F2; lia).
  set (x := strings_at argv envp) in *.
  set (V := vector_of argv envp). pose proof (zlen_nonneg F1). pose proof (zlen_nonneg F2). pose proof (zlen_nonneg (words V)).
  assert (Elo : lo = x - x mod 16 - zlen (words V)) by done. clearbody lo.
  pose proof (Z.mod_pos_bound x 16 ltac:(lia)) as Hm.
  assert (HT : USER_STACK_TOP < 2 ^ 64) by done.
  assert (Hp : pushes A r lo USER_STACK_TOP s
    (fun '(v, s') => v = lo /\ exists s1, uwrites A r x (strings_of argv envp) s s1 /\ uwrites A r lo (words V) s1 s')
    (fbind (push_strings r (rev (passed envp)) [] USER_STACK_TOP s) (fun '(ep, sp, s) =>
     fbind (push_strings r (rev (passed argv)) [] sp s) (fun '(ap, sp, s) =>
     push_words r (pad (Z.of_nat (length (passed argv)) + Z.of_nat (length (passed envp)) + 3) ++ [0] ++ rev ep ++ [0] ++ rev ap ++
       [Z.of_nat (length (passed argv))]) (Z.land sp (2 ^ 64 - 1 - 15)) s)))).
  { eapply (pushes_bind _ _ _ _ (USER_STACK_TOP - zlen F2) _ snd); [lia|apply push_strings_ok; try done; fold F2; [intros; apply Hv; lia|lia]| |done].
    fold F2. intros [[ep sp1] s1] (-> & -> & W1). split; [by eapply uwrites_kept|]. cbn [snd].
    eapply (pushes_bind _ _ _ _ x _ snd); [lia|rewrite Esat; apply push_strings_ok; try done; fold F1;
      [apply (uw_held _ _ _ _ _ _ W1)|apply (uw_owns _ _ _ _ _ _ W1)|intros; apply Hv; lia|lia|lia]| |intros; apply Hv; lia].
    fold F1. rewrite <- Esat. intros [[ap sp2] s2] (-> & -> & W2). split; [by eapply uwrites_kept|]. cbn [snd].
    rewrite !app_nil_r, align16 by lia.
    assert (W12 : uwrites A r x (strings_of argv envp) s s2).
    { unfold strings_of. fold F1 F2. rewrite Esat in W2 |- *. apply (uwrites_below _ _ _ _ _ _ s1); [done|done|].
      intros; apply Hv; lia. }
    assert (El := vector_rev argv envp). fold V F2 x in El.
    rewrite El. pose proof (push_words_ok A r V (x - x mod 16) s2 (uw_held _ _ _ _ _ _ W2) (uw_owns _ _ _ _ _ _ W2)) as Hw.
    rewrite <- Elo in Hw. specialize (Hw ltac:(intros; apply Hv; lia) ltac:(lia) ltac:(lia)).
    destruct (push_words r (rev V) _ s2) as [[[v s']|[v s']]|]; cbn [pushes] in *; [| |done].
    - destruct Hw as (-> & Hk & y & Hy & Ey). split_and!; [done|done|]. exists y. split; [lia|done].
    - destruct Hw as [-> W3]. split; [done|]. exists s2. done. }
  destruct (fbind _ _) as [[[v s']|[v s']]|]; cbn [pushes finish] in Hp |- *; [| |done];
    exists v, s'; split; [done|by left|done|by right].
Qed.

(** ** Reading the stack back *)

Lemma read_bytes_at A r x bs s s' i : uwrites A r x bs s s' -> user_va (x + Z.of_nat i) -> (i < length bs)%nat ->
  ubyte s' r (x + Z.of_nat i) = bs !! i.
Proof. intros Hw Hv Hi. rewrite (uw_byte _ _ _ _ _ _ Hw), decide_True by (done || lia). f_equal. lia. Qed.

Lemma words_lookup l : forall i k v, l !! k = Some v -> (i < 8)%nat -> words l !! (8 * k + i)%nat = le_bytes 8 v !! i.
Proof.
  induction l as [|w l IH]; intros i k v Hk Hi; [done|]. unfold words. cbn [map concat]. fold (words l).
  destruct k as [|k]; [injection Hk as ->|].
  - rewrite lookup_app_l by (rewrite Bytes.length_le_bytes; lia). f_equal.
  - rewrite lookup_app_r by (rewrite Bytes.length_le_bytes; lia). rewrite Bytes.length_le_bytes.
    replace (8 * Datatypes.S k + i - 8)%nat with (8 * k + i)%nat by lia. by apply IH.
Qed.

(** The words of a stored vector. *)
Lemma read_words A r x l s s' : uwrites A r x (words l) s s' ->
  (forall y, x <= y < x + zlen (words l) -> user_va y) ->
  forall k v, l !! k = Some v -> uword s' r (x + 8 * Z.of_nat k) v.
Proof.
  intros Hw Hv k v Hk i Hi. pose proof (lookup_lt_Some _ _ _ Hk). rewrite zlen_words in Hv.
  rewrite <- (words_lookup l i k v Hk Hi). replace (x + 8 * Z.of_nat k + Z.of_nat i) with (x + Z.of_nat (8 * k + i)) by lia.
  apply (read_bytes_at A r x _ s); [done|apply Hv; lia|]. pose proof (zlen_words l) as E. unfold zlen in E. lia.
Qed.

(** The strings of a stored array, at their addresses. *)
Lemma read_strings s r l : forall x, USER_STACK_TOP - USER_STACK_SIZE < x -> x + zlen (flat l) <= USER_STACK_TOP ->
  (forall i, (i < length (flat l))%nat -> ubyte s r (x + Z.of_nat i) = flat l !! i) ->
  Forall2 (points_to s r) (addrs x l) l.
Proof.
  induction l as [|str l IH]; intros x Hx Hle Hr; cbn [addrs]; constructor.
  - rewrite flat_cons, !zlen_app in Hle. pose proof (zlen_nonneg (flat l)). unfold zlen at 2 in Hle. simpl length in Hle.
    split; [done|]. split; [unfold str_len, zlen in *; lia|]. intros i Hi. rewrite flat_cons in Hr. rewrite Hr; [|rewrite !length_app; simpl; lia].
    rewrite lookup_app_l; [done|]. rewrite length_app. simpl. lia.
  - rewrite flat_cons, !zlen_app in Hle. unfold zlen at 1 2 in Hle. simpl length in Hle.
    apply IH; [unfold str_len; lia|unfold str_len; lia|]. intros i Hi. rewrite flat_cons in Hr.
    specialize (Hr (length (str ++ [0%Z]) + i)%nat). rewrite (length_app (str ++ [0]) (flat l)) in Hr. specialize (Hr ltac:(lia)).
    rewrite lookup_app_r in Hr by lia. rewrite Nat.add_comm, Nat.add_sub in Hr. rewrite <- Hr. f_equal.
    rewrite length_app. unfold str_len. cbn [length]. lia.
Qed.

(** The layout is made of bytes of the stack area. *)
Lemma process_start_ext s s' r r' sp av ev :
  (forall x, USER_STACK_TOP - USER_STACK_SIZE < x < USER_STACK_TOP -> ubyte s' r' x = ubyte s r x) ->
  process_start s r sp av ev -> process_start s' r' sp av ev.
Proof.
  intros Hb (H1 & H2 & ap & ep & H3 & H4 & H5 & H6). rewrite !length_app in H3. cbn [length] in H3.
  assert (Hp : forall ps l, Forall2 (points_to s r) ps l -> Forall2 (points_to s' r') ps l).
  { intros ps l Hf. eapply list.Forall2_impl; [exact Hf|]. intros p str (P1 & P2 & P3). split_and!; [done|done|].
    intros i Hi. rewrite Hb, P3; [done|done|]. unfold str_len in P2. lia. }
  split; [done|]. split; [intros i Hi; rewrite Hb, H2; [done|done|lia]|]. exists ap, ep. rewrite !length_app. cbn [length].
  split; [lia|]. split; [|auto]. intros i v Hi k Hk. pose proof (lookup_lt_Some _ _ _ Hi) as Hl. rewrite !length_app in Hl. cbn [length] in Hl.
  rewrite Hb, (H4 i v Hi k Hk); [done|lia].
Qed.

Lemma start_sp_bounds argv envp : start_sp argv envp mod 16 = 0 /\
  start_sp argv envp + zlen (words (vector_of argv envp)) <= strings_at argv envp <= USER_STACK_TOP /\
  USER_STACK_TOP - zlen (strings_of argv envp) - 16 - 8 * (63 + 63 + 4) < start_sp argv envp.
Proof.
  assert (Hev : (2 | Z.of_nat (length (vector_of argv envp)))) by apply vector_even. destruct Hev as [k Hk].
  assert (Hlen : Z.of_nat (length (vector_of argv envp)) <= 63 + 63 + 4).
  { unfold vector_of, vector, pad. cbn [length]. rewrite !length_app, !length_addrs. cbn [length].
    pose proof (length_passed argv). pose proof (length_passed envp). destruct (negb _); cbn [length]; lia. }
  unfold start_sp. rewrite zlen_words. pose proof (zlen_nonneg (strings_of argv envp)).
  pose proof (Z.mod_pos_bound (strings_at argv envp) 16 ltac:(lia)).
  assert (Hx : strings_at argv envp = USER_STACK_TOP - zlen (strings_of argv envp)) by done.
  set (x := strings_at argv envp) in *. rewrite Hk in *. split; [Z.div_mod_to_equations; lia|]. lia.
Qed.

(** The arguments and the environment fit into the stack area. *)
Definition fits (argv envp : strs) : Prop := zlen (strings_of argv envp) + 16 + 8 * (63 + 63 + 4) <= USER_STACK_SIZE.

Lemma fits_bounds argv envp : fits argv envp -> USER_STACK_TOP - USER_STACK_SIZE < start_sp argv envp < USER_STACK_TOP.
Proof.
  unfold fits. intros Hf. destruct (start_sp_bounds argv envp) as (_ & B2 & B3).
  assert (8 <= zlen (words (vector_of argv envp))) by (rewrite zlen_words; unfold vector_of, vector; cbn [length]; lia). lia.
Qed.

Lemma stack_user x : USER_STACK_TOP - USER_STACK_SIZE <= x < USER_STACK_TOP -> user_va x.
Proof. unfold USER_STACK_TOP, USER_STACK_SIZE, user_va. lia. Qed.

(** The two stores are the start-up layout. *)
Lemma start_of_writes A r s s1 s' argv envp : fits argv envp ->
  uwrites A r (strings_at argv envp) (strings_of argv envp) s s1 ->
  uwrites A r (start_sp argv envp) (words (vector_of argv envp)) s1 s' ->
  process_start s' r (start_sp argv envp) (passed argv) (passed envp) /\
  (forall x, user_va x -> x < start_sp argv envp \/ USER_STACK_TOP <= x -> ubyte s' r x = ubyte s r x).
Proof.
  intros Hf W1 W2. pose proof (fits_bounds argv envp Hf) as Hlo. destruct (start_sp_bounds argv envp) as (B1 & B2 & B3).
  pose proof stack_user as HV. pose proof (zlen_nonneg (words (vector_of argv envp))).
  assert (Hstr : forall i, (i < length (strings_of argv envp))%nat ->
    ubyte s' r (strings_at argv envp + Z.of_nat i) = strings_of argv envp !! i).
  { intros i Hi. assert (Hva : user_va (strings_at argv envp + Z.of_nat i))
      by (apply HV; unfold strings_at, zlen in *; lia).
    rewrite (uw_byte _ _ _ _ _ _ W2), decide_False by (done || (fold (zlen (words (vector_of argv envp))); lia)).
    by apply (read_bytes_at A r _ _ s). }
  pose proof (read_words A r _ _ s1 s' W2 ltac:(intros; apply HV; lia)) as Hwd.
  assert (Hx0 : 0 < strings_at argv envp) by (unfold USER_STACK_TOP, USER_STACK_SIZE in *; lia).
  assert (Ezl : zlen (strings_of argv envp) = zlen (flat (passed argv)) + zlen (flat (passed envp))) by apply zlen_app.
  pose proof (zlen_nonneg (flat (passed argv))). pose proof (zlen_nonneg (flat (passed envp))).
  split.
  - split; [lia|]. split.
    { pose proof (Hwd 0%nat (Z.of_nat (length (passed argv)))) as H2. rewrite Z.add_0_r in H2. apply H2.
      unfold vector_of, vector. by rewrite length_addrs. }
    exists (addrs (strings_at argv envp) (passed argv)), (addrs (USER_STACK_TOP - zlen (flat (passed envp))) (passed envp)).
    split; [|split; [|split]].
    + rewrite zlen_words in B2. unfold vector_of, vector in B2. cbn [length] in B2. rewrite !length_app in B2 |- *. cbn [length] in B2 |- *. rewrite ?length_app in B2. cbn [length] in B2. lia.
    + intros i v Hi. replace (start_sp argv envp + 8 + 8 * Z.of_nat i) with (start_sp argv envp + 8 * Z.of_nat (Datatypes.S i)) by lia.
      apply Hwd. unfold vector_of, vector. cbn [lookup list_lookup]. rewrite app_assoc. rewrite (app_assoc _ _ (_ ++ pad _)).
      rewrite (app_assoc _ [0] (pad _)). by apply lookup_app_l_Some; rewrite <- !app_assoc.
    + apply read_strings; [lia|unfold strings_at; lia|]. intros i Hi. rewrite Hstr by (unfold strings_of; rewrite length_app; lia).
      unfold strings_of. by rewrite lookup_app_l.
    + assert (Ee : USER_STACK_TOP - zlen (flat (passed envp)) = strings_at argv envp + zlen (flat (passed argv)))
        by (unfold strings_at, strings_of; rewrite zlen_app; lia).
      apply read_strings; [lia|lia|]. intros i Hi. rewrite Ee.
      replace (strings_at argv envp + zlen (flat (passed argv)) + Z.of_nat i)
        with (strings_at argv envp + Z.of_nat (length (flat (passed argv)) + i)) by (unfold zlen; lia).
      rewrite Hstr by (unfold strings_of; rewrite length_app; lia). unfold strings_of.
      rewrite lookup_app_r by lia. f_equal. lia.
  - intros x Hxv Hx. rewrite (uw_byte _ _ _ _ _ _ W2), decide_False, (uw_byte _ _ _ _ _ _ W1), decide_False
      by (done || (unfold strings_at, zlen in *; lia)). done.
Qed.

(** Both outcomes of the builder. *)
Lemma build_result A r s argv envp : held s A -> owns user s r A ->
  Forall (Forall is_byte) (elems argv) -> Forall (Forall is_byte) (elems envp) -> fits argv envp ->
  exists v s', build_user_stack_vm argv envp s r = Some (v, s') /\ kept A r s s' /\
    ((v = 0 /\ exists x, start_sp argv envp <= x < USER_STACK_TOP /\ walk s r (idx x) = None) \/
     (v = start_sp argv envp /\ process_start s' r v (passed argv) (passed envp) /\
      forall x, user_va x -> x < v \/ USER_STACK_TOP <= x -> ubyte s' r x = ubyte s r x)).
Proof.
  intros Hh Ho Ha He Hf. pose proof (fits_bounds argv envp Hf) as Hlo.
  destruct (build_stack_ok A r s argv envp Hh Ho) as (v & s' & E & Hres);
    [by apply Forall_take|by apply Forall_take|unfold USER_STACK_TOP, USER_STACK_SIZE in *; lia|intros; apply stack_user; lia|].
  exists v, s'. split; [done|]. destruct Hres as [(-> & Hk & Hx)|(-> & s1 & W1 & W2)].
  - split; [done|]. by left.
  - destruct (start_of_writes A r s s1 s' argv envp Hf W1 W2) as [Hps Hfr].
    split; [eapply kept_trans; by eapply uwrites_kept|]. by right.
Qed.

(** C35: [build_user_stack_vm] with arguments and environment that fit into
    the stack area, when the part of the area they need is mapped: it returns a
    stack pointer that is 16-byte aligned and inside the area, at which the program finds
    the System V start-up layout of (at most 63 of) its arguments and of its
    environment; all pages keep their translation, and no byte of the process
    outside the part of the stack above that pointer changes. *)
Theorem build_user_stack_correct A r s argv envp : held s A -> owns user s r A ->
  Forall (Forall is_byte) (elems argv) -> Forall (Forall is_byte) (elems envp) -> fits argv envp ->
  (forall x, start_sp argv envp <= x < USER_STACK_TOP -> is_Some (walk s r (idx x))) ->
  exists sp s', build_user_stack_vm argv envp s r = Some (sp, s') /\
    sp mod 16 = 0 /\ USER_STACK_TOP - USER_STACK_SIZE < sp < USER_STACK_TOP /\
    held s' A /\ owns user s' r A /\ (forall rho, user rho -> walk s' r rho = walk s r rho) /\
    process_start s' r sp (passed argv) (passed envp) /\
    (forall x, user_va x -> x < sp \/ USER_STACK_TOP <= x -> ubyte s' r x = ubyte s r x).
Proof.
  intros Hh Ho Ha He Hf Hmap. destruct (build_result A r s argv envp Hh Ho Ha He Hf) as (v & s' & E & [k1 k2 k3 k4] & Hres).
  destruct Hres as [(_ & x & Hx & Ex)|(-> & Hps & Hfr)]; [destruct (Hmap x Hx); congruence|].
  exists (start_sp argv envp), s'. split_and!; try done; [apply start_sp_bounds|by apply fits_bounds..].
Qed.

End Proofs.
End UserStack.
