(* ===== verification/Elf.v ===== *)
(** * kernel/arch/elf.c: the ELF loader

    [elf_load] checks an image and maps its PT_LOAD segments into an address
    space.  An access outside the image is an outcome of its own ([Oob]), as is
    a call that does not return ([Spin]). *)

From S2P Require Import Prelude Phys PhysInv PhysInit PageAlloc PageTable Region AddrSpace Bytes UserMem UserStack.
From Stdlib Require Import ZArith Lia.
From stdpp Require Import base list gmap numbers.
Open Scope Z_scope.

Module Elf.
Import PageAlloc PageTable AddrSpace UserMem UserStack.
Import Bytes(le_val).

Definition ET_EXEC : Z := 2.
Definition ET_DYN : Z := 3.
Definition EM_X86_64 : Z := 62.
Definition PT_LOAD : Z := 1.
Definition PT_INTERP : Z := 3.
Definition PF_X : Z := 1.
Definition PF_W : Z := 2.
Definition ELFCLASS64 : Z := 2.
Definition ELFDATA2LSB : Z := 1.
Definition RGN_STACK : Z := 1.
Definition RGN_FILE : Z := 3.

Record elf64_ehdr_t := mkEhdr {
  e_ident : list Z; e_type : Z; e_machine : Z; e_version : Z;
  e_entry : Z; e_phoff : Z; e_shoff : Z; e_flags : Z;
  e_ehsize : Z; e_phentsize : Z; e_phnum : Z; e_shentsize : Z; e_shnum : Z; e_shstrndx : Z }.

Record elf64_phdr_t := mkPhdr {
  p_type : Z; p_flags : Z; p_offset : Z; p_vaddr : Z;
  p_paddr : Z; p_filesz : Z; p_memsz : Z; p_align : Z }.

(** ** The image *)

(** [n] bytes of the image from [off] on; [None]: not all of them exist. *)
Definition slice (img : list Z) (off n : Z) : option (list Z) :=
  if (0 <=? off) && (0 <=? n) && (off + n <=? zlen img) then Some (take (Z.to_nat n) (drop (Z.to_nat off) img)) else None.

Definition field (b : list Z) (off n : nat) : Z := le_val (take n (drop off b)).

Definition SIZEOF_EHDR : Z := 64.
Definition SIZEOF_PHDR : Z := 56.

Definition ehdr_of (b : list Z) : elf64_ehdr_t :=
  mkEhdr (take 16 b) (field b 16 2) (field b 18 2) (field b 20 4)
    (field b 24 8) (field b 32 8) (field b 40 8) (field b 48 4)
    (field b 52 2) (field b 54 2) (field b 56 2) (field b 58 2) (field b 60 2) (field b 62 2).
Definition phdr_of (b : list Z) : elf64_phdr_t :=
  mkPhdr (field b 0 4) (field b 4 4) (field b 8 8) (field b 16 8)
    (field b 24 8) (field b 32 8) (field b 40 8) (field b 48 8).

Definition ehdr_at (img : list Z) (off : Z) : option elf64_ehdr_t := ehdr_of <$> slice img off SIZEOF_EHDR.
Definition phdr_at (img : list Z) (off : Z) : option elf64_phdr_t := phdr_of <$> slice img off SIZEOF_PHDR.

Section Ops.
Context {S : Type} `{PageMem S}.

(** What a loader works on: memory, the pool of regions, the new map. *)
Record lstate := mkLd { l_pm : S; l_pool : Region.pool_t; l_vm : vmap_t }.
Definition set_l_pm (l : lstate) (s : S) : lstate := mkLd s (l_pool l) (l_vm l).

Inductive out := Ret (v : Z) (l : lstate) | Oob | Spin.

(** A fallible step of a loader: [inl] leaves it. *)
Definition lbind (e : out + lstate) (k : lstate -> out + lstate) : out + lstate :=
  match e with inl o => inl o | inr l => k l end.

Definition copy_step (l : lstate) (res : option (Z * S)) : out + lstate :=
  match res with
  | None => inl Spin
  | Some (rc, s) => if negb (rc =? 0) then inl (Ret 0 (set_l_pm l s)) else inr (set_l_pm l s)
  end.

(** Adding a region for a segment and backing it with pages. *)
Definition map_segment (l : lstate) (seg_vaddr seg_sz prot : Z) : out + lstate :=
  match Region.amm_region_add (l_pool l) (Some (l_vm l)) seg_vaddr seg_sz prot RGN_FILE (-1) with
  | Some (rc, pool, Some vm) =>
      let l := mkLd (l_pm l) pool vm in
      if negb (rc =? 0) then inl (Ret 0 l)
      else
        let '(k, s) := amm_region_populate (l_pm l) (Some (l_vm l)) seg_vaddr seg_sz (Z.lor prot PROT_WRITE) in
        let l := set_l_pm l s in
        if k =? 0 then inl (Ret 0 l) else inr l
  | _ => inl Spin
  end.

Definition elf_prot (flags : Z) : Z :=
  let prot := PROT_READ in
  let prot := if has_flag flags PF_W then Z.lor prot PROT_WRITE else prot in
  if has_flag flags PF_X then Z.lor prot PROT_EXEC else prot.

(** The body of the loop for a PT_LOAD header. *)
Definition load_segment (img : list Z) (ph : elf64_phdr_t) (l : lstate) : out + lstate :=
  let image_size := zlen img in
  if 0x0000800000000000 <=? p_vaddr ph then inl (Ret 0 l)
  else if (image_size <? p_offset ph) || (image_size - p_offset ph <? p_filesz ph) then inl (Ret 0 l)
  else
    let prot := elf_prot (p_flags ph) in
    let seg_vaddr := Z.land (p_vaddr ph) Phys.PAGE_MASK in
    let seg_end := Phys.PAGE_ALIGN (u64 (p_vaddr ph + p_memsz ph)) in
    let seg_sz := u64 (seg_end - seg_vaddr) in
    if (seg_sz =? 0) || (64 * 1024 * 1024 <? seg_sz) then inl (Ret 0 l)
    else
      lbind (map_segment l seg_vaddr seg_sz prot) (fun l =>
      lbind (if 0 <? p_filesz ph then
               match slice img (p_offset ph) (p_filesz ph) with
               | None => inl Oob
               | Some bs => copy_step l (vm_copy_to_user (l_pm l) (Region.cr3 (l_vm l)) (p_vaddr ph) bs)
               end
             else inr l) (fun l =>
      if p_filesz ph <? p_memsz ph then
        copy_step l (vm_zero_user (l_pm l) (Region.cr3 (l_vm l)) (u64 (p_vaddr ph + p_filesz ph)) (p_memsz ph - p_filesz ph))
      else inr l)).

Definition load_phdr (img : list Z) (eh : elf64_ehdr_t) (i : Z) (l : lstate) : out + lstate :=
  let ph_off := u64 (e_phoff eh + i * e_phentsize eh) in
  if zlen img <? u64 (ph_off + SIZEOF_PHDR) then inl (Ret 0 l)
  else match phdr_at img ph_off with
  | None => inl Oob
  | Some ph =>
      if p_type ph =? PT_INTERP then inl (Ret 0 l)
      else if negb (p_type ph =? PT_LOAD) then inr l
      else load_segment img ph l
  end.

(** [for (uint16_t i = ...; i < e_phnum; i++)] for [n] rounds. *)
Fixpoint load_phdrs (img : list Z) (eh : elf64_ehdr_t) (i : Z) (n : nat) (l : lstate) : out + lstate :=
  match n with
  | O => inr l
  | Datatypes.S n => lbind (load_phdr img eh i l) (load_phdrs img eh (i + 1) n)
  end.

(** The checks on the header, in the order of the code. *)
Definition header_ok (image_size : Z) (eh : elf64_ehdr_t) : bool :=
  bool_decide (take 4 (e_ident eh) = [0x7f; 0x45; 0x4c; 0x46]) &&
  negb (negb (nth 4 (e_ident eh) 0 =? ELFCLASS64) || negb (nth 5 (e_ident eh) 0 =? ELFDATA2LSB)) &&
  negb (negb (e_machine eh =? EM_X86_64)) &&
  negb (negb (e_type eh =? ET_EXEC) && negb (e_type eh =? ET_DYN)) &&
  negb ((e_phnum eh =? 0) || (48 <? e_phnum eh)) &&
  negb (e_phentsize eh <? SIZEOF_PHDR) &&
  negb (image_size <=? e_phoff eh) &&
  negb (image_size <? u64 (e_phoff eh + e_phnum eh * e_phentsize eh)).

(** [None] is a null image. *)
Definition elf_load (image : option (list Z)) (l : lstate) : out :=
  match image with
  | None => Ret 0 l
  | Some img =>
      if zlen img <? SIZEOF_EHDR then Ret 0 l
      else match ehdr_at img 0 with
      | None => Oob
      | Some eh =>
          if negb (header_ok (zlen img) eh) then Ret 0 l
          else match load_phdrs img eh 0 (Z.to_nat (e_phnum eh)) l with
               | inl o => o
               | inr l => Ret (e_entry eh) l
               end
      end
  end.

End Ops.
Arguments lstate S : clear implicits.
Arguments out S : clear implicits.

(** ** Reading the image *)

Definition byte_img (img : list Z) : Prop := Forall is_byte img /\ zlen img < 2 ^ 63.

Lemma field_bound b off n : Forall is_byte b -> 0 <= field b off n < 256 ^ Z.of_nat n.
Proof.
  intros Hb. unfold field. pose proof (Bytes.le_val_bound (take n (drop off b))) as H.
  specialize (H (Forall_take _ _ _ (Forall_drop _ _ _ Hb))). rewrite length_take in H.
  assert (256 ^ Z.of_nat (n `min` length (drop off b)) <= 256 ^ Z.of_nat n) by (apply Z.pow_le_mono_r; lia). lia.
Qed.

Lemma slice_some img off n : 0 <= off -> 0 <= n -> off + n <= zlen img ->
  slice img off n = Some (take (Z.to_nat n) (drop (Z.to_nat off) img)).
Proof.
  intros. unfold slice. rewrite (proj2 (Z.leb_le 0 off)), (proj2 (Z.leb_le 0 n)), (proj2 (Z.leb_le (off + n) _)) by done. done.
Qed.

Lemma slice_inv img off n bs : slice img off n = Some bs ->
  0 <= off /\ 0 <= n /\ off + n <= zlen img /\ bs = take (Z.to_nat n) (drop (Z.to_nat off) img) /\ zlen bs = n.
Proof.
  unfold slice. intros Hs. destruct ((0 <=? off) && (0 <=? n) && (off + n <=? zlen img)) eqn:E; [|done]. injection Hs as <-.
  zbool. split_and!; try done; try tauto. unfold zlen in *. rewrite length_take, length_drop. lia.
Qed.

Lemma slice_byte img off n bs : Forall is_byte img -> slice img off n = Some bs -> Forall is_byte bs.
Proof. intros Hb (_ & _ & _ & -> & _)%slice_inv. by apply Forall_take, Forall_drop. Qed.

Record phdr_ok (ph : elf64_phdr_t) : Prop := {
  po_offset : 0 <= p_offset ph < 2 ^ 64;
  po_vaddr : 0 <= p_vaddr ph < 2 ^ 64;
  po_filesz : 0 <= p_filesz ph < 2 ^ 64;
  po_memsz : 0 <= p_memsz ph < 2 ^ 64 }.

Lemma phdr_at_ok img off ph : Forall is_byte img -> phdr_at img off = Some ph -> phdr_ok ph.
Proof.
  intros Hb Hp. unfold phdr_at in Hp. destruct (slice img off SIZEOF_PHDR) as [b|] eqn:Es; [|done]. injection Hp as <-.
  pose proof (slice_byte _ _ _ _ Hb Es) as Hbb. split; apply (field_bound b _ 8 Hbb).
Qed.

(** The checks imply that the table of program headers lies in the image. *)
Lemma header_table img eh : byte_img img -> ehdr_at img 0 = Some eh -> header_ok (zlen img) eh = true ->
  0 < e_phnum eh <= 48 /\ SIZEOF_PHDR <= e_phentsize eh < 2 ^ 16 /\ 0 <= e_phoff eh /\
  e_phoff eh + e_phnum eh * e_phentsize eh <= zlen img.
Proof.
  intros [Hb Hl] He Hok. unfold ehdr_at in He. destruct (slice img 0 SIZEOF_EHDR) as [b|] eqn:Es; [|done]. injection He as <-.
  pose proof (slice_byte _ _ _ _ Hb Es) as Hbb. unfold header_ok in Hok. set (eh := ehdr_of b) in *.
  assert (B1 : 0 <= e_phnum eh < 2 ^ 16) by apply (field_bound b 56 2 Hbb).
  assert (B2 : 0 <= e_phentsize eh < 2 ^ 16) by apply (field_bound b 54 2 Hbb).
  assert (B3 : 0 <= e_phoff eh < 2 ^ 64) by apply (field_bound b 32 8 Hbb).
  rewrite !andb_true_iff, !negb_true_iff, !orb_false_iff, !Z.ltb_ge, !Z.leb_gt in Hok.
  destruct Hok as [[[[[[[_ _] _] _] [H1 H2]] H3] H4] H5]. zbool.
  rewrite u64_small in H5 by nia. split_and!; try done; lia.
Qed.

(** ** No access outside the image *)

Section Safety.
Context {S : Type} `{HM : PageMem S}.

Lemma copy_step_oob (l : lstate S) res : copy_step l res <> inl Oob.
Proof. unfold copy_step. destruct res as [[rc s]|]; [|done]. by destruct (negb _). Qed.

Lemma map_segment_oob (l : lstate S) v z p : map_segment l v z p <> inl Oob.
Proof.
  unfold map_segment. destruct (Region.amm_region_add _ _ _ _ _ _ _) as [[[rc pool] [vm|]]|]; [|done|done].
  destruct (negb _); [done|]. destruct (amm_region_populate _ _ _ _ _) as [k s]. by destruct (k =? 0).
Qed.

Lemma lbind_oob (e : out S + lstate S) k : e <> inl Oob -> (forall l, k l <> inl Oob) -> lbind e k <> inl Oob.
Proof. destruct e; simpl; intros; [done|auto]. Qed.

Lemma load_segment_oob img ph (l : lstate S) : phdr_ok ph -> load_segment img ph l <> inl Oob.
Proof.
  intros [O1 _ O3 _]. unfold load_segment. destruct (_ <=? p_vaddr ph); [done|].
  destruct (Z.ltb_spec (zlen img) (p_offset ph)); [done|]. cbn [orb].
  destruct (Z.ltb_spec (zlen img - p_offset ph) (p_filesz ph)); [done|].
  destruct (_ || _); [done|]. apply lbind_oob; [apply map_segment_oob|]. intros l1. apply lbind_oob.
  - destruct (0 <? p_filesz ph); [|done]. rewrite slice_some by lia. apply copy_step_oob.
  - intros l2. destruct (_ <? _); [apply copy_step_oob|done].
Qed.

Lemma load_phdr_oob img eh i (l : lstate S) : byte_img img -> ehdr_at img 0 = Some eh -> header_ok (zlen img) eh = true ->
  0 <= i < e_phnum eh -> load_phdr img eh i l <> inl Oob.
Proof.
  intros Hb He Hok Hi. destruct (header_table img eh Hb He Hok) as (H1 & H2 & H3 & H4). destruct Hb as [Hb Hl].
  unfold load_phdr, SIZEOF_PHDR in *. assert (0 <= i * e_phentsize eh <= 48 * 2 ^ 16) by nia.
  rewrite (u64_small (_ + _ * _)), u64_small by lia.
  destruct (Z.ltb_spec (zlen img) (e_phoff eh + i * e_phentsize eh + 56)); [done|].
  destruct (phdr_at img (e_phoff eh + i * e_phentsize eh)) as [ph|] eqn:Ep.
  - destruct (_ =? PT_INTERP); [done|]. destruct (negb _); [done|]. apply load_segment_oob. by eapply phdr_at_ok.
  - unfold phdr_at, SIZEOF_PHDR in Ep. rewrite slice_some in Ep by lia. done.
Qed.

(** C34: [elf_load] never reads outside the image it is given, whatever the
    image and the address space are. *)
Theorem elf_load_in_bounds img (l : lstate S) : byte_img img -> elf_load (Some img) l <> Oob.
Proof.
  intros Hb. unfold elf_load. destruct (Z.ltb_spec (zlen img) SIZEOF_EHDR); [done|].
  destruct (ehdr_at img 0) as [eh|] eqn:He; [|unfold ehdr_at in He; by rewrite slice_some in He].
  destruct (header_ok (zlen img) eh) eqn:Hok; [|done]. cbn [negb].
  assert (Hn : forall n i (l : lstate S), 0 <= i -> i + Z.of_nat n <= e_phnum eh -> load_phdrs img eh i n l <> inl Oob).
  { induction n as [|n IH]; intros i l0 Hi Hle; cbn [load_phdrs]; [done|].
    apply lbind_oob; [apply load_phdr_oob; (done || lia)|]. intros l1. apply IH; lia. }
  destruct (header_table img eh Hb He Hok) as (H1 & _).
  specialize (Hn (Z.to_nat (e_phnum eh)) 0 l ltac:(lia) ltac:(lia)).
  destruct (load_phdrs img eh 0 _ l); [|done]. intros ->. done.
Qed.

End Safety.
End Elf.
