(* ===== verification/Loader.v ===== *)
(** * kernel/arch: what a loader's steps do to an address space

    The lemmas the ELF and the Mach-O loaders share: mapping a segment
    ([map_segment]) and filling it, with what each step keeps. *)

From S2P Require Import Prelude Phys PhysInv PhysInit PageAlloc PageTable Region AddrSpace Bytes UserMem UserStack Elf.
From Stdlib Require Import ZArith Lia.
From stdpp Require Import base list gmap numbers.
Open Scope Z_scope.

Module Loader.
Import PageAlloc PageTable AddrSpace UserMem UserStack Elf.

(** The pages of a segment, and the segments the theorem is about: those that
    lie in the part of the address space that belongs to the process and do
    not hold more bytes in the file than in memory. *)
Definition seg_base (v : Z) : Z := v - v mod PAGE_SIZE.
Definition seg_top (v memsz : Z) : Z := seg_base (v + memsz + PAGE_SIZE - 1).
Definition seg_user (v filesz memsz : Z) : Prop :=
  filesz <= memsz /\ forall x, seg_base v <= x < seg_top v memsz -> user_va x.

Lemma seg_bounds v memsz : 0 <= v -> 0 <= memsz -> seg_base v <= v /\ v + memsz <= seg_top v memsz /\ 0 <= seg_base v /\
  seg_base v mod PAGE_SIZE = 0.
Proof. unfold seg_top, seg_base. change PAGE_SIZE with 4096. intros. split_and!; Z.div_mod_to_equations; lia. Qed.

(** The size the code computes. *)
Lemma seg_size v filesz memsz : 0 <= v < 2 ^ 47 -> 0 <= memsz < 2 ^ 64 -> seg_user v filesz memsz ->
  Z.land v Phys.PAGE_MASK = seg_base v /\ v + memsz <= 2 ^ 47 /\ seg_top v memsz <= 2 ^ 47 /\
  u64 (Phys.PAGE_ALIGN (u64 (v + memsz)) - Z.land v Phys.PAGE_MASK) = seg_top v memsz - seg_base v.
Proof.
  intros Hv Hm [_ Hu]. destruct (seg_bounds v memsz ltac:(lia) ltac:(lia)) as (B1 & B2 & B3 & B4).
  assert (Hend : v + memsz <= 2 ^ 47).
  { destruct (decide (memsz = 0)); [lia|]. destruct (Hu (v + memsz - 1)); lia. }
  assert (El : Z.land v Phys.PAGE_MASK = seg_base v) by (apply PhysInit.land_page_mask; lia).
  assert (Et : Phys.PAGE_ALIGN (u64 (v + memsz)) = seg_top v memsz).
  { unfold Phys.PAGE_ALIGN. rewrite (u64_small (v + memsz)) by lia. change Phys.PAGE_SIZE with 4096.
    rewrite u64_small by lia. rewrite PhysInit.land_page_mask by lia. done. }
  assert (Htop : seg_top v memsz <= 2 ^ 47) by (unfold seg_top, seg_base; change PAGE_SIZE with 4096; Z.div_mod_to_equations; lia).
  split_and!; [done|done|done|]. rewrite El, Et. apply u64_small. lia.
Qed.

Definition seg_pages (v memsz x : Z) : Prop := seg_base v <= x < seg_top v memsz.

Lemma nth_slice img off n bs k : slice img off n = Some bs -> 0 <= k < n -> nth (Z.to_nat k) bs 0 = nth (Z.to_nat (off + k)) img 0.
Proof.
  intros (H1 & H2 & H3 & -> & _)%slice_inv Hk. rewrite !nth_lookup, lookup_take_lt, lookup_drop by lia.
  by rewrite <- Z2Nat.inj_add by lia.
Qed.


Section Proofs.
Context {S : Type} `{HM : PageMem S} `{HO : !PageMemOk S}.
Implicit Types (s : S) (A : list blk) (l : lstate S) (rs : list nat).

(** The root of the tables, the regions, a byte of the process. *)
Definition root l : Z := Region.cr3 (l_vm l).
Definition regions l rs : list Region.vregion_t := Region.abs (l_pool l) rs.
Definition lbyte l (x : Z) : option Z := ubyte (l_pm l) (root l) x.

(** A consistent address space: [rs] are its regions, [A] the held blocks. *)
Record lok l A rs : Prop := {
  lo_vm : Region.vm_ok (l_pool l) (l_vm l) rs;
  lo_held : held (l_pm l) A;
  lo_owns : owns user (l_pm l) (root l) A }.

(** [l'] comes from [l] by work on the addresses of [P]. *)
Record grows (P : Z -> Prop) l A rs l' A' rs' : Prop := {
  gw_ok : lok l' A' rs';
  gw_sub : A ⊆ A';
  gw_root : root l' = root l;
  gw_regions : regions l rs ⊆ regions l' rs';
  gw_byte : forall x, user_va x -> ~ P x -> is_Some (lbyte l x) -> lbyte l' x = lbyte l x }.

Lemma lgrows_refl P l A rs : lok l A rs -> grows P l A rs l A rs.
Proof. by split. Qed.

Lemma lgrows_trans P l A rs l1 A1 rs1 l2 A2 rs2 :
  grows P l A rs l1 A1 rs1 -> grows P l1 A1 rs1 l2 A2 rs2 -> grows P l A rs l2 A2 rs2.
Proof.
  intros [a1 a2 a3 a4 a5] [b1 b2 b3 b4 b5]. split; [done|by etrans|congruence|by etrans|].
  intros x Hx Hn Hs. rewrite b5; [by apply a5|done|done|by rewrite a5].
Qed.

Lemma grows_weaken (P P' : Z -> Prop) l A rs l' A' rs' : (forall x, P x -> P' x) ->
  grows P l A rs l' A' rs' -> grows P' l A rs l' A' rs'.
Proof. intros HP [a1 a2 a3 a4 a5]. split; try done. intros x Hx Hn. apply a5; [done|]. intros Hp. by apply Hn, HP. Qed.

(** A step either refuses the image, or goes on with [Q]. *)
Definition step_ok (P : Z -> Prop) l A rs (Q : lstate S -> list nat -> Prop) (e : out S + lstate S) : Prop :=
  match e with
  | inl (Ret v l') => v = 0 /\ exists A' rs', grows P l A rs l' A' rs'
  | inr l' => exists A' rs', grows P l A rs l' A' rs' /\ Q l' rs'
  | inl _ => False
  end.

Lemma step_bind P l A rs (Q Q' : lstate S -> list nat -> Prop) e k : step_ok P l A rs Q e ->
  (forall l' A' rs', grows P l A rs l' A' rs' -> Q l' rs' -> step_ok P l' A' rs' Q' (k l')) ->
  step_ok P l A rs Q' (lbind e k).
Proof.
  intros He Hk. destruct e as [[v l'| |]|l']; [done|done|done|]. cbn [step_ok lbind] in *. destruct He as (A' & rs' & Hg & HQ).
  specialize (Hk l' A' rs' Hg HQ). destruct (k l') as [[v l2| |]|l2]; cbn [step_ok] in *; [|done|done|].
  - destruct Hk as (-> & A2 & rs2 & Hg2). split; [done|]. exists A2, rs2. by eapply lgrows_trans.
  - destruct Hk as (A2 & rs2 & Hg2 & HQ2). exists A2, rs2. split; [by eapply lgrows_trans|done].
Qed.

Lemma step_impl P l A rs (Q Q' : lstate S -> list nat -> Prop) e : step_ok P l A rs Q e ->
  (forall l' rs', Q l' rs' -> Q' l' rs') -> step_ok P l A rs Q' e.
Proof.
  intros He HQ. destruct e as [[v l'| |]|l']; [done|done|done|]. destruct He as (A' & rs' & Hg & H). exists A', rs'. auto.
Qed.

(** The byte of a page whose words have not changed. *)
Lemma ubyte_ent s s' A r x p : held s A -> (p, 0%nat) ∈ A -> dmap s' = dmap s ->
  walk s r (idx x) = Some p -> walk s' r (idx x) = Some p ->
  (forall j, 0 <= j < 512 -> ent s' p j = ent s p j) -> ubyte s' r x = ubyte s r x.
Proof.
  intros Hh Hp Hd E E' He. unfold ubyte. rewrite E, E', Hd. f_equal. unfold ldb.
  destruct (held_dmap s A Hh) as [d Hdm]. destruct (held_page s A p Hh Hp) as (_ & [q Hq] & _).
  change PAGE_SIZE with 4096 in *. pose proof (Z.mod_pos_bound x 4096 ltac:(lia)) as Hm.
  set (a := dmap s + p + x mod 4096). set (j := (x mod 4096) / 8).
  assert (Ea : a - a mod 8 = ent_addr s p j).
  { rewrite (ent_addr_eq s A) by done. unfold a, j. rewrite Hdm, Hq. Z.div_mod_to_equations. lia. }
  assert (Ea' : a - a mod 8 = ent_addr s' p j) by (rewrite Ea; unfold ent_addr, p2v; by rewrite Hd).
  do 2 f_equal. rewrite Ea' at 1. rewrite Ea. apply He. unfold j. Z.div_mod_to_equations. lia.
Qed.

Lemma walk_ubyte s r x : is_Some (ubyte s r x) -> exists p, walk s r (idx x) = Some p.
Proof. unfold ubyte. intros [b Hb]. destruct (walk s r (idx x)); [eauto|done]. Qed.

(** The region of a segment, and the refusal of overlaps. *)
Definition seg_region (b sz prot : Z) : Region.vregion_t := Region.mkRegion b sz prot RGN_FILE (-1) None None.
Definition apart (b sz : Z) (L : list Region.vregion_t) : Prop :=
  forall d, d ∈ L -> b + sz <= Region.base d \/ Region.base d + Region.size d <= b.

Lemma region_step l A rs b sz prot kd : lok l A rs -> 0 <= b -> 0 < sz -> b + sz <= 2 ^ 47 ->
  Region.amm_region_add (l_pool l) (Some (l_vm l)) b sz prot kd (-1) = Some (-1, l_pool l, Some (l_vm l)) \/
  exists pool vm rs', Region.amm_region_add (l_pool l) (Some (l_vm l)) b sz prot kd (-1) = Some (0, pool, Some vm) /\
    lok (mkLd (l_pm l) pool vm) A rs' /\ Region.cr3 vm = root l /\ apart b sz (regions l rs) /\
    regions l rs ⊆ Region.abs pool rs' /\ Region.mkRegion b sz prot kd (-1) None None ∈ Region.abs pool rs'.
Proof.
  intros [Hv Hh Ho] Hb Hs Hl.
  pose proof (Region.region_add_ok (l_pool l) (l_vm l) rs b sz prot kd (-1) Hv ltac:(lia) ltac:(lia)) as H.
  destruct (Region.refused (l_pool l) rs b sz) eqn:Er; [by left|right].
  destruct H as (l1 & l2 & pool & vm & -> & E & Hok & Habs & _ & _ & _ & Hc).
  exists pool, vm, (l1 ++ Region.g_region_next (l_pool l) :: l2). split; [done|]. unfold regions. rewrite Habs, Region.abs_app.
  split; [split; [done|done|unfold root; cbn [l_vm]; by rewrite Hc]|]. split; [done|]. split; [|split].
  2: { intros d. rewrite !elem_of_app, elem_of_cons. tauto. }
  2: { rewrite elem_of_app, elem_of_cons. right. by left. }
  rewrite <- Region.abs_app. intros d Hd. unfold Region.refused in Er. apply orb_false_iff in Er as [Er _].
  apply orb_false_iff in Er as [_ Er]. assert (Hm : Region.meets b (b + sz) d = false).
  { apply not_true_iff_false. intros Ht. apply not_true_iff_false in Er. apply Er, existsb_exists. exists d.
    split; [by apply list_elem_of_In|done]. }
  unfold Region.meets in Hm. apply andb_false_iff in Hm. rewrite !Z.ltb_ge in Hm. lia.
Qed.

(** Backing a range with pages keeps what is there. *)
Lemma populate_grows P l A rs b sz prot : lok l A rs -> 0 <= b -> 0 < sz -> b + sz <= 2 ^ 47 -> b mod PAGE_SIZE = 0 ->
  (forall x, b <= x < b + sz -> user_va x) ->
  exists A', grows P l A rs (set_l_pm l (snd (amm_region_populate (l_pm l) (Some (l_vm l)) b sz prot))) A' rs.
Proof.
  intros Hok Hb Hs Hl Hal Hv.
  pose proof (region_populate_ok (l_pm l) A (l_vm l) b sz prot (lo_held _ _ _ Hok) (lo_owns _ _ _ Hok) Hb Hs Hl) as Hp.
  rewrite Hal, Z.sub_0_r in Hp. specialize (Hp Hv). cbv zeta in Hp.
  destruct (amm_region_populate (l_pm l) (Some (l_vm l)) b sz prot) as [k s']. cbn [snd].
  destruct Hp as (Hd & _ & (A' & HA & Hh' & Ho') & Hkeep & _ & _). exists A'. split; [by split; [apply Hok|..]|done|done|done|].
  intros x Hx _ Hsm. destruct (walk_ubyte _ _ _ Hsm) as [p Ep].
  destruct (Hkeep (idx x) p (user_va_path x Hx) eq_refl Ep) as [Ep' He].
  apply (ubyte_ent _ _ A _ _ p); [apply Hok| |done|done|done|done].
  apply (ow_held _ _ _ _ (lo_owns _ _ _ Hok) (idx x)); [by apply user_va_path|done].
Qed.

(** A change of the list of regions only. *)
Lemma region_grows P l A rs pool vm rs' : lok l A rs -> lok (mkLd (l_pm l) pool vm) A rs' -> Region.cr3 vm = root l ->
  regions l rs ⊆ Region.abs pool rs' -> grows P l A rs (mkLd (l_pm l) pool vm) A rs'.
Proof. intros Hok Hok1 Hc Hsub. split; [done|done|done|done|]. intros x _ _ _. unfold lbyte, root. simpl. by rewrite Hc. Qed.

Lemma map_segment_ok P l A rs b sz prot : lok l A rs -> 0 <= b -> 0 < sz -> b + sz <= 2 ^ 47 -> b mod PAGE_SIZE = 0 ->
  (forall x, b <= x < b + sz -> user_va x) ->
  step_ok P l A rs (fun l' rs' => apart b sz (regions l rs) /\ seg_region b sz prot ∈ regions l' rs')
    (map_segment l b sz prot).
Proof.
  intros Hok Hb Hs Hl Hal Hv. unfold map_segment.
  destruct (region_step l A rs b sz prot RGN_FILE Hok Hb Hs Hl) as [->|(pool & vm & rs' & -> & Hok1 & Hc & Hap & Hsub & Hin)].
  { cbn. split; [done|]. exists A, rs. destruct l. by apply lgrows_refl. }
  pose proof (region_grows P l A rs pool vm rs' Hok Hok1 Hc Hsub) as Hg1.
  set (l1 := mkLd (l_pm l) pool vm) in *. cbn [Z.eqb negb].
  destruct (populate_grows P l1 A rs' b sz (Z.lor prot PROT_WRITE) Hok1 Hb Hs Hl Hal Hv) as [A' Hg2].
  destruct (amm_region_populate (l_pm l1) (Some (l_vm l1)) b sz (Z.lor prot PROT_WRITE)) as [k s']. cbn [snd] in Hg2.
  pose proof (lgrows_trans _ _ _ _ _ _ _ _ _ _ Hg1 Hg2) as Hg. destruct (k =? 0); cbn [step_ok].
  - split; [done|]. by exists A', rs'.
  - exists A', rs'. split; [done|]. split; [done|]. exact Hin.
Qed.

(** Filling: the bytes [bs], then zeros. *)
Lemma copy_step_ok (P : Z -> Prop) l A rs x0 src res :
  lok l A rs -> copied A (root l) x0 src (l_pm l) res -> (forall x, x0 <= x < x0 + zlen src -> P x) ->
  step_ok P l A rs (fun l' _ => uwrites A (root l) x0 src (l_pm l) (l_pm l') /\ root l' = root l) (copy_step l (Some res)).
Proof.
  intros Hok (n & Hn & Hw & Hres) HP. destruct res as [rc s']. cbn [fst snd] in *.
  assert (Hg : grows P l A rs (set_l_pm l s') A rs).
  { split; [|done|done|done|].
    - split; [apply Hok|apply Hw|apply (uw_owns _ _ _ _ _ _ Hw)].
    - intros x Hx Hn' _. unfold lbyte. rewrite (uw_byte _ _ _ _ _ _ Hw), decide_False; [done| |done].
      intros Hr. apply Hn', HP. rewrite length_take in Hr. unfold zlen. lia. }
  unfold copy_step. destruct Hres as [[-> ->]|(-> & _)]; cbn [Z.eqb negb step_ok].
  - exists A, rs. split; [done|]. rewrite firstn_all in Hw. done.
  - split; [done|]. by exists A, rs.
Qed.

(** A segment as it must appear: the bytes of the file, then zeros. *)
Definition filled l (v memsz : Z) (bs : list Z) : Prop :=
  forall k, 0 <= k < memsz -> lbyte l (v + k) = Some (if decide (k < zlen bs) then nth (Z.to_nat k) bs 0 else 0).

(** The copying and zeroing routines a loader may use. *)
Definition copier (cp : S -> Z -> Z -> list Z -> option (Z * S)) : Prop := forall A r dst src s,
  held s A -> owns user s r A -> Forall is_byte src -> Z.of_nat (length src) <= 2 ^ 64 ->
  (forall x, dst <= x < dst + Z.of_nat (length src) -> user_va x) ->
  exists res, cp s r dst src = Some res /\ copied A r dst src s res.
Definition zeroer (zr : S -> Z -> Z -> Z -> option (Z * S)) : Prop := forall A r dst len s,
  held s A -> owns user s r A -> 0 <= len <= 2 ^ 64 -> (forall x, dst <= x < dst + len -> user_va x) ->
  exists res, zr s r dst len = Some res /\ copied A r dst (replicate (Z.to_nat len) 0) s res.

Lemma copier_elf : copier vm_copy_to_user.
Proof. intros A r dst src s. apply copy_ok. Qed.
Lemma zeroer_elf : zeroer vm_zero_user.
Proof. intros A r dst len s. apply zero_ok. Qed.

Lemma fill_ok cp zr (P : Z -> Prop) l A rs v memsz bs : copier cp -> zeroer zr -> lok l A rs -> Forall is_byte bs -> zlen bs <= memsz -> memsz < 2 ^ 64 -> v + memsz < 2 ^ 64 ->
  0 <= v -> (forall x, v <= x < v + memsz -> user_va x) -> (forall x, v <= x < v + memsz -> P x) ->
  step_ok P l A rs (fun l' _ => filled l' v memsz bs)
    (lbind (if 0 <? zlen bs then copy_step l (cp (l_pm l) (root l) v bs) else inr l) (fun l =>
     if zlen bs <? memsz then copy_step l (zr (l_pm l) (root l) (u64 (v + zlen bs)) (memsz - zlen bs)) else inr l)).
Proof.
  intros Hcp Hzr Hok Hb Hle Hm Hvm Hv0 Hu HP. pose proof (zlen_nonneg bs) as Hz.
  assert (H1 : step_ok P l A rs (fun l' _ => (exists A, uwrites A (root l) v bs (l_pm l) (l_pm l')) /\ root l' = root l)
    (if 0 <? zlen bs then copy_step l (cp (l_pm l) (root l) v bs) else inr l)).
  { destruct (Z.ltb_spec 0 (zlen bs)).
    - destruct (Hcp A (root l) v bs (l_pm l) (lo_held _ _ _ Hok) (lo_owns _ _ _ Hok) Hb) as (res & -> & Hc);
        [unfold zlen in *; lia|intros; apply Hu; unfold zlen in *; lia|].
      eapply step_impl; [apply (copy_step_ok P l A rs v bs); [done|done|intros; apply HP; lia]|].
      intros l' rs' [Hw Hr]. split; [by exists A|done].
    - cbn. exists A, rs. split; [by apply lgrows_refl|]. split; [|done]. exists A. destruct bs; [|unfold zlen in *; simpl in *; lia].
      apply uwrites_nil; apply Hok. }
  eapply step_bind; [exact H1|]. intros l1 A1 rs1 Hg [(A0 & Hw) Hr].
  pose proof (gw_ok _ _ _ _ _ _ _ Hg) as Hok1. rewrite <- Hr in Hw. rewrite (u64_small (v + zlen bs)) by lia.
  destruct (Z.ltb_spec (zlen bs) memsz).
  - destruct (Hzr A1 (root l1) (v + zlen bs) (memsz - zlen bs) (l_pm l1)) as (res & -> & Hc);
      [apply Hok1|apply Hok1|lia|intros; apply Hu; lia|].
    eapply step_impl; [apply (copy_step_ok P l1 A1 rs1 (v + zlen bs) _ res Hok1 Hc)|].
    { intros x Hx. apply HP. unfold zlen in *. rewrite length_replicate in Hx. lia. }
    intros l2 rs2 [Hw2 Hr2] k Hk. unfold lbyte. rewrite Hr2. rewrite (uw_byte _ _ _ _ _ _ Hw2) by (apply Hu; lia).
    rewrite length_replicate. case_decide.
    + rewrite lookup_replicate_2 by lia. rewrite decide_False by lia. done.
    + rewrite (uw_byte _ _ _ _ _ _ Hw), decide_True by (unfold zlen in *; first [lia|apply Hu; lia]).
      rewrite decide_True by lia. replace (v + k - v) with k by lia.
      destruct (lookup_lt_is_Some_2 bs (Z.to_nat k)) as [y Ey]; [unfold zlen in *; lia|]. rewrite Ey. f_equal.
      symmetry. by apply nth_lookup_Some.
  - cbn. exists A1, rs1. split; [by apply lgrows_refl|]. intros k Hk. unfold lbyte.
    rewrite (uw_byte _ _ _ _ _ _ Hw), decide_True by (unfold zlen in *; first [lia|apply Hu; lia]).
    rewrite decide_True by lia. replace (v + k - v) with k by lia.
    destruct (lookup_lt_is_Some_2 bs (Z.to_nat k)) as [y Ey]; [unfold zlen in *; lia|]. rewrite Ey. f_equal.
    symmetry. by apply nth_lookup_Some.
Qed.

(** ** A whole segment *)

(** A segment of the image is in place. *)
Definition in_place (img : list Z) (v memsz fo fs : Z) l : Prop :=
  forall k, 0 <= k < memsz ->
    lbyte l (v + k) = Some (if decide (k < fs) then nth (Z.to_nat (fo + k)) img 0 else 0).

(** It survives work on other pages. *)
Lemma in_place_keep P img v memsz fo fs l A rs l' A' rs' : grows P l A rs l' A' rs' -> seg_user v fs memsz -> 0 <= v -> 0 <= memsz ->
  (forall x, seg_pages v memsz x -> ~ P x) -> in_place img v memsz fo fs l -> in_place img v memsz fo fs l'.
Proof.
  intros Hg [_ Hu] Hv Hm Hn Hl k Hk. destruct (seg_bounds v memsz Hv Hm) as (B1 & B2 & _).
  rewrite (gw_byte _ _ _ _ _ _ _ Hg), Hl; [done|done|apply Hu; lia|apply Hn; unfold seg_pages; lia|rewrite Hl by done; eauto].
Qed.

(** The part of the loaders that maps and fills a segment. *)
Definition place (cp : S -> Z -> Z -> list Z -> option (Z * S)) (zr : S -> Z -> Z -> Z -> option (Z * S))
    (img : list Z) (v memsz fo fs prot : Z) l : out S + lstate S :=
  let seg_vaddr := Z.land v Phys.PAGE_MASK in
  let seg_end := Phys.PAGE_ALIGN (u64 (v + memsz)) in
  let seg_sz := u64 (seg_end - seg_vaddr) in
  if (seg_sz =? 0) || (64 * 1024 * 1024 <? seg_sz) then inl (Ret 0 l)
  else
    lbind (map_segment l seg_vaddr seg_sz prot) (fun l =>
    lbind (if 0 <? fs then
             match slice img fo fs with
             | None => inl Oob
             | Some bs => copy_step l (cp (l_pm l) (Region.cr3 (l_vm l)) v bs)
             end
           else inr l) (fun l =>
    if fs <? memsz then copy_step l (zr (l_pm l) (Region.cr3 (l_vm l)) (u64 (v + fs)) (memsz - fs)) else inr l)).

Lemma place_ok cp zr img v memsz fo fs prot l A rs : copier cp -> zeroer zr -> byte_img img ->
  0 <= v < 2 ^ 47 -> 0 <= memsz < 2 ^ 64 -> 0 <= fo -> 0 <= fs -> fo + fs <= zlen img -> seg_user v fs memsz -> lok l A rs ->
  step_ok (seg_pages v memsz) l A rs (fun l' rs' => in_place img v memsz fo fs l' /\
      apart (seg_base v) (seg_top v memsz - seg_base v) (regions l rs) /\
      seg_region (seg_base v) (seg_top v memsz - seg_base v) prot ∈ regions l' rs')
    (place cp zr img v memsz fo fs prot l).
Proof.
  intros Hcp Hzr [Hb Hlen] Hv Hm Hfo Hfs Hin' Hu Hok. unfold place.
  assert (Href : forall Q, step_ok (seg_pages v memsz) l A rs Q (inl (Ret 0 l))) by (intros Q; split; [done|]; exists A, rs; by apply lgrows_refl).
  destruct (seg_size v fs memsz Hv Hm Hu) as (E1 & E2 & E3 & E4). rewrite E4, E1.
  destruct (seg_bounds v memsz ltac:(lia) ltac:(lia)) as (B1 & B2 & B3 & B4).
  destruct (Z.eqb_spec (seg_top v memsz - seg_base v) 0); [done|]. cbn [orb].
  destruct (Z.ltb_spec (64 * 1024 * 1024) (seg_top v memsz - seg_base v)); [done|].
  destruct Hu as [Hfm Hu]. rewrite (slice_some img fo fs) by lia.
  set (bs := take _ (drop _ img)).
  assert (Es : slice img fo fs = Some bs) by (apply slice_some; lia).
  destruct (slice_inv _ _ _ _ Es) as (_ & _ & _ & _ & Ebs). pose proof (slice_byte _ _ _ _ Hb Es) as Hbb. clearbody bs.
  eapply step_bind; [apply (map_segment_ok (seg_pages v memsz)); [done|done|lia|lia|done|intros; apply Hu; lia]|].
  intros l1 A1 rs1 Hg1 [Hap Hin].
  pose proof (fill_ok cp zr (seg_pages v memsz) l1 A1 rs1 v memsz bs Hcp Hzr (gw_ok _ _ _ _ _ _ _ Hg1) Hbb) as Hf.
  rewrite Ebs in Hf. specialize (Hf ltac:(lia) ltac:(lia) ltac:(lia) ltac:(lia) ltac:(intros; apply Hu; lia)
    ltac:(intros; unfold seg_pages; lia)). unfold root in Hf.
  match goal with |- step_ok _ _ _ _ _ ?e => destruct e as [[w l2| |]|l2] end; cbn [step_ok] in *; [done|done|done|].
  destruct Hf as (A2 & rs2 & Hg2 & Hfill). exists A2, rs2. split; [done|]. split_and!; [|done|].
  - intros k Hk. rewrite (Hfill k Hk), Ebs. f_equal. case_decide; [|done]. apply (nth_slice img _ _ _ _ Es). lia.
  - by apply (gw_regions _ _ _ _ _ _ _ Hg2).
Qed.

End Proofs.
End Loader.
