(* ===== verification/ElfThm.v ===== *)
(** * kernel/arch/elf.c: what [elf_load] has loaded

    On success every PT_LOAD segment is in the address space exactly as the
    file describes it, and has a region of its own; on failure the address
    space is still consistent, so that it can be destroyed. *)

From S2P Require Import Prelude Phys PhysInv PhysInit PageAlloc PageTable Region AddrSpace Bytes UserMem UserStack Elf Loader.
From Stdlib Require Import ZArith Lia.
From stdpp Require Import base list gmap numbers.
Open Scope Z_scope.

Module ElfThm.
Import PageAlloc PageTable AddrSpace UserMem UserStack Elf Loader.

Section Proofs.
Context {S : Type} `{HM : PageMem S} `{HO : !PageMemOk S}.
Implicit Types (s : S) (A : list blk) (l : lstate S) (rs : list nat).

(** Segment [ph] of the image is in place. *)
Definition loaded (img : list Z) (ph : elf64_phdr_t) l : Prop :=
  in_place img (p_vaddr ph) (p_memsz ph) (p_offset ph) (p_filesz ph) l.

Definition ph_region (ph : elf64_phdr_t) : Region.vregion_t :=
  seg_region (seg_base (p_vaddr ph)) (seg_top (p_vaddr ph) (p_memsz ph) - seg_base (p_vaddr ph)) (elf_prot (p_flags ph)).

Definition ph_user (ph : elf64_phdr_t) : Prop := seg_user (p_vaddr ph) (p_filesz ph) (p_memsz ph).

(** The addresses of the pages of a segment. *)
Definition ph_pages (ph : elf64_phdr_t) (x : Z) : Prop := seg_pages (p_vaddr ph) (p_memsz ph) x.

Lemma load_segment_ok img ph l A rs : byte_img img -> phdr_ok ph -> ph_user ph -> lok l A rs ->
  step_ok (ph_pages ph) l A rs (fun l' rs' => loaded img ph l' /\
      apart (seg_base (p_vaddr ph)) (seg_top (p_vaddr ph) (p_memsz ph) - seg_base (p_vaddr ph)) (regions l rs) /\
      ph_region ph ∈ regions l' rs')
    (load_segment img ph l).
Proof.
  intros Hb [O1 O2 O3 O4] Hu Hok. unfold load_segment.
  assert (Href : forall Q, step_ok (ph_pages ph) l A rs Q (inl (Ret 0 l))) by (intros Q; split; [done|]; exists A, rs; by apply lgrows_refl).
  destruct (Z.leb_spec 0x0000800000000000 (p_vaddr ph)); [done|]. change 0x0000800000000000 with (2 ^ 47) in *.
  destruct (Z.ltb_spec (zlen img) (p_offset ph)); [done|]. cbn [orb].
  destruct (Z.ltb_spec (zlen img - p_offset ph) (p_filesz ph)); [done|].
  apply (place_ok vm_copy_to_user vm_zero_user); [apply copier_elf|apply zeroer_elf|done|lia|done|lia|lia|lia|done|done].
Qed.

(** ** All headers *)

Definition load_at (img : list Z) (eh : elf64_ehdr_t) (i : Z) (ph : elf64_phdr_t) : Prop :=
  phdr_at img (e_phoff eh + i * e_phentsize eh) = Some ph /\ p_type ph = PT_LOAD.

(** The segments of the first [i] headers are in place. *)
Definition done_until (img : list Z) (eh : elf64_ehdr_t) (i : Z) l rs : Prop :=
  forall j ph, 0 <= j < i -> load_at img eh j ph -> loaded img ph l /\ ph_region ph ∈ regions l rs.

Definition any_page (img : list Z) (eh : elf64_ehdr_t) (x : Z) : Prop :=
  exists i ph, 0 <= i < e_phnum eh /\ load_at img eh i ph /\ ph_pages ph x.

Definition image_user (img : list Z) (eh : elf64_ehdr_t) : Prop :=
  forall i ph, 0 <= i < e_phnum eh -> load_at img eh i ph -> ph_user ph.

Lemma load_phdr_ok img eh i l A rs : byte_img img -> ehdr_at img 0 = Some eh -> header_ok (zlen img) eh = true ->
  image_user img eh -> 0 <= i < e_phnum eh -> lok l A rs -> done_until img eh i l rs ->
  step_ok (any_page img eh) l A rs (done_until img eh (i + 1)) (load_phdr img eh i l).
Proof.
  intros Hb He Hok Hiu Hi Hl Hdone. destruct (header_table img eh Hb He Hok) as (H1 & H2 & H3 & H4).
  unfold load_phdr, SIZEOF_PHDR in *. assert (0 <= i * e_phentsize eh <= 48 * 2 ^ 16) by nia. destruct (Hb) as [_ Hbl].
  rewrite (u64_small (_ + _ * _)), u64_small by lia.
  assert (Href : step_ok (any_page img eh) l A rs (done_until img eh (i + 1)) (inl (Ret 0 l)))
    by (split; [done|]; exists A, rs; by apply lgrows_refl).
  destruct (Z.ltb_spec (zlen img) (e_phoff eh + i * e_phentsize eh + 56)); [done|].
  destruct (phdr_at img (e_phoff eh + i * e_phentsize eh)) as [ph|] eqn:Ep.
  2: { unfold phdr_at, SIZEOF_PHDR in Ep. rewrite slice_some in Ep by lia. done. }
  destruct (p_type ph =? PT_INTERP); [done|]. destruct (Z.eqb_spec (p_type ph) PT_LOAD) as [Et|Et]; cbn [negb].
  2: { cbn. exists A, rs. split; [by apply lgrows_refl|]. intros j ph' Hj [Ej Ej']. apply (Hdone j ph'); [|done].
       destruct (decide (j = i)) as [->|]; [congruence|lia]. }
  assert (Hla : load_at img eh i ph) by done. pose proof (phdr_at_ok _ _ _ (proj1 Hb) Ep) as Hpo.
  pose proof (load_segment_ok img ph l A rs Hb Hpo (Hiu i ph Hi Hla) Hl) as Hs.
  destruct (load_segment img ph l) as [[v l'| |]|l']; cbn [step_ok] in *; [|done|done|].
  { destruct Hs as (-> & A' & rs' & Hg). split; [done|]. exists A', rs'. eapply grows_weaken; [|exact Hg].
    intros x Hx. by exists i, ph. }
  destruct Hs as (A' & rs' & Hg & Hld & Hap & Hin). exists A', rs'.
  split; [eapply grows_weaken; [|exact Hg]; intros x Hx; by exists i, ph|].
  intros j ph' Hj Hla'. destruct (decide (j = i)) as [->|Hne].
  { destruct Hla as [E0 _], Hla' as [E1 _]. assert (ph' = ph) as -> by congruence. done. }
  destruct (Hdone j ph') as [Hl' Hr']; [lia|done|]. split; [|by apply (gw_regions _ _ _ _ _ _ _ Hg)].
  pose proof (phdr_at_ok _ _ _ (proj1 Hb) (proj1 Hla')) as Hpo'.
  eapply (in_place_keep (ph_pages ph)); [exact Hg|apply (Hiu j); [lia|done]|apply Hpo'|apply Hpo'| |done].
  intros x Hx Hx'. specialize (Hap _ Hr'). unfold ph_region, seg_region, ph_pages, seg_pages in *. simpl in Hap. lia.
Qed.

Lemma load_phdrs_ok img eh n : byte_img img -> ehdr_at img 0 = Some eh -> header_ok (zlen img) eh = true ->
  image_user img eh -> forall i l A rs, 0 <= i -> i + Z.of_nat n = e_phnum eh -> lok l A rs -> done_until img eh i l rs ->
  step_ok (any_page img eh) l A rs (done_until img eh (e_phnum eh)) (load_phdrs img eh i n l).
Proof.
  intros Hb He Hok Hiu. induction n as [|n IH]; intros i l A rs Hi Hn Hl Hd; cbn [load_phdrs].
  { cbn. exists A, rs. split; [by apply lgrows_refl|]. replace (e_phnum eh) with i by lia. done. }
  eapply step_bind; [apply load_phdr_ok; (done || lia)|]. intros l1 A1 rs1 Hg Hd1.
  apply IH; [lia|lia|apply Hg|done].
Qed.

Lemma elf_load_ok img l A rs : byte_img img -> (forall eh, ehdr_at img 0 = Some eh -> image_user img eh) -> lok l A rs ->
  exists v l' A' rs', elf_load (Some img) l = Ret v l' /\
    (v = 0 /\ grows (fun x => exists eh, ehdr_at img 0 = Some eh /\ any_page img eh x) l A rs l' A' rs' \/
     exists eh, ehdr_at img 0 = Some eh /\ header_ok (zlen img) eh = true /\ v = e_entry eh /\
       grows (any_page img eh) l A rs l' A' rs' /\ done_until img eh (e_phnum eh) l' rs').
Proof.
  intros Hb Hiu Hl. unfold elf_load. destruct (Z.ltb_spec (zlen img) SIZEOF_EHDR).
  { exists 0, l, A, rs. split; [done|]. left. split; [done|]. by apply lgrows_refl. }
  destruct (ehdr_at img 0) as [eh|] eqn:He; [|unfold ehdr_at in He; by rewrite slice_some in He].
  destruct (header_ok (zlen img) eh) eqn:Hok; cbn [negb].
  2: { exists 0, l, A, rs. split; [done|]. left. split; [done|]. by apply lgrows_refl. }
  destruct (header_table img eh Hb He Hok) as (H1 & _).
  pose proof (load_phdrs_ok img eh (Z.to_nat (e_phnum eh)) Hb He Hok (Hiu eh eq_refl) 0 l A rs ltac:(lia) ltac:(lia) Hl
    ltac:(intros j ph Hj; lia)) as Hs.
  destruct (load_phdrs img eh 0 _ l) as [[v l'| |]|l']; cbn [step_ok] in Hs; [|done|done|].
  - destruct Hs as (-> & A' & rs' & Hg). exists 0, l', A', rs'. split; [done|]. left. split; [done|].
    eapply grows_weaken; [|exact Hg]. intros x Hx. by exists eh.
  - destruct Hs as (A' & rs' & Hg & Hd). exists (e_entry eh), l', A', rs'. split; [done|]. right. by exists eh.
Qed.


End Proofs.
End ElfThm.
