(* ===== verification/Macho.v ===== *)
(** * kernel/arch/macho.c: the Mach-O loader

    The second loader has its own copies of the routines that write to the
    process and build its stack; they are shown equal to those of elf.c.
    [macho_load] walks the load commands of an image; the sum [off + cmdsize] that
    bounds a command is a 32-bit sum. *)

From S2P Require Import Prelude Phys PhysInv PhysInit PageAlloc PageTable Region AddrSpace Bytes UserMem UserStack Elf Loader.
From Stdlib Require Import ZArith Lia.
From stdpp Require Import base list gmap numbers.
Open Scope Z_scope.

Module Macho.
Import PageAlloc PageTable AddrSpace UserMem UserStack Elf Loader.
Import Bytes(le_val, le_bytes).

Definition MH_MAGIC_64 : Z := 0xFEEDFACF.
Definition MH_EXECUTE : Z := 2.
Definition LC_SEGMENT_64 : Z := 0x19.
Definition LC_UNIXTHREAD : Z := 0x5.
Definition LC_MAIN : Z := 0x80000028.
Definition VM_PROT_READ : Z := 1.
Definition VM_PROT_WRITE : Z := 2.
Definition VM_PROT_EXECUTE : Z := 4.
Definition x86_THREAD_STATE64 : Z := 4.

Definition SIZEOF_MACH_HEADER : Z := 32.
Definition SIZEOF_LOAD_COMMAND : Z := 8.
Definition SIZEOF_SEGMENT : Z := 72.
Definition SIZEOF_THREAD : Z := 184. (* thread_command_t and thread_state_hdr_t *)
Definition SIZEOF_ENTRY : Z := 24.

Section Ops.
Context {S : Type} `{PageMem S}.

(** ** Writing to the process *)

Definition copy_m_round (cr3 : Z) (x : S * Z * list Z) : (S * Z * list Z) + (Z * S) :=
  let '(s, dst, src) := x in
  let len := Z.of_nat (length src) in
  if negb (0 <? len) then inr (0, s)
  else
    let off := Z.land dst (PAGE_SIZE - 1) in
    let chunk := PAGE_SIZE - off in
    let chunk := if len <? chunk then len else chunk in
    let kva := amm_virt_to_kva s cr3 (Z.land dst Phys.PAGE_MASK) in
    if kva =? 0 then inr (-1, s)
    else inl (put_bytes s (kva + off) (take (Z.to_nat chunk) src), u64 (dst + chunk), drop (Z.to_nat chunk) src).

Definition vm_copy_m (s : S) (cr3 dst : Z) (src : list Z) : option (Z * S) :=
  leave (loop (copy_m_round cr3) ROUNDS (s, dst, src)).

Definition zero_m_round (cr3 : Z) (x : S * Z * Z) : (S * Z * Z) + (Z * S) :=
  let '(s, dst, len) := x in
  if negb (0 <? len) then inr (0, s)
  else
    let off := Z.land dst (PAGE_SIZE - 1) in
    let chunk := PAGE_SIZE - off in
    let chunk := if len <? chunk then len else chunk in
    let kva := amm_virt_to_kva s cr3 (Z.land dst Phys.PAGE_MASK) in
    if kva =? 0 then inr (-1, s)
    else inl (put_bytes s (kva + off) (replicate (Z.to_nat chunk) 0), u64 (dst + chunk), len - chunk).

Definition vm_zero_m (s : S) (cr3 dst len : Z) : option (Z * S) :=
  leave (loop (zero_m_round cr3) ROUNDS (s, dst, len)).

(** ** The stack *)

Definition push_bytes_m (s : S) (cr3 sp : Z) (src : list Z) : option (Z * Z * S) :=
  let sp := u64 (sp - Z.of_nat (length src)) in
  match vm_copy_m s cr3 sp src with None => None | Some (rc, s) => Some (rc, sp, s) end.

Definition push_u64_m (s : S) (cr3 sp v : Z) : option (Z * Z * S) := push_bytes_m s cr3 sp (le_bytes 8 v).

Fixpoint push_strings_m (cr3 : Z) (l : list cstr) (ptrs : list Z) (sp : Z) (s : S) : flow (list Z * Z * S) :=
  match l with
  | [] => go (ptrs, sp, s)
  | str :: l =>
      fbind (returns_0_on_error (push_bytes_m s cr3 sp (str ++ [0])))
        (fun '(sp, s) => push_strings_m cr3 l (sp :: ptrs) sp s)
  end.

Fixpoint push_words_m (cr3 : Z) (l : list Z) (sp : Z) (s : S) : flow (Z * S) :=
  match l with
  | [] => go (sp, s)
  | v :: l => fbind (returns_0_on_error (push_u64_m s cr3 sp v)) (fun '(sp, s) => push_words_m cr3 l sp s)
  end.

Definition build_stack_macho (argv envp : strs) (s : S) (cr3 : Z) : option (Z * S) :=
  let argc := count_strs argv in
  let envc := count_strs envp in
  let sp := USER_STACK_TOP in
  let ec := if 63 <? envc then 63 else envc in
  let ac := if 63 <? argc then 63 else argc in
  finish
    (fbind (push_strings_m cr3 (rev (passed envp)) [] sp s) (fun '(ep, sp, s) =>
     fbind (push_strings_m cr3 (rev (passed argv)) [] sp s) (fun '(ap, sp, s) =>
     let sp := Z.land sp (2 ^ 64 - 1 - 15) in
     fbind (if negb ((ac + ec + 3) mod 2 =? 0)
            then returns_0_on_error (push_u64_m s cr3 sp 0) else go (sp, s)) (fun '(sp, s) =>
     fbind (returns_0_on_error (push_u64_m s cr3 sp 0)) (fun '(sp, s) =>
     fbind (push_words_m cr3 (rev ep) sp s) (fun '(sp, s) =>
     fbind (returns_0_on_error (push_u64_m s cr3 sp 0)) (fun '(sp, s) =>
     fbind (push_words_m cr3 (rev ap) sp s) (fun '(sp, s) =>
     returns_0_on_error (push_u64_m s cr3 sp ac))))))))).

(** ** The loader *)

(** The locals of [macho_load] and the state it works on. *)
Record mstate := mkM { m_l : lstate S; entry : Z; text_vmaddr : Z; got_text : bool; off : Z; idx_i : Z }.
Definition set_m_l (m : mstate) (l : lstate S) : mstate :=
  mkM l (entry m) (text_vmaddr m) (got_text m) (off m) (idx_i m).
Definition set_entry (m : mstate) (e : Z) : mstate :=
  mkM (m_l m) e (text_vmaddr m) (got_text m) (off m) (idx_i m).
Definition set_text (m : mstate) (t : Z) : mstate :=
  mkM (m_l m) (entry m) t true (off m) (idx_i m).
(** [off += lc->cmdsize], and on to the next command. *)
Definition next_cmd (m : mstate) (cmdsize : Z) : mstate :=
  mkM (m_l m) (entry m) (text_vmaddr m) (got_text m) (u32 (off m + cmdsize)) (idx_i m + 1).

(** A field of the image; outside it, the access itself is the outcome. *)
Definition fetch {X} (img : list Z) (o n : Z) (k : Z -> X + out S) : X + out S :=
  match slice img o n with None => inr Oob | Some b => k (le_val b) end.

Definition macho_prot (initprot : Z) : Z :=
  let prot := 0 in
  let prot := if has_flag initprot VM_PROT_READ then Z.lor prot PROT_READ else prot in
  let prot := if has_flag initprot VM_PROT_WRITE then Z.lor prot PROT_WRITE else prot in
  if has_flag initprot VM_PROT_EXECUTE then Z.lor prot PROT_EXEC else prot.

(** Mapping and filling a segment. *)
Definition place_segment (img : list Z) (vmaddr vmsize fileoff filesize prot : Z) (l : lstate S) : out S + lstate S :=
  let seg_start := Z.land vmaddr Phys.PAGE_MASK in
  let seg_end := Phys.PAGE_ALIGN (u64 (vmaddr + vmsize)) in
  let seg_sz := u64 (seg_end - seg_start) in
  if (seg_sz =? 0) || (64 * 1024 * 1024 <? seg_sz) then inl (Ret 0 l)
  else
    lbind (map_segment l seg_start seg_sz prot) (fun l =>
    lbind (if 0 <? filesize then
             match slice img fileoff filesize with
             | None => inl Oob
             | Some bs => copy_step l (vm_copy_m (l_pm l) (Region.cr3 (l_vm l)) vmaddr bs)
             end
           else inr l) (fun l =>
    if filesize <? vmsize then
      copy_step l (vm_zero_m (l_pm l) (Region.cr3 (l_vm l)) (u64 (vmaddr + filesize)) (vmsize - filesize))
    else inr l)).

(** LC_SEGMENT_64; [lc] is the offset of the command in the image. *)
Definition do_segment (img : list Z) (lc cmdsize : Z) (m : mstate) : mstate + out S :=
  if cmdsize <? SIZEOF_SEGMENT then inl (next_cmd m cmdsize)
  else
    fetch img (lc + 32) 8 (fun vmsize =>
    if vmsize =? 0 then inl (next_cmd m cmdsize)
    else
      fetch img (lc + 24) 8 (fun vmaddr =>
      fetch img (lc + 48) 8 (fun filesize =>
      if (vmaddr =? 0) && (filesize =? 0) then inl (next_cmd m cmdsize)
      else if 0x0000800000000000 <=? vmaddr then inr (Ret 0 (m_l m))
      else
        fetch img (lc + 40) 8 (fun fileoff =>
        if zlen img <? fileoff then inr (Ret 0 (m_l m))
        else if zlen img - fileoff <? filesize then inr (Ret 0 (m_l m))
        else
          fetch img (lc + 60) 4 (fun initprot =>
          match place_segment img vmaddr vmsize fileoff filesize (macho_prot initprot) (m_l m) with
          | inl o => inr o
          | inr l =>
              let m := set_m_l m l in
              let m := if negb (got_text m) && has_flag initprot VM_PROT_EXECUTE then set_text m vmaddr else m in
              inl (next_cmd m cmdsize)
          end))))).

Definition do_unixthread (img : list Z) (lc cmdsize : Z) (m : mstate) : mstate + out S :=
  if cmdsize <? SIZEOF_THREAD then inl (next_cmd m cmdsize)
  else
    fetch img (lc + 8) 4 (fun flavor =>
    if flavor =? x86_THREAD_STATE64
    then fetch img (lc + 16 + 128) 8 (fun rip => inl (next_cmd (set_entry m rip) cmdsize))
    else inl (next_cmd m cmdsize)).

Definition do_main (img : list Z) (lc cmdsize : Z) (m : mstate) : mstate + out S :=
  if cmdsize <? SIZEOF_ENTRY then inl (next_cmd m cmdsize)
  else fetch img (lc + 8) 8 (fun entryoff => inl (next_cmd (set_entry m (u64 (text_vmaddr m + entryoff))) cmdsize)).

(** One round of [for (uint32_t i = 0; i < mh->ncmds; i++)]. *)
Definition macho_round (img : list Z) (ncmds sizeofcmds : Z) (m : mstate) : mstate + out S :=
  if negb (idx_i m <? ncmds) then inr (Ret (entry m) (m_l m))
  else if sizeofcmds <? off m + SIZEOF_LOAD_COMMAND then inr (Ret 0 (m_l m))
  else
    let lc := SIZEOF_MACH_HEADER + off m in
    fetch img (lc + 4) 4 (fun cmdsize =>
    if cmdsize <? SIZEOF_LOAD_COMMAND then inr (Ret 0 (m_l m))
    else if sizeofcmds <? u32 (off m + cmdsize) then inr (Ret 0 (m_l m))
    else
      fetch img lc 4 (fun cmd =>
      if cmd =? LC_SEGMENT_64 then do_segment img lc cmdsize m
      else if cmd =? LC_UNIXTHREAD then do_unixthread img lc cmdsize m
      else if cmd =? LC_MAIN then do_main img lc cmdsize m
      else inl (next_cmd m cmdsize))).

Definition u32_at (img : list Z) (o : nat) : Z := field img o 4.

Definition macho_load (image : option (list Z)) (l : lstate S) : out S :=
  match image with
  | None => Ret 0 l
  | Some img =>
      if zlen img <? SIZEOF_MACH_HEADER then Ret 0 l
      else
        let ncmds := u32_at img 16 in
        let sizeofcmds := u32_at img 20 in
        if negb (u32_at img 0 =? MH_MAGIC_64) then Ret 0 l
        else if negb (u32_at img 12 =? MH_EXECUTE) then Ret 0 l
        else if zlen img <? SIZEOF_MACH_HEADER + sizeofcmds then Ret 0 l
        else match loop (macho_round img ncmds sizeofcmds) ROUNDS (mkM l 0 0 false 0 0) with
             | inl _ => Spin
             | inr o => o
             end
  end.

End Ops.
Arguments mstate S : clear implicits.

(** ** The same writes as elf.c *)

Section Same.
Context {S : Type} `{HM : PageMem S} `{HO : !PageMemOk S}.
Implicit Types (s : S) (A : list blk).

(** The page's address and the offset, or the address itself. *)
Lemma kva_page s A r x : held s A -> owns user s r A -> user_va x ->
  (amm_virt_to_kva s r (Z.land x Phys.PAGE_MASK) =? 0) = (amm_virt_to_kva s r x =? 0) /\
  (amm_virt_to_kva s r x <> 0 -> amm_virt_to_kva s r (Z.land x Phys.PAGE_MASK) + Z.land x (PAGE_SIZE - 1) = amm_virt_to_kva s r x).
Proof.
  intros Hh Ho Hx. pose proof (user_va_lt x Hx) as Hl. rewrite PhysInit.land_page_mask by lia.
  assert (Hm : 0 <= x mod PAGE_SIZE < PAGE_SIZE) by (by apply Z.mod_pos_bound).
  assert (Hx' : user_va (x - x mod PAGE_SIZE)).
  { destruct Hx as [H1 H2]. unfold user_va. change PAGE_SIZE with 4096 in *. Z.div_mod_to_equations. lia. }
  assert (Ei : idx (x - x mod PAGE_SIZE) = idx x).
  { apply idx_inj; [by apply user_va_lt|done|]. change PAGE_SIZE with 4096. Z.div_mod_to_equations. lia. }
  assert (Em : (x - x mod PAGE_SIZE) mod PAGE_SIZE = 0) by (change PAGE_SIZE with 4096; Z.div_mod_to_equations; lia).
  pose proof (kva_present s A r x Hh Ho Hx) as P1. pose proof (kva_present s A r _ Hh Ho Hx') as P2. rewrite Ei, <- P1 in P2.
  unfold truthy in P2. split; [by apply (f_equal negb) in P2; rewrite !negb_involutive in P2|].
  rewrite !(kva_walk s A) by done. rewrite Ei, Em. change (PAGE_SIZE - 1) with (2 ^ 12 - 1). rewrite land_mask_low by lia.
  change (2 ^ 12) with PAGE_SIZE. destruct (walk s r (idx x)); [lia|done].
Qed.

Lemma copy_round_same A r dst src s x : (forall x, dst <= x < dst + Z.of_nat (length src) -> user_va x) ->
  copy_inv A r dst src s x -> copy_round r x = copy_m_round r x.
Proof.
  intros Hv. destruct x as [[s1 d] l]. intros (n & Hn & -> & -> & Hw). unfold copy_round, copy_m_round.
  destruct (Z.ltb_spec 0 (Z.of_nat (length (drop n src)))) as [Hl|]; cbn [negb]; [|done].
  rewrite length_drop in Hl.
  destruct (kva_page s1 A r (dst + Z.of_nat n)) as [-> Ek]; [apply Hw|apply (uw_owns _ _ _ _ _ _ Hw)|apply Hv; lia|].
  destruct (Z.eqb_spec (amm_virt_to_kva s1 r (dst + Z.of_nat n)) 0) as [|Hne]; [done|]. by rewrite (Ek Hne).
Qed.

Lemma copy_same A r dst src s : held s A -> owns user s r A -> Forall is_byte src ->
  (forall x, dst <= x < dst + Z.of_nat (length src) -> user_va x) -> vm_copy_m s r dst src = vm_copy_to_user s r dst src.
Proof.
  intros Hh Ho Hb Hv. unfold vm_copy_m, vm_copy_to_user. f_equal. symmetry.
  apply (loop_ext (copy_round r) (copy_m_round r) (copy_inv A r dst src s)); [|by apply copy_inv_start].
  intros x Hx. split; [by eapply copy_round_same|]. pose proof (copy_round_ok A r dst src s x Hb Hv Hx) as H.
  destruct (copy_round r x); [apply H|done].
Qed.

Lemma zero_same A r dst len s : held s A -> owns user s r A -> 0 <= len ->
  (forall x, dst <= x < dst + len -> user_va x) -> vm_zero_m s r dst len = vm_zero_user s r dst len.
Proof.
  intros Hh Ho Hl Hv. unfold vm_zero_m, vm_zero_user. f_equal. symmetry. set (src := replicate (Z.to_nat len) 0).
  assert (Hv' : forall x, dst <= x < dst + Z.of_nat (length src) -> user_va x)
    by (unfold src; rewrite length_replicate; intros; apply Hv; lia).
  assert (Hb : Forall is_byte src) by (apply Forall_replicate; unfold Bytes.is_byte; lia).
  apply (loop_ext (zero_round r) (zero_m_round r)
    (fun '(s1, d, n) => 0 <= n /\ copy_inv A r dst src s (s1, d, replicate (Z.to_nat n) 0))); [|split; [done|by apply copy_inv_start]].
  intros [[s1 d] n] [Hn Hx]. destruct (zero_round_copy r s1 d n Hn) as [E Hk].
  pose proof (copy_round_ok A r dst src s _ Hb Hv' Hx) as Hok. split.
  - destruct Hx as (m & Hm & El & -> & Hw). unfold zero_round, zero_m_round.
    destruct (Z.ltb_spec 0 n); cbn [negb]; [|done]. assert (Hlm : (Z.to_nat n = length src - m)%nat)
      by (rewrite <- length_drop, <- El; by rewrite length_replicate).
    destruct (kva_page s1 A r (dst + Z.of_nat m)) as [-> Ek]; [apply Hw|apply (uw_owns _ _ _ _ _ _ Hw)|apply Hv'; lia|].
    destruct (Z.eqb_spec (amm_virt_to_kva s1 r (dst + Z.of_nat m)) 0) as [|Hne]; [done|]. by rewrite (Ek Hne).
  - rewrite E. destruct (copy_round r _) as [[[s2 d2] l2]|]; [|done]. destruct Hk as [k ->]. destruct Hok as [Hi _].
    rewrite length_replicate, Nat2Z.id. split; [lia|done].
Qed.

Lemma copier_m : copier vm_copy_m.
Proof. intros A r dst src s Hh Ho Hb Hl Hv. rewrite (copy_same A) by done. by apply copy_ok. Qed.
Lemma zeroer_m : zeroer vm_zero_m.
Proof. intros A r dst len s Hh Ho Hl Hv. rewrite (zero_same A) by (done || lia). by apply zero_ok. Qed.

(** ** The same stack as elf.c *)

Lemma push_same A r sp bs s : held s A -> owns user s r A -> Forall is_byte bs ->
  (forall x, sp - zlen bs <= x < sp -> user_va x) -> 0 <= sp - zlen bs -> sp < 2 ^ 64 ->
  push_bytes_m s r sp bs = push_user_bytes s r sp bs.
Proof.
  intros Hh Ho Hb Hv H0 Hs. unfold push_bytes_m, push_user_bytes. fold (zlen bs). pose proof (zlen_nonneg bs).
  rewrite u64_small by lia. rewrite (copy_same A); [done|done|done|done|]. intros; apply Hv. unfold zlen in *. lia.
Qed.

Lemma push_strings_same A r l : forall ptrs sp s, held s A -> owns user s r A -> Forall (Forall is_byte) l ->
  (forall x, sp - zlen (flat l) <= x < sp -> user_va x) -> 0 <= sp - zlen (flat l) -> sp < 2 ^ 64 ->
  push_strings_m r (rev l) ptrs sp s = push_strings r (rev l) ptrs sp s.
Proof.
  induction l as [|str l IH] using rev_ind; intros ptrs sp s Hh Ho Hb Hv H0 Hsp; [done|].
  apply Forall_app in Hb as [Hb Hs]. apply list.Forall_cons in Hs as [Hs _].
  rewrite rev_app_distr. cbn [rev app push_strings push_strings_m]. rewrite flat_snoc, zlen_app in *.
  set (c := str ++ [0]) in *. pose proof (zlen_nonneg (flat l)). pose proof (zlen_nonneg c).
  assert (Hc : Forall is_byte c) by (apply Forall_app; split; [done|repeat constructor; unfold Bytes.is_byte; lia]).
  rewrite (push_same A) by (done || lia || (intros; apply Hv; lia)).
  pose proof (push_bytes_ok A r sp c s Hh Ho Hc ltac:(intros; apply Hv; lia) ltac:(lia) Hsp) as Hp.
  destruct (returns_0_on_error _) as [[?|[sp1 s1]]|]; cbn [fbind pushes] in *; [done| |done]. destruct Hp as [-> Hw].
  apply IH; [apply Hw|apply (uw_owns _ _ _ _ _ _ Hw)|done|intros; apply Hv; lia|lia|lia].
Qed.

Lemma push_words_same A r l : forall sp s, held s A -> owns user s r A ->
  (forall x, sp - zlen (words l) <= x < sp -> user_va x) -> 0 <= sp - zlen (words l) -> sp < 2 ^ 64 ->
  push_words_m r (rev l) sp s = push_words r (rev l) sp s.
Proof.
  induction l as [|v l IH] using rev_ind; intros sp s Hh Ho Hv H0 Hsp; [done|].
  rewrite rev_app_distr. cbn [rev app push_words push_words_m]. rewrite words_app, zlen_app, words_one in *.
  set (c := le_bytes 8 v) in *. pose proof (zlen_nonneg (words l)). pose proof (zlen_nonneg c).
  unfold push_u64_m. rewrite push_u64_bytes. fold c.
  pose proof (Bytes.le_bytes_byte 8 v) as Hc. fold c in Hc.
  rewrite (push_same A) by (done || lia || (intros; apply Hv; lia)).
  pose proof (push_bytes_ok A r sp c s Hh Ho Hc ltac:(intros; apply Hv; lia) ltac:(lia) Hsp) as Hp.
  destruct (returns_0_on_error _) as [[?|[sp1 s1]]|]; cbn [fbind pushes] in *; [done| |done]. destruct Hp as [-> Hw].
  apply IH; [apply Hw|apply (uw_owns _ _ _ _ _ _ Hw)|intros; apply Hv; lia|lia|lia].
Qed.

Lemma push_words_m_pusher r : word_pusher (push_words_m (S := S) r) (fun s sp v => push_u64_m s r sp v).
Proof. by split. Qed.

Lemma build_m_eq argv envp s r :
  build_stack_macho argv envp s r =
  finish
    (fbind (push_strings_m r (rev (passed envp)) [] USER_STACK_TOP s) (fun '(ep, sp, s) =>
     fbind (push_strings_m r (rev (passed argv)) [] sp s) (fun '(ap, sp, s) =>
     push_words_m r (pad (Z.of_nat (length (passed argv)) + Z.of_nat (length (passed envp)) + 3) ++ [0] ++ rev ep ++ [0] ++ rev ap ++
       [Z.of_nat (length (passed argv))]) (Z.land sp (2 ^ 64 - 1 - 15)) s))).
Proof.
  unfold build_stack_macho. rewrite !passed_count. f_equal. apply fbind_ext. intros [[ep sp] s1].
  apply fbind_ext. intros [[ap sp2] s2]. exact (vector_pushes _ _ _ _ ep ap _ s2 (push_words_m_pusher r)).
Qed.

Lemma build_m_same A r s argv envp : held s A -> owns user s r A ->
  Forall (Forall is_byte) (elems argv) -> Forall (Forall is_byte) (elems envp) -> 0 < start_sp argv envp ->
  (forall x, start_sp argv envp <= x < USER_STACK_TOP -> user_va x) ->
  build_stack_macho argv envp s r = build_user_stack_vm argv envp s r.
Proof.
  intros Hh Ho Ha He H0 Hv. rewrite build_m_eq, build_eq. f_equal. destruct (start_sp_bounds argv envp) as (_ & B2 & _).
  assert (Hba : Forall (Forall is_byte) (passed argv)) by (by apply Forall_take).
  assert (Hbe : Forall (Forall is_byte) (passed envp)) by (by apply Forall_take).
  set (x := strings_at argv envp) in *. set (F1 := flat (passed argv)). set (F2 := flat (passed envp)).
  assert (Ex : x = USER_STACK_TOP - zlen F2 - zlen F1) by (unfold x, strings_at, strings_of; rewrite zlen_app; fold F1 F2; lia).
  pose proof (zlen_nonneg F1). pose proof (zlen_nonneg F2). pose proof (zlen_nonneg (words (vector_of argv envp))).
  assert (HT : USER_STACK_TOP < 2 ^ 64) by done.
  rewrite (push_strings_same A) by (first [done|fold F2; lia|fold F2; intros; apply Hv; lia]).
  pose proof (push_strings_ok A r (passed envp) [] USER_STACK_TOP s Hh Ho Hbe) as P1. fold F2 in P1.
  specialize (P1 ltac:(intros; apply Hv; lia) ltac:(lia) HT).
  destruct (push_strings r (rev (passed envp)) [] USER_STACK_TOP s) as [[?|[[ep sp1] s1]]|]; cbn [fbind pushes] in *; [done| |done].
  destruct P1 as (-> & -> & W1). pose proof (uw_held _ _ _ _ _ _ W1) as Hh1. pose proof (uw_owns _ _ _ _ _ _ W1) as Ho1.
  rewrite (push_strings_same A) by (first [done|fold F1; lia|fold F1; intros; apply Hv; lia]).
  pose proof (push_strings_ok A r (passed argv) [] (USER_STACK_TOP - zlen F2) s1 Hh1 Ho1 Hba) as P2. fold F1 in P2.
  rewrite <- Ex in P2. specialize (P2 ltac:(intros; apply Hv; lia) ltac:(lia) ltac:(lia)).
  destruct (push_strings r (rev (passed argv)) [] (USER_STACK_TOP - zlen F2) s1) as [[?|[[ap sp2] s2]]|]; cbn [fbind pushes] in *; [done| |done].
  destruct P2 as (-> & -> & W2). rewrite !app_nil_r, align16 by lia.
  assert (El : pad (Z.of_nat (length (passed argv)) + Z.of_nat (length (passed envp)) + 3) ++ [0] ++
     rev (addrs (USER_STACK_TOP - zlen F2) (passed envp)) ++ [0] ++ rev (addrs x (passed argv)) ++ [Z.of_nat (length (passed argv))] =
     rev (vector_of argv envp)) by apply vector_rev.
  rewrite El. assert (Elo : start_sp argv envp = x - x mod 16 - zlen (words (vector_of argv envp))) by done.
  pose proof (Z.mod_pos_bound x 16 ltac:(lia)).
  apply (push_words_same A); [apply W2|apply (uw_owns _ _ _ _ _ _ W2)|intros; apply Hv; lia|lia|lia].
Qed.

(** the Mach-O loader's own stack builder computes, on every address
    space, arguments and environment whose stack stays in the process' part of
    the address space, the same stack pointer and the same memory as the one
    of the ELF loader. *)
Theorem build_stack_macho_same A r s argv envp : held s A -> owns user s r A ->
  Forall (Forall is_byte) (elems argv) -> Forall (Forall is_byte) (elems envp) -> 0 < start_sp argv envp ->
  (forall x, start_sp argv envp <= x < USER_STACK_TOP -> user_va x) ->
  build_stack_macho argv envp s r = build_user_stack_vm argv envp s r.
Proof. apply build_m_same. Qed.

End Same.
End Macho.
