(* ===== verification/MachoThm.v ===== *)
(** * kernel/arch/macho.c: what [macho_load] has loaded

    The load commands of an image, read without any bound ([cmd_off], [scan]),
    are the reference: on images whose command sizes do not make the 32-bit
    sum [off + cmdsize] wrap, the loader stays inside the image, ends, and
    loads what the commands say. *)

From S2P Require Import Prelude Phys PhysInv PhysInit PageAlloc PageTable Region AddrSpace Bytes UserMem UserStack Elf Loader Macho.
From Stdlib Require Import ZArith Lia.
From stdpp Require Import base list gmap numbers.
Open Scope Z_scope.

Module MachoThm.
Import PageAlloc PageTable AddrSpace UserMem UserStack Elf Loader Macho.

(** ** The commands of an image *)

(** [n] bytes at offset [o], as a little-endian number. *)
Definition get (img : list Z) (o n : Z) : Z := field img (Z.to_nat o) (Z.to_nat n).

Definition ncmds (img : list Z) : Z := u32_at img 16.
Definition sizeofcmds (img : list Z) : Z := u32_at img 20.

(** A command by its offset in the command area. *)
Definition c_cmd (img : list Z) (o : Z) : Z := get img (32 + o) 4.
Definition c_size (img : list Z) (o : Z) : Z := get img (32 + o + 4) 4.
Definition c_vmaddr (img : list Z) (o : Z) : Z := get img (32 + o + 24) 8.
Definition c_vmsize (img : list Z) (o : Z) : Z := get img (32 + o + 32) 8.
Definition c_fileoff (img : list Z) (o : Z) : Z := get img (32 + o + 40) 8.
Definition c_filesize (img : list Z) (o : Z) : Z := get img (32 + o + 48) 8.
Definition c_initprot (img : list Z) (o : Z) : Z := get img (32 + o + 60) 4.

(** A segment command that asks for memory. *)
Definition is_segment (img : list Z) (o : Z) : bool :=
  (c_cmd img o =? LC_SEGMENT_64) && (SIZEOF_SEGMENT <=? c_size img o) && negb (c_vmsize img o =? 0) &&
  negb ((c_vmaddr img o =? 0) && (c_filesize img o =? 0)).

(** The offset of command [i], each command following the one before. *)
Fixpoint cmd_off (img : list Z) (i : nat) : Z :=
  match i with O => 0 | Datatypes.S i => cmd_off img i + c_size img (cmd_off img i) end.

(** The entry point, the address of the text and whether it is known, after
    one more command. *)
Definition scan_cmd (img : list Z) (o : Z) (x : Z * Z * bool) : Z * Z * bool :=
  let '(e, t, g) := x in
  if c_cmd img o =? LC_SEGMENT_64 then
    if is_segment img o && negb g && has_flag (c_initprot img o) VM_PROT_EXECUTE then (e, c_vmaddr img o, true) else (e, t, g)
  else if c_cmd img o =? LC_UNIXTHREAD then
    if (SIZEOF_THREAD <=? c_size img o) && (get img (32 + o + 8) 4 =? x86_THREAD_STATE64)
    then (get img (32 + o + 16 + 128) 8, t, g) else (e, t, g)
  else if c_cmd img o =? LC_MAIN then
    if SIZEOF_ENTRY <=? c_size img o then (u64 (t + get img (32 + o + 8) 8), t, g) else (e, t, g)
  else (e, t, g).

Fixpoint scan (img : list Z) (i : nat) : Z * Z * bool :=
  match i with O => (0, 0, false) | Datatypes.S i => scan_cmd img (cmd_off img i) (scan img i) end.

Definition entry_point (img : list Z) : Z := (scan img (Z.to_nat (ncmds img))).1.1.

(** No command size makes the 32-bit sum wrap. *)
Definition no_wrap (img : list Z) : Prop := forall i, Z.of_nat i < ncmds img ->
  cmd_off img i + SIZEOF_LOAD_COMMAND <= sizeofcmds img -> cmd_off img i + c_size img (cmd_off img i) < 2 ^ 32.

Lemma get_bound img o n : Forall is_byte img -> 0 <= n -> 0 <= get img o n < 256 ^ n.
Proof. intros Hb Hn. unfold get. pose proof (field_bound img (Z.to_nat o) (Z.to_nat n) Hb) as H. by rewrite Z2Nat.id in H. Qed.

Lemma fetch_get {S X} `{PageMem S} img o n (k : Z -> X + out S) : 0 <= o -> 0 <= n -> o + n <= zlen img ->
  fetch img o n k = k (get img o n).
Proof. intros. unfold fetch. by rewrite slice_some. Qed.

Definition c_user (img : list Z) (o : Z) : Prop := seg_user (c_vmaddr img o) (c_filesize img o) (c_vmsize img o).
Definition c_pages (img : list Z) (o x : Z) : Prop := seg_pages (c_vmaddr img o) (c_vmsize img o) x.
Definition c_region (img : list Z) (o : Z) : Region.vregion_t :=
  seg_region (seg_base (c_vmaddr img o)) (seg_top (c_vmaddr img o) (c_vmsize img o) - seg_base (c_vmaddr img o))
    (macho_prot (c_initprot img o)).

Definition segs_user (img : list Z) : Prop := forall i, Z.of_nat i < ncmds img ->
  is_segment img (cmd_off img i) = true -> c_user img (cmd_off img i).
Definition m_pages (img : list Z) (x : Z) : Prop := exists i, Z.of_nat i < ncmds img /\
  is_segment img (cmd_off img i) = true /\ c_pages img (cmd_off img i) x.

Section Proofs.
Context {S : Type} `{HM : PageMem S} `{HO : !PageMemOk S}.
Implicit Types (A : list blk) (l : lstate S) (rs : list nat) (m : mstate S).

Definition c_loaded (img : list Z) (o : Z) l : Prop :=
  in_place img (c_vmaddr img o) (c_vmsize img o) (c_fileoff img o) (c_filesize img o) l.

(** The segments of the first [i] commands are in place. *)
Definition c_done (img : list Z) (i : nat) l rs : Prop := forall j, (j < i)%nat ->
  is_segment img (cmd_off img j) = true -> c_loaded img (cmd_off img j) l /\ c_region img (cmd_off img j) ∈ regions l rs.

(** The state at the head of the loop, before command [i]. *)
Definition m_inv (img : list Z) l A rs m : Prop := exists i A' rs',
  idx_i m = Z.of_nat i /\ Z.of_nat i <= ncmds img /\ off m = cmd_off img i /\ 0 <= off m /\
  (entry m, text_vmaddr m, got_text m) = scan img i /\
  grows (m_pages img) l A rs (m_l m) A' rs' /\ c_done img i (m_l m) rs'.

Definition m_out (img : list Z) l A rs (o : out S) : Prop :=
  match o with
  | Ret v l' => exists A' rs', grows (m_pages img) l A rs l' A' rs' /\
      (v = 0 \/ v = entry_point img /\ c_done img (Z.to_nat (ncmds img)) l' rs')
  | _ => False
  end.

Definition m_next (img : list Z) l A rs m (r : mstate S + out S) : Prop :=
  match r with
  | inl m' => m_inv img l A rs m' /\ idx_i m' = idx_i m + 1
  | inr o => m_out img l A rs o
  end.

Lemma refuse_ok img l A rs m : m_inv img l A rs m -> m_next img l A rs m (inr (Ret 0 (m_l m))).
Proof. intros (i & A' & rs' & _ & _ & _ & _ & _ & Hg & _). exists A', rs'. split; [done|by left]. Qed.

(** A command that adds no segment. *)
Lemma next_ok img l A rs m e t g : m_inv img l A rs m -> idx_i m < ncmds img ->
  off m + c_size img (off m) < 2 ^ 32 -> 0 <= c_size img (off m) -> is_segment img (off m) = false ->
  (e, t, g) = scan_cmd img (off m) (entry m, text_vmaddr m, got_text m) ->
  m_next img l A rs m (inl (next_cmd (mkM (m_l m) e t g (off m) (idx_i m)) (c_size img (off m)))).
Proof.
  intros (i & A' & rs' & Hi & _ & Ho & Ho0 & Hs & Hg & Hd) Hlt Hw Hc Hns Hsc. unfold m_next, next_cmd. cbn [m_l entry text_vmaddr got_text off idx_i].
  split; [|done]. exists (Datatypes.S i), A', rs'. cbn [m_l entry text_vmaddr got_text off idx_i cmd_off scan].
  rewrite u32_small by lia. split_and!; [lia|lia|by rewrite <- Ho|lia|by rewrite <- Hs, <- Ho|done|].
  intros j Hj Hsg. destruct (decide (j = i)) as [->|]; [congruence|]. apply Hd; [lia|done].
Qed.

(** A segment command that does nothing. *)
Lemma segment_skip img l A rs m : m_inv img l A rs m -> idx_i m < ncmds img ->
  off m + c_size img (off m) < 2 ^ 32 -> 0 <= c_size img (off m) -> c_cmd img (off m) = LC_SEGMENT_64 ->
  is_segment img (off m) = false -> m_next img l A rs m (inl (next_cmd m (c_size img (off m)))).
Proof.
  intros Hi Hlt Hw Hc Hcmd Hns. apply (next_ok img l A rs m (entry m) (text_vmaddr m) (got_text m)); try done.
  unfold scan_cmd. rewrite Hcmd, Hns. done.
Qed.

(** A segment command: mapped, filled, or refused. *)
Lemma segment_place img l A rs m : byte_img img -> m_inv img l A rs m -> idx_i m < ncmds img ->
  off m + c_size img (off m) < 2 ^ 32 -> 0 <= c_size img (off m) -> c_cmd img (off m) = LC_SEGMENT_64 ->
  is_segment img (off m) = true -> segs_user img -> c_vmaddr img (off m) < 2 ^ 47 ->
  c_fileoff img (off m) + c_filesize img (off m) <= zlen img ->
  m_next img l A rs m
    (match place_segment img (c_vmaddr img (off m)) (c_vmsize img (off m)) (c_fileoff img (off m)) (c_filesize img (off m))
             (macho_prot (c_initprot img (off m))) (m_l m) with
     | inl o => inr o
     | inr l =>
         let m1 := set_m_l m l in
         let m2 := if negb (got_text m1) && has_flag (c_initprot img (off m)) VM_PROT_EXECUTE then set_text m1 (c_vmaddr img (off m)) else m1 in
         inl (next_cmd m2 (c_size img (off m)))
     end).
Proof.
  intros Hb (i & A' & rs' & Hi & _ & Ho & Ho0 & Hs & Hg & Hd) Hlt Hw Hc Hcmd Hsg Hu Hva Hfo.
  assert (Hui : c_user img (off m)) by (rewrite Ho in Hsg |- *; by apply Hu; [lia|]).
  pose proof (proj1 Hb) as Hbb.
  assert (G : forall o n, 0 <= n -> 0 <= get img o n < 256 ^ n) by (intros; by apply get_bound).
  pose proof (place_ok vm_copy_m vm_zero_m img (c_vmaddr img (off m)) (c_vmsize img (off m)) (c_fileoff img (off m))
    (c_filesize img (off m)) (macho_prot (c_initprot img (off m))) (m_l m) A' rs' copier_m zeroer_m Hb) as Hp.
  specialize (Hp ltac:(split; [apply G; lia|done]) ltac:(apply (G _ 8); lia) ltac:(apply G; lia) ltac:(apply G; lia) Hfo Hui (gw_ok _ _ _ _ _ _ _ Hg)).
  change (place_segment img _ _ _ _ _ (m_l m)) with (place vm_copy_m vm_zero_m img (c_vmaddr img (off m)) (c_vmsize img (off m))
    (c_fileoff img (off m)) (c_filesize img (off m)) (macho_prot (c_initprot img (off m))) (m_l m)).
  assert (Hmp : forall x, c_pages img (off m) x -> m_pages img x).
  { intros x Hx. exists i. rewrite <- Ho. split; [lia|done]. }
  destruct (place _ _ _ _ _ _ _ _ _) as [[v l'| |]|l']; cbn [step_ok] in Hp; [|done|done|].
  { destruct Hp as (-> & A2 & rs2 & Hg2). cbn [m_next m_out]. exists A2, rs2. split; [|by left].
    eapply lgrows_trans; [exact Hg|]. eapply grows_weaken; [|exact Hg2]. done. }
  destruct Hp as (A2 & rs2 & Hg2 & Hld & Hap & Hin). cbv zeta. cbn [set_m_l m_l got_text off].
  assert (Hsc : scan img (Datatypes.S i) =
    (entry m, if negb (got_text m) && has_flag (c_initprot img (off m)) VM_PROT_EXECUTE then c_vmaddr img (off m) else text_vmaddr m,
     if negb (got_text m) && has_flag (c_initprot img (off m)) VM_PROT_EXECUTE then true else got_text m)).
  { cbn [scan]. rewrite <- Hs, <- Ho. unfold scan_cmd. rewrite Hcmd, Hsg. cbn [Z.eqb LC_SEGMENT_64 Pos.eqb andb].
    by destruct (negb (got_text m) && _). }
  assert (Hd' : c_done img (Datatypes.S i) l' rs2).
  { intros j Hj Hsj. destruct (decide (j = i)) as [->|Hne]; [rewrite <- Ho; done|].
    destruct (Hd j) as [Hl' Hr']; [lia|done|]. split; [|by apply (gw_regions _ _ _ _ _ _ _ Hg2)].
    eapply (in_place_keep (seg_pages (c_vmaddr img (off m)) (c_vmsize img (off m)))); [exact Hg2|apply Hu; [lia|done]| | | |done].
    - apply G; lia.
    - apply G; lia.
    - intros x Hx Hx'. specialize (Hap _ Hr'). unfold c_region, seg_region, seg_pages in *. simpl in Hap. lia. }
  assert (Hg3 : grows (m_pages img) l A rs l' A2 rs2) by (eapply lgrows_trans; [exact Hg|]; eapply grows_weaken; [|exact Hg2]; done).
  split.
  - exists (Datatypes.S i), A2, rs2. rewrite Hsc. unfold next_cmd.
    destruct (negb (got_text m) && _); cbn [m_l entry text_vmaddr got_text off idx_i set_text set_m_l cmd_off];
      rewrite u32_small by lia; split_and!; try done; try lia; by rewrite <- Ho.
  - unfold next_cmd. by destruct (negb (got_text m) && _).
Qed.

(** What is known of the command at [off m] when it is executed. *)
Record at_cmd (img : list Z) m : Prop := {
  ac_byte : byte_img img;
  ac_lt : idx_i m < ncmds img;
  ac_off : 0 <= off m;
  ac_size : SIZEOF_LOAD_COMMAND <= c_size img (off m);
  ac_wrap : off m + c_size img (off m) < 2 ^ 32;
  ac_in : 32 + off m + c_size img (off m) <= zlen img }.

Lemma do_segment_ok img l A rs m : at_cmd img m -> m_inv img l A rs m -> segs_user img -> c_cmd img (off m) = LC_SEGMENT_64 ->
  m_next img l A rs m (do_segment img (32 + off m) (c_size img (off m)) m).
Proof.
  intros [Hb Hlt Ho Hc Hw Hin] Hi Hu Hcmd. unfold do_segment, SIZEOF_SEGMENT, SIZEOF_LOAD_COMMAND in *.
  assert (Hskip : is_segment img (off m) = false -> m_next img l A rs m (inl (next_cmd m (c_size img (off m)))))
    by (intros; apply segment_skip; (done || lia)).
  assert (Eseg : is_segment img (off m) = (72 <=? c_size img (off m)) && negb (c_vmsize img (off m) =? 0) &&
    negb ((c_vmaddr img (off m) =? 0) && (c_filesize img (off m) =? 0))) by (unfold is_segment; by rewrite Hcmd).
  destruct (Z.ltb_spec (c_size img (off m)) 72) as [|Hs].
  { apply Hskip. rewrite Eseg, (proj2 (Z.leb_gt _ _)) by lia. done. }
  rewrite (proj2 (Z.leb_le _ _)) in Eseg by lia. cbn [andb] in Eseg.
  rewrite fetch_get by lia. fold (c_vmsize img (off m)).
  destruct (c_vmsize img (off m) =? 0); [by apply Hskip|].
  rewrite fetch_get by lia. fold (c_vmaddr img (off m)). rewrite fetch_get by lia. fold (c_filesize img (off m)).
  destruct ((c_vmaddr img (off m) =? 0) && (c_filesize img (off m) =? 0)); [by apply Hskip|].
  destruct (Z.leb_spec 0x0000800000000000 (c_vmaddr img (off m))); [by apply refuse_ok|].
  rewrite fetch_get by lia. fold (c_fileoff img (off m)).
  destruct (Z.ltb_spec (zlen img) (c_fileoff img (off m))); [by apply refuse_ok|].
  destruct (Z.ltb_spec (zlen img - c_fileoff img (off m)) (c_filesize img (off m))); [by apply refuse_ok|].
  rewrite fetch_get by lia. fold (c_initprot img (off m)). apply segment_place; (done || lia).
Qed.

Lemma not_segment img o : c_cmd img o <> LC_SEGMENT_64 -> is_segment img o = false.
Proof. intros H. unfold is_segment. by rewrite (proj2 (Z.eqb_neq _ _)). Qed.

Lemma do_unixthread_ok img l A rs m : at_cmd img m -> m_inv img l A rs m -> c_cmd img (off m) = LC_UNIXTHREAD ->
  m_next img l A rs m (do_unixthread img (32 + off m) (c_size img (off m)) m).
Proof.
  intros [Hb Hlt Ho Hc Hw Hin] Hi Hcmd. unfold do_unixthread, SIZEOF_THREAD, SIZEOF_LOAD_COMMAND in *.
  assert (Hns : is_segment img (off m) = false) by (apply not_segment; by rewrite Hcmd).
  assert (Hsc : scan_cmd img (off m) (entry m, text_vmaddr m, got_text m) =
    if (184 <=? c_size img (off m)) && (get img (32 + off m + 8) 4 =? x86_THREAD_STATE64)
    then (get img (32 + off m + 16 + 128) 8, text_vmaddr m, got_text m) else (entry m, text_vmaddr m, got_text m))
    by (unfold scan_cmd; by rewrite Hcmd).
  destruct (Z.ltb_spec (c_size img (off m)) 184) as [|Hs].
  { rewrite (proj2 (Z.leb_gt _ _)) in Hsc by lia. apply (next_ok img l A rs m (entry m) (text_vmaddr m) (got_text m)); try done; lia. }
  rewrite (proj2 (Z.leb_le _ _)) in Hsc by lia. cbn [andb] in Hsc. rewrite fetch_get by lia.
  destruct (get img (32 + off m + 8) 4 =? x86_THREAD_STATE64).
  - rewrite fetch_get by lia. apply (next_ok img l A rs m (get img (32 + off m + 16 + 128) 8) (text_vmaddr m) (got_text m)); try done; lia.
  - apply (next_ok img l A rs m (entry m) (text_vmaddr m) (got_text m)); try done; lia.
Qed.

Lemma do_main_ok img l A rs m : at_cmd img m -> m_inv img l A rs m -> c_cmd img (off m) = LC_MAIN ->
  m_next img l A rs m (do_main img (32 + off m) (c_size img (off m)) m).
Proof.
  intros [Hb Hlt Ho Hc Hw Hin] Hi Hcmd. unfold do_main, SIZEOF_ENTRY, SIZEOF_LOAD_COMMAND in *.
  assert (Hns : is_segment img (off m) = false) by (apply not_segment; by rewrite Hcmd).
  assert (Hsc : scan_cmd img (off m) (entry m, text_vmaddr m, got_text m) =
    if 24 <=? c_size img (off m) then (u64 (text_vmaddr m + get img (32 + off m + 8) 8), text_vmaddr m, got_text m)
    else (entry m, text_vmaddr m, got_text m)) by (unfold scan_cmd; by rewrite Hcmd).
  destruct (Z.ltb_spec (c_size img (off m)) 24) as [|Hs].
  { rewrite (proj2 (Z.leb_gt _ _)) in Hsc by lia. apply (next_ok img l A rs m (entry m) (text_vmaddr m) (got_text m)); try done; lia. }
  rewrite (proj2 (Z.leb_le _ _)) in Hsc by lia. rewrite fetch_get by lia.
  apply (next_ok img l A rs m (u64 (text_vmaddr m + get img (32 + off m + 8) 8)) (text_vmaddr m) (got_text m)); try done; lia.
Qed.

Lemma macho_round_ok img l A rs m : byte_img img -> no_wrap img -> segs_user img -> 32 + sizeofcmds img <= zlen img ->
  m_inv img l A rs m ->
  match macho_round img (ncmds img) (sizeofcmds img) m with
  | inl m' => m_inv img l A rs m' /\ 0 <= ncmds img - idx_i m' < ncmds img - idx_i m
  | inr o => m_out img l A rs o
  end.
Proof.
  intros Hb Hnw Hu Hsz Hi. pose proof Hi as (i & A' & rs' & Ei & Hle & Eo & Ho & Hs & Hg & Hd).
  unfold macho_round, SIZEOF_MACH_HEADER, SIZEOF_LOAD_COMMAND.
  destruct (Z.ltb_spec (idx_i m) (ncmds img)) as [Hlt|]; cbn [negb].
  2: { cbn [m_out]. exists A', rs'. split; [done|]. right. unfold entry_point.
       replace (Z.to_nat (ncmds img)) with i by lia. rewrite <- Hs. done. }
  destruct (Z.ltb_spec (sizeofcmds img) (off m + 8)); [exact (refuse_ok img l A rs m Hi)|].
  rewrite fetch_get by lia. fold (c_size img (off m)).
  destruct (Z.ltb_spec (c_size img (off m)) 8); [exact (refuse_ok img l A rs m Hi)|].
  assert (Hw : off m + c_size img (off m) < 2 ^ 32).
  { rewrite Eo in *. apply Hnw; [lia|unfold SIZEOF_LOAD_COMMAND; lia]. }
  rewrite u32_small by lia.
  destruct (Z.ltb_spec (sizeofcmds img) (off m + c_size img (off m))); [exact (refuse_ok img l A rs m Hi)|].
  rewrite fetch_get by lia. fold (c_cmd img (off m)).
  assert (Hac : at_cmd img m) by (split; unfold SIZEOF_LOAD_COMMAND; (done || lia)).
  match goal with |- match ?e with inl _ => _ | inr _ => _ end => assert (Hn : m_next img l A rs m e) end.
  { destruct (Z.eqb_spec (c_cmd img (off m)) LC_SEGMENT_64); [by apply do_segment_ok|].
    destruct (Z.eqb_spec (c_cmd img (off m)) LC_UNIXTHREAD); [by apply do_unixthread_ok|].
    destruct (Z.eqb_spec (c_cmd img (off m)) LC_MAIN); [by apply do_main_ok|].
    apply (next_ok img l A rs m (entry m) (text_vmaddr m) (got_text m)); try done; [lia|by apply not_segment|].
    unfold scan_cmd. by rewrite !(proj2 (Z.eqb_neq _ _)). }
  match goal with |- match ?e with inl _ => _ | inr _ => _ end => destruct e as [m'|o] end; [|done].
  destruct Hn as [Hi' Hidx]. split; [done|]. pose proof Hi' as (i' & _ & _ & E' & Hle' & _). lia.
Qed.

Lemma macho_load_ok img l A rs : byte_img img -> no_wrap img -> segs_user img -> lok l A rs ->
  m_out img l A rs (macho_load (Some img) l).
Proof.
  intros Hb Hnw Hu Hl. unfold macho_load.
  assert (Href : m_out img l A rs (Ret 0 l)) by (exists A, rs; split; [by apply lgrows_refl|by left]).
  destruct (zlen img <? SIZEOF_MACH_HEADER); [done|]. destruct (negb _); [done|]. destruct (negb _); [done|].
  fold (ncmds img) (sizeofcmds img).
  destruct (Z.ltb_spec (zlen img) (SIZEOF_MACH_HEADER + sizeofcmds img)); [done|]. unfold SIZEOF_MACH_HEADER in *.
  assert (Hn : 0 <= ncmds img < 2 ^ 32) by apply (field_bound img 16 4 (proj1 Hb)).
  destruct (loop_rule (macho_round img (ncmds img) (sizeofcmds img)) (m_inv img l A rs) (fun m => ncmds img - idx_i m)
    (m_out img l A rs) ROUNDS (mkM l 0 0 false 0 0)) as (o & -> & Ho); [|exists 0%nat, A, rs| |done].
  - intros m. by apply macho_round_ok.
  - cbn [m_l entry text_vmaddr got_text off idx_i]. split_and!; try done; [lia|]. intros j Hj. lia.
  - change (Z.pos ROUNDS) with (2 ^ 64 + 1). cbn [idx_i]. lia.
Qed.


End Proofs.
End MachoThm.
