(* ===== verification/LoadCases.v ===== *)
(** * The program loaders on concrete images

    Small ELF and Mach-O images loaded into an empty address space of the
    machine of AddrWitness, and images on which the loaders do not do what
    they should. *)

From S2P Require Import Prelude Phys PhysInv PhysInit PhysSpec PageAlloc PageTable Region AddrSpace AddrWitness Bytes UserMem UserStack Elf Loader ElfThm Macho MachoThm.
From Stdlib Require Import ZArith Lia.
From stdpp Require Import base list gmap numbers.
Open Scope Z_scope.

Module LoadCases.
Import Phys PhysInv PhysInit PhysSpec PageAlloc PageTable AddrSpace AddrWitness UserMem UserStack Elf Loader ElfThm Macho MachoThm.
Import Bytes(le_bytes).

Definition A0 : list blk := [(R0, 0%nat)].
#[local] Strategy opaque [boot3].
Definition l0 : lstate phys_state_t := mkLd boot3 Region.pool0 m0.

Lemma l0_ok : lok l0 A0 [].
Proof.
  destruct boot3_ok as [Hh Ho]. split; [|exact Hh|exact Ho].
  split; try done; [by exists None|apply NoDup_nil_2|simpl; lia|split; constructor].
Qed.

(** ** ELF images *)

Definition elf_header (entry phnum : Z) : list Z :=
  [0x7f; 0x45; 0x4c; 0x46; 2; 1; 1; 0] ++ replicate 8 0 ++ le_bytes 2 ET_EXEC ++ le_bytes 2 EM_X86_64 ++ le_bytes 4 1 ++
  le_bytes 8 entry ++ le_bytes 8 64 ++ le_bytes 8 0 ++ le_bytes 4 0 ++
  le_bytes 2 64 ++ le_bytes 2 56 ++ le_bytes 2 phnum ++ le_bytes 2 64 ++ le_bytes 2 0 ++ le_bytes 2 0.
Definition elf_load_header (off vaddr filesz memsz : Z) : list Z :=
  le_bytes 4 PT_LOAD ++ le_bytes 4 5 ++ le_bytes 8 off ++ le_bytes 8 vaddr ++ le_bytes 8 vaddr ++
  le_bytes 8 filesz ++ le_bytes 8 memsz ++ le_bytes 8 4096.

(** One segment of four bytes of code and four zero bytes. *)
Definition elf1 : list Z := elf_header 0x400078 1 ++ elf_load_header 120 0x400078 4 8 ++ [1; 2; 3; 4].

Lemma bytes_dec (img : list Z) : forallb (fun b => (0 <=? b) && (b <? 256)) img = true -> zlen img < 2 ^ 63 -> byte_img img.
Proof.
  intros Hb Hl. split; [|done]. apply Forall_forall. intros b Hin. rewrite forallb_forall in Hb. apply Hb in Hin.
  unfold Bytes.is_byte. zbool. lia.
Qed.

Lemma elf1_bytes : byte_img elf1.
Proof. by apply bytes_dec. Qed.

Lemma elf_load_in_bounds_witness : byte_img elf1 /\ elf_load (Some elf1) l0 <> Oob.
Proof. split; [exact elf1_bytes|]. apply (elf_load_in_bounds elf1 l0). exact elf1_bytes. Defined.

Definition eh1 : elf64_ehdr_t := default (ehdr_of []) (ehdr_at elf1 0).
Definition ph1 : elf64_phdr_t := default (phdr_of []) (phdr_at elf1 64).

Lemma elf1_user eh : ehdr_at elf1 0 = Some eh -> image_user elf1 eh.
Proof.
  intros He. assert (E1 : ehdr_at elf1 0 = Some eh1) by (vm_compute; reflexivity).
  assert (eh = eh1) as -> by congruence. intros i ph Hi [Hp _].
  assert (En : e_phnum eh1 = 1) by (vm_compute; reflexivity). assert (i = 0) as -> by lia.
  assert (E2 : phdr_at elf1 (e_phoff eh1 + 0 * e_phentsize eh1) = Some ph1) by (vm_compute; reflexivity).
  assert (ph = ph1) as -> by congruence. split; [vm_compute; discriminate|].
  assert (B : seg_base (p_vaddr ph1) = 0x400000) by (vm_compute; reflexivity).
  assert (T : seg_top (p_vaddr ph1) (p_memsz ph1) = 0x401000) by (vm_compute; reflexivity).
  rewrite B, T. intros x Hx. unfold user_va. lia.
Qed.


(** A segment that holds more bytes in the file than in memory is accepted, and
    its surplus bytes overwrite the segment mapped behind it. *)
Definition elf2 : list Z := elf_header 0x401000 2 ++ elf_load_header 176 0x401000 4 4 ++ elf_load_header 176 0x400ffe 4 2 ++ [1; 2; 3; 4].

Example elf_filesz_overwrites :
  match elf_load (Some elf2) l0 with
  | Ret v l' => v = 0x401000 /\ lbyte l' 0x401000 = Some 3 /\ lbyte l' 0x401001 = Some 4 /\ lbyte l' 0x401002 = Some 3
  | _ => False
  end.
Proof. vm_compute. repeat split. Qed.

(** Only the start of a segment is compared with the end of the user half: the
    region of this one ends in the kernel half. *)
Definition elf3 : list Z := elf_header 0x7ffffffff000 1 ++ elf_load_header 120 0x7ffffffff000 4 8192 ++ [1; 2; 3; 4].

Example elf_segment_leaves_user_half :
  match elf_load (Some elf3) l0 with
  | Ret v l' => v <> 0 /\ map (fun r => (Region.base r, Region.size r)) (regions l' [0%nat]) = [(2 ^ 47 - 4096, 8192)]
  | _ => False
  end.
Proof. vm_compute. split; [discriminate|reflexivity]. Qed.

(** ** The stack *)

Definition top_page : Z * phys_state_t := amm_region_populate boot3 (Some m0) (USER_STACK_TOP - 4096) 4096 3.
Definition argv1 : strs := Some [[0x61; 0x62]; [0x63]].
Definition envp1 : strs := Some [[0x78; 0x3d; 0x79]].

Lemma top_page_ok : exists A, held top_page.2 A /\ owns user top_page.2 R0 A /\
  forall x, USER_STACK_TOP - 4096 <= x < USER_STACK_TOP -> is_Some (walk top_page.2 R0 (idx x)).
Proof.
  destruct boot3_ok as [Hh Ho].
  pose proof (region_populate_ok boot3 A0 m0 (USER_STACK_TOP - 4096) 4096 3 Hh Ho ltac:(vm_compute; discriminate) ltac:(lia)
    ltac:(vm_compute; discriminate) ltac:(intros x Hx; change ((USER_STACK_TOP - 4096) mod PAGE_SIZE) with 0 in Hx;
      unfold USER_STACK_TOP, user_va in *; lia)) as H.
  assert (Hoom : (palloc top_page.2 0).1 <> 0) by (vm_compute; discriminate). unfold top_page in *.
  destruct (amm_region_populate boot3 (Some m0) (USER_STACK_TOP - 4096) 4096 3) as [k s']. cbn [snd] in *. destruct H as (_ & _ & (A' & _ & Hh' & Ho') & _ & _ & [(Hx & _)|Hd]); [|done].
  exists A'. split_and!; [exact Hh'|exact Ho'|]. intros x Hr. apply Hx. lia.
Qed.

Lemma start1 : start_sp argv1 envp1 = USER_STACK_TOP - 64.
Proof. vm_compute. reflexivity. Qed.
Lemma bytes1 : Forall (Forall is_byte) (elems argv1) /\ Forall (Forall is_byte) (elems envp1).
Proof. split; repeat constructor; unfold Bytes.is_byte; lia. Qed.

Lemma build_user_stack_correct_witness : exists sp s', build_user_stack_vm argv1 envp1 top_page.2 R0 = Some (sp, s') /\
  sp mod 16 = 0 /\ process_start s' R0 sp [[0x61; 0x62]; [0x63]] [[0x78; 0x3d; 0x79]].
Proof.
  destruct top_page_ok as (A & Hh & Ho & Hm). destruct bytes1 as [Ba Be].
  destruct (build_user_stack_correct A R0 top_page.2 argv1 envp1 Hh Ho Ba Be) as (sp & s' & E & Hal & _ & _ & _ & _ & Hps & _).
  - vm_compute. discriminate.
  - rewrite start1. intros x Hx. apply Hm. lia.
  - exists sp, s'. split; [exact E|]. split; [exact Hal|exact Hps].
Defined.

Lemma build_stack_macho_same_witness : 0 < start_sp argv1 envp1 /\
  build_stack_macho argv1 envp1 top_page.2 R0 = build_user_stack_vm argv1 envp1 top_page.2 R0.
Proof.
  destruct top_page_ok as (A & Hh & Ho & _). destruct bytes1 as [Ba Be].
  split; [rewrite start1; vm_compute; reflexivity|].
  apply (build_stack_macho_same A R0 top_page.2 argv1 envp1 Hh Ho Ba Be).
  - rewrite start1. vm_compute. reflexivity.
  - rewrite start1. intros x Hx. unfold USER_STACK_TOP, user_va in *. lia.
Defined.

(** ** Mach-O images *)

Definition mach_header (n sz : Z) : list Z :=
  le_bytes 4 MH_MAGIC_64 ++ le_bytes 4 0x1000007 ++ le_bytes 4 3 ++ le_bytes 4 MH_EXECUTE ++
  le_bytes 4 n ++ le_bytes 4 sz ++ le_bytes 4 0 ++ le_bytes 4 0.
Definition segment_cmd (vmaddr vmsize fileoff filesize initprot : Z) : list Z :=
  le_bytes 4 LC_SEGMENT_64 ++ le_bytes 4 72 ++ replicate 16 0 ++ le_bytes 8 vmaddr ++ le_bytes 8 vmsize ++
  le_bytes 8 fileoff ++ le_bytes 8 filesize ++ le_bytes 4 7 ++ le_bytes 4 initprot ++ le_bytes 4 0 ++ le_bytes 4 0.
Definition main_cmd (entryoff : Z) : list Z := le_bytes 4 LC_MAIN ++ le_bytes 4 24 ++ le_bytes 8 entryoff ++ le_bytes 8 0.

Definition mach1 : list Z := mach_header 2 96 ++ segment_cmd 0x400000 8 128 4 5 ++ main_cmd 2 ++ [1; 2; 3; 4].

Lemma mach1_bytes : byte_img mach1.
Proof. by apply bytes_dec. Qed.

Lemma mach1_cmds i : Z.of_nat i < ncmds mach1 -> i = 0%nat \/ i = 1%nat.
Proof. assert (E : ncmds mach1 = 2) by (vm_compute; reflexivity). rewrite E. lia. Qed.

Lemma mach1_wraps : no_wrap mach1.
Proof. intros i Hi _. destruct (mach1_cmds i Hi) as [->| ->]; vm_compute; reflexivity. Qed.

Lemma mach1_user : segs_user mach1.
Proof.
  intros i Hi Hs. destruct (mach1_cmds i Hi) as [->| ->]; [|vm_compute in Hs; discriminate].
  split; [vm_compute; discriminate|].
  assert (B : seg_base (c_vmaddr mach1 (cmd_off mach1 0)) = 0x400000) by (vm_compute; reflexivity).
  assert (T : seg_top (c_vmaddr mach1 (cmd_off mach1 0)) (c_vmsize mach1 (cmd_off mach1 0)) = 0x401000) by (vm_compute; reflexivity).
  rewrite B, T. intros x Hx. unfold user_va. lia.
Qed.


(** The 32-bit sum [off + cmdsize] wraps: a command of eight bytes at the end
    of the image claims nearly 4 GB, passes the check, and its segment fields
    are read behind the image. *)
Definition mach2 : list Z := mach_header 2 16 ++ (le_bytes 4 0 ++ le_bytes 4 8) ++ le_bytes 4 LC_SEGMENT_64 ++ le_bytes 4 (2 ^ 32 - 8).

Example macho_reads_behind_image : byte_img mach2 /\ macho_load (Some mach2) l0 = Oob.
Proof. split; [by apply bytes_dec|]. vm_compute. reflexivity. Qed.

End LoadCases.
