(* ===== verification/Spawn.v ===== *)
(** * kernel/arch: starting a program from a file

    [elf_spawn] and [macho_spawn] read a file, build an address space from it
    and hand a process that runs in it to the scheduler.  They are the same
    function but for the loader, the stack builder and the size of the header
    they expect; [spawn_with] is that function.  What the loaders use of the
    file system and of the state of the memory manager is the class
    [ExecEnv]. *)

From S2P Require Import Prelude Phys PhysInv PhysInit PageAlloc PageTable Region AddrSpace AddrLife Bytes UserMem UserStack Elf Loader Macho RbTree Sched.
From Stdlib Require Import ZArith Lia.
From stdpp Require Import base list gmap numbers.
Open Scope Z_scope.

Module Spawn.
Import PageAlloc PageTable AddrSpace UserMem UserStack Elf Loader Macho Sched.

(** [e] is the environment of the scheduler: it holds the state of the memory
    manager; file operations and the shell's user are read from it. *)
Class ExecEnv (S E : Type) := {
  as_of : E -> as_state S;
  with_as : E -> as_state S -> E;
  vm_addr : nat -> Z;                             (* &g_vmap_pool[i] *)
  vfs_open : E -> list Z -> Z * E;                (* vfs_open(path, VFS_O_READ, NULL) *)
  vfs_read : E -> Z -> Z -> Z * list Z * E;       (* the result code and the bytes read *)
  vfs_close : E -> Z -> E;
  g_shell_uid : E -> Z;
  g_shell_gid : E -> Z }.

Section Ops.
Context {S E : Type} `{PageMem S} `{SchedEnv E} `{!ExecEnv S E}.

Definition IMAGE_MAX : Z := 4 * 1024 * 1024.

(** [while (total < sizeof(buf))]; the buffer up to [total]. *)
Definition read_round (fd : Z) (x : E * list Z) : (E * list Z) + (E * list Z) :=
  let '(e, buf) := x in
  if negb (zlen buf <? IMAGE_MAX) then inr (e, buf)
  else
    let '(rc, bs, e) := vfs_read e fd (IMAGE_MAX - zlen buf) in
    if negb (rc =? 0) || (zlen bs =? 0) then inr (e, buf) else inl (e, buf ++ bs).

Definition read_file (e : E) (fd : Z) : option (E * list Z) := leave (loop (read_round fd) ROUNDS (e, [])).

Definition put_as (s : sched E) (a : as_state S) : sched E := put_env s (with_as (env s) a).

(** [amm_vmap_destroy(vm); return 0;] *)
Definition abandon (s : sched E) (vm : nat) : res (Z * sched E) :=
  match AddrSpace.amm_vmap_destroy (as_of (env s)) (Some vm) with
  | None => Hang
  | Some a => Ok (0, put_as s a)
  end.

(** The address space in slot [vm] as a loader sees it, and back. *)
Definition lview (a : as_state S) (vm : nat) : lstate S :=
  mkLd (pm a) (pool a) (default (Region.mkVmap None 0 0) (g_vmap_pool a !! vm)).
Definition lstore (a : as_state S) (vm : nat) (l : lstate S) : as_state S :=
  mkAS (l_pm l) (l_pool l) (<[vm := l_vm l]> (g_vmap_pool a)) (g_vmap_next a) (g_kernel_cr3 a).

(** The stack area; neither result is looked at. *)
Definition map_stack (l : lstate S) : option (lstate S) :=
  let stack_base := USER_STACK_TOP - USER_STACK_SIZE in
  match Region.amm_region_add (l_pool l) (Some (l_vm l)) stack_base USER_STACK_SIZE (Z.lor PROT_READ PROT_WRITE) RGN_STACK (-1) with
  | Some (_, pool, Some vm) =>
      Some (mkLd (snd (amm_region_populate (l_pm l) (Some vm) stack_base USER_STACK_SIZE (Z.lor PROT_READ PROT_WRITE))) pool vm)
  | _ => None
  end.

(** The fields set before the process is queued. *)
Definition start_pcb (v : pcb_t) (entry initial_rsp cr3 uid gid : Z) : pcb_t :=
  mkPcb (pid v) PROC_READY (sched_class v) (cpu v) (priority v) (base_pri v) (cpu_ns v) (wake_ns v) UINT64_MAX (va_map v)
    (exit_code v) (name v) uid gid (groups v) (ppid v) (sig_pending v) (cwd v) (mmap_bump v) (brk_cur v)
    (kstack v) (kstack_top v) (mkRegs initial_rsp entry 0x202 cr3 0x2B 0x23).

(** From [sched_spawn] on. *)
Definition start_process (s : sched E) (path : list Z) (vm : nat) (entry initial_rsp : Z) : res (Z * sched E) :=
  let! (pid, s) := sched_spawn s (mkArgs path SCHED_BATCH 0 255 (vm_addr vm)) in
  if pid =? 0 then abandon s vm
  else match sched_find s pid with
  | None => abandon s vm
  | Some p =>
      let cr3 := Region.cr3 (l_vm (lview (as_of (env s)) vm)) in
      let s := put_pcb s p (start_pcb (procs s p) entry initial_rsp cr3 (g_shell_uid (env s)) (g_shell_gid (env s))) in
      let! s := sched_enqueue s p in
      Ok (u32 pid, s)
  end.

(** From [amm_vmap_create] on. *)
Definition spawn_image (load : option (list Z) -> lstate S -> out S) (build : strs -> strs -> S -> Z -> option (Z * S))
    (hdr : Z) (s : sched E) (path : list Z) (img : list Z) (argv envp : strs) : res (Z * sched E) :=
  let '(vm, a) := AddrSpace.amm_vmap_create (as_of (env s)) in
  let s := put_as s a in
  match vm with
  | None => Ok (0, s)
  | Some vm =>
      if zlen img <? hdr then abandon s vm
      else match load (Some img) (lview a vm) with
      | Oob => Fault
      | Spin => Hang
      | Ret entry l =>
          let a := lstore a vm l in
          if entry =? 0 then abandon (put_as s a) vm
          else match map_stack l with
          | None => Hang
          | Some l =>
              match build argv envp (l_pm l) (Region.cr3 (l_vm l)) with
              | None => Hang
              | Some (initial_rsp, pm) =>
                  let s := put_as s (lstore a vm (set_l_pm l pm)) in
                  if initial_rsp =? 0 then abandon s vm
                  else start_process s path vm entry initial_rsp
              end
          end
      end
  end.

Definition spawn_with (load : option (list Z) -> lstate S -> out S) (build : strs -> strs -> S -> Z -> option (Z * S))
    (hdr : Z) (s : sched E) (path : list Z) (argv envp : strs) : res (Z * sched E) :=
  let '(fd, e) := vfs_open (env s) path in
  let s := put_env s e in
  if 2 ^ 31 <=? u32 fd then Ok (0, s)
  else match read_file (env s) fd with
  | None => Hang
  | Some (e, img) => spawn_image load build hdr (put_env s (vfs_close e fd)) path img argv envp
  end.

Definition elf_spawn : sched E -> list Z -> strs -> strs -> res (Z * sched E) :=
  spawn_with elf_load build_user_stack_vm SIZEOF_EHDR.
Definition macho_spawn : sched E -> list Z -> strs -> strs -> res (Z * sched E) :=
  spawn_with macho_load build_stack_macho SIZEOF_MACH_HEADER.

End Ops.
End Spawn.
