(* ===== verification/SpawnThm.v ===== *)
(** * kernel/arch: a started program is the file's program

    What the file system and the heap promise to the loaders ([ExecEnvOk]),
    and the composition of file, address space, loader, stack and scheduler: a
    process that [elf_spawn] or [macho_spawn] has started waits in a run
    queue, at the entry point of the image, with its segments and its start-up
    stack in place. *)

From S2P Require Import Prelude Phys PhysInv PhysInit PageAlloc PageTable Region AddrSpace AddrLife AddrDestroy Bytes UserMem UserStack Elf Loader ElfThm Macho MachoThm RbTree RbShape RbInsert Sched SchedQueue SchedInv SchedProc Spawn.
From Stdlib Require Import ZArith Lia.
From stdpp Require Import base list gmap numbers.
Open Scope Z_scope.

Module SpawnThm.
Import RbInsert(pq_insert).
Import PageAlloc PageTable AddrSpace AddrLife UserMem UserStack Elf Loader ElfThm Macho MachoThm Sched SchedQueue SchedInv SchedProc Spawn.

(** Memory from which an address space can be created. *)
Record space_ok {S} `{PageMemOk S} (a : as_state S) (A : list blk) : Prop := {
  so_held : held (pm a) A;
  so_low : kernel_low (pm a) A (g_kernel_cr3 a);
  so_pool : (Region.g_region_next (pool a) <= Region.MAX_REGIONS)%nat }.

(** A call that takes memory, but touches no block that is held. *)
Definition as_keeps {S} `{PageMemOk S} (a a' : as_state S) : Prop :=
  g_vmap_pool a' = g_vmap_pool a /\ pool a' = pool a /\
  forall A, held (pm a) A -> exists A', ext [] (pm a) A (pm a') A'.

Class ExecEnvOk (S E : Type) `{PageMemOk S} `{SchedEnv E} `{!ExecEnv S E} := {
  as_with : forall e (a : as_state S), as_of (with_as e a) = a;
  vm_addr_nonzero : forall i, vm_addr i <> 0;
  vfs_open_space : forall e p A, space_ok (as_of e) A -> exists A', space_ok (as_of (vfs_open e p).2) A';
  vfs_read_space : forall e fd n A, space_ok (as_of e) A -> exists A', space_ok (as_of (vfs_read e fd n).2) A';
  vfs_close_space : forall e fd A, space_ok (as_of e) A -> exists A', space_ok (as_of (vfs_close e fd)) A';
  vfs_read_bytes : forall e fd n, Forall is_byte (vfs_read e fd n).1.2 /\ zlen (vfs_read e fd n).1.2 <= Z.max 0 n;
  kmalloc_keeps : forall e n, as_keeps (as_of e) (as_of (Sched.kmalloc e n).2);
  inherit_keeps : forall e p q, as_keeps (as_of e) (as_of (Sched.vfs_fd_inherit e p q)) }.

Section Proofs.
Context {S E : Type} `{HM : PageMem S} `{HO : !PageMemOk S} `{HE : SchedEnv E} `{HX : !ExecEnv S E} `{HL : !ExecEnvOk S E}.
Implicit Types (A : list blk) (rs : list nat).

Lemma as_keeps_refl (a : as_state S) : as_keeps a a.
Proof. split_and!; [done|done|]. intros A Hh. exists A. by apply ext_refl. Qed.

Lemma as_keeps_trans (a b c : as_state S) : as_keeps a b -> as_keeps b c -> as_keeps a c.
Proof.
  intros (H1 & H2 & H3) (K1 & K2 & K3). split_and!; [congruence|congruence|]. intros A Hh.
  destruct (H3 A Hh) as [A1 X1]. destruct (K3 A1 (ex_held _ _ _ _ _ X1)) as [A2 X2]. exists A2. by eapply ext_trans.
Qed.

(** ** Reading the file *)

Lemma read_image_ok e fd A : space_ok (as_of e) A ->
  exists e' img A', read_file e fd = Some (e', img) /\ space_ok (as_of e') A' /\ byte_img img.
Proof.
  intros Hs. unfold read_file.
  destruct (loop_rule (read_round fd) (fun x => (exists A, space_ok (as_of x.1) A) /\ Forall is_byte x.2 /\ zlen x.2 <= IMAGE_MAX)
    (fun x => IMAGE_MAX - zlen x.2) (fun x => (exists A, space_ok (as_of x.1) A) /\ byte_img x.2) ROUNDS (e, [])) as ([e' img] & -> & [A' Ha] & Hb).
  - intros [e1 buf] ([A1 H1] & H2 & H3). cbn [fst snd] in *. unfold read_round.
    assert (Hi : byte_img buf) by (split; [done|unfold IMAGE_MAX in *; lia]).
    destruct (Z.ltb_spec (zlen buf) IMAGE_MAX); cbn [negb]; [|eauto].
    destruct (vfs_read_space e1 fd (IMAGE_MAX - zlen buf) A1 H1) as [A2 K1].
    destruct (vfs_read_bytes e1 fd (IMAGE_MAX - zlen buf)) as [K2 K3].
    destruct (vfs_read e1 fd (IMAGE_MAX - zlen buf)) as [[rc bs] e2]. cbn [fst snd] in *.
    destruct (negb (rc =? 0)); cbn [orb]; [eauto|]. destruct (Z.eqb_spec (zlen bs) 0); [eauto|]. cbn [fst snd].
    pose proof (zlen_nonneg bs). rewrite zlen_app. split; [|lia]. split_and!; [eauto|by apply Forall_app|lia].
  - cbn [fst snd]. split_and!; [eauto|constructor|vm_compute; discriminate].
  - vm_compute. reflexivity.
  - cbn [fst snd] in *. by exists e', img, A'.
Qed.

(** ** The address space *)

(** The created space is empty. *)
Lemma create_lok (a : as_state S) A vm a' : space_ok a A -> AddrSpace.amm_vmap_create a = (Some vm, a') ->
  exists A', lok (lview a' vm) A' [] /\ is_Some (g_vmap_pool a' !! vm).
Proof.
  intros [Hh Hk Hp] Ec. pose proof (vmap_create_ok a A Hh Hk) as H. rewrite Ec in H.
  destruct H as (_ & _ & A' & r & _ & Hh' & Hv & Ho & _). exists A'. split; [|by rewrite Hv].
  assert (Epool : pool a' = pool a).
  { unfold AddrSpace.amm_vmap_create in Ec. destruct (MAX_VMAPS <=? _)%nat; [done|]. cbn [pm] in Ec.
    destruct (palloc (pm a) 0) as [p1 s1]. destruct (p1 =? 0); [done|]. destruct (palloc _ 0) as [p2 s2].
    destruct (palloc _ 0) as [p3 s3]. destruct (_ || _); [done|]. injection Ec as _ <-. done. }
  unfold lview. rewrite Hv. cbn [default]. split; [|done|done]. cbn [l_pool l_vm]. rewrite Epool.
  split; [by exists None|apply NoDup_nil_2|by constructor|done|split; constructor|done].
Qed.

(** Giving up destroys the space and leaves the scheduler alone. *)
Lemma abandon_ok (s : sched E) vm A rs : lok (lview (as_of (env s)) vm) A rs -> is_Some (g_vmap_pool (as_of (env s)) !! vm) ->
  exists e, abandon s vm = Ok (0, put_env s e).
Proof.
  intros [_ Hh Ho] [m Hm]. unfold abandon, lview, root in *. rewrite Hm in Ho. cbn [default l_vm l_pm] in *.
  destruct (AddrDestroy.vmap_destroy_ok (as_of (env s)) A vm m Hh Hm Ho) as (a' & _ & _ & -> & _). by eexists.
Qed.

Lemma lview_lstore (a : as_state S) vm l : lview (lstore a vm l) vm = l.
Proof. unfold lview, lstore. cbn [pm pool g_vmap_pool]. rewrite lookup_insert_eq. by destruct l. Qed.

Lemma lstore_vm (a : as_state S) vm l : is_Some (g_vmap_pool (lstore a vm l) !! vm).
Proof. unfold lstore. cbn [g_vmap_pool]. by rewrite lookup_insert_eq. Qed.
Lemma as_put (s : sched E) (a : as_state S) : as_of (env (put_as s a)) = a.
Proof. unfold put_as. cbn [env put_env]. apply as_with. Qed.

(** Mapping the stack keeps everything. *)
Lemma map_stack_ok (l : lstate S) A rs : lok l A rs ->
  exists l' A' rs', map_stack l = Some l' /\ grows (fun _ => False) l A rs l' A' rs'.
Proof.
  intros Hok. unfold map_stack. set (b := USER_STACK_TOP - USER_STACK_SIZE). set (pr := Z.lor PROT_READ PROT_WRITE).
  assert (Hv : forall x, b <= x < b + USER_STACK_SIZE -> user_va x) by (intros x Hx; apply stack_user; unfold b in Hx; lia).
  assert (Hb : 0 <= b /\ 0 < USER_STACK_SIZE /\ b + USER_STACK_SIZE <= 2 ^ 47 /\ b mod PAGE_SIZE = 0)
    by (vm_compute; intuition discriminate).
  destruct Hb as (B1 & B2 & B3 & B4). clearbody b.
  destruct (region_step l A rs b USER_STACK_SIZE pr RGN_STACK Hok B1 B2 B3) as [->|(pool & vm & rs' & -> & Hok1 & Hc & _ & Hsub & _)].
  - destruct (populate_grows (fun _ => False) l A rs b USER_STACK_SIZE pr Hok B1 B2 B3 B4 Hv) as [A' Hg].
    eexists _, A', rs. split; [done|]. exact Hg.
  - pose proof (region_grows (fun _ => False) l A rs pool vm rs' Hok Hok1 Hc Hsub) as Hg1.
    destruct (populate_grows (fun _ => False) _ A rs' b USER_STACK_SIZE pr Hok1 B1 B2 B3 B4 Hv) as [A' Hg2].
    eexists _, A', rs'. split; [done|]. eapply lgrows_trans; [exact Hg1|exact Hg2].
Qed.

(** Calls that keep the held blocks keep the process. *)
Lemma keeps_lok (a a' : as_state S) vm A rs : as_keeps a a' -> lok (lview a vm) A rs ->
  exists A', lok (lview a' vm) A' rs /\ root (lview a' vm) = root (lview a vm) /\
    forall x, user_va x -> lbyte (lview a' vm) x = lbyte (lview a vm) x.
Proof.
  intros (H1 & H2 & H3) [Hv Hh Ho]. destruct (H3 A Hh) as [A' X]. exists A'.
  assert (Er : root (lview a' vm) = root (lview a vm)) by (unfold root, lview; by rewrite H1).
  assert (He : forall q j, (q, 0%nat) ∈ A -> 0 <= j < 512 -> ent (pm a') q j = ent (pm a) q j).
  { intros q j Hq Hj. apply (ext_ent [] (pm a) A (pm a') A' q j X Hh Hq); [apply not_elem_of_nil|done]. }
  assert (Hw : forall rho, user rho -> walk (pm a') (root (lview a vm)) rho = walk (pm a) (root (lview a vm)) rho)
    by (apply (walk_agree user _ _ _ A); [apply user_domain|done|done]).
  split_and!; [|done|].
  - split; [unfold lview in *; cbn [l_pool l_vm] in *; by rewrite H1, H2|apply X|]. rewrite Er.
    apply (owns_agree user (pm a) _ _ A); [apply user_domain|done|apply X|done].
  - intros x Hx. unfold lbyte. rewrite Er. cbn [lview l_pm]. specialize (Hw (idx x) (user_va_path x Hx)).
    destruct (walk (pm a) (root (lview a vm)) (idx x)) as [p|] eqn:Ew; [|unfold ubyte; by rewrite Hw, Ew].
    apply (ubyte_ent _ _ A _ _ p); [done| |apply X|done|by rewrite Hw|].
    + by apply (ow_held _ _ _ _ Ho (idx x)); [apply user_va_path|].
    + intros j Hj. apply He; [|done]. by apply (ow_held _ _ _ _ Ho (idx x)); [apply user_va_path|].
Qed.

(** ** A program and its loader *)

Section Program.
Variables (load : option (list Z) -> lstate S -> out S) (build : strs -> strs -> S -> Z -> option (Z * S)).
Variables (hdr : Z) (img : list Z) (argv envp : strs).
Variables (P : Z -> Prop) (G : Z -> lstate S -> Prop).

(** The loader works on the addresses [P], outside the stack area; [G v l]:
    the program with entry point [v] is in place in [l], which is a matter of
    the bytes at [P]. *)
Hypothesis load_ok : forall l A rs, lok l A rs -> exists v l' A' rs', load (Some img) l = Ret v l' /\
  grows P l A rs l' A' rs' /\ (v <> 0 -> G v l').
Hypothesis G_bytes : forall v l l', G v l ->
  (forall x, P x -> user_va x -> is_Some (lbyte l x) -> lbyte l' x = lbyte l x) -> G v l'.
Hypothesis P_below : forall x, P x -> ~ (USER_STACK_TOP - USER_STACK_SIZE < x < USER_STACK_TOP).
Hypothesis build_same : forall s A r, held s A -> owns user s r A -> build argv envp s r = build_user_stack_vm argv envp s r.
Hypothesis args_bytes : Forall (Forall is_byte) (elems argv) /\ Forall (Forall is_byte) (elems envp).
Hypothesis args_fit : fits argv envp.

(** The program, ready to run in the address space of slot [vm]. *)
Definition ready (a : as_state S) (vm : nat) (entry rsp : Z) : Prop :=
  let l := lview a vm in
  G entry l /\ process_start (l_pm l) (root l) rsp (passed argv) (passed envp) /\ rsp mod 16 = 0 /\
  is_Some (g_vmap_pool a !! vm) /\ exists A rs, lok l A rs.

Lemma ready_keeps (a a' : as_state S) vm entry rsp : as_keeps a a' -> ready a vm entry rsp -> ready a' vm entry rsp.
Proof.
  intros Hk (H1 & H2 & Hal & H3 & A & rs & Hl). destruct (keeps_lok a a' vm A rs Hk Hl) as (A' & Hl' & Er & Hb).
  split_and!; [| |done|by rewrite (proj1 Hk)|by exists A', rs].
  - eapply G_bytes; [exact H1|]. intros x _ Hx _. by apply Hb.
  - eapply process_start_ext; [|exact H2]. intros x Hx. apply Hb. apply stack_user. lia.
Qed.

(** Everything up to the scheduler: either the program is refused and its
    address space destroyed, or it is ready. *)
Lemma spawn_image_ok (s : sched E) path A : space_ok (as_of (env s)) A ->
  (exists e, spawn_image load build hdr s path img argv envp = Ok (0, put_env s e)) \/
  exists e vm entry rsp, spawn_image load build hdr s path img argv envp = start_process (put_env s e) path vm entry rsp /\
    entry <> 0 /\ rsp <> 0 /\ ready (as_of e) vm entry rsp.
Proof.
  intros Hs. unfold spawn_image. destruct (AddrSpace.amm_vmap_create (as_of (env s))) as [[vm|] a] eqn:Ec; [|left; by eexists].
  destruct (create_lok _ A vm a Hs Ec) as (A1 & Hl1 & Hm1).
  assert (Hgu : forall s1 A rs, lok (lview (as_of (env s1)) vm) A rs -> is_Some (g_vmap_pool (as_of (env s1)) !! vm) ->
    (exists e1, s1 = put_env s e1) -> exists e, abandon s1 vm = Ok (0, put_env s e)).
  { intros s1 A0 rs0 Hl Hm [e1 ->]. destruct (abandon_ok (put_env s e1) vm A0 rs0 Hl Hm) as [e ->]. by exists e. }
  destruct (zlen img <? hdr).
  { left. eapply (Hgu _ A1 []); [by rewrite as_put|by rewrite as_put|by eexists]. }
  destruct (load_ok (lview a vm) A1 [] Hl1) as (v & l & A2 & rs2 & -> & Hg & HG).
  destruct (Z.eqb_spec v 0) as [->|Hv].
  { left. eapply (Hgu _ A2 rs2); [|rewrite as_put; apply lstore_vm|by eexists].
    rewrite as_put, lview_lstore. apply Hg. }
  specialize (HG Hv). destruct (map_stack_ok l A2 rs2 (gw_ok _ _ _ _ _ _ _ Hg)) as (l3 & A3 & rs3 & -> & Hg3).
  pose proof (gw_ok _ _ _ _ _ _ _ Hg3) as Hl3.
  change (Region.cr3 (l_vm l3)) with (root l3). rewrite (build_same (l_pm l3) A3) by apply Hl3.
  destruct (build_result A3 (root l3) (l_pm l3) argv envp (lo_held _ _ _ Hl3) (lo_owns _ _ _ Hl3) (proj1 args_bytes) (proj2 args_bytes) args_fit)
    as (rsp & pm' & -> & Hk & Hres).
  assert (Hl4 : lok (set_l_pm l3 pm') A3 rs3) by (split; [apply Hl3|apply Hk|apply (k_owns _ _ _ _ Hk)]).
  set (a4 := lstore (lstore a vm l) vm (set_l_pm l3 pm')).
  destruct (Z.eqb_spec rsp 0) as [->|Hr].
  { left. eapply (Hgu _ A3 rs3); [|rewrite as_put; apply lstore_vm|by eexists].
    rewrite as_put. unfold a4. rewrite lview_lstore. done. }
  right. destruct Hres as [[? _]|(Ersp & Hps & Hfr)]; [done|].
  eexists _, vm, v, rsp. split; [reflexivity|]. split_and!; [done|done|]. unfold ready. rewrite as_with. unfold a4. rewrite lview_lstore.
  split_and!; [|done| |apply lstore_vm|by exists A3, rs3].
  - eapply G_bytes; [exact HG|]. intros x HP Hx Hsm. unfold lbyte at 1. cbn [set_l_pm l_pm].
    change (root (set_l_pm l3 pm')) with (root l3).
    rewrite Hfr; [exact (gw_byte _ _ _ _ _ _ _ Hg3 x Hx (fun f => f) Hsm)|done|]. pose proof (P_below x HP).
    pose proof (fits_bounds argv envp args_fit). subst rsp. lia.
  - subst rsp. apply start_sp_bounds.
Qed.

(** ** The process *)

Lemma enqueue_env (s : sched E) p s' : sched_enqueue s p = Ok s' -> env s' = env s.
Proof.
  unfold sched_enqueue, spin_lock_rq, rq_insert. cbv zeta. destruct (_ =? 0); cbn [rbind]; [|done].
  destruct (opt _) as [t| |]; cbn [rbind]; [|done|done]. by intros [= <-].
Qed.

Lemma updQ_queued f k Q i c p : queued (updQ Q i c (pq_insert f k p (Q i c))) p /\
  forall x, x <> p -> queued (updQ Q i c (pq_insert f k p (Q i c))) x <-> queued Q x.
Proof.
  split; [exists i, c; rewrite updQ_eq; apply pq_insert_elem; by left|].
  intros x Hx. split; intros (j & d & Hj).
  - destruct (decide (j = i /\ d = c)) as [[-> ->]|Hne].
    + rewrite updQ_eq in Hj. apply pq_insert_elem in Hj as [|]; [done|]. by exists i, c.
    + rewrite updQ_ne in Hj by done. by exists j, d.
  - exists j, d. destruct (decide (j = i /\ d = c)) as [[-> ->]|Hne].
    + rewrite updQ_eq. apply pq_insert_elem. by right.
    + by rewrite updQ_ne.
Qed.

(** The scheduler's state when a program is started. *)
Record sched_ready (s : sched E) Q : Prop := {
  sr_inv : sched_inv s Q;
  sr_cur : cur_live s;
  sr_table : g_proc_table_lock s = 0;
  sr_rq : forall i, lock (g_runq s i) = 0;
  sr_next : 0 < g_next_pid s < MAX_PROCS;
  sr_count : 0 <= g_proc_count s }.

(** The started process [p]. *)
Record started (s s' : sched E) Q (p : pcb_ref) (vm : nat) (entry rsp : Z) : Prop := {
  st_regs : regs (procs s' p) = mkRegs rsp entry 0x202 (root (lview (as_of (env s')) vm)) 0x2B 0x23;
  st_map : va_map (procs s' p) = vm_addr vm;
  st_state : state (procs s' p) = PROC_READY;
  st_new : ~ queued Q p;
  st_queued : exists Q', sched_inv s' Q' /\ queued Q' p /\ forall x, x <> p -> queued Q' x <-> queued Q x;
  st_ready : ready (as_of (env s')) vm entry rsp;
  st_others : forall x, x <> p -> procs s' x = procs s x }.

Lemma start_process_ok (s : sched E) Q path vm entry rsp : sched_ready s Q -> ready (as_of (env s)) vm entry rsp ->
  exists v s', start_process s path vm entry rsp = Ok (v, s') /\
    (v = 0 /\ sched_inv s' Q \/ 0 < v < MAX_PROCS /\ started s s' Q (Proc v) vm entry rsp).
Proof.
  intros [Hinv Hcur Htl Hrq Hn Hc] Hready. unfold start_process.
  set (a := mkArgs path SCHED_BATCH 0 255 (vm_addr vm)).
  assert (Ha : a_va_map a <> 0) by apply vm_addr_nonzero.
  destruct (sched_spawn_ok s Q a Hinv Hcur Htl Hn Hc) as (r & s1 & Es & Hinv1 & Htl1 & Hres). rewrite Es. cbn [rbind].
  destruct (sched_spawn_frame s a r s1 Es) as (Eq & Ecpu & Hva).
  assert (Hk : as_keeps (as_of (env s)) (as_of (env s1))).
  { apply (sched_spawn_env (fun e e' => as_keeps (as_of e) (as_of e')) s a r s1); [|intros e f g; apply as_keeps_trans|..|done|done].
    - intros e. apply as_keeps_refl.
    - intros e p q. apply inherit_keeps.
    - intros e n. apply kmalloc_keeps. }
  pose proof (ready_keeps _ _ _ _ _ Hk Hready) as Hready1. pose proof Hready1 as (_ & _ & _ & Hm1 & A & rs & Hl1).
  destruct (abandon_ok s1 vm A rs Hl1 Hm1) as [e1 Eg].
  assert (Hgu : exists v s', abandon s1 vm = Ok (v, s') /\
    (v = 0 /\ sched_inv s' Q \/ 0 < v < MAX_PROCS /\ started s s' Q (Proc v) vm entry rsp)).
  { exists 0, (put_env s1 e1). split; [done|]. left. split; [done|]. by apply (inv_frame s1). }
  destruct (Z.eqb_spec r 0) as [|Hr0]; [done|]. destruct Hres as [[? _]|(Hr & _ & Hbusy & _ & Hsp & Hoth & Hfind)]; [done|].
  destruct (Z_lt_le_dec r MAX_PROCS) as [Hlt|Hge].
  2: { unfold sched_find. rewrite (proj2 (Z.eqb_neq r 0)), (proj2 (Z.leb_le MAX_PROCS r)) by lia. done. }
  rewrite (Hfind Hlt). assert (Em : r mod MAX_PROCS = r) by (apply Z.mod_small; lia). rewrite Em in *.
  set (p := Proc r) in *. set (cr := Region.cr3 (l_vm (lview (as_of (env s1)) vm))).
  set (v := start_pcb (procs s1 p) entry rsp cr (g_shell_uid (env s1)) (g_shell_gid (env s1))).
  assert (Hnq : ~ queued Q p) by (pose proof (free_unqueued s Q r Hinv Hbusy) as Hf; by rewrite Em in Hf).
  set (s2 := put_pcb s1 p v).
  assert (Hinv2 : sched_inv s2 Q).
  { revert Hinv1. apply inv_frame; [done|done|done|]. intros x Hx. assert (x <> p) by (intros ->; done). unfold s2. by rewrite put_pcb_ne. }
  assert (Hp2 : procs s2 p = v) by (unfold s2; by rewrite put_pcb_eq).
  assert (Hcpu : 0 <= cpu (procs s2 p)).
  { rewrite Hp2. cbn [v start_pcb cpu]. rewrite (sp_cpu _ _ _ _ Hsp). cbn [a a_cpu_affinity]. rewrite Z.eqb_refl. by apply Z.mod_pos_bound. }
  destruct (sched_enqueue_ok s2 Q p Hinv2) as (s3 & Ee & Hinv3 & Hp3 & Ho3 & _); [unfold p, valid; lia|done|
    rewrite Hp2; cbn [v start_pcb pid]; rewrite (sp_pid _ _ _ _ Hsp); lia|done|change (g_runq s2) with (g_runq s1); by rewrite Eq|].
  assert (Henv : env s3 = env s1) by (apply (enqueue_env s2 p s3 Ee)).
  exists r, s3. rewrite Ee. cbn [rbind]. split; [do 2 f_equal; apply u32_small; unfold MAX_PROCS in *; lia|].
  right. split; [lia|]. unfold enqueued in Hp3. fold p.
  split.
  - rewrite Hp3, Henv, Hp2. done.
  - rewrite Hp3, Hp2. cbn. by apply Hva.
  - by rewrite Hp3.
  - done.
  - eexists. split; [exact Hinv3|]. apply updQ_queued.
  - by rewrite Henv.
  - intros x Hx. rewrite Ho3 by done. unfold s2. rewrite put_pcb_ne by done. by apply Hoth.
Qed.

End Program.

(** ** The two programs *)

(** The file at [path], as the loaders read it. *)
Definition file_image (s : sched E) (path img : list Z) : Prop :=
  exists e, read_file (vfs_open (env s) path).2 (vfs_open (env s) path).1 = Some (e, img).

Lemma ready_env (s : sched E) Q e : sched_ready s Q -> sched_ready (put_env s e) Q.
Proof. intros [H1 H2 H3 H4 H5 H6]. split; try done. by apply (inv_frame s). Qed.

(** The whole call, for a loader that is correct on the image of the file. *)
Lemma spawn_with_ok load build hdr (s : sched E) Q A path argv envp (PG : list Z -> (Z -> Prop) * (Z -> lstate S -> Prop)) :
  sched_ready s Q -> space_ok (as_of (env s)) A ->
  (forall img, byte_img img -> file_image s path img ->
     (forall l A rs, lok l A rs -> exists v l' A' rs', load (Some img) l = Ret v l' /\
        grows (PG img).1 l A rs l' A' rs' /\ (v <> 0 -> (PG img).2 v l')) /\
     (forall v l l', (PG img).2 v l ->
        (forall x, (PG img).1 x -> user_va x -> is_Some (lbyte l x) -> lbyte l' x = lbyte l x) -> (PG img).2 v l') /\
     (forall x, (PG img).1 x -> ~ (USER_STACK_TOP - USER_STACK_SIZE < x < USER_STACK_TOP))) ->
  (forall s A r, held s A -> owns user s r A -> build argv envp s r = build_user_stack_vm argv envp s r) ->
  Forall (Forall is_byte) (elems argv) /\ Forall (Forall is_byte) (elems envp) -> fits argv envp ->
  exists v s', spawn_with load build hdr s path argv envp = Ok (v, s') /\
    (v = 0 /\ sched_inv s' Q \/
     0 < v < MAX_PROCS /\ exists img vm entry rsp, file_image s path img /\
       started argv envp (PG img).2 s s' Q (Proc v) vm entry rsp).
Proof.
  intros Hs Ha Hload Hbuild Hargs Hfit. unfold spawn_with, file_image in *.
  destruct (vfs_open_space (env s) path A Ha) as [A1 Ha1]. destruct (vfs_open (env s) path) as [fd e1]. cbn [fst snd] in *.
  assert (Hz : forall e, sched_inv (put_env s e) Q) by (intros e; by apply (inv_frame s); [..|apply Hs]).
  destruct (2 ^ 31 <=? u32 fd); [exists 0, (put_env s e1); split; [done|by left]|]. cbn [env put_env].
  destruct (read_image_ok e1 fd A1 Ha1) as (e2 & img & A2 & Er & Ha2 & Hb). rewrite Er.
  destruct (vfs_close_space e2 fd A2 Ha2) as [A3 Ha3].
  destruct (Hload img Hb (ex_intro _ e2 Er)) as (L1 & L2 & L3).
  set (s1 := put_env (put_env s e1) (vfs_close e2 fd)).
  destruct (spawn_image_ok load build hdr img argv envp (PG img).1 (PG img).2 L1 L2 L3 Hbuild Hargs Hfit s1 path A3 Ha3)
    as [[e3 ->]|(e3 & vm & entry & rsp & -> & _ & _ & Hr)].
  { exists 0, (put_env s e3). split; [done|by left]. }
  destruct (start_process_ok argv envp (PG img).1 (PG img).2 L2 (put_env s1 e3) Q path vm entry rsp) as (v & s' & -> & Hres);
    [apply ready_env, ready_env, ready_env, Hs|done|].
  exists v, s'. split; [done|]. destruct Hres as [Hres|[Hv Hst]]; [by left|right]. split; [done|]. exists img, vm, entry, rsp.
  split; [by exists e2|]. destruct Hst as [t1 t2 t3 t4 t5 t6 t7]. by split.
Qed.

(** An ELF program in place. *)
Definition elf_program (img : list Z) (v : Z) (l : lstate S) : Prop := exists eh,
  ehdr_at img 0 = Some eh /\ header_ok (zlen img) eh = true /\ v = e_entry eh /\
  forall i ph, 0 <= i < e_phnum eh -> load_at img eh i ph -> loaded img ph l.

(** Segments in the process' part of the address space and off the stack. *)
Definition elf_placed (img : list Z) : Prop := forall eh, ehdr_at img 0 = Some eh -> image_user img eh /\
  forall x, any_page img eh x -> ~ (USER_STACK_TOP - USER_STACK_SIZE < x < USER_STACK_TOP).


(** A Mach-O program in place. *)
Definition macho_program (img : list Z) (v : Z) (l : lstate S) : Prop := v = entry_point img /\
  forall i, Z.of_nat i < ncmds img -> is_segment img (cmd_off img i) = true -> c_loaded img (cmd_off img i) l.

Definition macho_placed (img : list Z) : Prop := no_wrap img /\ segs_user img /\
  forall x, m_pages img x -> ~ (USER_STACK_TOP - USER_STACK_SIZE < x < USER_STACK_TOP).

(** The same for [macho_spawn], on files whose commands do not wrap. *)
Theorem macho_spawn_correct (s : sched E) Q A path argv envp :
  sched_ready s Q -> space_ok (as_of (env s)) A -> (forall img, file_image s path img -> macho_placed img) ->
  Forall (Forall is_byte) (elems argv) -> Forall (Forall is_byte) (elems envp) -> fits argv envp ->
  exists v s', macho_spawn s path argv envp = Ok (v, s') /\
    (v = 0 /\ sched_inv s' Q \/
     0 < v < MAX_PROCS /\ exists img vm entry rsp, file_image s path img /\
       started argv envp (macho_program img) s s' Q (Proc v) vm entry rsp).
Proof.
  intros Hs Ha Hpl H1 H2 Hf. pose proof (fits_bounds argv envp Hf) as Hfb.
  apply (spawn_with_ok macho_load build_stack_macho SIZEOF_MACH_HEADER s Q A path argv envp
    (fun img => (m_pages img, macho_program img))); try done.
  2: { intros s0 A0 r Hh Ho. apply (build_m_same A0); try done; [unfold USER_STACK_TOP, USER_STACK_SIZE in *; lia|].
       intros x Hx. apply stack_user. lia. }
  intros img Hb Hfi. destruct (Hpl img Hfi) as (Hnw & Hu & Hst). cbn [fst snd]. split_and!; [| |done].
  - intros l A0 rs Hl. pose proof (macho_load_ok img l A0 rs Hb Hnw Hu Hl) as Ho.
    destruct (macho_load (Some img) l) as [v l'| |]; [|done|done]. destruct Ho as (A' & rs' & Hg & Hres).
    exists v, l', A', rs'. split_and!; [done|done|]. intros Hv. destruct Hres as [|[-> Hd]]; [done|]. split; [done|].
    intros i Hi Hsg. apply (Hd i); [lia|done].
  - intros v l l' [-> Hld] Hbytes. split; [done|]. intros i Hi Hsg k Hk. pose proof (proj1 Hb) as Hbb.
    destruct (Hu i Hi Hsg) as [_ Hv].
    destruct (seg_bounds (c_vmaddr img (cmd_off img i)) (c_vmsize img (cmd_off img i))) as (B1 & B2 & _);
      [apply get_bound; (done || lia)|apply get_bound; (done || lia)|].
    rewrite Hbytes, (Hld i Hi Hsg k Hk); [done| | |rewrite (Hld i Hi Hsg k Hk); eauto].
    + exists i. split_and!; try done; unfold c_pages, seg_pages; lia.
    + apply Hv. lia.
Qed.

End Proofs.
End SpawnThm.
