(* ===== verification/SpawnCases.v ===== *)
(** * Starting a program on a concrete machine

    A file system that holds one file, a heap of its own, and the 30 pages of
    the machine of PhysSpec: the promises of [ExecEnvOk] are kept, and the
    theorem on [elf_spawn] applies. *)

From S2P Require Import Prelude Phys PhysInv PhysInit PhysSpec PageAlloc PageTable Region AddrSpace AddrLife AddrWitness Bytes UserMem UserStack Elf Loader ElfThm Macho MachoThm RbTree RbShape RbInsert Sched SchedQueue SchedInv SchedProc Spawn SpawnThm LoadCases.
From Stdlib Require Import ZArith Lia.
From stdpp Require Import base list gmap numbers.
Open Scope Z_scope.

Module SpawnCases.
Import Phys(phys_state_t).
Import PhysSpec PageAlloc PageTable AddrSpace AddrLife AddrWitness UserMem UserStack Elf Loader ElfThm Sched SchedQueue SchedInv SchedProc Spawn SpawnThm LoadCases.

(** The memory manager, what is left of the file, the next heap address. *)
Record env1 := mkEnv { e_as : as_state phys_state_t; e_file : list Z; e_heap : Z }.

#[local] Instance env1_sched : SchedEnv env1 := {
  kmalloc e n := (e_heap e, mkEnv (e_as e) (e_file e) (e_heap e + n));
  kfree e _ := e;
  amm_vmap_create e := (0, e);
  amm_vmap_destroy e _ := e;
  vfs_fd_inherit e _ _ := e;
  vfs_close_all e _ := e }.

(** Only the bytes of the file can be read. *)
Definition clean (bs : list Z) : list Z := map (fun b => b mod 256) bs.

#[local] Instance env1_exec : ExecEnv phys_state_t env1 := {
  as_of e := e_as e;
  with_as e a := mkEnv a (e_file e) (e_heap e);
  vm_addr i := Z.of_nat i + 1;
  vfs_open e _ := (257, e);
  vfs_read e _ n := (0, clean (take (Z.to_nat n) (e_file e)), mkEnv (e_as e) (drop (Z.to_nat n) (e_file e)) (e_heap e));
  vfs_close e _ := e;
  g_shell_uid _ := 0;
  g_shell_gid _ := 0 }.

#[local] Instance env1_ok : ExecEnvOk phys_state_t env1.
Proof.
  split.
  - done.
  - intros i. simpl. lia.
  - intros e p A Ha. by exists A.
  - intros e fd n A Ha. by exists A.
  - intros e fd A Ha. by exists A.
  - intros e fd n. simpl. split.
    + apply Forall_forall. intros b (x & <- & _)%in_map_iff. unfold Bytes.is_byte. by apply Z.mod_pos_bound.
    + unfold zlen, clean. rewrite length_map, length_take. lia.
  - intros e n. apply as_keeps_refl.
  - intros e p q. apply as_keeps_refl.
Qed.

(** The scheduler just after [sched_init] on one CPU. *)
Definition raw_rq : runq_t := mkRq 0 0 None None None 0 0 0 None None 0 0 0.
Definition raw1 (e : env1) : sched env1 :=
  mkSched (fun _ => raw_rq) 0 (fun _ => zero_pcb) (fun _ => zero_node) 0 0 0
    (mkSS 0 0 (fun _ => mkStat 0 0 0 0 0 0) 0 0) (fun _ => None) None 0 0 0 e.
Definition boot_sched : sched env1 := sched_init 4096 8192 12288 (raw1 (mkEnv as1 elf1 0x1000000)) 1.

Lemma boot_sched_ready : sched_ready boot_sched no_queues.
Proof.
  destruct (sched_init_ok 4096 8192 12288 (raw1 (mkEnv as1 elf1 0x1000000)) 1) as (H1 & H2 & H3 & H4 & H5 & H6); [lia|].
  split; [exact H1| |reflexivity| |unfold boot_sched; rewrite H3; done|unfold boot_sched; rewrite H4; done].
  - intros k Hk. assert (Ec : sched_current boot_sched = Some (Idle 0)) by reflexivity. congruence.
  - intros i. destruct (decide (on_cpu boot_sched i)) as [Hi|Hi]; [apply (H5 i Hi)|]. unfold boot_sched. rewrite H6; [reflexivity|exact Hi].
Qed.

Lemma boot_space : space_ok (as_of (env boot_sched)) [].
Proof.
  change (as_of (env boot_sched)) with as1. split; [exact boot1_held|exact as1_low|]. apply Nat.le_0_l.
Qed.

(** The file is the image of LoadCases. *)
Lemma boot_image img : file_image boot_sched [47] img -> img = elf1.
Proof.
  intros [e He]. assert (Ec : match read_file (vfs_open (env boot_sched) [47]).2 (vfs_open (env boot_sched) [47]).1 with
    | Some (_, i) => Some i | None => None end = Some elf1) by (vm_compute; reflexivity).
  rewrite He in Ec. congruence.
Qed.

Lemma elf1_placed : elf_placed elf1.
Proof.
  intros eh He. pose proof (elf1_user eh He) as Hu. split; [exact Hu|].
  assert (E1 : ehdr_at elf1 0 = Some eh1) by (vm_compute; reflexivity).
  assert (eh = eh1) as -> by congruence. intros x (i & ph & Hi & [Hp _] & Hx).
  assert (En : e_phnum eh1 = 1) by (vm_compute; reflexivity). assert (i = 0) as -> by lia.
  assert (E2 : phdr_at elf1 (e_phoff eh1 + 0 * e_phentsize eh1) = Some ph1) by (vm_compute; reflexivity).
  assert (ph = ph1) as -> by congruence. unfold ph_pages, seg_pages in Hx.
  assert (T : seg_top (p_vaddr ph1) (p_memsz ph1) = 0x401000) by (vm_compute; reflexivity).
  rewrite T in Hx. unfold USER_STACK_TOP, USER_STACK_SIZE. lia.
Qed.


End SpawnCases.
