(* ===== verification/UserAccess.v ===== *)
(** * kernel/arch/syscall.c: access to the memory of the calling process

    System calls reach the memory of their caller through its page tables,
    page by page, and fault pages in on the way.  [umem] is the memory as the
    process means it: a page that a region promises but that has not been
    touched reads as zeros.  In these terms demand paging is invisible, and
    [copy_from_user] and [copy_to_user] are reads and writes. *)

From S2P Require Import Prelude Phys PhysInv PhysInit PageAlloc PageTable Region AddrSpace Bytes UserMem UserStack Elf Loader.
From Stdlib Require Import ZArith Lia.
From stdpp Require Import base list gmap numbers.
Open Scope Z_scope.

Module UserAccess.
Import PageAlloc PageTable AddrSpace UserMem UserStack Elf Loader.

(** ** Pointers *)

Definition validate_user_ptr (addr size : Z) : bool :=
  if addr =? 0 then false
  else if addr <? 0x1000 then false
  else if 0x0000800000000000 <=? addr then false
  else if (0 <? size) && (u64 (addr + size) <? addr) then false
  else if (0 <? size) && (0x0000800000000000 <? u64 (addr + size)) then false
  else true.

Section Ops.
Context {S : Type} `{PageMem S}.

(** The result code; [None]: the region list does not end. *)
Definition user_access_page (l : lstate S) (va : Z) (for_write : bool) : option (Z * lstate S) :=
  if truthy (amm_virt_to_kva (l_pm l) (Region.cr3 (l_vm l)) (Z.land va Phys.PAGE_MASK)) then Some (0, l)
  else match amm_page_fault (l_pool l) (l_vm l) (l_pm l) va for_write with
       | None => None
       | Some (rc, s) => Some (rc, set_l_pm l s)
       end.

(** [n] bytes at the kernel address [a]. *)
Fixpoint get_bytes (s : S) (a : Z) (n : nat) : list Z :=
  match n with O => [] | Datatypes.S n => ldb s a :: get_bytes s (a + 1) n end.

(** The chunk of a round, and the kernel address of its page. *)
Definition access (l : lstate S) (va rest : Z) (for_write : bool) : option ((lstate S) + (lstate S * Z * Z)) :=
  let pg := Z.land va Phys.PAGE_MASK in
  let off := Z.land va (PAGE_SIZE - 1) in
  let chunk := PAGE_SIZE - off in
  let chunk := if rest <? chunk then rest else chunk in
  match user_access_page l va for_write with
  | None => None
  | Some (rc, l) =>
      if negb (rc =? 0) then Some (inl l)
      else
        let kva := amm_virt_to_kva (l_pm l) (Region.cr3 (l_vm l)) pg in
        if kva =? 0 then Some (inl l) else Some (inr (l, kva + off, chunk))
  end.

(** [x]: the address space, the bytes copied, what remains of the source. *)
Definition from_round (x : lstate S * list Z * Z * Z) : (lstate S * list Z * Z * Z) + option (Z * list Z * lstate S) :=
  let '(l, dst, va, rest) := x in
  if negb (0 <? rest) then inr (Some (0, dst, l))
  else match access l va rest false with
  | None => inr None
  | Some (inl l) => inr (Some (-1, dst, l))
  | Some (inr (l, kp, chunk)) => inl (l, dst ++ get_bytes (l_pm l) kp (Z.to_nat chunk), u64 (va + chunk), rest - chunk)
  end.

Definition to_round (x : lstate S * Z * list Z) : (lstate S * Z * list Z) + option (Z * lstate S) :=
  let '(l, va, src) := x in
  if negb (0 <? zlen src) then inr (Some (0, l))
  else match access l va (zlen src) true with
  | None => inr None
  | Some (inl l) => inr (Some (-1, l))
  | Some (inr (l, kp, chunk)) =>
      inl (set_l_pm l (put_bytes (l_pm l) kp (take (Z.to_nat chunk) src)), u64 (va + chunk), drop (Z.to_nat chunk) src)
  end.

(** [copy_from_user(kdst, usrc, n)] in the address space [l]: the result code,
    the bytes stored from [kdst] on. *)
Definition copy_from_user (l : lstate S) (usrc n : Z) : option (Z * list Z * lstate S) :=
  if (usrc =? 0) || (n =? 0) then Some (0, [], l)
  else mjoin (leave (loop from_round ROUNDS (l, [], usrc, n))).

Definition copy_to_user (l : lstate S) (udst : Z) (src : list Z) : option (Z * lstate S) :=
  if (udst =? 0) || (zlen src =? 0) then Some (0, l)
  else mjoin (leave (loop to_round ROUNDS (l, udst, src))).

(** [for (size_t i = ...; i < lim; i++)] of [copy_user_cstr], [n] rounds; the
    result code, the string, and whether it was ended by a zero byte. *)
Fixpoint cstr_loop (n : nat) (l : lstate S) (uptr : Z) (kbuf : list Z) : option (Z * list Z * lstate S) :=
  match n with
  | O => Some (-1, kbuf, l)
  | Datatypes.S n =>
      match copy_from_user l uptr 1 with
      | None => None
      | Some (rc, c, l) =>
          if negb (rc =? 0) then Some (-1, kbuf, l)
          else if hd 0 c =? 0 then Some (0, kbuf, l)
          else cstr_loop n l (u64 (uptr + 1)) (kbuf ++ c)
      end
  end.

(** The result code and the string in the buffer. *)
Definition copy_user_cstr (l : lstate S) (kcap uptr max_u : Z) : option (Z * list Z * lstate S) :=
  if (kcap =? 0) || negb (validate_user_ptr uptr 1) then Some (-1, [], l)
  else
    let lim := kcap - 1 in
    let lim := if max_u <? lim then max_u else lim in
    cstr_loop (Z.to_nat lim) l uptr [].

Definition validate_user_str (l : lstate S) (ptr max_len : Z) : option (bool * lstate S) :=
  if negb (validate_user_ptr ptr 1) then Some (false, l)
  else match cstr_loop (Z.to_nat max_len) l ptr [] with
       | None => None
       | Some (rc, _, l) => Some (rc =? 0, l)
       end.

(** [&vec[i]] and its value. *)
Definition read_ptr (l : lstate S) (vec i : Z) : option (Z * Z * lstate S) :=
  match copy_from_user l (u64 (vec + 8 * i)) 8 with
  | None => None
  | Some (rc, bs, l) => Some (rc, Bytes.le_val bs, l)
  end.

Fixpoint str_array_loop (n : nat) (l : lstate S) (vec i max_str_len : Z) : option (bool * lstate S) :=
  match n with
  | O => Some (false, l)
  | Datatypes.S n =>
      if negb (validate_user_ptr (u64 (vec + 8 * i)) 8) then Some (false, l)
      else match read_ptr l vec i with
      | None => None
      | Some (rc, s, l) =>
          if negb (rc =? 0) then Some (false, l)
          else if s =? 0 then Some (true, l)
          else match validate_user_str l s max_str_len with
          | None => None
          | Some (false, l) => Some (false, l)
          | Some (true, l) => str_array_loop n l vec (i + 1) max_str_len
          end
      end
  end.

Definition validate_user_str_array (l : lstate S) (vec max_count max_str_len : Z) : option (bool * lstate S) :=
  if vec =? 0 then Some (true, l) else str_array_loop (Z.to_nat max_count) l vec 0 max_str_len.

Definition VFS_PATH_MAX : Z := 256.

Fixpoint copy_array_loop (n : nat) (l : lstate S) (uvec i : Z) (kvec : list (list Z)) : option (Z * list (list Z) * lstate S) :=
  match n with
  | O => Some (0, kvec, l)
  | Datatypes.S n =>
      if negb (validate_user_ptr (u64 (uvec + 8 * i)) 8) then Some (-1, kvec, l)
      else match read_ptr l uvec i with
      | None => None
      | Some (rc, us, l) =>
          if negb (rc =? 0) then Some (-1, kvec, l)
          else if us =? 0 then Some (0, kvec, l)
          else match copy_user_cstr l VFS_PATH_MAX us VFS_PATH_MAX with
          | None => None
          | Some (rc, str, l) =>
              if negb (rc =? 0) then Some (-1, kvec, l) else copy_array_loop n l uvec (i + 1) (kvec ++ [str])
          end
      end
  end.

(** The strings copied, before the [NULL] that ends [kvec]. *)
Definition copy_user_cstr_array (l : lstate S) (uvec : Z) : option (Z * list (list Z) * lstate S) :=
  if uvec =? 0 then Some (0, [], l) else copy_array_loop 63 l uvec 0 [].

End Ops.
End UserAccess.
