(* ===== verification/UserAccThm.v ===== *)
(** * kernel/arch/syscall.c: user memory access, the theorems

    [umem] abstracts an address space to the memory its process sees;
    [same_mem] and [wrote] say what an access does to it, and that nothing
    outside the tables and pages of the process is written. *)

From S2P Require Import Prelude Phys PhysInv PhysInit PageAlloc PageTable Region AddrSpace Bytes UserMem UserStack Elf Loader UserAccess.
From Stdlib Require Import ZArith Lia.
From stdpp Require Import base list gmap numbers.
Open Scope Z_scope.

Module UserAccThm.
Import PageAlloc PageTable AddrSpace UserMem UserStack Elf Loader UserAccess.

(** ** Pages *)

Lemma user_va_mask x : user_va x -> Z.land x Phys.PAGE_MASK = x - x mod PAGE_SIZE.
Proof. intros [Hx _]. apply PhysInit.land_page_mask. lia. Qed.

Lemma user_va_same x y : user_va x -> 0 <= y -> y / PAGE_SIZE = x / PAGE_SIZE -> user_va y.
Proof. unfold user_va. change PAGE_SIZE with 4096. intros [H1 H2] Hy E. Z.div_mod_to_equations. lia. Qed.

Lemma user_va_page x : user_va x -> user_va (x - x mod PAGE_SIZE) /\ idx (x - x mod PAGE_SIZE) = idx x.
Proof.
  intros Hx. pose proof Hx as [H1 _]. assert (E : (x - x mod PAGE_SIZE) / PAGE_SIZE = x / PAGE_SIZE).
  { change PAGE_SIZE with 4096. Z.div_mod_to_equations. lia. }
  assert (0 <= x - x mod PAGE_SIZE) by (change PAGE_SIZE with 4096; Z.div_mod_to_equations; lia).
  pose proof (user_va_same x _ Hx H E) as Hp. split; [done|]. apply idx_inj; [by apply user_va_lt|by apply user_va_lt|done].
Qed.

(** Regions of whole pages, as the kernel makes them. *)
Definition whole_pages (L : list Region.vregion_t) : Prop :=
  Forall (fun d => Region.base d mod PAGE_SIZE = 0 /\ Region.size d mod PAGE_SIZE = 0) L.

Lemma contains_page L x y d : whole_pages L -> d ∈ L -> x / PAGE_SIZE = y / PAGE_SIZE ->
  Region.contains x d = Region.contains y d.
Proof.
  intros HL Hd E. unfold whole_pages in HL. rewrite list.Forall_forall in HL. destruct (HL d Hd) as [H1 H2].
  unfold Region.contains. change PAGE_SIZE with 4096 in *.
  destruct (Z.leb_spec (Region.base d) x), (Z.leb_spec (Region.base d) y); cbn [andb]; try done;
    repeat match goal with |- context [?a <? ?b] => destruct (Z.ltb_spec a b) end; try done; exfalso; Z.div_mod_to_equations; lia.
Qed.

Section Proofs.
Context {S : Type} `{HM : PageMem S} `{HO : !PageMemOk S}.
Implicit Types (s : S) (A : list blk) (l : lstate S) (rs : list nat).

(** ** The memory of a process *)

Definition promised l rs (x : Z) : bool := existsb (Region.contains x) (regions l rs).

Definition umem l rs (x : Z) : option Z :=
  match lbyte l x with
  | Some b => Some b
  | None => if promised l rs x then Some 0 else None
  end.

(** No page is left, not even for a page table. *)
Definition dry l : Prop := fst (palloc (l_pm l) 0) = 0.

(** A region without write permission covers [x]. *)
Definition read_only l rs (x : Z) : Prop :=
  exists d, d ∈ regions l rs /\ Region.contains x d = true /\ has_flag (Region.prot d) PROT_WRITE = false.

(** [l'] is [l] after pages have been faulted in. *)
Record same_mem l A rs l' A' : Prop := {
  sm_ok : lok l' A' rs;
  sm_sub : A ⊆ A';
  sm_dmap : dmap (l_pm l') = dmap (l_pm l);
  sm_pool : l_pool l' = l_pool l;
  sm_vm : l_vm l' = l_vm l;
  sm_mem : forall x, user_va x -> umem l' rs x = umem l rs x;
  sm_present : forall x, user_va x -> is_Some (lbyte l x) -> is_Some (lbyte l' x);
  sm_others : keeps_others (root l) (l_pm l) A (l_pm l') }.

Lemma same_refl l A rs : lok l A rs -> same_mem l A rs l A.
Proof. intros. by split. Qed.

Lemma same_root l A rs l' A' : same_mem l A rs l' A' -> root l' = root l.
Proof. intros H. unfold root. by rewrite (sm_vm _ _ _ _ _ H). Qed.

Lemma same_trans l A rs l1 A1 l2 A2 : same_mem l A rs l1 A1 -> same_mem l1 A1 rs l2 A2 -> same_mem l A rs l2 A2.
Proof.
  intros Ha. pose proof (same_root _ _ _ _ _ Ha) as Hr. destruct Ha as [a1 a2 a3 a4 a5 a6 a7 a8].
  intros [b1 b2 b3 b4 b5 b6 b7 b8]. split; [done|by etrans|congruence|congruence|congruence| | |].
  - intros x Hx. by rewrite b6, a6.
  - intros x Hx Hs. apply b7; [done|]. by apply a7.
  - rewrite Hr in b8. by eapply keeps_trans.
Qed.

Lemma lbyte_walk l x : is_Some (lbyte l x) <-> is_Some (walk (l_pm l) (root l) (idx x)).
Proof.
  unfold lbyte, ubyte. destruct (walk _ _ _); split; intros [? ?]; try done; eauto.
Qed.

(** A byte in terms of the words of its page. *)
Lemma ubyte_word s A r x p : held s A -> (p, 0%nat) ∈ A -> walk s r (idx x) = Some p ->
  ubyte s r x = Some (byte_of (ent s p ((x mod PAGE_SIZE) / 8)) (x mod 8)).
Proof.
  intros Hh Hp E. unfold ubyte. rewrite E. f_equal. unfold ldb, byte_of.
  destruct (held_dmap s A Hh) as [d Hd]. destruct (held_page s A p Hh Hp) as (_ & [q Hq] & _).
  change PAGE_SIZE with 4096 in *. set (a := dmap s + p + x mod 4096).
  pose proof (Z.mod_pos_bound x 4096 ltac:(lia)) as Hm.
  assert (Ea : a mod 8 = x mod 8) by (unfold a; rewrite Hd, Hq; Z.div_mod_to_equations; lia).
  assert (Ew : a - a mod 8 = ent_addr s p (x mod 4096 / 8)).
  { rewrite (ent_addr_eq s A) by (done || Z.div_mod_to_equations; lia). unfold a. rewrite Hd, Hq. Z.div_mod_to_equations. lia. }
  rewrite Ew, Ea. done.
Qed.

Lemma promised_page l rs x y : whole_pages (regions l rs) -> x / PAGE_SIZE = y / PAGE_SIZE ->
  promised l rs x = promised l rs y.
Proof.
  intros Hw E. unfold promised. generalize Hw. unfold whole_pages.
  induction (regions l rs) as [|d L IH]; intros HL; [done|]. simpl. apply list.Forall_cons in HL as [Hd HL].
  rewrite IH by done. f_equal. apply (contains_page [d]); [by constructor|set_solver|done].
Qed.

(** ** One page *)

(** What a page fault leaves behind, in terms of [umem]. *)
Lemma faulted l A rs va s' A' : lok l A rs -> whole_pages (regions l rs) -> user_va va -> promised l rs va = true ->
  walk (l_pm l) (root l) (idx va) = None ->
  dmap s' = dmap (l_pm l) -> keeps_others (root l) (l_pm l) A s' -> A ⊆ A' -> held s' A' -> owns user s' (root l) A' ->
  (forall rho q, user rho -> length rho = 4%nat -> rho <> idx va -> walk (l_pm l) (root l) rho = Some q ->
     forall j, 0 <= j < 512 -> ent s' q j = ent (l_pm l) q j) ->
  ((exists pa, (forall rho, user rho -> length rho = 4%nat ->
      walk s' (root l) rho = if decide (rho = idx va) then Some pa else walk (l_pm l) (root l) rho) /\
     forall j, 0 <= j < 512 -> ent s' pa j = 0) \/
   (forall rho, user rho -> length rho = 4%nat -> walk s' (root l) rho = walk (l_pm l) (root l) rho)) ->
  same_mem l A rs (set_l_pm l s') A'.
Proof.
  intros Hok Hwp Hv Hpr Hno Hd Hko HA Hh Ho Hent Hcase.
  assert (Hkeep : forall x, user_va x -> is_Some (lbyte l x) -> lbyte (set_l_pm l s') x = lbyte l x).
  { intros x Hx Hs. destruct (walk_ubyte _ _ _ Hs) as [p Ep]. assert (Hne : idx x <> idx va) by congruence.
    pose proof (user_va_path x Hx) as Hu. unfold lbyte, root. cbn [set_l_pm l_pm l_vm]. fold (root l).
    apply (ubyte_ent _ _ A _ _ p); [apply Hok| |done|done| |by apply (Hent (idx x))].
    - by apply (ow_held _ _ _ _ (lo_owns _ _ _ Hok) (idx x)).
    - destruct Hcase as [(pa & Hw & _)|Hw]; rewrite Hw by done; [by rewrite decide_False|done]. }
  split; [by split; [apply Hok|..]|done|done|done|done| | |done].
  - intros x Hx. unfold umem. change (promised (set_l_pm l s') rs x) with (promised l rs x).
    destruct (lbyte l x) as [b|] eqn:Eb; [rewrite Hkeep by eauto; by rewrite Eb|].
    destruct (lbyte (set_l_pm l s') x) as [b|] eqn:Eb'; [|done].
    assert (Hs' : is_Some (walk s' (root l) (idx x))) by (apply (lbyte_walk (set_l_pm l s')); eauto).
    assert (Hn : walk (l_pm l) (root l) (idx x) = None).
    { apply eq_None_not_Some. intros Hs. apply lbyte_walk in Hs as [? ?]. congruence. }
    destruct Hcase as [(pa & Hw & Hz)|Hw]; rewrite Hw in Hs' by (done || by apply user_va_path);
      [|rewrite Hn in Hs'; by destruct Hs'].
    case_decide as Ei; [|rewrite Hn in Hs'; by destruct Hs']. apply idx_inj in Ei; [|by apply user_va_lt|by apply user_va_lt].
    rewrite (promised_page l rs x va Hwp Ei), Hpr. rewrite <- Eb'. unfold lbyte, root. cbn [set_l_pm l_pm l_vm]. fold (root l).
    rewrite (ubyte_word s' A' _ _ pa); [|done| |].
    + rewrite Hz, byte_of_0; [done|]. pose proof (Z.mod_pos_bound x PAGE_SIZE ltac:(done)). change PAGE_SIZE with 4096 in *.
      Z.div_mod_to_equations. lia.
    + apply (ow_held _ _ _ _ Ho (idx va)); [by apply user_va_path|]. rewrite Hw by (done || by apply user_va_path). by rewrite decide_True.
    + rewrite Hw by (done || by apply user_va_path). rewrite decide_True; [done|].
      apply idx_inj; [by apply user_va_lt|by apply user_va_lt|done].
  - intros x Hx Hs. by rewrite Hkeep.
Qed.

Lemma regions_find l A rs x : lok l A rs -> forall i, i ∈ rs -> Region.contains x (Region.reg (l_pool l) i) = true -> promised l rs x = true.
Proof.
  intros Hok i Hi Hc. apply existsb_exists. exists (Region.data (Region.reg (l_pool l) i)). split; [|exact Hc].
  apply in_map_iff. exists i. split; [done|]. by apply list_elem_of_In.
Qed.

Lemma user_access_page_ok l A rs va w : lok l A rs -> whole_pages (regions l rs) -> user_va va ->
  exists rc l' A', user_access_page l va w = Some (rc, l') /\ same_mem l A rs l' A' /\
    (rc = 0 /\ (is_Some (lbyte l' va) \/ dry l') \/
     rc = -1 /\ lbyte l va = None /\ (promised l rs va = false \/ w = true /\ read_only l rs va \/ dry l')).
Proof.
  intros Hok Hwp Hv. unfold user_access_page. destruct (user_va_page va Hv) as [Hpg Ei]. fold (root l).
  rewrite (user_va_mask va Hv), (kva_present _ A) by (done || apply Hok). rewrite Ei.
  case_bool_decide as Hs.
  { exists 0, l, A. split; [done|]. split; [by apply same_refl|]. left. split; [done|]. left. by apply lbyte_walk. }
  assert (Hno : walk (l_pm l) (root l) (idx va) = None) by (destruct (walk _ _ _); [exfalso; eauto|done]).
  assert (Hb : lbyte l va = None) by (unfold lbyte, ubyte; by rewrite Hno).
  destruct (page_fault_ok (l_pool l) (l_vm l) rs (l_pm l) A va w (lo_vm _ _ _ Hok) (lo_held _ _ _ Hok) (lo_owns _ _ _ Hok)
    (proj1 (proj1 Hv)) Hpg) as (rc & s' & -> & Hc). fold (root l) in Hc. rewrite Ei in Hc. exists rc, (set_l_pm l s').
  destruct Hc as [(-> & -> & Hwhy)|(-> & (i & Hi & Hci) & Hd & Hko & A' & HA & Hh & Ho & Hent & Hcase)].
  - exists A. split; [done|]. split; [destruct l; by apply same_refl|]. right. split; [done|]. split; [done|].
    destruct Hwhy as [Hf|[(-> & i & Hi & Hc & Hp)|Hd]]; [left|right; left|right; right; done].
    + apply not_true_iff_false. intros (d & Hd & Hc)%existsb_exists. unfold regions in Hd. rewrite Forall_forall in Hf. rewrite (Hf d Hd) in Hc. done.
    + split; [done|]. exists (Region.data (Region.reg (l_pool l) i)). split; [|done].
      apply list_elem_of_fmap. by exists i.
  - exists A'. split; [done|]. split.
    + apply (faulted l A rs va s' A'); try done; [by eapply regions_find|]. destruct Hcase as [Hc|[_ Hw]]; [by left|by right].
    + left. split; [done|]. destruct Hcase as [(pa & Hw & _)|[Hdry _]]; [left|by right]. apply lbyte_walk.
      unfold root. cbn [set_l_pm l_pm l_vm]. fold (root l). rewrite Hw by (done || by apply user_va_path). rewrite decide_True by done. eauto.
Qed.

(** ** One round of a copy *)

(** Why an access at [x] fails. *)
Definition refused l rs (w : bool) x l' : Prop :=
  lbyte l x = None /\ (promised l rs x = false \/ w = true /\ read_only l rs x \/ dry l').

Lemma access_ok l A rs va n w : lok l A rs -> whole_pages (regions l rs) -> user_va va ->
  exists l' A', same_mem l A rs l' A' /\
    ((access l va n w = Some (inl l') /\ refused l rs w va l') \/
     (exists p, access l va n w = Some (inr (l', dmap (l_pm l') + p + va mod PAGE_SIZE, chunk_at va n)) /\
        walk (l_pm l') (root l') (idx va) = Some p)).
Proof.
  intros Hok Hwp Hv. unfold access.
  destruct (user_access_page_ok l A rs va w Hok Hwp Hv) as (rc & l' & A' & -> & Hsm & Hrc). exists l', A'. split; [done|].
  destruct Hrc as [[-> Hp]|[-> Hr]]; cbn [Z.eqb negb]; [|by left].
  pose proof (sm_ok _ _ _ _ _ Hsm) as Hok'. destruct (user_va_page va Hv) as [Hpg Ei]. fold (root l').
  rewrite (user_va_mask va Hv).
  assert (Hk := kva_present (l_pm l') A' (root l') _ (lo_held _ _ _ Hok') (lo_owns _ _ _ Hok') Hpg).
  rewrite (kva_walk (l_pm l') A') in Hk |- * by (done || apply Hok'). rewrite Ei in Hk |- *.
  destruct (walk (l_pm l') (root l') (idx va)) as [p|] eqn:Ep.
  - rewrite bool_decide_eq_true_2 in Hk by eauto. unfold truthy in Hk. apply negb_true_iff in Hk. rewrite Hk. right. exists p.
    split; [|done]. do 3 f_equal. f_equal. change (PAGE_SIZE - 1) with (2 ^ 12 - 1). rewrite land_mask_low by lia.
    change (2 ^ 12) with PAGE_SIZE. change PAGE_SIZE with 4096. Z.div_mod_to_equations. lia.
  - left. split; [done|]. assert (Hn : lbyte l' va = None) by (unfold lbyte, ubyte; by rewrite Ep). split.
    + destruct (lbyte l va) eqn:E; [|done]. destruct (sm_present _ _ _ _ _ Hsm va Hv) as [? ?]; [eauto|]. congruence.
    + right. right. destruct Hp as [[? ?]|Hd]; [congruence|done].
Qed.

(** Bytes read from the page of [va]. *)
Lemma get_bytes_lookup s n : forall a i, (i < n)%nat -> get_bytes s a n !! i = Some (ldb s (a + Z.of_nat i)).
Proof.
  induction n as [|n IH]; intros a i Hi; [lia|]. cbn [get_bytes]. destruct i as [|i]; [by rewrite Z.add_0_r|].
  change ((ldb s a :: get_bytes s (a + 1) n) !! Datatypes.S i) with (get_bytes s (a + 1) n !! i). rewrite IH by lia. do 2 f_equal. lia.
Qed.
Lemma length_get_bytes s n : forall a, length (get_bytes s a n) = n.
Proof. induction n as [|n IH]; intros a; [done|]. cbn [get_bytes length]. by rewrite IH. Qed.

Lemma page_bytes l rs va p n i : user_va va -> walk (l_pm l) (root l) (idx va) = Some p ->
  va mod PAGE_SIZE + Z.of_nat n <= PAGE_SIZE -> (i < n)%nat ->
  get_bytes (l_pm l) (dmap (l_pm l) + p + va mod PAGE_SIZE) n !! i = umem l rs (va + Z.of_nat i).
Proof.
  intros Hv Ep Hn Hi. rewrite get_bytes_lookup by done. pose proof Hv as [Hv0 _].
  assert (E : (va + Z.of_nat i) / PAGE_SIZE = va / PAGE_SIZE).
  { change PAGE_SIZE with 4096 in *. Z.div_mod_to_equations. lia. }
  assert (Hv' : user_va (va + Z.of_nat i)) by (apply (user_va_same va); [done|lia|done]).
  assert (Ei : idx (va + Z.of_nat i) = idx va) by (apply idx_inj; [by apply user_va_lt|by apply user_va_lt|done]).
  unfold umem, lbyte, ubyte. rewrite Ei, Ep. do 2 f_equal. change PAGE_SIZE with 4096 in *. Z.div_mod_to_equations. lia.
Qed.

(** ** [copy_from_user] *)

(** [dst] is what the process has at [x]. *)
Definition reads l rs (x : Z) (dst : list Z) : Prop :=
  forall i, (i < length dst)%nat -> dst !! i = umem l rs (x + Z.of_nat i).

(** The outcome: a prefix has been read, all of it on success. *)
Definition from_post l A rs (usrc n : Z) (res : Z * list Z * lstate S) : Prop :=
  let '(rc, dst, l') := res in
  (exists A', same_mem l A rs l' A') /\ reads l rs usrc dst /\
  (rc = 0 /\ zlen dst = n \/ rc = -1 /\ zlen dst < n /\ refused l rs false (usrc + zlen dst) l').

Definition from_inv l A rs (usrc n : Z) (x : lstate S * list Z * Z * Z) : Prop :=
  let '(l', dst, va, rest) := x in
  (exists A', same_mem l A rs l' A') /\ reads l rs usrc dst /\ va = usrc + zlen dst /\ rest = n - zlen dst /\ 0 <= rest.

Lemma refused_same l A rs w x l1 A1 l2 : same_mem l A rs l1 A1 -> user_va x -> refused l1 rs w x l2 -> refused l rs w x l2.
Proof.
  intros Hs Hx [Hb Hr]. split.
  - destruct (lbyte l x) eqn:E; [|done]. destruct (sm_present _ _ _ _ _ Hs x Hx) as [? ?]; [eauto|]. congruence.
  - unfold promised, read_only, regions in *. by rewrite (sm_pool _ _ _ _ _ Hs) in Hr.
Qed.

Lemma from_round_ok l A rs usrc n x : whole_pages (regions l rs) ->
  (forall y, usrc <= y < usrc + n -> user_va y) -> from_inv l A rs usrc n x ->
  match from_round x with
  | inl y => from_inv l A rs usrc n y /\ 0 <= y.2 < x.2
  | inr r => exists res, r = Some res /\ from_post l A rs usrc n res
  end.
Proof.
  intros Hwp Hu. destruct x as [[[l1 dst] va] rest]. intros ((A1 & Hsm) & Hrd & -> & -> & Hr). unfold from_round.
  destruct (Z.ltb_spec 0 (n - zlen dst)) as [Hlt|Hge]; cbn [negb].
  2: { eexists. split; [done|]. split; [by exists A1|]. split; [done|]. left. split; [done|lia]. }
  pose proof (zlen_nonneg dst) as Hz. set (va := usrc + zlen dst). assert (Hv : user_va va) by (apply Hu; lia).
  assert (Hwp1 : whole_pages (regions l1 rs)) by (unfold regions; by rewrite (sm_pool _ _ _ _ _ Hsm)).
  destruct (access_ok l1 A1 rs va (n - zlen dst) false (sm_ok _ _ _ _ _ Hsm) Hwp1 Hv) as (l2 & A2 & Hs2 & Hcase).
  pose proof (same_trans _ _ _ _ _ _ _ Hsm Hs2) as Hs. destruct Hcase as [[-> Href]|(p & -> & Ep)].
  { eexists. split; [done|]. split; [by exists A2|]. split; [done|]. right. split_and!; [done|lia|]. by apply (refused_same l A rs false va l1 A1). }
  destruct (chunk_bounds va (n - zlen dst) Hlt) as [Hc1 Hc2]. set (c := chunk_at va (n - zlen dst)) in *. cbn [snd].
  assert (Lg : zlen (dst ++ get_bytes (l_pm l2) (dmap (l_pm l2) + p + va mod PAGE_SIZE) (Z.to_nat c)) = zlen dst + c).
  { rewrite zlen_app. unfold zlen at 2. rewrite length_get_bytes. lia. }
  split; [|lia]. split; [by exists A2|]. rewrite Lg. split_and!; [| |lia|lia].
  - intros i Hi. destruct (decide (i < length dst)%nat) as [Hl|Hl].
    + rewrite lookup_app_l by done. by apply Hrd.
    + rewrite lookup_app_r by lia. rewrite length_app, length_get_bytes in Hi.
      rewrite (page_bytes l2 rs va p) by (done || lia). rewrite (sm_mem _ _ _ _ _ Hs); [|apply Hu; unfold va, zlen in *; lia].
      f_equal. unfold va, zlen. lia.
  - rewrite u64_small; [unfold va; lia|]. destruct (Hu (va + c - 1)) as [H1 _]; [unfold va; lia|]. destruct Hv. lia.
Qed.

Lemma copy_from_user_ok l A rs usrc n : lok l A rs -> whole_pages (regions l rs) -> 0 < usrc -> 0 <= n < 2 ^ 64 ->
  (forall x, usrc <= x < usrc + n -> user_va x) ->
  exists res, copy_from_user l usrc n = Some res /\ from_post l A rs usrc n res.
Proof.
  intros Hok Hwp Hp Hn Hu. unfold copy_from_user. rewrite (proj2 (Z.eqb_neq usrc 0)) by lia. cbn [orb].
  destruct (Z.eqb_spec n 0) as [->|Hne].
  { eexists. split; [done|]. split; [exists A; by apply same_refl|]. split; [intros i Hi; simpl in Hi; lia|by left]. }
  destruct (loop_rule from_round (from_inv l A rs usrc n) snd (fun r => exists res, r = Some res /\ from_post l A rs usrc n res)
    ROUNDS (l, [], usrc, n)) as (r & -> & res & -> & Hpost).
  - intros x. by apply from_round_ok.
  - split; [exists A; by apply same_refl|]. split_and!; try (unfold zlen; simpl; lia). intros i Hi. simpl in Hi. lia.
  - change (Zpos ROUNDS) with (2 ^ 64 + 1). simpl. lia.
  - by exists res.
Qed.

(** ** [copy_to_user] *)

(** [l'] is [l] with the bytes [bs] stored from [x0] on. *)
Record wrote l A rs (x0 : Z) (bs : list Z) l' A' : Prop := {
  wr_ok : lok l' A' rs;
  wr_sub : A ⊆ A';
  wr_dmap : dmap (l_pm l') = dmap (l_pm l);
  wr_pool : l_pool l' = l_pool l;
  wr_vm : l_vm l' = l_vm l;
  wr_mem : forall x, user_va x -> umem l' rs x =
    if decide (x0 <= x < x0 + zlen bs) then bs !! Z.to_nat (x - x0) else umem l rs x;
  wr_there : forall x, user_va x -> x0 <= x < x0 + zlen bs -> is_Some (lbyte l' x);
  wr_present : forall x, user_va x -> is_Some (lbyte l x) -> is_Some (lbyte l' x);
  wr_others : keeps_others (root l) (l_pm l) A (l_pm l') }.

Lemma same_wrote l A rs x0 l' A' : same_mem l A rs l' A' -> wrote l A rs x0 [] l' A'.
Proof.
  intros [a1 a2 a3 a4 a5 a6 a7 a8]. split; try done; intros x Hx; [|unfold zlen; simpl; lia].
  rewrite decide_False; [by apply a6|unfold zlen; simpl; lia].
Qed.

Lemma wrote_trans l A rs x0 bs l1 A1 cs l2 A2 : wrote l A rs x0 bs l1 A1 ->
  wrote l1 A1 rs (x0 + zlen bs) cs l2 A2 -> wrote l A rs x0 (bs ++ cs) l2 A2.
Proof.
  intros Ha [b1 b2 b3 b4 b5 b6 b9 b7 b8]. assert (Hr : root l1 = root l) by (unfold root; by rewrite (wr_vm _ _ _ _ _ _ _ Ha)).
  destruct Ha as [a1 a2 a3 a4 a5 a6 a9 a7 a8]. split; [done|by etrans|congruence|congruence|congruence| | | |].
  - intros x Hx. rewrite b6, a6, zlen_app by done. pose proof (zlen_nonneg bs). pose proof (zlen_nonneg cs).
    destruct (decide (x0 + zlen bs <= x < x0 + zlen bs + zlen cs)).
    + rewrite decide_True by lia. rewrite lookup_app_r by (unfold zlen in *; lia). f_equal. unfold zlen in *. lia.
    + destruct (decide (x0 <= x < x0 + zlen bs)).
      * rewrite decide_True by lia. rewrite lookup_app_l by (unfold zlen in *; lia). done.
      * rewrite decide_False by lia. done.
  - intros x Hx Hin. rewrite zlen_app in Hin. destruct (decide (x < x0 + zlen bs)); [apply b7; [done|]; apply a9; [done|lia]|].
    apply b9; [done|lia].
  - intros x Hx Hs. apply b7; [done|]. by apply a7.
  - rewrite Hr in b8. by eapply keeps_trans.
Qed.

Lemma uwrites_keeps A r x0 bs s s' : held s A -> owns user s r A -> uwrites A r x0 bs s s' ->
  (forall x, x0 <= x < x0 + zlen bs -> user_va x) -> keeps_others r s A s'.
Proof.
  intros Hh Ho Hw Hu. split.
  - intros rho t Hr E _. by rewrite (uw_walk _ _ _ _ _ _ Hw) in E.
  - intros b w Hb Hn Hbw. apply (uw_frame _ _ _ _ _ _ Hw b); [done| |done]. intros x Hx E.
    pose proof (user_va_path x (Hu x Hx)) as Hux. apply (Hn (idx x) b.1 Hux E).
    assert (Hp : (b.1, 0%nat) ∈ A) by (by apply (ow_held _ _ _ _ Ho (idx x))).
    apply (held_disj s A b _ b.1 Hh Hb Hp); unfold PhysInv.in_block; cbn [fst snd]; [|rewrite PhysInv.bsize_0; change PAGE_SIZE with 4096; lia].
    pose proof (PhysInv.bsize_pos b.2). lia.
Qed.

(** A store into the page of [va]. *)
Lemma store_wrote l A rs va p bs : lok l A rs -> user_va va -> walk (l_pm l) (root l) (idx va) = Some p ->
  Forall is_byte bs -> va mod PAGE_SIZE + zlen bs <= PAGE_SIZE -> (forall x, va <= x < va + zlen bs -> user_va x) ->
  wrote l A rs va bs (set_l_pm l (put_bytes (l_pm l) (dmap (l_pm l) + p + va mod PAGE_SIZE) bs)) A.
Proof.
  intros Hok Hv Ep Hb Hl Hu. pose proof Hok as [Hvm Hh Ho].
  pose proof (page_store (l_pm l) A (root l) va p bs Hh Ho Hv Ep Hb Hl) as Hw.
  set (s' := put_bytes _ _ _) in *. clearbody s'.
  assert (Hbyte : forall x, user_va x -> lbyte (set_l_pm l s') x =
    if decide (va <= x < va + zlen bs) then bs !! Z.to_nat (x - va) else lbyte l x) by apply Hw.
  assert (Hin : forall x, va <= x < va + zlen bs -> is_Some (bs !! Z.to_nat (x - va)))
    by (intros; apply lookup_lt_is_Some_2; unfold zlen in *; lia).
  split; [split; [done|apply Hw|apply (uw_owns _ _ _ _ _ _ Hw)]|done|apply Hw|done|done| | | |by eapply uwrites_keeps].
  - intros x Hx. unfold umem at 1. rewrite Hbyte by done. case_decide as Hr; [|done].
    by destruct (Hin x Hr) as [b ->].
  - intros x Hx Hr. rewrite Hbyte, decide_True by done. by apply Hin.
  - intros x Hx Hs. rewrite Hbyte by done. case_decide; auto.
Qed.

Definition to_post l A rs (udst : Z) (src : list Z) (res : Z * lstate S) : Prop :=
  let '(rc, l') := res in
  exists n A', (n <= length src)%nat /\ wrote l A rs udst (take n src) l' A' /\
    (rc = 0 /\ n = length src \/ rc = -1 /\ (n < length src)%nat /\ refused l rs true (udst + Z.of_nat n) l').

Definition to_inv l A rs (udst : Z) (src : list Z) (x : lstate S * Z * list Z) : Prop :=
  let '(l', va, cs) := x in
  exists n A', (n <= length src)%nat /\ wrote l A rs udst (take n src) l' A' /\ va = udst + Z.of_nat n /\ cs = drop n src.

Lemma refused_wrote l A rs w x0 bs x l1 A1 l2 : wrote l A rs x0 bs l1 A1 -> user_va x ->
  refused l1 rs w x l2 -> refused l rs w x l2.
Proof.
  intros Hs Hx [Hb Hr]. split.
  - destruct (lbyte l x) eqn:E; [|done]. destruct (wr_present _ _ _ _ _ _ _ Hs x Hx) as [? ?]; [eauto|]. congruence.
  - unfold promised, read_only, regions in *. by rewrite (wr_pool _ _ _ _ _ _ _ Hs) in Hr.
Qed.

Lemma to_round_ok l A rs udst src x : whole_pages (regions l rs) -> Forall is_byte src ->
  (forall y, udst <= y < udst + zlen src -> user_va y) -> to_inv l A rs udst src x ->
  match to_round x with
  | inl y => to_inv l A rs udst src y /\ 0 <= zlen y.2 < zlen x.2
  | inr r => exists res, r = Some res /\ to_post l A rs udst src res
  end.
Proof.
  intros Hwp Hb Hu. destruct x as [[l1 va] cs]. intros (n & A1 & Hn & Hw & -> & ->). unfold to_round. set (va := udst + Z.of_nat n).
  assert (El : zlen (drop n src) = zlen src - Z.of_nat n) by (unfold zlen; rewrite length_drop; lia).
  destruct (Z.ltb_spec 0 (zlen (drop n src))) as [Hlt|Hge]; cbn [negb].
  2: { eexists. split; [done|]. exists n, A1. split_and!; [done|done|]. left. split; [done|unfold zlen in *; lia]. }
  assert (Hv : user_va va) by (apply Hu; unfold va; lia). assert (Ltk : zlen (take n src) = Z.of_nat n) by (unfold zlen; rewrite length_take; lia).
  assert (Hwp1 : whole_pages (regions l1 rs)) by (unfold regions; by rewrite (wr_pool _ _ _ _ _ _ _ Hw)).
  destruct (access_ok l1 A1 rs va (zlen (drop n src)) true (wr_ok _ _ _ _ _ _ _ Hw) Hwp1 Hv) as (l2 & A2 & Hs2 & Hcase).
  pose proof (wrote_trans _ _ _ _ _ _ _ _ _ _ Hw (same_wrote _ _ _ _ _ _ Hs2)) as Hw2. rewrite app_nil_r in Hw2.
  destruct Hcase as [[-> Href]|(p & -> & Ep)].
  { eexists. split; [done|]. exists n, A2. split_and!; [done|done|]. right. split_and!; [done|unfold zlen in *; lia|].
    by apply (refused_wrote l A rs true udst (take n src) va l1 A1). }
  destruct (chunk_bounds va (zlen (drop n src)) Hlt) as [Hc1 Hc2]. set (c := chunk_at va (zlen (drop n src))) in *.
  assert (Lc : zlen (take (Z.to_nat c) (drop n src)) = c) by (unfold zlen in *; rewrite length_take; lia).
  split; [|cbn [snd]; unfold zlen in *; rewrite !length_drop in *; lia]. exists (n + Z.to_nat c)%nat, A2.
  split; [unfold zlen in *; lia|]. split; [|split].
  - rewrite <- take_take_drop. apply (wrote_trans _ _ _ _ _ _ _ _ _ _ Hw2). rewrite Ltk. fold va.
    apply store_wrote; [apply (wr_ok _ _ _ _ _ _ _ Hw2)|done|done|by apply Forall_take, Forall_drop|lia|].
    intros x Hx. apply Hu. unfold va in *. lia.
  - rewrite u64_small; [unfold va; lia|]. destruct (Hu (va + c - 1)) as [H1 _]; [unfold va; lia|]. destruct Hv. lia.
  - by rewrite drop_drop.
Qed.

Lemma copy_to_user_ok l A rs udst src : lok l A rs -> whole_pages (regions l rs) -> 0 < udst -> Forall is_byte src ->
  (forall x, udst <= x < udst + zlen src -> user_va x) ->
  exists res, copy_to_user l udst src = Some res /\ to_post l A rs udst src res.
Proof.
  intros Hok Hwp Hp Hb Hu. unfold copy_to_user. rewrite (proj2 (Z.eqb_neq udst 0)) by lia. cbn [orb].
  destruct (Z.eqb_spec (zlen src) 0) as [E|Hne].
  { eexists. split; [done|]. exists 0%nat, A. split_and!; [lia|by apply same_wrote, same_refl|]. left. split; [done|unfold zlen in E; lia]. }
  pose proof (zlen_nonneg src) as Hz.
  destruct (loop_rule to_round (to_inv l A rs udst src) (fun x => zlen x.2) (fun r => exists res, r = Some res /\ to_post l A rs udst src res)
    ROUNDS (l, udst, src)) as (r & -> & res & -> & Hpost).
  - intros x. by apply to_round_ok.
  - exists 0%nat, A. split_and!; [lia|by apply same_wrote, same_refl|lia|done].
  - change (Zpos ROUNDS) with (2 ^ 64 + 1). simpl. destruct (Hu (udst + zlen src - 1)); lia.
  - by exists res.
Qed.

(** ** Strings *)

(** The zero-terminated string at [x], if it ends within [n] bytes. *)
Fixpoint ustring (m : Z -> option Z) (x : Z) (n : nat) : option (list Z) :=
  match n with
  | O => None
  | Datatypes.S n =>
      match m x with
      | None => None
      | Some b => if b =? 0 then Some [] else cons b <$> ustring m (x + 1) n
      end
  end.

Lemma ustring_ext m m' n : forall x, (forall y, x <= y < x + Z.of_nat n -> m y = m' y) -> ustring m x n = ustring m' x n.
Proof.
  induction n as [|n IH]; intros x H; [done|]. cbn [ustring]. rewrite (H x) by lia. destruct (m' x) as [b|]; [|done].
  destruct (b =? 0); [done|]. f_equal. apply IH. intros y Hy. apply H. lia.
Qed.

Lemma cstr_loop_ok n : forall l A rs uptr kbuf, lok l A rs -> whole_pages (regions l rs) -> 0 < uptr ->
  (forall x, uptr <= x < uptr + Z.of_nat n -> user_va x) ->
  exists rc str l' A', cstr_loop n l uptr kbuf = Some (rc, str, l') /\ same_mem l A rs l' A' /\
    (rc = 0 /\ (exists t, ustring (umem l rs) uptr n = Some t /\ str = kbuf ++ t) \/
     rc = -1 /\ (ustring (umem l rs) uptr n = None \/ dry l')).
Proof.
  induction n as [|n IH]; intros l A rs uptr kbuf Hok Hwp Hp Hu.
  { exists (-1), kbuf, l, A. split_and!; [done|by apply same_refl|]. right. split; [done|by left]. }
  cbn [cstr_loop ustring]. destruct (copy_from_user_ok l A rs uptr 1 Hok Hwp Hp ltac:(lia)) as ([[rc c] l1] & -> & (A1 & Hs) & Hrd & Hrc);
    [intros; apply Hu; lia|]. destruct Hrc as [[-> Hc]|(-> & Hc & Hb & Hr)]; cbn [Z.eqb negb].
  - destruct c as [|b [|b' c]]; try (unfold zlen in Hc; simpl in Hc; lia). specialize (Hrd 0%nat ltac:(simpl; lia)).
    rewrite Z.add_0_r in Hrd. change ([b] !! 0%nat) with (Some b) in Hrd. rewrite <- Hrd. cbn [hd].
    destruct (Z.eqb_spec b 0) as [->|Hne].
    + exists 0, kbuf, l1, A1. split_and!; [done|done|]. left. split; [done|]. exists []. by rewrite app_nil_r.
    + assert (Hu1 : user_va uptr) by (apply Hu; lia). rewrite u64_small by (destruct Hu1; lia).
      assert (Hwp1 : whole_pages (regions l1 rs)) by (unfold regions; by rewrite (sm_pool _ _ _ _ _ Hs)).
      destruct (IH l1 A1 rs (uptr + 1) (kbuf ++ [b]) (sm_ok _ _ _ _ _ Hs) Hwp1 ltac:(lia) ltac:(intros; apply Hu; lia))
        as (rc & str & l2 & A2 & -> & Hs2 & Hres). exists rc, str, l2, A2. split_and!; [done|by eapply same_trans|].
      rewrite (ustring_ext _ (umem l rs)) in Hres by (intros y Hy; apply (sm_mem _ _ _ _ _ Hs), Hu; lia).
      destruct Hres as [(-> & t & -> & ->)|(-> & Hres)]; [left|right]; (split; [done|]).
      * exists (b :: t). split; [done|]. by rewrite <- app_assoc.
      * destruct Hres as [->|Hd]; [by left|by right].
  - exists (-1), kbuf, l1, A1. split_and!; [done|done|]. right. split; [done|].
    assert (c = []) as -> by (destruct c; [done|unfold zlen in Hc; simpl in Hc; lia]). rewrite Z.add_0_r in Hb, Hr.
    destruct Hr as [Hp0|[[? _]|Hd]]; [|done|by right]. left. unfold umem. by rewrite Hb, Hp0.
Qed.


(** ** The theorems *)

(** What [validate_user_ptr] accepts: the lower half without its first page.
    The window from 64 MB to 4 GB, where every process has the kernel's own
    tables, is included. *)
Lemma validate_user_ptr_spec addr size : 0 <= addr < 2 ^ 64 -> 0 <= size < 2 ^ 64 ->
  validate_user_ptr addr size = true <-> 0x1000 <= addr < 2 ^ 47 /\ addr + size <= 2 ^ 47.
Proof.
  intros Ha Hs. unfold validate_user_ptr. change 0x0000800000000000 with (2 ^ 47).
  destruct (Z.eqb_spec addr 0); [lia|]. destruct (Z.ltb_spec addr 0x1000); [lia|]. destruct (Z.leb_spec (2 ^ 47) addr); [lia|].
  destruct (Z.ltb_spec 0 size); cbn [andb]; [|lia].
  destruct (decide (addr + size < 2 ^ 64)) as [Hl|Hl].
  - rewrite u64_small by lia. destruct (Z.ltb_spec (addr + size) addr); [lia|]. destruct (Z.ltb_spec (2 ^ 47) (addr + size)); lia.
  - replace ((addr + size) mod 2 ^ 64) with (addr + size - 2 ^ 64).
    + rewrite (proj2 (Z.ltb_lt _ _)) by lia. lia.
    + symmetry. rewrite <- (Z.mod_add _ (-1)) by lia. rewrite Z.mod_small by lia. lia.
Qed.

(** C38: [copy_to_user] into the memory of the calling process, whatever part
    of it has been touched before: it returns.  A result of 0 means that the
    process now finds the bytes at [udst] and everything else as it was; -1
    that a part up to an absent page has been stored, where no region covers
    the address, or a read-only one, or memory has run out.  Either way the
    address space stays consistent and no block outside its tables and pages
    is written. *)
Theorem copy_to_user_correct l A rs udst src : lok l A rs -> whole_pages (regions l rs) -> 0 < udst -> Forall is_byte src ->
  (forall x, udst <= x < udst + zlen src -> user_va x) ->
  exists rc l' A' n, copy_to_user l udst src = Some (rc, l') /\
    lok l' A' rs /\ A ⊆ A' /\ l_pool l' = l_pool l /\ l_vm l' = l_vm l /\ keeps_others (root l) (l_pm l) A (l_pm l') /\
    (forall x, user_va x -> umem l' rs x =
       if decide (udst <= x < udst + Z.of_nat n) then src !! Z.to_nat (x - udst) else umem l rs x) /\
    (rc = 0 /\ n = length src \/
     rc = -1 /\ (n < length src)%nat /\ refused l rs true (udst + Z.of_nat n) l').
Proof.
  intros Hok Hwp Hp Hb Hu. destruct (copy_to_user_ok l A rs udst src Hok Hwp Hp Hb Hu) as ([rc l'] & E & n & A' & Hn & Hw & Hrc).
  exists rc, l', A', n. destruct Hw as [w1 w2 w3 w4 w5 w6 w7 w8 w9]. split_and!; try done; try apply w9.
  intros x Hx. rewrite w6 by done. unfold zlen. rewrite length_take, Nat.min_l by done. case_decide; [|done].
  apply lookup_take_lt. lia.
Qed.

(** what [copy_to_user] has stored is what [copy_from_user] then returns,
    at any length, and even when no memory is left. *)
Theorem user_copy_roundtrip l A rs udst src l' : lok l A rs -> whole_pages (regions l rs) -> 0 < udst -> Forall is_byte src ->
  (forall x, udst <= x < udst + zlen src -> user_va x) -> copy_to_user l udst src = Some (0, l') ->
  exists l'', copy_from_user l' udst (zlen src) = Some (0, src, l'').
Proof.
  intros Hok Hwp Hp Hb Hu E. destruct (copy_to_user_ok l A rs udst src Hok Hwp Hp Hb Hu) as ([rc l1] & E1 & n & A' & Hn & Hw & Hrc).
  rewrite E in E1. injection E1 as <- <-. destruct Hrc as [[_ ->]|[? _]]; [|done]. rewrite firstn_all in Hw.
  assert (Hwp1 : whole_pages (regions l' rs)) by (unfold regions; by rewrite (wr_pool _ _ _ _ _ _ _ Hw)).
  pose proof (zlen_nonneg src) as Hz.
  assert (Hlt : zlen src < 2 ^ 64) by (destruct (decide (zlen src = 0)); [lia|destruct (Hu (udst + zlen src - 1)); lia]).
  destruct (copy_from_user_ok l' A' rs udst (zlen src) (wr_ok _ _ _ _ _ _ _ Hw) Hwp1 Hp ltac:(lia) Hu) as ([[rc dst] l2] & -> & _ & Hrd & Hrc).
  exists l2. destruct Hrc as [[-> Hlen]|(_ & Hlen & Hno & _)].
  - do 3 f_equal. apply list_eq. intros i. destruct (decide (i < length dst)%nat) as [Hi|Hi].
    + rewrite Hrd by done. rewrite (wr_mem _ _ _ _ _ _ _ Hw) by (apply Hu; unfold zlen in *; lia).
      rewrite decide_True by (unfold zlen in *; lia). f_equal. lia.
    + rewrite !lookup_ge_None_2 by (unfold zlen in *; lia). done.
  - exfalso. pose proof (zlen_nonneg dst). destruct (wr_there _ _ _ _ _ _ _ Hw (udst + zlen dst)) as [? ?]; [apply Hu; lia|lia|congruence].
Qed.

(** [copy_user_cstr] returns 0 exactly with the zero-terminated string the
    process has at the pointer; it fails only if there is no such string
    within the limit, or memory has run out.  The memory of the process is the
    same afterwards. *)
Theorem copy_user_cstr_correct l A rs kcap uptr max_u : lok l A rs -> whole_pages (regions l rs) ->
  0 < kcap -> 0 <= max_u -> 0x1000 <= uptr -> (forall x, uptr <= x < uptr + kcap -> user_va x) ->
  exists rc str l' A', copy_user_cstr l kcap uptr max_u = Some (rc, str, l') /\ same_mem l A rs l' A' /\
    let lim := Z.to_nat (Z.min (kcap - 1) max_u) in
    (rc = 0 /\ ustring (umem l rs) uptr lim = Some str \/
     rc = -1 /\ (ustring (umem l rs) uptr lim = None \/ dry l')).
Proof.
  intros Hok Hwp Hk Hm Hp Hu. unfold copy_user_cstr. destruct (Hu uptr) as [Hr _]; [lia|].
  rewrite (proj2 (validate_user_ptr_spec uptr 1 ltac:(lia) ltac:(lia))) by lia. rewrite (proj2 (Z.eqb_neq kcap 0)) by lia. cbn [orb negb].
  replace (if max_u <? kcap - 1 then max_u else kcap - 1) with (Z.min (kcap - 1) max_u) by (destruct (Z.ltb_spec max_u (kcap - 1)); lia).
  destruct (cstr_loop_ok (Z.to_nat (Z.min (kcap - 1) max_u)) l A rs uptr [] Hok Hwp ltac:(lia)) as (rc & str & l' & A' & -> & Hs & Hres);
    [intros; apply Hu; lia|]. exists rc, str, l', A'. split_and!; [done|done|].
  destruct Hres as [(-> & t & Ht & ->)|Hres]; [by left|by right].
Qed.

End Proofs.
End UserAccThm.
