(* ===== verification/Machine.v ===== *)
(** * The state of the whole kernel

    The scheduler runs over an environment; [machine] is the environment that
    holds the state of the memory manager, the file system, the heap, the user
    table, the console and the network.  The interfaces of the scheduler and
    of the program loaders are implemented by the operations of AddrSpace and
    Vfs on it.  The console and the network are used through classes. *)

From S2P Require Import Prelude Phys PhysInv PageAlloc PageTable Region AddrSpace AddrLife Bytes CString Ringbuf Usr Vfs UserMem UserStack Elf Loader RbTree Sched Spawn SpawnThm.
From Stdlib Require Import ZArith Lia.
From stdpp Require Import base list gmap numbers.
Open Scope Z_scope.

Module Machine.
Import PageAlloc AddrSpace UserMem UserStack Elf.

(** The console: [putc] writes a character, [drain_rx] discards what a serial
    line echoed, [getc_nb] takes a character if there is one, [wait_tick] is
    the wait for the next interrupt. *)
Class Console (C : Type) := {
  putc : C -> Z -> C;
  drain_rx : C -> C;
  getc_nb : C -> option Z * C;
  wait_tick : C -> C }.

(** kernel/net: the results are those of the functions; a buffer that is
    filled is its list of bytes, [None] a negative result. *)
Class Net (N : Type) := {
  net_udp_send : N -> Z -> Z -> Z -> list Z -> Z * N;
  net_udp_recv : N -> Z -> option (list Z * Z * Z) * N;
  net_icmp_ping : N -> Z -> Z * Z * N;
  net_tcp_connect : N -> Z -> Z -> Z * Z * N;
  net_tcp_send : N -> Z -> list Z -> Z * N;
  net_tcp_recv : N -> Z -> Z -> Z -> option (list Z) * N;
  net_tcp_close : N -> Z -> N;
  net_dns_resolve : N -> list Z -> Z * Z * N;
  net_tls_connect : N -> Z -> list Z -> Z * N;
  net_tls_send : N -> Z -> list Z -> Z * N;
  net_tls_recv : N -> Z -> Z -> Z -> option (list Z) * N;
  net_tls_close : N -> Z -> N }.

(** [port_send] as the file system calls it, and [mm_get_meminfo]. *)
Class Ports (W : Type) := { port_send : Vfs.vfs_state W -> Z -> list Z -> Z * Vfs.vfs_state W }.
(** The bytes of the heap at an address, read as a ring. *)
Class HeapRing (H : Type) := { ring_at : H -> Z -> Ringbuf.ringbuf_t }.
Class MemInfo (S : Type) := { meminfo : S -> Z * Z }.
#[export] Instance phys_meminfo : MemInfo Phys.phys_state_t := { meminfo := Phys.mm_get_meminfo }.

Record machine (S W H C N : Type) := mkMachine {
  k_as : as_state S;
  k_fs : Vfs.vfs_state W;
  k_heap : H;
  k_users : list Usr.asd_user_t;
  k_con : C;
  k_net : N;
  k_ticks : Z;                       (* pit_ticks() *)
  k_hostname : list Z;               (* g_hostname *)
  k_kents : list Vfs.vfs_dirent_t;   (* the static array of sys_readdir *)
  k_shell : Z * Z                    (* g_shell_uid, g_shell_gid *) }.
Arguments mkMachine {S W H C N}.
Arguments k_as {S W H C N}.
Arguments k_fs {S W H C N}.
Arguments k_heap {S W H C N}.
Arguments k_users {S W H C N}.
Arguments k_con {S W H C N}.
Arguments k_net {S W H C N}.
Arguments k_ticks {S W H C N}.
Arguments k_hostname {S W H C N}.
Arguments k_kents {S W H C N}.
Arguments k_shell {S W H C N}.

Section Machine.
Context {S W H C N : Type}.
Abbreviation mach := (machine S W H C N).

Definition put_k_as (k : mach) (a : as_state S) : mach :=
  mkMachine a (k_fs k) (k_heap k) (k_users k) (k_con k) (k_net k) (k_ticks k) (k_hostname k) (k_kents k) (k_shell k).
Definition put_k_fs (k : mach) (f : Vfs.vfs_state W) : mach :=
  mkMachine (k_as k) f (k_heap k) (k_users k) (k_con k) (k_net k) (k_ticks k) (k_hostname k) (k_kents k) (k_shell k).
Definition put_k_heap (k : mach) (h : H) : mach :=
  mkMachine (k_as k) (k_fs k) h (k_users k) (k_con k) (k_net k) (k_ticks k) (k_hostname k) (k_kents k) (k_shell k).
Definition put_k_con (k : mach) (c : C) : mach :=
  mkMachine (k_as k) (k_fs k) (k_heap k) (k_users k) c (k_net k) (k_ticks k) (k_hostname k) (k_kents k) (k_shell k).
Definition put_k_net (k : mach) (n : N) : mach :=
  mkMachine (k_as k) (k_fs k) (k_heap k) (k_users k) (k_con k) n (k_ticks k) (k_hostname k) (k_kents k) (k_shell k).
Definition put_k_kents (k : mach) (d : list Vfs.vfs_dirent_t) : mach :=
  mkMachine (k_as k) (k_fs k) (k_heap k) (k_users k) (k_con k) (k_net k) (k_ticks k) (k_hostname k) d (k_shell k).

(** A pointer to slot [i] of [g_vmap_pool] is [i + 1], [NULL] is 0. *)
Definition vmap_ptr (i : nat) : Z := Z.of_nat i + 1.
Definition vmap_slot (p : Z) : option nat := if p =? 0 then None else Some (Z.to_nat (p - 1)).

(** The process a descriptor table belongs to, as Vfs names it. *)
Definition fd_owner (p : Sched.pcb_ref) : nat :=
  match p with
  | Sched.Proc i => Z.to_nat i
  | Sched.Boot => Z.to_nat Sched.MAX_PROCS
  | Sched.Idle i => Z.to_nat (Sched.MAX_PROCS + 1 + i)
  end.

Context `{PageMem S} `{!Bytes.KHeap H}.

(** [amm_vmap_destroy] returns on every consistent address space; a walk
    without end is left out. *)
#[export] Instance machine_sched : Sched.SchedEnv mach := {
  kmalloc k n := let '(p, h) := Bytes.kmalloc (k_heap k) n in (p, put_k_heap k h);
  kfree k p := put_k_heap k (Bytes.kfree (k_heap k) p);
  amm_vmap_create k :=
    let '(i, a) := AddrSpace.amm_vmap_create (k_as k) in
    (match i with Some i => vmap_ptr i | None => 0 end, put_k_as k a);
  amm_vmap_destroy k m := put_k_as k (default (k_as k) (AddrSpace.amm_vmap_destroy (k_as k) (vmap_slot m)));
  vfs_fd_inherit k c p := put_k_fs k (Vfs.vfs_fd_inherit (k_fs k) (Some (fd_owner c)) (Some (fd_owner p)));
  vfs_close_all k p := put_k_fs k (Vfs.vfs_close_all (k_fs k) (Some (fd_owner p))) }.

(** Pseudo-descriptors belong to no process, so no current process is needed;
    a transfer that does not end reads as an error. *)
#[export] Instance machine_exec : Spawn.ExecEnv S mach := {
  as_of := k_as;
  with_as := put_k_as;
  vm_addr := vmap_ptr;
  vfs_open k p := let '(fd, f) := Vfs.vfs_open (k_fs k) (Some p) Vfs.VFS_O_READ None in (fd, put_k_fs k f);
  vfs_read k fd n :=
    match Vfs.vfs_read (k_fs k) None (Z.to_nat fd) true (Z.to_nat n) true with
    | Some (rc, bs, f) => (rc, bs, put_k_fs k f)
    | None => (-1, [], k)
    end;
  vfs_close k fd := put_k_fs k (Vfs.vfs_close (k_fs k) None (Z.to_nat fd)).2;
  g_shell_uid k := (k_shell k).1;
  g_shell_gid k := (k_shell k).2 }.

End Machine.
End Machine.
