(* ===== verification/Syscall.v ===== *)
(** * kernel/arch/syscall.c: the system calls

    Every handler of the dispatch table over the state of the whole kernel: the
    scheduler with the environment of Machine.  A system call returns a value
    ([SRet]), or control goes to another process ([SLeaves]: exit, yield;
    [SWaits]: the child of [sys_wait] runs).  [Hang] is a call that does not
    come back, [Fault] a dereference of [NULL]. *)

From S2P Require Import Prelude Phys PhysInv PageAlloc PageTable Region AddrSpace Bytes CString Ringbuf Usr Vfs UserMem UserStack Elf Loader UserAccess Macho RbTree Sched Spawn Machine.
From Stdlib Require Import ZArith Lia String.
From stdpp Require Import base list gmap numbers.
Open Scope Z_scope.

Module Syscall.
Import PageAlloc PageTable AddrSpace UserMem UserStack Elf UserAccess Sched Spawn Machine.
Import Bytes(le_bytes, le_val).

Definition i32 (x : Z) : Z := (x + 2 ^ 31) mod 2 ^ 32 - 2 ^ 31.
(** [(uint64_t)(int64_t)r] *)
Definition ret (r : Z) : Z := u64 r.

Definition ESYS_FAULT : Z := u64 (-14).
Definition ESYS_INVAL : Z := u64 (-22).
Definition ESYS_PERM : Z := u64 (-1).
Definition ESYS_NOSYS : Z := u64 (-38).
Definition ESYS_OVERFLOW : Z := u64 (-75).

Definition SLASH : Z := 47.
Definition KBUF : Z := 4096.
Definition MMAP_BASE : Z := 0x0000500000000000.
Definition MMAP_LIMIT : Z := 0x0000700000000000.
Definition BRK_BASE : Z := 0x0000600000000000.
Definition BRK_LIMIT : Z := 256 * 1024 * 1024.
Definition RGN_HEAP : Z := 2.
Definition UTSNAME_LEN : nat := 65.
Definition SIGTERM : Z := 1.
Definition SIGKILL : Z := 9.

(** The structures the kernel copies out, byte by byte; [pad] are the padding
    bytes of the object they are copied from. *)
Definition stat_bytes (st : Vfs.stat_info_t) (pad : list Z) : list Z :=
  le_bytes 8 (u64 (Vfs.st_size st)) ++ le_bytes 1 (Vfs.st_kind st) ++ take 7 pad ++ le_bytes 8 (Vfs.st_mtime_ns st) ++
  take 256 (Vfs.st_name st ++ replicate 256 0) ++
  le_bytes 2 (Vfs.st_uid st) ++ le_bytes 2 (Vfs.st_gid st) ++ le_bytes 2 (Vfs.st_mode st) ++ take 2 (drop 7 pad).
Definition SIZEOF_STAT : Z := 288.
Definition dirent_bytes (d : Vfs.vfs_dirent_t) : list Z :=
  take 256 (Vfs.d_name d ++ replicate 256 0) ++ le_bytes 1 (Vfs.d_kind d) ++ replicate 7 0 ++ le_bytes 8 (u64 (Vfs.d_size d)).
Definition SIZEOF_DIRENT : Z := 272.
Definition info_bytes (i : exit_info_t) (pad : list Z) : list Z :=
  le_bytes 4 (u32 (i_exit_code i)) ++ take 4 pad ++ le_bytes 8 (i_cpu_ns i) ++ le_bytes 8 (i_wall_ns i).
Definition SIZEOF_INFO : Z := 24.

(** Field updates of a process control block. *)
Definition set_uid (v : pcb_t) (x : Z) : pcb_t :=
  mkPcb (pid v) (state v) (sched_class v) (cpu v) (priority v) (base_pri v) (cpu_ns v) (wake_ns v) (deadline_ns v) (va_map v)
    (exit_code v) (name v) x (gid v) (groups v) (ppid v) (sig_pending v) (cwd v) (mmap_bump v) (brk_cur v) (kstack v) (kstack_top v) (regs v).
Definition set_gid (v : pcb_t) (x : Z) : pcb_t :=
  mkPcb (pid v) (state v) (sched_class v) (cpu v) (priority v) (base_pri v) (cpu_ns v) (wake_ns v) (deadline_ns v) (va_map v)
    (exit_code v) (name v) (uid v) x (groups v) (ppid v) (sig_pending v) (cwd v) (mmap_bump v) (brk_cur v) (kstack v) (kstack_top v) (regs v).
Definition set_cwd (v : pcb_t) (x : list Z) : pcb_t :=
  mkPcb (pid v) (state v) (sched_class v) (cpu v) (priority v) (base_pri v) (cpu_ns v) (wake_ns v) (deadline_ns v) (va_map v)
    (exit_code v) (name v) (uid v) (gid v) (groups v) (ppid v) (sig_pending v) x (mmap_bump v) (brk_cur v) (kstack v) (kstack_top v) (regs v).
Definition set_mmap_bump (v : pcb_t) (x : Z) : pcb_t :=
  mkPcb (pid v) (state v) (sched_class v) (cpu v) (priority v) (base_pri v) (cpu_ns v) (wake_ns v) (deadline_ns v) (va_map v)
    (exit_code v) (name v) (uid v) (gid v) (groups v) (ppid v) (sig_pending v) (cwd v) x (brk_cur v) (kstack v) (kstack_top v) (regs v).
Definition set_brk_cur (v : pcb_t) (x : Z) : pcb_t :=
  mkPcb (pid v) (state v) (sched_class v) (cpu v) (priority v) (base_pri v) (cpu_ns v) (wake_ns v) (deadline_ns v) (va_map v)
    (exit_code v) (name v) (uid v) (gid v) (groups v) (ppid v) (sig_pending v) (cwd v) (mmap_bump v) x (kstack v) (kstack_top v) (regs v).

Section Ops.
Context {S W H C N : Type} `{PageMem S} `{!MemInfo S} `{!Bytes.KHeap H} `{!HeapRing H} `{!Console C} `{!Net N} `{!Ports W}.
Abbreviation mach := (machine S W H C N).
Implicit Types (s : sched mach).
(** [amm_get_kernel_cr3()], the address of [g_bootstrap_kstack], and what the
    kernel stack holds where the handlers keep their locals. *)
Variables (kernel_cr3 g_bootstrap_kstack : Z) (kst0 : Vfs.stat_info_t) (ku0 pad0 : list Z).

Inductive sysres :=
  | SRet (v : Z) (s : sched mach)
  | SLeaves (o : outcome mach)
  | SWaits (fr : reap_frame) (info_u : Z) (s : sched mach).

(** ** User memory of the current process *)

Definition cur_map s : option nat :=
  match sched_current s with None => None | Some p => vmap_slot (va_map (procs s p)) end.

(** [f] in the address space of the current process; [dflt] without one. *)
Definition on_user {X} s (f : lstate S -> option (X * lstate S)) (dflt : X) : res (X * sched mach) :=
  match cur_map s with
  | None => Ok (dflt, s)
  | Some vm =>
      match f (lview (as_of (env s)) vm) with
      | None => Hang
      | Some (x, l) => Ok (x, put_as s (lstore (as_of (env s)) vm l))
      end
  end.

Definition copy_in s (usrc n : Z) : res (Z * list Z * sched mach) :=
  on_user s (fun l => copy_from_user l usrc n) (if (usrc =? 0) || (n =? 0) then 0 else -1, []).
Definition copy_out s (udst : Z) (src : list Z) : res (Z * sched mach) :=
  on_user s (fun l => copy_to_user l udst src) (if (udst =? 0) || (zlen src =? 0) then 0 else -1).
Definition cstr_in s (kcap uptr max_u : Z) : res (Z * list Z * sched mach) :=
  on_user s (fun l => copy_user_cstr l kcap uptr max_u) (-1, []).

Definition put_fs s (f : Vfs.vfs_state W) : sched mach := put_env s (put_k_fs (env s) f).
Definition put_con s (c : C) : sched mach := put_env s (put_k_con (env s) c).
Definition put_net s (n : N) : sched mach := put_env s (put_k_net (env s) n).
Definition fs_of s : Vfs.vfs_state W := k_fs (env s).
(** The process whose descriptors the VFS uses. *)
Definition caller s : option nat := fd_owner <$> sched_current s.
Definition fd_nat (fd : Z) : nat := Z.to_nat (u32 fd).

(** [return v] after a copy that must succeed. *)
Definition out_or_fault s (udst : Z) (src : list Z) (v : Z) : res sysres :=
  let! (rc, s) := copy_out s udst src in
  Ok (SRet (if negb (rc =? 0) then ESYS_FAULT else v) s).

(** ** Paths *)

Definition resolve_with_cwd s (path : list Z) : list Z :=
  if (hd 0 path =? SLASH) || (hd 0 path =? 0) then path
  else match sched_current s with
  | None => path
  | Some cur =>
      if negb (hd 0 (cwd (procs s cur)) =? SLASH) then path
      else
        let tmp := take 255 (cwd (procs s cur)) in
        let tmp := if (length tmp =? 0)%nat || negb (List.last tmp 0 =? SLASH)
                   then if (length tmp <? 255)%nat then tmp ++ [SLASH] else tmp else tmp in
        take 255 (tmp ++ path)
  end.

(** The handlers that begin with [copy_user_cstr] and [resolve_with_cwd]. *)
Definition with_path s (path_u : Z) (k : list Z -> sched mach -> res sysres) : res sysres :=
  let! (rc, path, s) := cstr_in s VFS_PATH_MAX path_u VFS_PATH_MAX in
  if negb (rc =? 0) then Ok (SRet ESYS_FAULT s) else k (resolve_with_cwd s path) s.

Definition sys_open s (path_u flags : Z) : res sysres :=
  with_path s path_u (fun path s =>
    let '(fd, f) := Vfs.vfs_open (fs_of s) (Some path) (i32 flags) (caller s) in
    Ok (SRet (ret (i32 fd)) (put_fs s f))).

Definition sys_close s (fd : Z) : res sysres :=
  let '(r, f) := Vfs.vfs_close (fs_of s) (caller s) (fd_nat fd) in Ok (SRet (ret r) (put_fs s f)).

Definition sys_stat s (path_u st_u : Z) : res sysres :=
  if negb (validate_user_ptr st_u SIZEOF_STAT) then Ok (SRet ESYS_FAULT s)
  else with_path s path_u (fun path s =>
    let '(r, st, f) := Vfs.vfs_stat (fs_of s) (Some path) (Some kst0) in
    let s := put_fs s f in
    if negb (r =? 0) then Ok (SRet (ret r) s)
    else out_or_fault s st_u (stat_bytes (default kst0 st) pad0) 0).

Definition sys_seek s (fd off whence : Z) : res sysres :=
  let '(r, f) := Vfs.vfs_seek (fs_of s) (caller s) (fd_nat fd) (Vfs.s64 off) (i32 whence) in
  Ok (SRet (ret r) (put_fs s f)).

Definition sys_mkdir s (path_u : Z) : res sysres :=
  with_path s path_u (fun path s =>
    let '(r, f) := Vfs.vfs_mkdir (fs_of s) (Some path) in Ok (SRet (ret r) (put_fs s f))).

Definition sys_unlink s (path_u : Z) : res sysres :=
  with_path s path_u (fun path s =>
    let '(r, f) := Vfs.vfs_unlink (fs_of s) (Some path) in Ok (SRet (ret r) (put_fs s f))).

Definition sys_readdir s (path_u buf_u cap nout_u : Z) : res sysres :=
  with_path s path_u (fun path s =>
    let cap := if 256 <? cap then 256 else cap in
    if (0 <? cap) && negb (validate_user_ptr buf_u (cap * SIZEOF_DIRENT)) then Ok (SRet ESYS_FAULT s)
    else if negb (validate_user_ptr nout_u 4) then Ok (SRet ESYS_FAULT s)
    else
      let kents := k_kents (env s) in
      let '(r, (es, n), f) := Vfs.vfs_readdir (fs_of s) (Some path) (Some (take (Z.to_nat cap) kents)) in
      let kents := es ++ drop (length es) kents in
      let s := put_fs (put_env s (put_k_kents (env s) kents)) f in
      let n := default 0%nat n in
      if negb (r =? 0) then Ok (SRet (ret r) s)
      else
        let! (rc, s) := if (0 <? n)%nat then copy_out s buf_u (flat_map dirent_bytes (take n kents)) else Ok (0, s) in
        if negb (rc =? 0) then Ok (SRet ESYS_FAULT s) else out_or_fault s nout_u (le_bytes 4 (Z.of_nat n)) 0).

(** ** Reading and writing *)

(** [_cur->fd_table[fd] != NULL] *)
Definition redirected s (fd : nat) : bool :=
  match sched_current s with
  | Some p => bool_decide (is_Some (Vfs.fds (fs_of s) !! (fd_owner p, fd)))
  | None => false
  end.

(** One round of the loop on the keyboard. *)
Definition key_round (buf n : Z) (x : sched mach * Z) : (sched mach * Z) + res sysres :=
  let '(s, got) := x in
  if negb (got <? n) then inr (Ok (SRet got s))
  else
    let '(c, con) := getc_nb (k_con (env s)) in
    let s := put_con s con in
    match c with
    | Some c =>
        match copy_out s (u64 (buf + got)) [u8 c] with
        | Hang => inr Hang
        | Fault => inr Fault
        | Ok (rc, s) =>
            if negb (rc =? 0) then inr (Ok (SRet ESYS_FAULT s))
            else if n =? 1 then inr (Ok (SRet (got + 1) s)) else inl (s, got + 1)
        end
    | None =>
        if 0 <? got then inr (Ok (SRet got s)) else inl (put_con s (wait_tick (k_con (env s))), got)
    end.

(** One round of the loop on a file. *)
Definition file_read_round (fd buf n : Z) (x : sched mach * Z) : (sched mach * Z) + res sysres :=
  let '(s, total) := x in
  if negb (total <? n) then inr (Ok (SRet total s))
  else
    let chunk := n - total in
    let chunk := if KBUF <? chunk then KBUF else chunk in
    match Vfs.vfs_read (fs_of s) (caller s) (fd_nat fd) true (Z.to_nat chunk) true with
    | None => inr Hang
    | Some (r, kbuf, f) =>
        let s := put_fs s f in
        if r <? 0 then inr (Ok (SRet (if total =? 0 then ret r else total) s))
        else if zlen kbuf =? 0 then inr (Ok (SRet total s))
        else match copy_out s (u64 (buf + total)) kbuf with
        | Hang => inr Hang
        | Fault => inr Fault
        | Ok (rc, s) =>
            if negb (rc =? 0) then inr (Ok (SRet ESYS_FAULT s)) else inl (s, total + zlen kbuf)
        end
    end.

(** A loop that leaves with the result of the handler. *)
Definition run {X} (f : X -> X + res sysres) (x : X) : res sysres :=
  match loop f ROUNDS x with inl _ => Hang | inr r => r end.

Definition sys_read s (fd buf n : Z) : res sysres :=
  if n =? 0 then Ok (SRet 0 s)
  else if negb (validate_user_ptr buf n) then Ok (SRet ESYS_FAULT s)
  else if (fd =? 0) && negb (redirected s 0) then run (key_round buf n) (s, 0)
  else run (file_read_round fd buf n) (s, 0).

Fixpoint puts (c : C) (bs : list Z) : C := match bs with [] => c | b :: bs => puts (putc c b) bs end.

Definition screen_round (buf n : Z) (x : sched mach * Z) : (sched mach * Z) + res sysres :=
  let '(s, done) := x in
  if negb (done <? n) then inr (Ok (SRet n (put_con s (drain_rx (k_con (env s))))))
  else
    let chunk := n - done in
    let chunk := if 256 <? chunk then 256 else chunk in
    match copy_in s (u64 (buf + done)) chunk with
    | Hang => inr Hang
    | Fault => inr Fault
    | Ok (rc, kbuf, s) =>
        if negb (rc =? 0) then inr (Ok (SRet ESYS_FAULT s))
        else inl (put_con s (puts (k_con (env s)) kbuf), done + chunk)
    end.

Definition file_write_round (fd buf n : Z) (x : sched mach * Z) : (sched mach * Z) + res sysres :=
  let '(s, total) := x in
  if negb (total <? n) then inr (Ok (SRet total s))
  else
    let chunk := n - total in
    let chunk := if KBUF <? chunk then KBUF else chunk in
    match copy_in s (u64 (buf + total)) chunk with
    | Hang => inr Hang
    | Fault => inr Fault
    | Ok (rc, kbuf, s) =>
        if negb (rc =? 0) then inr (Ok (SRet ESYS_FAULT s))
        else match Vfs.vfs_write port_send (fs_of s) (caller s) (fd_nat fd) (Some kbuf) with
        | None => inr Hang
        | Some (r, f) =>
            let s := put_fs s f in
            if r <? 0 then inr (Ok (SRet (if total =? 0 then ret r else total) s)) else inl (s, total + chunk)
        end
    end.

Definition sys_write s (fd buf n : Z) : res sysres :=
  if n =? 0 then Ok (SRet 0 s)
  else if negb (validate_user_ptr buf n) then Ok (SRet ESYS_FAULT s)
  else if ((fd =? 1) || (fd =? 2)) && negb (redirected s (Z.to_nat fd)) then run (screen_round buf n) (s, 0)
  else if fd =? 0 then Ok (SRet ESYS_INVAL s)
  else run (file_write_round fd buf n) (s, 0).

(** ** Processes *)

Definition sys_exit s (code : Z) : res sysres :=
  let! o := sched_exit kernel_cr3 g_bootstrap_kstack s (i32 code) in Ok (SLeaves o).

Definition sys_getpid s : Z := match sched_current s with Some p => pid (procs s p) | None => 0 end.
Definition sys_getuid s : Z := match sched_current s with Some p => uid (procs s p) | None => 0 end.
Definition sys_getgid s : Z := match sched_current s with Some p => gid (procs s p) | None => 0 end.
Definition sys_time s : Z := u64 (k_ticks (env s) * 10000000).

(** [tsc], [regs_now]: the clock and the registers [sched_yield] saves. *)
Definition sys_yield s (tsc : Z) (regs_now : cpu_context_t) : res sysres :=
  let! o := sched_yield kernel_cr3 s tsc regs_now in
  match o with
  | Returned s => Ok (SRet 0 s)
  | o => Ok (SLeaves o)
  end.

Definition sys_spawn s (path_u argv_u envp_u : Z) : res sysres :=
  let! (rc, kpath, s) := cstr_in s VFS_PATH_MAX path_u VFS_PATH_MAX in
  if negb (rc =? 0) then Ok (SRet ESYS_FAULT s)
  else
    let! (ok, s) := on_user s (fun l => validate_user_str_array l argv_u 64 VFS_PATH_MAX) (argv_u =? 0) in
    if negb ok then Ok (SRet ESYS_FAULT s)
    else
      let! (ok, s) := on_user s (fun l => validate_user_str_array l envp_u 64 VFS_PATH_MAX) (envp_u =? 0) in
      if negb ok then Ok (SRet ESYS_FAULT s)
      else
        let! (rc, argv, s) := on_user s (fun l => copy_user_cstr_array l argv_u) (if argv_u =? 0 then 0 else -1, []) in
        if negb (rc =? 0) then Ok (SRet ESYS_FAULT s)
        else
          let! (rc, envp, s) := on_user s (fun l => copy_user_cstr_array l envp_u) (if envp_u =? 0 then 0 else -1, []) in
          if negb (rc =? 0) then Ok (SRet ESYS_FAULT s)
          else
            let! (pid, s) := macho_spawn s kpath (Some argv) (if negb (envp_u =? 0) then Some envp else None) in
            Ok (SRet (if negb (pid =? 0) then pid else u64 (-1)) s).

(** Up to the point where the child runs, or was found finished; and the rest. *)
Definition sys_wait_end s (fr : reap_frame) (info_u : Z) : res sysres :=
  let '(kinfo, s) := sched_reap_end g_bootstrap_kstack s fr in
  if negb (info_u =? 0) then out_or_fault s info_u (info_bytes kinfo pad0) 0 else Ok (SRet 0 s).

Definition sys_wait s (pid_u info_u : Z) : res sysres :=
  if negb (info_u =? 0) && negb (validate_user_ptr info_u SIZEOF_INFO) then Ok (SRet ESYS_FAULT s)
  else
    let! (r, s) := sched_reap_begin kernel_cr3 s (u32 pid_u) in
    match r with
    | None => Ok (SRet (ret (-1)) s)
    | Some (fr, None) => sys_wait_end s fr info_u
    | Some (fr, Some _) => Ok (SWaits fr info_u s)
    end.

Definition find_user s (u : Z) : option Usr.asd_user_t := List.find (fun x => Usr.uid x =? u) (k_users (env s)).

(** [uid_t] and [gid_t] have 16 bits. *)
Definition sys_setuid s (new_uid : Z) : Z * sched mach :=
  match sched_current s with
  | None => (ESYS_FAULT, s)
  | Some p =>
      let v := procs s p in
      let refuse := negb (uid v =? 0) && negb (u32 new_uid =? uid v) &&
        (if u32 new_uid =? 0
         then match find_user s (uid v) with
              | None => true
              | Some u => negb (has_flag (Usr.flags u) Usr.USR_FLAG_WHEEL)
              end
         else true) in
      if refuse then (ESYS_PERM, s) else (0, put_pcb s p (set_uid v (u16 new_uid)))
  end.

Definition sys_setgid s (new_gid : Z) : Z * sched mach :=
  match sched_current s with
  | None => (ESYS_FAULT, s)
  | Some p =>
      let v := procs s p in
      if negb (uid v =? 0) && negb (u32 new_gid =? gid v) then (ESYS_PERM, s)
      else (0, put_pcb s p (set_gid v (u16 new_gid)))
  end.

Definition sys_kill s (pid_u sig_u : Z) : Z * sched mach :=
  let sig := u32 sig_u in
  if 31 <? sig then (ESYS_INVAL, s)
  else match sched_find s (u32 pid_u) with
  | None => (ESYS_INVAL, s)
  | Some t =>
      if state (procs s t) =? PROC_DEAD then (ESYS_INVAL, s)
      else (0, put_pcb s t (set_sig_pending (procs s t) (Z.lor (sig_pending (procs s t)) (Z.shiftl 1 sig))))
  end.

(** [None]: nothing to do, the process goes on. *)
Definition syscall_check_signals s : res sysres :=
  match sched_current s with
  | None => Ok (SRet 0 s)
  | Some p =>
      let pending := sig_pending (procs s p) in
      if pending =? 0 then Ok (SRet 0 s)
      else
        let s := put_pcb s p (set_sig_pending (procs s p) 0) in
        if has_flag pending (Z.lor (Z.shiftl 1 SIGKILL) (Z.shiftl 1 SIGTERM)) then
          let code := if has_flag pending (Z.shiftl 1 SIGKILL) then -9 else -15 in
          let! o := sched_exit kernel_cr3 g_bootstrap_kstack s code in Ok (SLeaves o)
        else Ok (SRet 0 s)
  end.

(** ** Descriptors *)

Definition sys_pipe s (fds_u : Z) : res sysres :=
  if negb (validate_user_ptr fds_u 8) then Ok (SRet ESYS_FAULT s)
  else match sched_current s with
  | None => Ok (SRet ESYS_INVAL s)
  | Some _ =>
      let '(rb, h) := Bytes.kmalloc (k_heap (env s)) (Ringbuf.ringbuf_required_size 1 4096) in
      let s := put_env s (put_k_heap (env s) h) in
      let area := if rb =? 0 then None else Some (rb, ring_at h rb) in
      let '(r, ends, f) := Vfs.vfs_pipe (fs_of s) (caller s) area in
      let s := put_fs s f in
      match ends with
      | Some (rfd, wfd) => out_or_fault s fds_u (le_bytes 4 (Z.of_nat rfd) ++ le_bytes 4 (Z.of_nat wfd)) 0
      | None =>
          let s := if rb =? 0 then s else put_env s (put_k_heap (env s) (Bytes.kfree (k_heap (env s)) rb)) in
          Ok (SRet ESYS_INVAL s)
      end
  end.

Definition sys_dup2 s (old_u new_u : Z) : Z * sched mach :=
  let '(r, f) := Vfs.vfs_dup2 (fs_of s) (caller s) (fd_nat old_u) (fd_nat new_u) in
  (if r <? 0 then ESYS_INVAL else ret r, put_fs s f).

Definition sys_chdir s (path_u : Z) : res sysres :=
  with_path s path_u (fun path s =>
    match Vfs.vfs_canonicalize (Some path) Vfs.VFS_PATH_MAX with
    | None => Ok (SRet ESYS_INVAL s)
    | Some canon =>
        let '(err, s) :=
          if bool_decide (canon = [SLASH]) then (0, s)
          else
            let '(r, st, f) := Vfs.vfs_stat (fs_of s) (Some canon) (Some kst0) in
            let s := put_fs s f in
            if negb (r =? 0) then (Vfs.VFS_ENOENT, s)
            else if negb (Vfs.st_kind (default kst0 st) =? Vfs.VFS_NODE_DIR) then (-8, s) else (0, s) in
        if negb (err =? 0) then Ok (SRet (ret err) s)
        else match sched_current s with
        | None => Ok (SRet ESYS_FAULT s)
        | Some cur => Ok (SRet 0 (put_pcb s cur (set_cwd (procs s cur) (take 255 canon))))
        end
    end).

Definition sys_getcwd_impl s (buf_u size : Z) : res sysres :=
  if size =? 0 then Ok (SRet ESYS_INVAL s)
  else if negb (validate_user_ptr buf_u size) then Ok (SRet ESYS_FAULT s)
  else
    let cwd := match sched_current s with
               | Some cur => if hd 0 (cwd (procs s cur)) =? SLASH then cwd (procs s cur) else [SLASH]
               | None => [SLASH]
               end in
    let len := zlen cwd in
    let n := if len <? size - 1 then len else size - 1 in
    let! (rc, s) := copy_out s buf_u (take (Z.to_nat n) cwd) in
    if negb (rc =? 0) then Ok (SRet ESYS_FAULT s) else out_or_fault s (u64 (buf_u + n)) [0] n.

(** ** Memory *)

(** The address space of the current process, with the process. *)
Definition cur_space s : option (pcb_ref * nat) :=
  match sched_current s with
  | None => None
  | Some p => match vmap_slot (va_map (procs s p)) with None => None | Some vm => Some (p, vm) end
  end.

(** [amm_region_add] and [amm_region_populate] in the address space [l]. *)
Definition add_region (l : lstate S) (b sz prot kind : Z) : option (Z * lstate S) :=
  match Region.amm_region_add (l_pool l) (Some (l_vm l)) b sz prot kind (-1) with
  | Some (rc, pool, Some vm) => Some (rc, mkLd (l_pm l) pool vm)
  | _ => None
  end.
Definition populate (l : lstate S) (b sz prot : Z) : Z * lstate S :=
  let '(k, pm) := amm_region_populate (l_pm l) (Some (l_vm l)) b sz prot in (k, set_l_pm l pm).

(** The part of [sys_mmap] that works on the address space; [result] is the
    address it will return. *)
Definition mmap_space (l : lstate S) (result bytes kprot : Z) : option (Z * lstate S) :=
  match add_region l result bytes kprot RGN_HEAP with
  | None => None
  | Some (rc, l) =>
      if negb (rc =? 0) then Some (u64 (-1), l)
      else
        let '(k, l) := populate l result bytes kprot in
        Some (if k =? 0 then u64 (-1) else result, l)
  end.

Definition sys_mmap s (addr len prot flags fd_u : Z) : res sysres :=
  if negb (has_flag flags 0x20) then Ok (SRet (u64 (-1)) s)
  else if negb (Vfs.s64 fd_u =? -1) && negb (fd_u =? u64 (-1)) then Ok (SRet (u64 (-1)) s)
  else if len =? 0 then Ok (SRet (u64 (-1)) s)
  else match cur_space s with
  | None => Ok (SRet ESYS_FAULT s)
  | Some (p, vm) =>
      let s := if mmap_bump (procs s p) =? 0 then put_pcb s p (set_mmap_bump (procs s p) MMAP_BASE) else s in
      let pages := u64 (len + 4095) / 4096 in
      let bytes := u64 (pages * 4096) in
      let kprot := Z.land prot (Z.lor (Z.lor PROT_READ PROT_WRITE) PROT_EXEC) in
      let kprot := if kprot =? 0 then Z.lor PROT_READ PROT_WRITE else kprot in
      let bump := mmap_bump (procs s p) in
      if (u64 (bump + bytes) <? bump) || (MMAP_LIMIT <? u64 (bump + bytes)) then Ok (SRet (u64 (-1)) s)
      else
        let s := put_pcb s p (set_mmap_bump (procs s p) (u64 (bump + bytes))) in
        match mmap_space (lview (as_of (env s)) vm) bump bytes kprot with
        | None => Hang
        | Some (v, l) => Ok (SRet v (put_as s (lstore (as_of (env s)) vm l)))
        end
  end.

(** [sys_brk] in the address space: the new break. *)
Definition brk_space (l : lstate S) (brk new_brk : Z) : option (Z * lstate S) :=
  if new_brk =? 0 then Some (brk, l)
  else if new_brk <? BRK_BASE then Some (brk, l)
  else if BRK_BASE + BRK_LIMIT <? new_brk then Some (brk, l)
  else match Region.amm_region_find (l_pool l) (l_vm l) BRK_BASE with
  | None => None
  | Some found =>
      let step := match found with
                  | Some _ => Some (0, l)
                  | None => add_region l BRK_BASE BRK_LIMIT (Z.lor PROT_READ PROT_WRITE) RGN_HEAP
                  end in
      match step with
      | None => None
      | Some (rc, l) =>
          if negb (rc =? 0) then Some (brk, l)
          else if brk <? new_brk then
            let pop_base := Z.land brk Phys.PAGE_MASK in
            let pop_end := Phys.PAGE_ALIGN new_brk in
            if pop_base <? pop_end then
              let '(k, l) := populate l pop_base (pop_end - pop_base) (Z.lor PROT_READ PROT_WRITE) in
              Some (if k =? 0 then brk else new_brk, l)
            else Some (new_brk, l)
          else Some (new_brk, l)
      end
  end.

Definition sys_brk s (new_brk : Z) : res sysres :=
  match cur_space s with
  | None => Ok (SRet 0 s)
  | Some (p, vm) =>
      let s := if brk_cur (procs s p) =? 0 then put_pcb s p (set_brk_cur (procs s p) BRK_BASE) else s in
      match brk_space (lview (as_of (env s)) vm) (brk_cur (procs s p)) new_brk with
      | None => Hang
      | Some (v, l) =>
          let s := put_as s (lstore (as_of (env s)) vm l) in
          Ok (SRet v (put_pcb s p (set_brk_cur (procs s p) v)))
      end
  end.

(** ** Names and numbers *)

(** [str_copy(dst, src, n)] into the bytes [dst]: what it leaves alone stays. *)
Definition str_copy (dst src : list Z) (n : nat) : list Z :=
  let t := take (n - 1) src in t ++ [0] ++ drop (length t + 1) dst.

Definition str_bytes (t : string) : list Z := map (fun c => Z.of_N (Ascii.N_of_ascii c)) (list_ascii_of_string t).

(** The [i]-th field of the structure as the stack holds it. *)
Definition uts_field (i : nat) : list Z := take UTSNAME_LEN (drop (i * UTSNAME_LEN) ku0).

Definition uts_bytes s : list Z :=
  str_copy (uts_field 0) (str_bytes "OpenASD") UTSNAME_LEN ++
  <[64%nat := 0]> (str_copy (uts_field 1) (k_hostname (env s)) UTSNAME_LEN) ++
  str_copy (uts_field 2) (str_bytes "1.0") UTSNAME_LEN ++
  str_copy (uts_field 3) (str_bytes "#1") UTSNAME_LEN ++
  str_copy (uts_field 4) (str_bytes "x86_64") UTSNAME_LEN ++
  str_copy (uts_field 5) (str_bytes "(none)") UTSNAME_LEN.

Definition sys_uname s (buf_u : Z) : res sysres :=
  if negb (validate_user_ptr buf_u 390) then Ok (SRet ESYS_FAULT s)
  else out_or_fault s buf_u (uts_bytes s) 0.

Definition sys_meminfo s (a0 a1 : Z) : res sysres :=
  if negb (validate_user_ptr a0 8) then Ok (SRet ESYS_FAULT s)
  else if negb (validate_user_ptr a1 8) then Ok (SRet ESYS_FAULT s)
  else
    let '(total, free_b) := meminfo (pm (k_as (env s))) in
    let total_kb := total / 1024 in
    let used_kb := u64 (total - free_b) / 1024 in
    let! (rc, s) := copy_out s a0 (le_bytes 8 total_kb) in
    if negb (rc =? 0) then Ok (SRet ESYS_FAULT s) else out_or_fault s a1 (le_bytes 8 used_kb) 0.

Definition sys_getusername s (ubuf usize : Z) : res sysres :=
  if usize =? 0 then Ok (SRet 0 s)
  else if negb (validate_user_ptr ubuf usize) then Ok (SRet ESYS_FAULT s)
  else
    let u := sys_getuid s in
    let uname := if u =? 0 then str_bytes "root"
                 else match find_user s u with Some x => Usr.name x | None => str_bytes "user" end in
    let kname := take 63 uname in
    let i := zlen kname in
    let copy_len := if i + 1 <? usize then i + 1 else usize in
    out_or_fault s ubuf (take (Z.to_nat (copy_len - 1)) kname ++ [0]) 0.

(** ** Scattered writes *)

Definition to_screen (fd : Z) : bool := (fd =? 1) || (fd =? 2).

(** The inner loop: [off] bytes of the vector's entry are done. *)
Definition writev_round (fd base len : Z) (x : sched mach * Z) : (sched mach * Z) + (res (Z * sched mach) + sched mach) :=
  let '(s, off) := x in
  if negb (0 <? len - off) then inr (inr s)
  else
    let chunk := len - off in
    let chunk := if KBUF <? chunk then KBUF else chunk in
    match copy_in s (u64 (base + off)) chunk with
    | Hang => inr (inl Hang)
    | Fault => inr (inl Fault)
    | Ok (rc, kbuf, s) =>
        if negb (rc =? 0) then inr (inl (Ok (ESYS_FAULT, s)))
        else if to_screen fd then inl (put_con s (puts (k_con (env s)) kbuf), off + chunk)
        else match Vfs.vfs_write port_send (fs_of s) (caller s) (fd_nat fd) (Some kbuf) with
        | None => inr (inl Hang)
        | Some (r, f) =>
            let s := put_fs s f in
            if r <? 0 then inr (inl (Ok (ret r, s))) else inl (s, off + chunk)
        end
    end.

(** The entries of [kiov]: base and length. *)
Fixpoint iovecs (n : nat) (bs : list Z) : list (Z * Z) :=
  match n with
  | O => []
  | Datatypes.S n => (le_val (take 8 bs), le_val (take 8 (drop 8 bs))) :: iovecs n (drop 16 bs)
  end.

Fixpoint writev_loop (fd : Z) (kiov : list (Z * Z)) s (total : Z) : res sysres :=
  match kiov with
  | [] =>
      let s := if to_screen fd then put_con s (drain_rx (k_con (env s))) else s in
      Ok (SRet total s)
  | (base, len) :: kiov =>
      if len =? 0 then writev_loop fd kiov s total
      else if negb (validate_user_ptr base len) then Ok (SRet ESYS_FAULT s)
      else if u64 (total + len) <? total then Ok (SRet ESYS_OVERFLOW s)
      else match loop (writev_round fd base len) ROUNDS (s, 0) with
      | inl _ => Hang
      | inr (inl r) => let! (v, s) := r in Ok (SRet v s)
      | inr (inr s) => writev_loop fd kiov s (u64 (total + len))
      end
  end.

Definition sys_writev s (fd iov_u iovcnt : Z) : res sysres :=
  if iovcnt =? 0 then Ok (SRet 0 s)
  else if 16 <? iovcnt then Ok (SRet ESYS_INVAL s)
  else if negb (validate_user_ptr iov_u (iovcnt * 16)) then Ok (SRet ESYS_FAULT s)
  else
    let! (rc, bs, s) := copy_in s iov_u (iovcnt * 16) in
    if negb (rc =? 0) then Ok (SRet ESYS_FAULT s) else writev_loop fd (iovecs (Z.to_nat iovcnt) bs) s 0.

(** ** The network *)

Definition sys_net_send s (dst_ip dst_port src_port buf_u len : Z) : res sysres :=
  if (len =? 0) || (1472 <? len) then Ok (SRet ESYS_INVAL s)
  else if negb (validate_user_ptr buf_u len) then Ok (SRet ESYS_FAULT s)
  else
    let! (rc, kbuf, s) := copy_in s buf_u len in
    if negb (rc =? 0) then Ok (SRet ESYS_FAULT s)
    else
      let '(r, n) := net_udp_send (k_net (env s)) (u32 dst_ip) (u16 src_port) (u16 dst_port) kbuf in
      Ok (SRet (if r =? 0 then len else ret (-1)) (put_net s n)).

(** A copy whose result is not looked at, if the pointer is acceptable. *)
Definition maybe_out s (p size : Z) (bs : list Z) : res (sched mach) :=
  if negb (p =? 0) && validate_user_ptr p size then let! (_, s) := copy_out s p bs in Ok s else Ok s.

Definition sys_net_recv s (buf_u buf_sz src_ip_u src_port_u : Z) : res sysres :=
  if (buf_sz =? 0) || (1472 <? buf_sz) then Ok (SRet ESYS_INVAL s)
  else if negb (validate_user_ptr buf_u buf_sz) then Ok (SRet ESYS_FAULT s)
  else
    let '(r, n) := net_udp_recv (k_net (env s)) (u16 buf_sz) in
    let s := put_net s n in
    match r with
    | None => Ok (SRet (ret (-1)) s)
    | Some (kbuf, src_ip, src_port) =>
        let! (rc, s) := copy_out s buf_u kbuf in
        if negb (rc =? 0) then Ok (SRet ESYS_FAULT s)
        else
          let! s := maybe_out s src_ip_u 4 (le_bytes 4 src_ip) in
          let! s := maybe_out s src_port_u 2 (le_bytes 2 src_port) in
          Ok (SRet (zlen kbuf) s)
    end.

Definition sys_net_ping s (a0 a1 : Z) : res sysres :=
  let '(r, rtt, n) := net_icmp_ping (k_net (env s)) (u32 a0) in
  let s := put_net s n in
  let! s := if r =? 0 then maybe_out s a1 4 (le_bytes 4 rtt) else Ok s in
  Ok (SRet (ret r) s).

Definition sys_tcp_connect s (ip port id_u : Z) : res sysres :=
  if negb (validate_user_ptr id_u 4) then Ok (SRet ESYS_FAULT s)
  else
    let '(r, id, n) := net_tcp_connect (k_net (env s)) (u32 ip) (u16 port) in
    let s := put_net s n in
    if negb (r =? 0) then Ok (SRet (ret (-1)) s) else out_or_fault s id_u (le_bytes 4 (u32 id)) 0.

(** One round of the sending loops of TCP and TLS; [send] is the call. *)
Definition send_round (send : N -> Z -> list Z -> Z * N) (id buf len : Z) (x : sched mach * Z) : (sched mach * Z) + res sysres :=
  let '(s, done) := x in
  if negb (done <? len) then inr (Ok (SRet done s))
  else
    let chunk := len - done in
    let chunk := if KBUF <? chunk then KBUF else chunk in
    match copy_in s (u64 (buf + done)) chunk with
    | Hang => inr Hang
    | Fault => inr Fault
    | Ok (rc, kbuf, s) =>
        if negb (rc =? 0) then inr (Ok (SRet ESYS_FAULT s))
        else
          let '(r, n) := send (k_net (env s)) (i32 id) kbuf in
          let s := put_net s n in
          if r <? 0 then inr (Ok (SRet (if 0 <? done then done else ret (-1)) s)) else inl (s, done + chunk)
    end.

Definition sys_tcp_send s (id buf_u len : Z) : res sysres :=
  if len =? 0 then Ok (SRet 0 s)
  else if negb (validate_user_ptr buf_u len) then Ok (SRet ESYS_FAULT s)
  else run (send_round net_tcp_send id buf_u len) (s, 0).

Definition tcp_recv_round (id buf cap blocking : Z) (x : sched mach * Z) : (sched mach * Z) + res sysres :=
  let '(s, total) := x in
  if negb (total <? cap) then inr (Ok (SRet total s))
  else
    let chunk := cap - total in
    let chunk := if KBUF <? chunk then KBUF else chunk in
    let '(r, n) := net_tcp_recv (k_net (env s)) (i32 id) chunk (i32 blocking) in
    let s := put_net s n in
    match r with
    | None => inr (Ok (SRet (if 0 <? total then total else ret (-1)) s))
    | Some kbuf =>
        if zlen kbuf =? 0 then inr (Ok (SRet total s))
        else match copy_out s (u64 (buf + total)) kbuf with
        | Hang => inr Hang
        | Fault => inr Fault
        | Ok (rc, s) =>
            if negb (rc =? 0) then inr (Ok (SRet ESYS_FAULT s))
            else if blocking =? 0 then inr (Ok (SRet (total + zlen kbuf) s)) else inl (s, total + zlen kbuf)
        end
    end.

Definition sys_tcp_recv s (id buf_u cap blocking : Z) : res sysres :=
  if cap =? 0 then Ok (SRet 0 s)
  else if negb (validate_user_ptr buf_u cap) then Ok (SRet ESYS_FAULT s)
  else run (tcp_recv_round id buf_u cap blocking) (s, 0).

Definition sys_tcp_close s (id : Z) : Z * sched mach := (0, put_net s (net_tcp_close (k_net (env s)) (i32 id))).

Definition sys_dns_resolve s (host_u ip_u : Z) : res sysres :=
  let! (rc, hostname, s) := cstr_in s 256 host_u 256 in
  if negb (rc =? 0) then Ok (SRet ESYS_FAULT s)
  else if negb (validate_user_ptr ip_u 4) then Ok (SRet ESYS_FAULT s)
  else
    let '(r, ip, n) := net_dns_resolve (k_net (env s)) hostname in
    let s := put_net s n in
    if negb (r =? 0) then Ok (SRet (ret (-1)) s) else out_or_fault s ip_u (le_bytes 4 ip) 0.

Definition sys_tls_connect s (a0 a1 : Z) : res sysres :=
  let! (rc, host, s) := cstr_in s 256 a1 256 in
  if negb (rc =? 0) then Ok (SRet ESYS_FAULT s)
  else
    let '(r, n) := net_tls_connect (k_net (env s)) (i32 a0) host in Ok (SRet (ret r) (put_net s n)).

Definition sys_tls_send s (a0 a1 a2 : Z) : res sysres :=
  if a2 =? 0 then Ok (SRet 0 s)
  else if negb (validate_user_ptr a1 a2) then Ok (SRet ESYS_FAULT s)
  else run (send_round net_tls_send a0 a1 a2) (s, 0).

Definition sys_tls_recv s (a0 a1 a2 a3 : Z) : res sysres :=
  if a2 =? 0 then Ok (SRet 0 s)
  else if negb (validate_user_ptr a1 a2) then Ok (SRet ESYS_FAULT s)
  else
    let chunk := if a2 <? KBUF then a2 else KBUF in
    let '(r, n) := net_tls_recv (k_net (env s)) (i32 a0) chunk (i32 a3) in
    let s := put_net s n in
    match r with
    | None => Ok (SRet (ret (-1)) s)
    | Some kbuf => if zlen kbuf =? 0 then Ok (SRet 0 s) else out_or_fault s a1 kbuf (zlen kbuf)
    end.

Definition sys_tls_close s (a0 : Z) : Z * sched mach := (0, put_net s (net_tls_close (k_net (env s)) (i32 a0))).

(** ** Dispatch *)

Definition value s (v : Z) : res sysres := Ok (SRet v s).
Definition effect (r : Z * sched mach) : res sysres := Ok (SRet r.1 r.2).

(** [tsc] and [regs_now] are for [sched_yield]. *)
Definition syscall_dispatch s (tsc : Z) (regs_now : cpu_context_t) (nr a0 a1 a2 a3 a4 : Z) : res sysres :=
  match nr with
  | 1 => sys_exit s a0
  | 2 => sys_open s a0 a1
  | 3 => sys_close s a0
  | 4 => sys_read s a0 a1 a2
  | 5 => sys_write s a0 a1 a2
  | 6 => sys_stat s a0 a1
  | 7 => sys_seek s a0 a1 a2
  | 8 => sys_mkdir s a0
  | 9 => sys_unlink s a0
  | 10 => sys_readdir s a0 a1 a2 a3
  | 11 => sys_spawn s a0 a1 a2
  | 12 => sys_wait s a0 a1
  | 13 => value s (sys_getpid s)
  | 14 => sys_yield s tsc regs_now
  | 15 => value s (sys_time s)
  | 16 => value s (sys_getuid s)
  | 17 => value s (sys_getgid s)
  | 18 => value s (sys_getuid s)
  | 19 => value s (sys_getgid s)
  | 20 => value s 1
  | 21 => sys_uname s a0
  | 22 => sys_mmap s a0 a1 a2 a3 a4
  | 23 => value s 0
  | 24 => sys_brk s a0
  | 25 => value s (ret (-25))
  | 26 => sys_writev s a0 a1 a2
  | 27 => value s (sys_time s)
  | 28 => effect (sys_setuid s a0)
  | 29 => effect (sys_setgid s a0)
  | 30 => sys_net_send s a0 a1 a2 a3 a4
  | 31 => sys_net_recv s a0 a1 a2 a3
  | 32 => sys_net_ping s a0 a1
  | 33 => sys_chdir s a0
  | 34 => sys_getcwd_impl s a0 a1
  | 35 => effect (sys_kill s a0 a1)
  | 38 => sys_pipe s a0
  | 39 => effect (sys_dup2 s a0 a1)
  | 40 => sys_tcp_connect s a0 a1 a2
  | 41 => sys_tcp_send s a0 a1 a2
  | 42 => sys_tcp_recv s a0 a1 a2 a3
  | 43 => effect (sys_tcp_close s a0)
  | 44 => sys_dns_resolve s a0 a1
  | 45 => sys_tls_connect s a0 a1
  | 46 => sys_tls_send s a0 a1 a2
  | 47 => sys_tls_recv s a0 a1 a2 a3
  | 48 => effect (sys_tls_close s a0)
  | 49 => sys_meminfo s a0 a1
  | 50 => sys_getusername s a0 a1
  | _ => value s ESYS_NOSYS
  end.

End Ops.
End Syscall.
