(* ===== verification/SysMemThm.v ===== *)
(** * kernel/arch/syscall.c: [sys_mmap] and [sys_brk]

    What the two calls do to the memory of the process, in terms of [umem]. *)

From S2P Require Import Prelude Phys PhysInv PhysInit PageAlloc PageTable Region AddrSpace Bytes UserMem UserStack Elf Loader UserAccess UserAccThm Macho RbTree Sched Spawn Machine Syscall.
From Stdlib Require Import ZArith Lia.
From stdpp Require Import base list gmap numbers.
Open Scope Z_scope.

Module SysMemThm.
Import PageAlloc PageTable AddrSpace UserMem UserStack Elf Loader UserAccess UserAccThm Syscall.

Section Proofs.
Context {S : Type} `{HM : PageMem S} `{HO : !PageMemOk S}.
Implicit Types (A : list blk) (l : lstate S) (rs : list nat).

(** An address space as the kernel keeps it: regions of whole pages, and no
    page outside a region. *)
Record space l A rs : Prop := {
  sp_ok : lok l A rs;
  sp_pages : whole_pages (regions l rs);
  sp_backed : forall x, user_va x -> is_Some (lbyte l x) -> promised l rs x = true }.

Lemma umem_promised l A rs x : space l A rs -> user_va x -> is_Some (umem l rs x) <-> promised l rs x = true.
Proof.
  intros Hs Hx. unfold umem. pose proof (sp_backed _ _ _ Hs x Hx) as Hb.
  destruct (lbyte l x), (promised l rs x); split; eauto; intros [? ?] || intros; try done; try (by rewrite Hb in *; eauto).
Qed.

(** Faults and stores keep it. *)
Lemma same_space l A rs l' A' : space l A rs -> same_mem l A rs l' A' -> space l' A' rs.
Proof.
  intros Hs Hm. pose proof Hm as [m1 m2 m3 m4 m5 m6 m7 m8]. split; [done|unfold regions; rewrite m4; apply Hs|].
  intros x Hx Hb. assert (E : promised l' rs x = promised l rs x) by (unfold promised, regions; by rewrite m4). rewrite E.
  apply (umem_promised l A); [done|done|]. rewrite <- m6 by done. unfold umem. by destruct Hb as [? ->].
Qed.

(** A new region. *)
Lemma add_region_ok l A rs b sz prot kd : lok l A rs -> 0 <= b -> 0 < sz -> b + sz <= 2 ^ 47 ->
  add_region l b sz prot kd = Some (-1, l) \/
  exists l' rs' d, add_region l b sz prot kd = Some (0, l') /\ lok l' A rs' /\ l_pm l' = l_pm l /\ root l' = root l /\
    d = Region.mkRegion b sz prot kd (-1) None None /\ apart b sz (regions l rs) /\
    regions l' rs' ≡ₚ d :: regions l rs.
Proof.
  intros [Hv Hh Ho] Hb Hs Hl. unfold add_region.
  pose proof (Region.region_add_ok (l_pool l) (l_vm l) rs b sz prot kd (-1) Hv ltac:(lia) ltac:(lia)) as H.
  destruct (Region.refused (l_pool l) rs b sz) eqn:Er; [left; rewrite H; by destruct l|right].
  destruct H as (l1 & l2 & pool & vm & -> & E & Hok & Habs & _ & _ & _ & Hc). rewrite E.
  exists (mkLd (l_pm l) pool vm), (l1 ++ Region.g_region_next (l_pool l) :: l2), (Region.mkRegion b sz prot kd (-1) None None).
  split; [done|]. split; [split; [done|done|unfold root; cbn [l_vm]; by rewrite Hc]|]. split; [done|]. split; [done|]. split; [done|].
  split; [|unfold regions; cbn [l_pool]; rewrite Habs, Region.abs_app; by rewrite Permutation_middle].
  intros d Hd. unfold Region.refused in Er. apply orb_false_iff in Er as [Er _].
  apply orb_false_iff in Er as [_ Er]. assert (Hm : Region.meets b (b + sz) d = false).
  { apply not_true_iff_false. intros Ht. apply not_true_iff_false in Er. apply Er, existsb_exists. exists d.
    split; [by apply list_elem_of_In|done]. }
  unfold Region.meets in Hm. apply andb_false_iff in Hm. rewrite !Z.ltb_ge in Hm. lia.
Qed.

Lemma promised_perm l rs l' rs' d x : regions l' rs' ≡ₚ d :: regions l rs ->
  promised l' rs' x = Region.contains x d || promised l rs x.
Proof.
  intros HP. apply eq_bool_prop_intro. unfold promised. rewrite Is_true_true, orb_True, !Is_true_true.
  rewrite existsb_exists. split.
  - intros (e & He & Hc). apply list_elem_of_In in He. rewrite HP in He. apply elem_of_cons in He as [->|He]; [by left|right].
    apply existsb_exists. exists e. split; [by apply list_elem_of_In|done].
  - intros [Hc|(e & He & Hc)%existsb_exists]; [exists d|exists e]; (split; [|done]); apply list_elem_of_In; rewrite HP; [left|right].
    by apply list_elem_of_In.
Qed.

(** Backing part of a region. *)
Lemma populate_ok l A rs b sz prot : space l A rs -> 0 <= b -> 0 < sz -> b + sz <= 2 ^ 47 -> b mod PAGE_SIZE = 0 ->
  (forall x, b <= x < b + sz -> user_va x /\ promised l rs x = true) ->
  exists A', same_mem l A rs (populate l b sz prot).2 A' /\
    ((populate l b sz prot).1 <> 0 /\ (forall x, b <= x < b + sz -> is_Some (lbyte (populate l b sz prot).2 x)) \/
     dry (populate l b sz prot).2).
Proof.
  intros Hsp Hb Hs Hl Hal Hin. destruct Hsp as [Hok Hwp Hbk]. unfold populate.
  pose proof (region_populate_ok (l_pm l) A (l_vm l) b sz prot (lo_held _ _ _ Hok) (lo_owns _ _ _ Hok) Hb Hs Hl) as Hp.
  rewrite Hal, Z.sub_0_r in Hp. specialize (Hp (fun x Hx => proj1 (Hin x Hx))). cbv zeta in Hp. fold (root l) in Hp.
  destruct (amm_region_populate (l_pm l) (Some (l_vm l)) b sz prot) as [k s']. cbn [fst snd].
  destruct Hp as (Hd & Hko & (A' & HA & Hh & Ho) & Hkeep & Hnew & Hres). exists A'. split.
  - assert (Hold : forall x, user_va x -> is_Some (lbyte l x) -> lbyte (set_l_pm l s') x = lbyte l x).
    { intros x Hx Hsm. destruct (walk_ubyte _ _ _ Hsm) as [p Ep].
      destruct (Hkeep (idx x) p (user_va_path x Hx) eq_refl Ep) as [Ep' He]. unfold lbyte, root. cbn [set_l_pm l_pm l_vm]. fold (root l).
      apply (ubyte_ent _ _ A _ _ p); [apply Hok| |done|done|done|done].
      apply (ow_held _ _ _ _ (lo_owns _ _ _ Hok) (idx x)); [by apply user_va_path|done]. }
    split; [by split; [apply Hok|..]|done|done|done|done| |intros x Hx Hsm; by rewrite Hold|done].
    intros x Hx. unfold umem. change (promised (set_l_pm l s') rs x) with (promised l rs x).
    destruct (lbyte l x) as [v|] eqn:Eb; [rewrite Hold by eauto; by rewrite Eb|].
    destruct (lbyte (set_l_pm l s') x) as [v|] eqn:Eb'; [|done].
    assert (Hn : walk (l_pm l) (root l) (idx x) = None).
    { apply eq_None_not_Some. intros Hsm. apply lbyte_walk in Hsm as [? ?]. congruence. }
    assert (Hsm : is_Some (walk s' (root l) (idx x))) by (apply (lbyte_walk (set_l_pm l s')); eauto). destruct Hsm as [q Eq].
    pose proof (user_va_path x Hx) as Hux. destruct (Hnew (idx x) q Hux eq_refl Hn Eq) as ((y & Hy & Ei) & Hz).
    destruct (Hin y Hy) as [Hyv Hyp]. apply idx_inj in Ei; [|by apply user_va_lt|by apply user_va_lt].
    rewrite (promised_page l rs x y Hwp Ei), Hyp. rewrite <- Eb'. unfold lbyte, root. cbn [set_l_pm l_pm l_vm]. fold (root l).
    rewrite (ubyte_word s' A' _ _ q); [|done|by apply (ow_held _ _ _ _ Ho (idx x))|done].
    rewrite Hz, byte_of_0; [done|]. pose proof (Z.mod_pos_bound x PAGE_SIZE ltac:(done)). change PAGE_SIZE with 4096 in *.
    Z.div_mod_to_equations. lia.
  - destruct Hres as [(Hall & -> & Hk)|Hd']; [left|by right]. split; [done|]. intros x Hx. apply lbyte_walk. by apply Hall.
Qed.

(** The space after a region was added: zeros in the region, the rest as it was. *)
Lemma region_space l A rs l' rs' b sz prot kd : space l A rs -> lok l' A rs' -> l_pm l' = l_pm l -> root l' = root l ->
  0 <= b -> 0 < sz -> b mod PAGE_SIZE = 0 -> sz mod PAGE_SIZE = 0 -> apart b sz (regions l rs) ->
  regions l' rs' ≡ₚ Region.mkRegion b sz prot kd (-1) None None :: regions l rs ->
  space l' A rs' /\
  (forall x, user_va x -> umem l' rs' x = if decide (b <= x < b + sz) then Some 0 else umem l rs x) /\
  (forall x, user_va x -> b <= x < b + sz -> promised l' rs' x = true /\ umem l rs x = None).
Proof.
  intros Hsp Hok Hpm Hr Hb0 Hs Hb Hz Hap HP. pose proof Hsp as [Hok0 Hwp Hbk].
  assert (Hbyte : forall x, lbyte l' x = lbyte l x) by (intros x; unfold lbyte; by rewrite Hpm, Hr).
  assert (Hpr : forall x, promised l' rs' x = ((b <=? x) && (x <? b + sz)) || promised l rs x)
    by (intros x; by rewrite (promised_perm l rs l' rs' _ x HP)).
  assert (Hfree : forall x, b <= x < b + sz -> promised l rs x = false).
  { intros x Hx. apply not_true_iff_false. intros (d & Hd & Hc)%existsb_exists. apply list_elem_of_In in Hd.
    specialize (Hap d Hd). unfold Region.contains in Hc. zbool. lia. }
  assert (Hnone : forall x, user_va x -> b <= x < b + sz -> lbyte l x = None).
  { intros x Hx Hin. destruct (lbyte l x) eqn:E; [|done]. specialize (Hbk x Hx ltac:(eauto)). rewrite Hfree in Hbk by done. done. }
  split_and!.
  - split; [done| |].
    + unfold whole_pages in *. rewrite HP. apply list.Forall_cons. split; [split; done|done].
    + intros x Hx Hsm. rewrite Hbyte in Hsm. rewrite Hpr, (Hbk x Hx Hsm). apply orb_true_r.
  - intros x Hx. unfold umem. rewrite Hbyte, Hpr. case_decide as Hin.
    + rewrite (Hnone x Hx Hin), (proj2 (Z.leb_le _ _)), (proj2 (Z.ltb_lt _ _)) by lia. done.
    + replace ((b <=? x) && (x <? b + sz)) with false; [done|]. symmetry. apply andb_false_iff. rewrite Z.leb_gt, Z.ltb_ge. lia.
  - intros x Hx Hin. rewrite Hpr, (proj2 (Z.leb_le _ _)), (proj2 (Z.ltb_lt _ _)) by lia. split; [done|].
    unfold umem. by rewrite (Hnone x Hx Hin), (Hfree x Hin).
Qed.

(** ** [sys_mmap] *)

Definition in_mmap (b sz : Z) : Prop := MMAP_BASE <= b /\ b + sz <= MMAP_LIMIT /\ b mod PAGE_SIZE = 0 /\ sz mod PAGE_SIZE = 0.

Lemma mmap_user b sz x : in_mmap b sz -> b <= x < b + sz -> user_va x.
Proof. intros (H1 & H2 & _) Hx. unfold user_va, MMAP_BASE, MMAP_LIMIT in *. lia. Qed.

(** What [mmap_space] leaves: zeros in the new range if there is one. *)
Definition mmapped l A rs (b sz v : Z) l' : Prop :=
  exists A' rs', space l' A' rs' /\ root l' = root l /\ A ⊆ A' /\ keeps_others (root l) (l_pm l) A (l_pm l') /\
    (forall x, user_va x -> ~ (b <= x < b + sz) -> umem l' rs' x = umem l rs x) /\
    (forall x, user_va x -> is_Some (umem l rs x) -> umem l' rs' x = umem l rs x) /\
    (v = b /\ 0 < sz /\ (forall x, b <= x < b + sz -> umem l rs x = None /\ umem l' rs' x = Some 0) \/ v = u64 (-1)).

Lemma mmap_space_ok l A rs b sz prot : space l A rs -> in_mmap b sz -> 0 <= sz ->
  exists v l', mmap_space l b sz prot = Some (v, l') /\ mmapped l A rs b sz v l'.
Proof.
  intros Hsp Hin Hs. pose proof Hin as (B1 & B2 & B3 & B4). unfold mmap_space.
  assert (Hsame : mmapped l A rs b sz (u64 (-1)) l) by (exists A, rs; split_and!; try done; by right).
  assert (Hb : 0 <= b /\ b + sz <= 2 ^ 47) by (unfold MMAP_BASE, MMAP_LIMIT in *; lia).
  destruct (decide (sz = 0)) as [->|Hne].
  { unfold add_region. pose proof (Region.region_add_ok (l_pool l) (l_vm l) rs b 0 prot RGN_HEAP (-1)
      (lo_vm _ _ _ (sp_ok _ _ _ Hsp)) ltac:(lia) ltac:(lia)) as H. cbn [Region.refused Z.eqb orb] in H. rewrite H. cbn [Z.eqb negb].
    do 2 eexists. split; [done|]. by destruct l. }
  destruct (add_region_ok l A rs b sz prot RGN_HEAP (sp_ok _ _ _ Hsp)) as [->|(l1 & rs1 & d & -> & Hok1 & Hpm & Hr & -> & Hap & HP)]; try lia.
  { cbn [Z.eqb negb]. by do 2 eexists. }
  destruct (region_space l A rs l1 rs1 b sz prot RGN_HEAP Hsp Hok1 Hpm Hr) as (Hsp1 & Hm1 & Hp1); try done; try lia.
  assert (Hu : forall x, b <= x < b + sz -> user_va x /\ promised l1 rs1 x = true).
  { intros x Hx. pose proof (mmap_user b sz x Hin Hx). split; [done|]. by apply Hp1. }
  destruct (populate_ok l1 A rs1 b sz prot Hsp1 ltac:(lia) ltac:(lia) ltac:(lia) B3 Hu) as (A2 & Hsm & _).
  destruct (populate l1 b sz prot) as [k l2]. cbn [fst snd] in *. cbn [Z.eqb negb]. do 2 eexists. split; [done|].
  exists A2, rs1. split; [by eapply same_space|]. split; [by rewrite (same_root _ _ _ _ _ Hsm)|]. split; [apply Hsm|].
  split; [rewrite <- Hr, <- Hpm; apply Hsm|]. split.
  { intros x Hx Hn. rewrite (sm_mem _ _ _ _ _ Hsm), Hm1, decide_False by done. done. }
  split.
  - intros x Hx [y Hy]. rewrite (sm_mem _ _ _ _ _ Hsm), Hm1 by done. case_decide as Hr0; [|done].
    destruct (Hp1 x Hx Hr0) as [_ Hno]. congruence.
  - destruct (k =? 0); [by right|left]. split; [done|]. split; [lia|]. intros x Hx. destruct (Hu x Hx) as [Hv _]. split; [by apply Hp1|].
    rewrite (sm_mem _ _ _ _ _ Hsm), Hm1, decide_True by done. done.
Qed.

(** ** [sys_brk] *)

(** The heap has its region, or no region reaches into it. *)
Definition heap_region l rs : Prop :=
  forall d, d ∈ regions l rs -> Region.contains BRK_BASE d = true -> Region.base d = BRK_BASE /\ Region.size d = BRK_LIMIT.

Definition in_heap (x : Z) : Prop := BRK_BASE <= x < BRK_BASE + BRK_LIMIT.

Lemma heap_user x : in_heap x -> user_va x.
Proof. unfold in_heap, user_va, BRK_BASE, BRK_LIMIT. lia. Qed.

(** What [brk_space] leaves: every byte there was, and a heap up to the break. *)
Definition broken l A rs (brk new_brk v : Z) l' : Prop :=
  exists A' rs', space l' A' rs' /\ heap_region l' rs' /\ root l' = root l /\ A ⊆ A' /\ keeps_others (root l) (l_pm l) A (l_pm l') /\
    (forall x, user_va x -> umem l' rs' x = umem l rs x \/ in_heap x /\ umem l rs x = None /\ umem l' rs' x = Some 0) /\
    (v = brk \/ v = new_brk /\ BRK_BASE <= v <= BRK_BASE + BRK_LIMIT /\ (forall x, BRK_BASE <= x < v -> is_Some (umem l' rs' x))).

Lemma broken_same l A rs brk new_brk : space l A rs -> heap_region l rs -> broken l A rs brk new_brk brk l.
Proof. intros Hs Hh. exists A, rs. split_and!; try done; [intros x _; by left|by left]. Qed.

(** Growing within the region. *)
Lemma brk_grow_ok l A rs brk new_brk : space l A rs -> heap_region l rs -> (forall x, in_heap x -> promised l rs x = true) ->
  BRK_BASE <= brk -> BRK_BASE <= new_brk <= BRK_BASE + BRK_LIMIT ->
  exists v l', (if brk <? new_brk then
       let pop_base := Z.land brk Phys.PAGE_MASK in
       let pop_end := Phys.PAGE_ALIGN new_brk in
       if pop_base <? pop_end then
         let '(k, l) := populate l pop_base (pop_end - pop_base) (Z.lor PROT_READ PROT_WRITE) in
         Some (if k =? 0 then brk else new_brk, l)
       else Some (new_brk, l)
     else Some (new_brk, l)) = Some (v, l') /\ broken l A rs brk new_brk v l'.
Proof.
  intros Hsp Hh Hpr Hb Hn. cbv zeta.
  assert (Hall : forall x, BRK_BASE <= x < new_brk -> is_Some (umem l rs x)).
  { intros x Hx. assert (Hi : in_heap x) by (unfold in_heap; lia). apply (umem_promised l A); [done|by apply heap_user|by apply Hpr]. }
  assert (Hstay : broken l A rs brk new_brk new_brk l) by (exists A, rs; split_and!; try done; [intros x _; by left|by right]).
  destruct (Z.ltb_spec brk new_brk) as [Hlt|]; [|by do 2 eexists].
  assert (E1 : Z.land brk Phys.PAGE_MASK = brk - brk mod PAGE_SIZE) by (apply PhysInit.land_page_mask; unfold BRK_BASE, BRK_LIMIT in *; lia).
  assert (E2 : Phys.PAGE_ALIGN new_brk = new_brk + PAGE_SIZE - 1 - (new_brk + PAGE_SIZE - 1) mod PAGE_SIZE).
  { unfold Phys.PAGE_ALIGN. change Phys.PAGE_SIZE with 4096. rewrite u64_small by (unfold BRK_BASE, BRK_LIMIT in *; lia).
    apply PhysInit.land_page_mask. unfold BRK_BASE, BRK_LIMIT in *. lia. }
  rewrite E1, E2. change PAGE_SIZE with 4096 in *. set (lo := brk - brk mod 4096). set (hi := new_brk + 4096 - 1 - _).
  assert (Hlo : lo mod 4096 = 0 /\ BRK_BASE <= lo <= brk) by (unfold lo, BRK_BASE in *; Z.div_mod_to_equations; lia).
  assert (Hhi : new_brk <= hi <= BRK_BASE + BRK_LIMIT) by (unfold hi, BRK_BASE, BRK_LIMIT in *; Z.div_mod_to_equations; lia).
  rewrite (proj2 (Z.ltb_lt lo hi)) by lia.
  destruct (populate_ok l A rs lo (hi - lo) (Z.lor PROT_READ PROT_WRITE) Hsp) as (A2 & Hsm & _);
    [unfold BRK_BASE in *; lia|lia|unfold BRK_BASE, BRK_LIMIT in *; lia|apply Hlo| |].
  { intros x Hx. assert (Hi : in_heap x) by (unfold in_heap; lia). split; [by apply heap_user|by apply Hpr]. }
  destruct (populate l lo (hi - lo) (Z.lor PROT_READ PROT_WRITE)) as [k l2]. cbn [fst snd] in *. do 2 eexists. split; [done|].
  exists A2, rs. split; [by eapply same_space|]. split; [unfold heap_region, regions in *; by rewrite (sm_pool _ _ _ _ _ Hsm)|].
  split; [by eapply same_root|]. split; [apply Hsm|]. split; [apply Hsm|]. split.
  - intros x Hx. left. by apply Hsm.
  - destruct (k =? 0); [by left|right]. split; [done|]. split; [done|]. intros x Hx.
    rewrite (sm_mem _ _ _ _ _ Hsm) by (apply heap_user; unfold in_heap; lia). by apply Hall.
Qed.

Lemma broken_trans l A rs l1 A1 rs1 brk new_brk v l' : broken l1 A1 rs1 brk new_brk v l' -> A ⊆ A1 -> root l1 = root l ->
  l_pm l1 = l_pm l -> held (l_pm l) A ->
  (forall x, user_va x -> umem l1 rs1 x = umem l rs x \/ in_heap x /\ umem l rs x = None /\ umem l1 rs1 x = Some 0) ->
  broken l A rs brk new_brk v l'.
Proof.
  intros (A' & rs' & H1 & H2 & H3 & H4 & H5 & H6 & H7) HA Hr Hpm _ Hm. exists A', rs'. rewrite Hr, Hpm in H5. split_and!; try done.
  - congruence.
  - by etrans.
  - destruct H5 as [H5 H5']. split; [intros rho t Hu E Ht; apply H5; auto|intros b w Hb; apply H5'; auto].
  - intros x Hx. destruct (H6 x Hx) as [E|(Hi & En & Ez)], (Hm x Hx) as [E'|(Hi' & En' & Ez')].
    + left. congruence.
    + right. split_and!; [done|done|congruence].
    + right. split_and!; [done|congruence|done].
    + congruence.
Qed.

Lemma brk_space_ok l A rs brk new_brk : space l A rs -> heap_region l rs -> BRK_BASE <= brk <= BRK_BASE + BRK_LIMIT ->
  exists v l', brk_space l brk new_brk = Some (v, l') /\ broken l A rs brk new_brk v l'.
Proof.
  intros Hsp Hh Hb. pose proof (broken_same l A rs brk new_brk Hsp Hh) as Hsame. unfold brk_space.
  destruct (new_brk =? 0); [by do 2 eexists|]. destruct (Z.ltb_spec new_brk BRK_BASE); [by do 2 eexists|].
  destruct (Z.ltb_spec (BRK_BASE + BRK_LIMIT) new_brk); [by do 2 eexists|].
  pose proof Hsp as [Hok Hwp Hbk]. unfold Region.amm_region_find.
  destruct (Region.vo_list _ _ _ (lo_vm _ _ _ Hok)) as [pv Hd].
  destruct (Region.find_walk_ok (l_pool l) BRK_BASE rs Region.FUEL None (Region.head (l_vm l)) pv
    (Region.FUEL_enough _ _ _ (lo_vm _ _ _ Hok)) Hd (Region.vo_wf _ _ _ (lo_vm _ _ _ Hok))) as (res & -> & Hres).
  destruct res as [i|].
  - destruct Hres as [Hi Hc]. cbn [Z.eqb negb]. apply brk_grow_ok; try done; try lia. intros x Hx.
    assert (Hin : Region.data (Region.reg (l_pool l) i) ∈ regions l rs) by (apply list_elem_of_fmap; by exists i).
    destruct (Hh _ Hin Hc) as [E1 E2]. apply existsb_exists. eexists. split; [apply list_elem_of_In, Hin|].
    unfold Region.contains. rewrite E1, E2. unfold in_heap in Hx. apply andb_true_iff. rewrite Z.leb_le, Z.ltb_lt. done.
  - destruct (add_region_ok l A rs BRK_BASE BRK_LIMIT (Z.lor PROT_READ PROT_WRITE) RGN_HEAP Hok)
      as [->|(l1 & rs1 & d & -> & Hok1 & Hpm & Hr & -> & Hap & HP)]; try (unfold BRK_BASE, BRK_LIMIT; lia); [by do 2 eexists|].
    cbn [Z.eqb negb].
    destruct (region_space l A rs l1 rs1 BRK_BASE BRK_LIMIT (Z.lor PROT_READ PROT_WRITE) RGN_HEAP Hsp Hok1 Hpm Hr)
      as (Hsp1 & Hm1 & Hp1); try done.
    assert (Hh1 : heap_region l1 rs1).
    { intros d Hd1 Hc. rewrite HP in Hd1. apply elem_of_cons in Hd1 as [->|Hd1]; [done|by apply Hh]. }
    destruct (brk_grow_ok l1 A rs1 brk new_brk Hsp1 Hh1) as (v & l' & Eg & Hbr); try lia.
    { intros x Hx. by apply Hp1; [apply heap_user|]. }
    exists v, l'. split; [exact Eg|]. apply (broken_trans l A rs l1 A rs1); try done; [apply Hok|].
    intros x Hx. rewrite Hm1 by done. case_decide as Hin; [|by left]. right. split; [done|]. split; [|done]. by apply Hp1.
Qed.

End Proofs.

(** ** The calls *)

Section Calls.
Import Sched Spawn Machine.
Context {S W H C N : Type} `{HM : PageMem S} `{HO : !PageMemOk S} `{!MemInfo S} `{!Bytes.KHeap H} `{!HeapRing H}.
Implicit Types (s : sched (machine S W H C N)) (A : list blk) (rs : list nat).

(** The address space of slot [vm]. *)
Definition space_of s (vm : nat) : lstate S := lview (k_as (env s)) vm.

Lemma view_store (a : as_state S) vm (l : lstate S) : lview (lstore a vm l) vm = l.
Proof. unfold lview, lstore. cbn. rewrite lookup_insert_eq. by destruct l. Qed.

Lemma space_put s vm (l : lstate S) : space_of (put_as s (lstore (as_of (env s)) vm l)) vm = l.
Proof. apply view_store. Qed.

Lemma cur_space_eq s p vm : sched_current s = Some p -> vmap_slot (va_map (procs s p)) = Some vm -> cur_space s = Some (p, vm).
Proof. intros Hc Hv. unfold cur_space. by rewrite Hc, Hv. Qed.

Lemma procs_put s p v : procs (put_pcb s p v) p = v.
Proof. cbn. by rewrite decide_True. Qed.

(** The number of bytes mapped for a length. *)
Lemma mmap_bytes len : 0 < len < 2 ^ 64 ->
  let bytes := u64 (u64 (len + 4095) / 4096 * 4096) in
  0 <= bytes < 2 ^ 64 /\ bytes mod PAGE_SIZE = 0 /\ (bytes = 0 \/ len <= bytes < len + 4096).
Proof.
  intros Hl. cbv zeta. change PAGE_SIZE with 4096. destruct (decide (len + 4095 < 2 ^ 64)) as [Hs|Hs].
  - rewrite (u64_small (len + 4095)) by lia.
    rewrite u64_small by (Z.div_mod_to_equations; lia). split_and!; Z.div_mod_to_equations; lia.
  - replace ((len + 4095) mod 2 ^ 64) with (len + 4095 - 2 ^ 64).
    + rewrite Z.div_small by lia. split_and!; [done|done|done|by left].
    + symmetry. rewrite <- (Z.mod_add _ (-1)) by lia. rewrite Z.mod_small by lia. lia.
Qed.



End Calls.
End SysMemThm.
