(* ===== verification/SysFileThm.v ===== *)
(** * kernel/arch/syscall.c: reading and writing files

    [sys_write] hands the bytes of the caller to the file system in pieces of
    4096 bytes, [sys_read] fetches pieces and stores them with the caller:
    [write_all] and [read_all] are those sequences of VFS calls.  *)

From S2P Require Import Prelude Phys PhysInv PhysInit PageAlloc PageTable Region AddrSpace Bytes Ringbuf Vfs UserMem UserStack Elf Loader UserAccess UserAccThm Macho RbTree Sched Spawn Machine Syscall SysMemThm.
From Stdlib Require Import ZArith Lia.
From stdpp Require Import base list gmap numbers.
Open Scope Z_scope.

Module SysFileThm.
Import PageAlloc PageTable AddrSpace UserMem UserStack Elf Loader UserAccess UserAccThm Sched Spawn Machine Syscall SysMemThm.

(** ** The VFS calls of a system call *)

Section Calls.
Context {W : Type} `{!Ports W}.
Implicit Types (f : Vfs.vfs_state W).

(** The result of [sys_write] and the file system after it; [total] bytes have
    been written. *)
Fixpoint write_all (fuel : nat) f (cur : option nat) (fd : nat) (total : Z) (bs : list Z) : option (Z * Vfs.vfs_state W) :=
  match bs, fuel with
  | [], _ => Some (total, f)
  | _, O => None
  | _, Datatypes.S fuel =>
      let kbuf := take (Z.to_nat KBUF) bs in
      match Vfs.vfs_write port_send f cur fd (Some kbuf) with
      | None => None
      | Some (r, f) =>
          if r <? 0 then Some (if total =? 0 then ret r else total, f)
          else write_all fuel f cur fd (total + zlen kbuf) (drop (Z.to_nat KBUF) bs)
      end
  end.

(** The result of [sys_read], the bytes read and the file system; [acc] has
    been read. *)
Fixpoint read_all (fuel : nat) f (cur : option nat) (fd : nat) (n : Z) (acc : list Z) : option (Z * list Z * Vfs.vfs_state W) :=
  if n <=? zlen acc then Some (zlen acc, acc, f)
  else match fuel with
  | O => None
  | Datatypes.S fuel =>
      match Vfs.vfs_read f cur fd true (Z.to_nat (Z.min KBUF (n - zlen acc))) true with
      | None => None
      | Some (r, kbuf, f) =>
          if r <? 0 then Some (if zlen acc =? 0 then ret r else zlen acc, acc, f)
          else if zlen kbuf =? 0 then Some (zlen acc, acc, f)
          else read_all fuel f cur fd n (acc ++ kbuf)
      end
  end.

Lemma read_all_prefix fuel : forall f cur fd n acc v bs f', read_all fuel f cur fd n acc = Some (v, bs, f') -> acc `prefix_of` bs.
Proof.
  induction fuel as [|fuel IH]; intros f cur fd n acc v bs f'; cbn [read_all]; destruct (n <=? zlen acc); try done; try (intros [= _ <- _]; done).
  destruct (Vfs.vfs_read _ _ _ _ _ _) as [[[r kbuf] f1]|]; [|done].
  destruct (r <? 0); [intros [= _ <- _]; done|]. destruct (zlen kbuf =? 0); [intros [= _ <- _]; done|].
  intros E%IH. etrans; [|exact E]. by apply prefix_app_r.
Qed.

End Calls.

Section Proofs.
Context {S W H C N : Type} `{HM : PageMem S} `{HO : !PageMemOk S} `{!MemInfo S} `{!Bytes.KHeap H} `{!HeapRing H} `{!Ports W} `{!Console C} `{!Net N}.
Implicit Types (s : sched (machine S W H C N)) (A : list blk) (rs : list nat) (f : Vfs.vfs_state W).

(** A system call changes the memory manager and the file system only. *)
Definition kput s (a : as_state S) f : sched (machine S W H C N) := put_env s (put_k_fs (put_k_as (env s) a) f).

Lemma kput_self s : kput s (k_as (env s)) (k_fs (env s)) = s.
Proof. destruct s as [? ? ? ? ? ? ? ? ? ? ? ? ? []]. done. Qed.

(** Process [p] runs, in the address space of slot [vm]. *)
Definition runs s (p : pcb_ref) (vm : nat) : Prop :=
  sched_current s = Some p /\ vmap_slot (va_map (procs s p)) = Some vm.

Lemma copy_in_ok s p vm a f A rs usrc n : runs s p vm -> lok (lview a vm) A rs -> whole_pages (regions (lview a vm) rs) ->
  0 < usrc -> 0 <= n < 2 ^ 64 -> (forall x, usrc <= x < usrc + n -> user_va x) ->
  exists rc bs a', copy_in (kput s a f) usrc n = Ok (rc, bs, kput s a' f) /\
    from_post (lview a vm) A rs usrc n (rc, bs, lview a' vm).
Proof.
  intros [Hc Hv] Hok Hwp Hp Hn Hu. destruct (copy_from_user_ok (lview a vm) A rs usrc n Hok Hwp Hp Hn Hu) as ([[rc bs] l'] & E & Hpost).
  exists rc, bs, (lstore a vm l'). unfold copy_in, on_user, cur_map. change (sched_current (kput s a f)) with (sched_current s).
  rewrite Hc. change (procs (kput s a f) p) with (procs s p). rewrite Hv. change (as_of (env (kput s a f))) with a. rewrite E.
  split; [done|]. by rewrite view_store.
Qed.

Lemma copy_out_ok s p vm a f A rs udst src : runs s p vm -> lok (lview a vm) A rs -> whole_pages (regions (lview a vm) rs) ->
  0 < udst -> Forall is_byte src -> (forall x, udst <= x < udst + zlen src -> user_va x) ->
  exists rc a', copy_out (kput s a f) udst src = Ok (rc, kput s a' f) /\ to_post (lview a vm) A rs udst src (rc, lview a' vm).
Proof.
  intros [Hc Hv] Hok Hwp Hp Hb Hu. destruct (copy_to_user_ok (lview a vm) A rs udst src Hok Hwp Hp Hb Hu) as ([rc l'] & E & Hpost).
  exists rc, (lstore a vm l'). unfold copy_out, on_user, cur_map. change (sched_current (kput s a f)) with (sched_current s).
  rewrite Hc. change (procs (kput s a f) p) with (procs s p). rewrite Hv. change (as_of (env (kput s a f))) with a. rewrite E.
  split; [done|]. by rewrite view_store.
Qed.

(** ** [sys_write] *)

Section Write.
Context s (p : pcb_ref) (vm : nat) A rs (fd buf : Z) (bs : list Z) (v0 : Z) f0.
Let l : lstate S := space_of s vm.
Context (Hr : runs s p vm) (Hok : lok l A rs) (Hwp : whole_pages (regions l rs)) (Hbuf : 0 < buf).
Context (Hu : forall x, buf <= x < buf + zlen bs -> user_va x) (Hrd : reads l rs buf bs).

Definition write_inv (x : sched (machine S W H C N) * Z) : Prop :=
  exists a f A1 fuel, x.1 = kput s a f /\ 0 <= x.2 <= zlen bs /\ same_mem l A rs (lview a vm) A1 /\
    write_all fuel f (caller s) (fd_nat fd) x.2 (drop (Z.to_nat x.2) bs) = Some (v0, f0).

Definition write_post (r : res (@sysres S W H C N)) : Prop :=
  exists v a f A1, r = Ok (SRet v (kput s a f)) /\ same_mem l A rs (lview a vm) A1 /\
    (v = v0 /\ f = f0 \/ v = ESYS_FAULT /\ dry (lview a vm)).

Lemma write_round_ok x : write_inv x ->
  match file_write_round fd buf (zlen bs) x with
  | inl y => write_inv y /\ 0 <= zlen bs - y.2 < zlen bs - x.2
  | inr r => write_post r
  end.
Proof using Hr Hwp Hbuf Hu Hrd.
  destruct x as [s1 total]. intros (a & f & A1 & fuel & Es & Ht & Hsm & Hw). cbn [fst snd] in *. subst s1. unfold file_write_round.
  destruct (Z.ltb_spec total (zlen bs)) as [Hlt|Hge]; cbn [negb].
  2: { rewrite drop_ge in Hw by (unfold zlen in *; lia). assert (E : write_all fuel f (caller s) (fd_nat fd) total [] = Some (total, f)) by (by destruct fuel).
       rewrite E in Hw. injection Hw as <- <-. exists total, a, f, A1. split; [done|]. split; [done|]. by left. }
  set (chunk := if KBUF <? zlen bs - total then KBUF else zlen bs - total).
  assert (Hch : 0 < chunk <= zlen bs - total /\ chunk = Z.min KBUF (zlen bs - total)) by (unfold chunk, KBUF; destruct (Z.ltb_spec 4096 (zlen bs - total)); lia).
  clearbody chunk. assert (Hbt : user_va (buf + total)) by (apply Hu; lia).
  rewrite (u64_small (buf + total)) by (destruct Hbt; lia).
  assert (Hwp1 : whole_pages (regions (lview a vm) rs)) by (unfold regions; by rewrite (sm_pool _ _ _ _ _ Hsm)).
  destruct (copy_in_ok s p vm a f A1 rs (buf + total) chunk Hr (sm_ok _ _ _ _ _ Hsm) Hwp1) as (rc & kbuf & a' & -> & (A2 & Hsm2) & Hrd2 & Hrc);
    [lia|destruct (Hu (buf + total + chunk - 1)); lia|intros; apply Hu; lia|].
  pose proof (same_trans _ _ _ _ _ _ _ Hsm Hsm2) as Hsm3.
  destruct Hrc as [[-> Hl]|(-> & Hl & Hb & Hd)]; cbn [Z.eqb negb].
  - assert (Ek : kbuf = take (Z.to_nat KBUF) (drop (Z.to_nat total) bs)).
    { apply list_eq. intros i. destruct (decide (i < length kbuf)%nat) as [Hi|Hi].
      - rewrite Hrd2 by done. rewrite (sm_mem _ _ _ _ _ Hsm) by (apply Hu; unfold zlen in *; lia).
        rewrite lookup_take_lt, lookup_drop by (unfold zlen, KBUF in *; lia). rewrite Hrd by (unfold zlen in *; lia). f_equal. lia.
      - rewrite !lookup_ge_None_2; [done|rewrite length_take, length_drop; unfold zlen, KBUF in *; lia|lia]. }
    assert (Hne : drop (Z.to_nat total) bs <> []) by (intros E; apply (f_equal length) in E; rewrite length_drop in E; unfold zlen in *; simpl in E; lia).
    change (fs_of (kput s a' f)) with f. change (caller (kput s a' f)) with (caller s).
    destruct fuel as [|fuel]; [cbn [write_all] in Hw; destruct (drop _ bs); done|].
    assert (Ew : write_all (Datatypes.S fuel) f (caller s) (fd_nat fd) total (drop (Z.to_nat total) bs) =
      match Vfs.vfs_write port_send f (caller s) (fd_nat fd) (Some kbuf) with
      | None => None
      | Some (r, f) => if r <? 0 then Some (if total =? 0 then ret r else total, f)
          else write_all fuel f (caller s) (fd_nat fd) (total + zlen kbuf) (drop (Z.to_nat KBUF) (drop (Z.to_nat total) bs))
      end) by (rewrite Ek; destruct (drop (Z.to_nat total) bs); done).
    rewrite Ew in Hw. destruct (Vfs.vfs_write port_send f (caller s) (fd_nat fd) (Some kbuf)) as [[r f1]|]; [|done].
    destruct (r <? 0).
    + injection Hw as <- <-. exists (if total =? 0 then ret r else total), a', f1, A2. split; [done|]. split; [done|]. by left.
    + split; [|cbn [snd]; lia]. exists a', f1, A2, fuel. cbn [fst snd]. split; [done|]. split; [lia|]. split; [done|].
      rewrite drop_drop in Hw. rewrite Hl in Hw.
      destruct (decide (chunk = KBUF)) as [->|].
      * by replace (Z.to_nat (total + KBUF)) with (Z.to_nat total + Z.to_nat KBUF)%nat by (unfold KBUF in *; lia).
      * rewrite drop_ge in Hw |- * by (unfold zlen, KBUF in *; lia). done.
  - exists ESYS_FAULT, a', f, A2. split; [done|]. split; [done|]. right. split; [done|].
    destruct Hd as [Hp0|[[? _]|Hd]]; [|done|done]. exfalso.
    assert (Hi : (Z.to_nat (total + zlen kbuf) < length bs)%nat) by (pose proof (zlen_nonneg kbuf); unfold zlen in *; lia).
    specialize (Hrd _ Hi). destruct (lookup_lt_is_Some_2 _ _ Hi) as [y Ey]. pose proof (zlen_nonneg kbuf).
    assert (Hm : umem (lview a vm) rs (buf + total + zlen kbuf) = Some y).
    { rewrite (sm_mem _ _ _ _ _ Hsm) by (apply Hu; lia). rewrite <- Ey, Hrd. f_equal. lia. }
    unfold umem in Hm. by rewrite Hb, Hp0 in Hm.
Qed.

Lemma write_file_ok : write_all (length bs) (fs_of s) (caller s) (fd_nat fd) 0 bs = Some (v0, f0) ->
  write_post (run (file_write_round fd buf (zlen bs)) (s, 0)).
Proof using Hr Hwp Hok Hbuf Hu Hrd.
  intros Hw. unfold run. pose proof (zlen_nonneg bs) as Hz.
  destruct (loop_rule (file_write_round fd buf (zlen bs)) write_inv (fun x => zlen bs - x.2) write_post ROUNDS (s, 0)) as (r & -> & Hpost).
  - intros x. apply write_round_ok.
  - exists (k_as (env s)), (k_fs (env s)), A, (length bs). cbn [fst snd]. rewrite kput_self. split; [done|]. split; [lia|].
    split; [by apply same_refl|]. exact Hw.
  - change (Zpos ROUNDS) with (2 ^ 64 + 1). cbn [snd]. destruct (decide (zlen bs = 0)); [lia|]. destruct (Hu (buf + zlen bs - 1)); lia.
  - done.
Qed.

End Write.

(** Descriptors that are not those of the console. *)
Definition file_fd (fd : Z) : Prop := 0 <= fd < 2 ^ 32 /\ 2 < fd.

Lemma sys_write_ok s p vm A rs fd buf bs v0 f0 : runs s p vm -> lok (space_of s vm) A rs -> whole_pages (regions (space_of s vm) rs) ->
  file_fd fd -> 0x1000 <= buf -> bs <> [] -> (forall x, buf <= x < buf + zlen bs -> user_va x) -> reads (space_of s vm) rs buf bs ->
  write_all (length bs) (fs_of s) (caller s) (fd_nat fd) 0 bs = Some (v0, f0) ->
  write_post s vm A rs v0 f0 (sys_write s fd buf (zlen bs)).
Proof.
  intros Hr Hok Hwp [Hfd Hfd2] Hbuf Hne Hu Hrd Hw. unfold sys_write.
  assert (Hz : 0 < zlen bs) by (destruct bs; [done|unfold zlen; simpl; lia]).
  destruct (Hu (buf + zlen bs - 1)) as [H1 _]; [lia|].
  rewrite (proj2 (Z.eqb_neq (zlen bs) 0)) by lia.
  rewrite (proj2 (validate_user_ptr_spec buf (zlen bs) ltac:(lia) ltac:(lia))) by lia. cbn [negb].
  rewrite (proj2 (Z.eqb_neq fd 1)), (proj2 (Z.eqb_neq fd 2)), (proj2 (Z.eqb_neq fd 0)) by lia. cbn [orb andb].
  apply (write_file_ok s p); (done || lia).
Qed.

(** ** [sys_read] *)

Section Read.
Context s (p : pcb_ref) (vm : nat) A rs (fd buf n : Z) (bs0 : list Z) (v0 : Z) f0.
Let l : lstate S := space_of s vm.
Context (Hr : runs s p vm) (Hok : lok l A rs) (Hwp : whole_pages (regions l rs)) (Hbuf : 0 < buf).
Context (Hu : forall x, buf <= x < buf + n -> user_va x) (Hbs : Forall is_byte bs0) (Hlen : zlen bs0 <= n).

Definition read_inv (x : sched (machine S W H C N) * Z) : Prop :=
  exists a f A1 fuel acc, x.1 = kput s a f /\ x.2 = zlen acc /\ zlen acc <= n /\ wrote l A rs buf acc (lview a vm) A1 /\
    read_all fuel f (caller s) (fd_nat fd) n acc = Some (v0, bs0, f0).

Definition read_post (r : res (@sysres S W H C N)) : Prop :=
  exists v a f A1 bs, r = Ok (SRet v (kput s a f)) /\ wrote l A rs buf bs (lview a vm) A1 /\
    (v = v0 /\ f = f0 /\ bs = bs0 \/
     v = ESYS_FAULT /\ bs `prefix_of` bs0 /\ zlen bs < zlen bs0 /\ refused l rs true (buf + zlen bs) (lview a vm)).

Lemma read_round_ok x : read_inv x ->
  match file_read_round fd buf n x with
  | inl y => read_inv y /\ 0 <= n - y.2 < n - x.2
  | inr r => read_post r
  end.
Proof using Hr Hwp Hbuf Hu Hbs Hlen.
  destruct x as [s1 total]. intros (a & f & A1 & fuel & acc & Es & Et & Hle & Hw & Hrd). cbn [fst snd] in *. subst s1 total.
  unfold file_read_round. pose proof (zlen_nonneg acc) as Hz0.
  assert (Eread : forall v b f1, Some (v, b, f1) = Some (v0, bs0, f0) -> forall a' A', wrote l A rs buf acc (lview a' vm) A' -> b = acc ->
    read_post (Ok (SRet v (kput s a' f1)))).
  { intros v b f1 E a' A' Hw' ->. injection E as -> -> ->. exists v0, a', f0, A', bs0. split; [done|]. split; [done|]. by left. }
  destruct (Z.ltb_spec (zlen acc) n) as [Hlt|Hge]; cbn [negb].
  2: { assert (E : read_all fuel f (caller s) (fd_nat fd) n acc = Some (zlen acc, acc, f))
         by (destruct fuel; cbn [read_all]; by rewrite (proj2 (Z.leb_le _ _)) by lia).
       rewrite E in Hrd. by apply (Eread _ acc f Hrd a A1). }
  set (chunk := if KBUF <? n - zlen acc then KBUF else n - zlen acc).
  assert (Hch : chunk = Z.min KBUF (n - zlen acc)) by (unfold chunk, KBUF; destruct (Z.ltb_spec 4096 (n - zlen acc)); lia).
  rewrite Hch. change (fs_of (kput s a f)) with f. change (caller (kput s a f)) with (caller s).
  destruct fuel as [|fuel]; cbn [read_all] in Hrd; rewrite (proj2 (Z.leb_gt n (zlen acc))) in Hrd by lia; [done|].
  destruct (Vfs.vfs_read f (caller s) (fd_nat fd) true _ true) as [[[r kbuf] f1]|]; [|done].
  change (put_fs (kput s a f) f1) with (kput s a f1).
  destruct (r <? 0); [by apply (Eread _ acc f1 Hrd a A1)|].
  destruct (Z.eqb_spec (zlen kbuf) 0) as [|Hk]; [by apply (Eread _ acc f1 Hrd a A1)|].
  pose proof (read_all_prefix _ _ _ _ _ _ _ _ _ Hrd) as [tl Etl]. pose proof (zlen_nonneg kbuf) as Hzk.
  assert (Hl : zlen acc + zlen kbuf <= n) by (rewrite Etl, !zlen_app in Hlen; pose proof (zlen_nonneg tl); lia).
  assert (Hkb : Forall is_byte kbuf) by (rewrite Etl in Hbs; by apply Forall_app in Hbs as [[_ ?]%Forall_app _]).
  assert (Hv : user_va (buf + zlen acc)) by (apply Hu; lia). rewrite (u64_small (buf + zlen acc)) by (destruct Hv; lia).
  assert (Hwp1 : whole_pages (regions (lview a vm) rs)) by (unfold regions; by rewrite (wr_pool _ _ _ _ _ _ _ Hw)).
  destruct (copy_out_ok s p vm a f1 A1 rs (buf + zlen acc) kbuf Hr (wr_ok _ _ _ _ _ _ _ Hw) Hwp1 ltac:(lia) Hkb)
    as (rc & a' & -> & k & A2 & Hk2 & Hw2 & Hrc); [intros; apply Hu; lia|].
  pose proof (wrote_trans _ _ _ _ _ _ _ _ _ _ Hw Hw2) as Hw3.
  destruct Hrc as [[-> ->]|(-> & Hk3 & Href)]; cbn [Z.eqb negb].
  - rewrite firstn_all in Hw3. split; [|cbn [snd]; lia]. exists a', f1, A2, fuel, (acc ++ kbuf). cbn [fst snd].
    rewrite zlen_app. split; [done|]. split; [done|]. split; [lia|]. split; done.
  - exists ESYS_FAULT, a', f1, A2, (acc ++ take k kbuf). split; [done|]. split; [done|]. right. split; [done|]. split.
    + rewrite Etl, <- app_assoc. apply prefix_app. exists (drop k kbuf ++ tl). by rewrite app_assoc, take_drop.
    + assert (Ek : zlen (acc ++ take k kbuf) = zlen acc + Z.of_nat k) by (rewrite zlen_app; unfold zlen at 2; rewrite length_take; lia).
      rewrite Ek, Z.add_assoc. split; [rewrite Etl, !zlen_app; pose proof (zlen_nonneg tl); unfold zlen in *; lia|]. apply (refused_wrote l A rs true buf acc _ (lview a vm) A1); [done| |done].
      apply Hu. unfold zlen in *. lia.
Qed.

Lemma read_file_calls_ok : 0 <= n < 2 ^ 64 -> read_all (Z.to_nat n) (fs_of s) (caller s) (fd_nat fd) n [] = Some (v0, bs0, f0) ->
  read_post (run (file_read_round fd buf n) (s, 0)).
Proof using Hr Hwp Hok Hbuf Hu Hbs Hlen.
  intros Hn Hrd. unfold run.
  destruct (loop_rule (file_read_round fd buf n) read_inv (fun x => n - x.2) read_post ROUNDS (s, 0)) as (r & -> & Hpost).
  - intros x. apply read_round_ok.
  - exists (k_as (env s)), (k_fs (env s)), A, (Z.to_nat n), []. cbn [fst snd]. rewrite kput_self. split; [done|]. split; [done|].
    split; [unfold zlen; simpl; lia|]. split; [by apply same_wrote, same_refl|]. exact Hrd.
  - change (Zpos ROUNDS) with (2 ^ 64 + 1). cbn [snd]. lia.
  - done.
Qed.

End Read.

Lemma sys_read_ok s p vm A rs fd buf n bs0 v0 f0 : runs s p vm -> lok (space_of s vm) A rs -> whole_pages (regions (space_of s vm) rs) ->
  file_fd fd -> 0x1000 <= buf -> 0 < n -> (forall x, buf <= x < buf + n -> user_va x) -> Forall is_byte bs0 -> zlen bs0 <= n ->
  read_all (Z.to_nat n) (fs_of s) (caller s) (fd_nat fd) n [] = Some (v0, bs0, f0) ->
  read_post s vm A rs buf bs0 v0 f0 (sys_read s fd buf n).
Proof.
  intros Hr Hok Hwp [Hfd Hfd2] Hbuf Hn Hu Hb Hl Hrd. unfold sys_read. destruct (Hu (buf + n - 1)) as [H1 _]; [lia|].
  rewrite (proj2 (Z.eqb_neq n 0)) by lia. rewrite (proj2 (validate_user_ptr_spec buf n ltac:(lia) ltac:(lia))) by lia. cbn [negb].
  rewrite (proj2 (Z.eqb_neq fd 0)) by lia. cbn [andb]. apply (read_file_calls_ok s p); (done || lia).
Qed.

End Proofs.
End SysFileThm.
