(* ===== verification/SysRam.v ===== *)
(** * kernel/arch/syscall.c: files of the memory file system

    What the calls of [sys_write] and [sys_read] do when the descriptor is a
    file of the memory file system, and a write that is read back: from the
    buffer of a process through the system calls, the VFS and the memory file
    system, to another buffer.  *)

From S2P Require Import Prelude Phys PhysInv PhysInit PageAlloc PageTable Region AddrSpace Bytes Ringbuf Vfs Heap Ramfs RamfsInv RamfsFile RamfsVfs UserMem UserStack Elf Loader UserAccess UserAccThm Macho RbTree Sched Spawn Machine Syscall SysMemThm SysFileThm.
From Stdlib Require Import ZArith Lia.
From stdpp Require Import base list gmap numbers.
Open Scope Z_scope.

Module SysRam.
Import PageAlloc PageTable AddrSpace RamfsInv RamfsFile RamfsVfs UserMem UserStack Elf Loader UserAccess UserAccThm Sched Spawn Machine Syscall SysMemThm SysFileThm.

Lemma a_write_app c pos b1 b2 : (pos <= length c)%nat -> a_write (a_write c pos b1) (pos + length b1) b2 = a_write c pos (b1 ++ b2).
Proof.
  intros Hp. unfold a_write. set (d := drop (pos + length b1) c).
  assert (Hl : length (take pos c ++ b1) = (pos + length b1)%nat) by (rewrite length_app, length_take; lia).
  rewrite (app_assoc (take pos c) b1 d), take_app_length' by done.
  assert (E : drop (pos + length b1 + length b2) ((take pos c ++ b1) ++ d) = drop (pos + length (b1 ++ b2)) c).
  { rewrite <- drop_drop, drop_app_length' by done. unfold d. rewrite drop_drop, length_app. f_equal. lia. }
  by rewrite E, <- !app_assoc.
Qed.

Lemma a_write_nil c pos : a_write c pos [] = c.
Proof. unfold a_write. simpl. rewrite Nat.add_0_r. apply take_drop. Qed.

Lemma a_write_len c pos b : (pos <= length c)%nat -> (pos + length b <= length (a_write c pos b))%nat.
Proof. intros. unfold a_write. rewrite !length_app, length_take. lia. Qed.

Lemma a_read_split c pos k m : (k <= m)%nat ->
  a_read c pos m = a_read c pos k ++ a_read c (pos + length (a_read c pos k)) (m - length (a_read c pos k)).
Proof.
  intros Hk. unfold a_read. rewrite <- drop_drop. set (d := drop pos c). rewrite length_take.
  destruct (decide (k <= length d)%nat).
  - rewrite Nat.min_l by done. rewrite <- (take_drop k d) at 1. rewrite take_app. rewrite length_take, Nat.min_l by done.
    rewrite take_take, Nat.min_r by done. done.
  - rewrite Nat.min_r by lia. rewrite drop_all, take_nil, app_nil_r, !take_ge by lia. done.
Qed.

Section Files.
Context {K : Type} `{!Heap.Kmalloc K} `{!Ports (Ramfs.world K)}.
Implicit Types (f : Vfs.vfs_state (Ramfs.world K)).

(** Descriptor [fd] of [pid] is a file with contents [c], at position [pos]. *)
Record rfile f (pid fd : nat) (c : list Z) (pos : nat) : Prop := {
  rf_wf : wf (Vfs.fs f);
  rf_at : exists i a x, ram_fd f pid fd i a /\ Ramfs.files (Vfs.fs f) !! a = Some x /\ Ramfs.f_offset x = Z.of_nat pos /\
    contents (Ramfs.entry (Vfs.fs f) (Ramfs.f_fs x) (Ramfs.f_entry x)) = c;
  rf_pos : (pos <= length c)%nat }.

Lemma rfile_bound f pid fd c pos : rfile f pid fd c pos -> Z.of_nat pos < 2 ^ 63.
Proof. intros [Hw (i & a & x & _ & Ex & Eo & _) _]. destruct (wf_files _ Hw a x Ex) as (_ & ? & _). lia. Qed.

Lemma vfs_write_file f pid fd c pos bs : rfile f pid fd c pos -> bs <> [] -> zlen bs < 2 ^ 64 ->
  exists f', (Vfs.vfs_write port_send f (Some pid) fd (Some bs) = Some (Vfs.VFS_ENOSPC, f') /\ rfile f' pid fd c pos) \/
    (Vfs.vfs_write port_send f (Some pid) fd (Some bs) = Some (0, f') /\ rfile f' pid fd (a_write c pos bs) (pos + length bs)).
Proof.
  intros [Hw (i & a & x & Hfd & Ex & Eo & Ec) Hp] Hne Hb.
  destruct (wf_files _ Hw a x Ex) as (_ & _ & Hi & _). pose proof (wf_entry_at _ _ _ Hw Hi) as He. pose proof (contents_len _ He) as Hl.
  assert (Hle : Ramfs.f_offset x <= Ramfs.r_size (Ramfs.entry (Vfs.fs f) (Ramfs.f_fs x) (Ramfs.f_entry x)))
    by (rewrite Ec in Hl; destruct He as (_ & ? & _); lia).
  destruct (write_spec (Vfs.fs f) 0 a x bs Hw Ex Hb) as [(w1 & E & Hw1 & E1 & E2 & E3)|(w1 & e' & E & Hw1 & Ef1 & Een & Hc & _)].
  - destruct (vfs_write_ram port_send f pid fd i a bs _ _ Hfd Hne (fun _ => E)) as (f' & Es & <- & Hfd1). exists f'. left. split; [done|].
    split; [done| |done]. exists i, a, x. split; [done|]. split; [by rewrite E3|]. split; [done|].
    rewrite <- Ec. f_equal. unfold Ramfs.entry, Ramfs.entries. by rewrite E1, E2.
  - destruct (vfs_write_ram port_send f pid fd i a bs _ _ Hfd Hne (fun _ => E)) as (f' & Es & <- & Hfd1). exists f'. right. split; [done|].
    split; [done| |by apply a_write_len]. exists i, a. eexists. split; [done|]. split; [rewrite Ef1; apply lookup_insert_eq|].
    cbn. split; [rewrite Eo; lia|]. rewrite Een, decide_True by done. rewrite (Hc Hle), Ec, Eo. f_equal. lia.
Qed.

Lemma vfs_read_file f pid fd c pos n : rfile f pid fd c pos ->
  exists f', Vfs.vfs_read f (Some pid) fd true n true = Some (0, a_read c pos n, f') /\
    rfile f' pid fd c (pos + length (a_read c pos n)).
Proof.
  intros [Hw (i & a & x & Hfd & Ex & Eo & Ec) Hp]. destruct (read_spec (Vfs.fs f) 0 a x n Hw Ex) as (w' & E & Hw' & _ & E1 & E2 & E3).
  rewrite Ec, Eo, Nat2Z.id in E. destruct (vfs_read_ram f pid fd i a n _ _ Hfd (fun _ => E)) as (f' & Er & <- & Hfd'). exists f'.
  split; [done|]. split; [done| |unfold a_read; rewrite length_take, length_drop; lia].
  exists i, a. eexists. split; [done|]. split; [rewrite E3; apply lookup_insert_eq|]. cbn. rewrite Ec, Eo, Nat2Z.id.
  split; [lia|]. rewrite <- Ec. f_equal. unfold Ramfs.entry, Ramfs.entries. by rewrite E1, E2.
Qed.

Lemma vfs_seek_file f pid fd c pos (pos' : nat) : rfile f pid fd c pos -> (pos' <= length c)%nat -> Z.of_nat pos' < 2 ^ 63 ->
  exists f', Vfs.vfs_seek f (Some pid) fd (Z.of_nat pos') 0 = (Z.of_nat pos', f') /\ rfile f' pid fd c pos'.
Proof.
  intros [Hw (i & a & x & Hfd & Ex & Eo & Ec) Hp] Hp' Hz.
  destruct (wf_files _ Hw a x Ex) as (_ & _ & Hi & _). pose proof (wf_entry_at _ _ _ Hw Hi) as He. pose proof (contents_len _ He) as Hl. rewrite Ec in Hl.
  assert (Es : forall b, Ramfs.ramfs_seek (Vfs.fs f) b a (Z.of_nat pos') 0 =
    (Z.of_nat pos', Ramfs.set_file (Vfs.fs f) a (Ramfs.mkFile (Ramfs.f_fs x) (Ramfs.f_entry x) (Z.of_nat pos')))).
  { intros b. unfold Ramfs.ramfs_seek. rewrite Ex. cbn [Z.eqb]. destruct He as (_ & He & _).
    destruct (Z.ltb_spec (Z.of_nat pos') 0), (Z.ltb_spec (Ramfs.r_size (Ramfs.entry (Vfs.fs f) (Ramfs.f_fs x) (Ramfs.f_entry x))) (Z.of_nat pos')); try lia. done. }
  destruct (vfs_seek_ram f pid fd i a _ _ _ _ Hfd Es ltac:(lia)) as (f' & Er & E2 & Hfd'). exists f'. split; [done|].
  split; [rewrite E2; apply wf_move; [done..|lia]| |done]. exists i, a. eexists. split; [done|].
  split; [rewrite E2; cbn; apply lookup_insert_eq|]. cbn. split; [done|]. by rewrite E2.
Qed.

(** The writes of [sys_write]: the first [k] bytes are in the file; all of
    them, or the heap has refused to grow the file. *)
Lemma write_all_file bs : forall fuel f pid fd c pos total, rfile f pid fd c pos -> (length bs <= fuel)%nat -> zlen bs < 2 ^ 64 ->
  exists (k : nat) v f', write_all fuel f (Some pid) fd total bs = Some (v, f') /\ (k <= length bs)%nat /\
    rfile f' pid fd (a_write c pos (take k bs)) (pos + k) /\
    (k = length bs /\ v = total + zlen bs \/
     (k < length bs)%nat /\ v = if total + Z.of_nat k =? 0 then ret Vfs.VFS_ENOSPC else total + Z.of_nat k).
Proof.
  intros fuel. revert bs. induction fuel as [|fuel IH]; intros bs f pid fd c pos total Hf Hl Hz.
  - destruct bs; [|simpl in Hl; lia]. exists 0%nat, total, f. simpl. rewrite a_write_nil, Nat.add_0_r. split; [done|]. split; [done|].
    split; [done|]. left. unfold zlen. simpl. split; [done|lia].
  - destruct (decide (bs = [])) as [->|Hne].
    { exists 0%nat, total, f. simpl. rewrite a_write_nil, Nat.add_0_r. split; [done|]. split; [done|].
      split; [done|]. left. unfold zlen. simpl. split; [done|lia]. }
    set (kb := take (Z.to_nat KBUF) bs). set (tl := drop (Z.to_nat KBUF) bs).
    assert (Ebs : bs = kb ++ tl) by (symmetry; apply take_drop).
    assert (Hkb : kb <> [] /\ (0 < length kb)%nat).
    { assert ((0 < length kb)%nat); [|by destruct kb; [simpl in *; lia|]]. unfold kb. rewrite length_take. destruct bs; [done|]. unfold KBUF. simpl length. lia. }
    assert (Ew : write_all (Datatypes.S fuel) f (Some pid) fd total bs =
      match Vfs.vfs_write port_send f (Some pid) fd (Some kb) with
      | None => None
      | Some (r, f) => if r <? 0 then Some (if total =? 0 then ret r else total, f) else write_all fuel f (Some pid) fd (total + zlen kb) tl
      end) by (by destruct bs). rewrite Ew. clear Ew. clearbody kb tl.
    assert (Hlen : length bs = (length kb + length tl)%nat) by (by rewrite Ebs, length_app).
    destruct (vfs_write_file f pid fd c pos kb Hf (proj1 Hkb)) as (f' & [[-> Hf']|[-> Hf']]); [unfold zlen in *; lia| |]; cbn [Z.ltb Z.compare].
    + exists 0%nat. eexists _, f'. split; [done|]. split; [lia|]. rewrite take_0, a_write_nil, Nat.add_0_r. split; [done|]. right. split; [lia|].
      by rewrite Z.add_0_r.
    + destruct (IH tl f' pid fd _ _ (total + zlen kb) Hf') as (k & v & f2 & -> & Hk & Hf2 & Hv); [lia|unfold zlen in *; lia|].
      exists (length kb + k)%nat, v, f2. split; [done|]. split; [lia|]. destruct Hf as [_ _ Hp].
      rewrite Ebs, take_app, firstn_all2, <- a_write_app by lia. replace (length kb + k - length kb)%nat with k by lia.
      split; [by rewrite Nat.add_assoc|]. destruct Hv as [[-> ->]|[Hk' ->]].
      * left. rewrite length_app, zlen_app. split; [done|lia].
      * right. rewrite length_app. split; [lia|]. unfold zlen. by replace (total + Z.of_nat (length kb) + Z.of_nat k) with (total + Z.of_nat (length kb + k)) by lia.
Qed.

(** The reads of [sys_read] are one read. *)
Lemma read_all_file fuel : forall f pid fd c pos n acc, rfile f pid fd c pos -> zlen acc <= n -> n - zlen acc <= Z.of_nat fuel ->
  let bs := acc ++ a_read c pos (Z.to_nat (n - zlen acc)) in
  exists f', read_all fuel f (Some pid) fd n acc = Some (zlen bs, bs, f') /\ rfile f' pid fd c (pos + (length bs - length acc)).
Proof.
  induction fuel as [|fuel IH]; intros f pid fd c pos n acc Hf Ha Hn bs; cbn [read_all];
  (destruct (Z.leb_spec n (zlen acc)) as [Hge|Hlt];
   [assert (Eb : bs = acc) by (unfold bs; replace (Z.to_nat (n - zlen acc)) with 0%nat by lia; unfold a_read; by rewrite take_0, app_nil_r);
    rewrite Eb; exists f; split; [done|]; by rewrite Nat.sub_diag, Nat.add_0_r|]); [lia|].
  set (k := Z.to_nat (Z.min KBUF (n - zlen acc))). assert (Hk : (k <= Z.to_nat (n - zlen acc))%nat) by lia.
  destruct (vfs_read_file f pid fd c pos k Hf) as (f' & -> & Hf'). cbn [Z.ltb Z.compare].
  set (b := a_read c pos k) in *. pose proof (a_read_split c pos k _ Hk) as Es. fold b in Es.
  assert (Hb : (length b <= k)%nat) by (unfold b, a_read; rewrite length_take; lia).
  destruct (Z.eqb_spec (zlen b) 0) as [E0|E0].
  - assert (Eb : b = []) by (apply nil_length_inv; unfold zlen in E0; lia).
    assert (Ed : drop pos c = []).
    { unfold b, a_read in Eb. apply (f_equal length) in Eb. rewrite length_take in Eb. apply nil_length_inv. unfold k, KBUF in Eb. simpl length in Eb. lia. }
    assert (E : bs = acc) by (unfold bs, a_read; by rewrite Ed, take_nil, app_nil_r). rewrite E. exists f'. split; [done|].
    rewrite Nat.sub_diag, Nat.add_0_r. by rewrite Eb, Nat.add_0_r in Hf'.
  - destruct (IH f' pid fd c _ n (acc ++ b) Hf') as (f2 & E & Hf2); rewrite ?zlen_app; [unfold zlen in *; lia..|].
    assert (Ebs : (acc ++ b) ++ a_read c (pos + length b) (Z.to_nat (n - zlen (acc ++ b))) = bs).
    { unfold bs. rewrite Es, app_assoc, zlen_app. do 2 f_equal. unfold zlen. lia. }
    rewrite Ebs in E, Hf2. exists f2. split; [done|].
    replace (pos + (length bs - length acc))%nat with (pos + length b + (length bs - length (acc ++ b)))%nat; [done|].
    rewrite length_app. unfold bs. rewrite Es, !length_app. lia.
Qed.

End Files.

Section Proofs.
Context {S K H C N : Type} `{HM : PageMem S} `{HO : !PageMemOk S} `{!MemInfo S} `{!Bytes.KHeap H} `{!HeapRing H} `{!Heap.Kmalloc K} `{!Ports (Ramfs.world K)} `{!Console C} `{!Net N}.
Implicit Types (s : sched (machine S (Ramfs.world K) H C N)) (A : list blk) (rs : list nat).

(** The file behind descriptor [fd] of process [p]. *)
Definition sys_file s (p : pcb_ref) (fd : Z) (c : list Z) (pos : nat) : Prop := rfile (fs_of s) (fd_owner p) (fd_nat fd) c pos.

Lemma runs_kput s p vm a f : runs s p vm -> runs (kput s a f) p vm.
Proof. done. Qed.

Lemma sys_write_file_ok s p vm A rs fd buf bs c pos : runs s p vm -> lok (space_of s vm) A rs -> whole_pages (regions (space_of s vm) rs) ->
  file_fd fd -> 0x1000 <= buf -> bs <> [] -> (forall x, buf <= x < buf + zlen bs -> user_va x) -> reads (space_of s vm) rs buf bs ->
  sys_file s p fd c pos ->
  exists v a f A1, sys_write s fd buf (zlen bs) = Ok (SRet v (kput s a f)) /\ same_mem (space_of s vm) A rs (lview a vm) A1 /\
    (v = ESYS_FAULT /\ dry (lview a vm) \/
     exists k : nat, (k <= length bs)%nat /\ rfile f (fd_owner p) (fd_nat fd) (a_write c pos (take k bs)) (pos + k) /\
       (k = length bs /\ v = zlen bs \/ (k < length bs)%nat /\ v = if Z.of_nat k =? 0 then ret Vfs.VFS_ENOSPC else Z.of_nat k)).
Proof.
  intros Hr Hok Hwp Hfd Hbuf Hne Hu Hrd Hf. assert (Hz : zlen bs < 2 ^ 64).
  { destruct bs as [|b bs]; [done|]. destruct (Hu (buf + zlen (b :: bs) - 1)); [|lia]. unfold zlen. simpl length. lia. }
  destruct (write_all_file bs (length bs) (fs_of s) _ _ c pos 0 Hf (le_n _) Hz) as (k & v & f & Ew & Hk & Hf' & Hv).
  assert (Ec : caller s = Some (fd_owner p)) by (unfold caller; by rewrite (proj1 Hr)). rewrite <- Ec in Ew.
  destruct (sys_write_ok s p vm A rs fd buf bs v f Hr Hok Hwp Hfd Hbuf Hne Hu Hrd Ew) as (v1 & a & f1 & A1 & -> & Hsm & Hc).
  exists v1, a, f1, A1. split; [done|]. split; [done|]. destruct Hc as [[-> ->]|[-> Hd]]; [right|by left]. exists k. split; [done|]. by split.
Qed.

Lemma sys_read_file_ok s p vm A rs fd buf n c pos : runs s p vm -> lok (space_of s vm) A rs -> whole_pages (regions (space_of s vm) rs) ->
  file_fd fd -> 0x1000 <= buf -> 0 < n -> (forall x, buf <= x < buf + n -> user_va x) -> sys_file s p fd c pos ->
  let bs := a_read c pos (Z.to_nat n) in Forall is_byte bs ->
  exists v a f A1, sys_read s fd buf n = Ok (SRet v (kput s a f)) /\
    (v = zlen bs /\ wrote (space_of s vm) A rs buf bs (lview a vm) A1 /\ rfile f (fd_owner p) (fd_nat fd) c (pos + length bs) \/
     v = ESYS_FAULT /\ exists k : nat, (k < length bs)%nat /\ wrote (space_of s vm) A rs buf (take k bs) (lview a vm) A1 /\
       refused (space_of s vm) rs true (buf + Z.of_nat k) (lview a vm)).
Proof.
  intros Hr Hok Hwp Hfd Hbuf Hn Hu Hf bs Hb.
  destruct (read_all_file (Z.to_nat n) (fs_of s) _ _ c pos n [] Hf) as (f & E & Hf'); [unfold zlen; simpl; lia..|].
  change (zlen []) with 0 in E, Hf'. rewrite Z.sub_0_r in E, Hf'. cbn [app length] in E, Hf'. fold bs in E, Hf'. rewrite Nat.sub_0_r in Hf'.
  assert (Ec : caller s = Some (fd_owner p)) by (unfold caller; by rewrite (proj1 Hr)). rewrite <- Ec in E.
  assert (Hl : zlen bs <= n) by (unfold zlen, bs, a_read; rewrite length_take; lia).
  destruct (sys_read_ok s p vm A rs fd buf n bs _ f Hr Hok Hwp Hfd Hbuf Hn Hu Hb Hl E) as (v1 & a & f1 & A1 & bs1 & -> & Hw & Hc).
  exists v1, a, f1, A1. split; [done|]. destruct Hc as [(-> & -> & ->)|(-> & [tl Et] & Hlt & Href)]; [by left|right]. split; [done|].
  exists (length bs1). rewrite Et, length_app, take_app_length. split; [rewrite Et, zlen_app in Hlt; unfold zlen in Hlt; lia|]. by split.
Qed.


End Proofs.
End SysRam.
