(* ===== verification/SysPriv.v ===== *)
(** * kernel/arch/syscall.c: what a system call cannot change

    The handlers work on the kernel's tables and on the memory of the caller.
    [calm] says that the process table is as before but for a few fields of
    the caller; it holds for every handler that does not manage processes, and
    [sys_setuid], [sys_setgid] and [sys_kill] change exactly what their rules allow. *)

From S2P Require Import Prelude Phys PhysInv PhysInit PageAlloc PageTable Region AddrSpace Bytes Ringbuf Usr Vfs UserMem UserStack Elf Loader UserAccess Macho RbTree Sched Spawn Machine Syscall.
From Stdlib Require Import ZArith Lia.
From stdpp Require Import base list gmap numbers.
Open Scope Z_scope.
Open Scope asd_scope.

Module SysPriv.
Import PageAlloc AddrSpace UserMem UserStack Elf UserAccess Sched Spawn Machine Syscall.

(** The fields that identify a process, say what it may do and what runs. *)
Definition creds (v : pcb_t) :=
  (pid v, ppid v, uid v, gid v, groups v, va_map v, state v, sig_pending v, regs v).

(** An invariant of the rounds of a loop, however many there are. *)
Lemma loop_inv {X R} (f : X -> X + R) (I : X -> Prop) (Q : R -> Prop) :
  (forall x, I x -> match f x with inl y => I y | inr r => Q r end) ->
  forall n x, I x -> match loop f n x with inl y => I y | inr r => Q r end.
Proof.
  intros Hf. assert (Hc : forall n, (forall x, I x -> match loop f n x with inl y => I y | inr r => Q r end) ->
    forall x, I x -> match (match loop f n x with inl x => loop f n x | inr r => inr r end) with inl y => I y | inr r => Q r end).
  { intros n IH x Hx. pose proof (IH x Hx) as H1. destruct (loop f n x) as [y|]; [by apply IH|done]. }
  induction n as [n IH|n IH|]; intros x Hx; cbn [loop]; [|by apply Hc|by apply Hf].
  pose proof (Hf x Hx) as H0. destruct (f x) as [y|]; [by apply Hc|done].
Qed.

Create HintDb syskeeps.

Section Proofs.
Context {S W H C N : Type} `{PageMem S} `{!MemInfo S} `{!Bytes.KHeap H} `{!HeapRing H} `{!Console C} `{!Net N} `{!Ports W}.
Abbreviation mach := (machine S W H C N).
Implicit Types (s : sched mach) (r : res (@sysres S W H C N)).
Variables (kernel_cr3 g_bootstrap_kstack : Z) (kst0 : Vfs.stat_info_t) (ku0 pad0 : list Z).

Record calm s s' : Prop := {
  cm_current : sched_current s' = sched_current s;
  cm_others : forall q, sched_current s <> Some q -> procs s' q = procs s q;
  cm_creds : forall q, creds (procs s' q) = creds (procs s q);
  cm_users : k_users (env s') = k_users (env s) }.

Lemma calm_refl s : calm s s.
Proof. done. Qed.

Lemma calm_env s s1 e : calm s s1 -> k_users e = k_users (env s1) -> calm s (put_env s1 e).
Proof. intros [? ? ? ?] ?. split; try done. by etrans. Qed.

Lemma calm_pcb s s1 p v : calm s s1 -> sched_current s = Some p -> creds v = creds (procs s1 p) -> calm s (put_pcb s1 p v).
Proof.
  intros [? Ho Hc ?] Hp Hv. split; [done| | |done]; intros q; unfold put_pcb; cbn [procs put_procs]; destruct (decide (q = p)) as [->|]; auto; [done|].
  by rewrite Hv, Hc.
Qed.

Lemma calm_current s s1 p : calm s s1 -> sched_current s1 = Some p -> sched_current s = Some p.
Proof. intros [? _ _ _]. congruence. Qed.

(** A handler that returns to its caller. *)
Definition keeps s r : Prop := match r with Ok (SRet _ s') => calm s s' | _ => True end.
Definition keeps_in {X} s (a : res (X * sched mach)) : Prop := match a with Ok (_, s') => calm s s' | _ => True end.

Lemma keeps_on_user {X} s s1 (f : lstate S -> option (X * lstate S)) d : calm s s1 -> keeps_in s (on_user s1 f d).
Proof. intros Hs. unfold on_user. destruct (cur_map s1); [|done]. destruct (f _) as [[x l]|]; [|done]. by apply calm_env. Qed.

Lemma keeps_bind {X} s (a : res (X * sched mach)) k : keeps_in s a -> (forall x s1, calm s s1 -> keeps s (k (x, s1))) -> keeps s (rbind a k).
Proof. intros Ha Hk. destruct a as [[x s1]| |]; cbn [rbind]; [|done..]. by apply Hk. Qed.

Lemma keeps_bind0 s (a : res (sched mach)) k : match a with Ok s1 => calm s s1 | _ => True end -> (forall s1, calm s s1 -> keeps s (k s1)) -> keeps s (rbind a k).
Proof. intros Ha Hk. destruct a as [s1| |]; cbn [rbind]; [|done..]. by apply Hk. Qed.

Definition round_keeps s (f : sched mach * Z -> (sched mach * Z) + res sysres) : Prop :=
  forall s1 n, calm s s1 -> match f (s1, n) with inl y => calm s y.1 | inr r => keeps s r end.

Lemma keeps_loop s f s1 : round_keeps s f -> calm s s1 -> keeps s (run f (s1, 0)).
Proof.
  intros Hf Hs. unfold run.
  pose proof (loop_inv f (fun x => calm s x.1) (keeps s) (fun '(s2, n) => Hf s2 n) ROUNDS (s1, 0) Hs) as Hl. cbn [fst] in Hl.
  destruct (loop f ROUNDS (s1, 0)); done.
Qed.

Lemma keeps_out s s1 udst src v : calm s s1 -> keeps s (out_or_fault s1 udst src v).
Proof. intros Hs. apply keeps_bind; [by apply keeps_on_user|]. done. Qed.

Lemma keeps_path s path_u k : (forall path s1, calm s s1 -> keeps s (k path s1)) -> keeps s (with_path s path_u k).
Proof.
  intros Hk. apply keeps_bind; [apply keeps_on_user, calm_refl|]. intros [rc path] s1 Hs. destruct (negb (rc =? 0)); [done|]. by apply Hk.
Qed.

(** Handlers, branch by branch. *)
Ltac calm_solve :=
  repeat first
    [ assumption
    | apply calm_refl
    | match goal with |- calm _ (put_pcb _ _ _) => apply calm_pcb; [|solve [eassumption | eapply calm_current; eassumption]|reflexivity] end
    | match goal with |- calm _ (if _ then _ else _) => case_match end
    | match goal with |- calm _ (let _ := _ in _) => cbv zeta end
    | apply calm_env; [|reflexivity] ].
Ltac keeps_step :=
  lazymatch goal with
  | |- keeps _ (Ok (SRet _ _)) => cbn [keeps]; calm_solve
  | |- keeps _ Hang => exact I
  | |- keeps _ Fault => exact I
  | |- keeps _ (out_or_fault _ _ _ _) => apply keeps_out; calm_solve
  | |- keeps _ (with_path _ _ _) => apply keeps_path; intros
  | |- keeps _ (run _ (_, 0)) => apply keeps_loop; [|calm_solve]
  | |- keeps _ (rbind (on_user _ _ _) _) => apply keeps_bind; [apply keeps_on_user; calm_solve|]; intros
  | |- keeps _ (rbind (copy_out _ _ _) _) => apply keeps_bind; [apply keeps_on_user; calm_solve|]; intros
  | |- keeps _ (rbind (copy_in _ _ _) _) => apply keeps_bind; [apply keeps_on_user; calm_solve|]; intros
  | |- keeps _ (rbind (cstr_in _ _ _ _) _) => apply keeps_bind; [apply keeps_on_user; calm_solve|]; intros
  | |- keeps _ (rbind (if ?b then _ else _) _) => destruct b
  | |- keeps _ (rbind (Ok _) _) => cbn [rbind]
  | |- keeps _ (let _ := _ in _) => cbv zeta
  | |- keeps _ (match (let _ := _ in _) with _ => _ end) => cbv zeta
  | |- keeps _ (match (match ?x with _ => _ end) with _ => _ end) => destruct x eqn:?
  | |- keeps _ (match ?x with _ => _ end) => destruct x eqn:?
  end.
Ltac keeps_auto := repeat keeps_step.

Lemma round_copy_out s s1 udst src (k : Z -> sched mach -> (sched mach * Z) + res sysres) : calm s s1 ->
  (forall rc s2, calm s s2 -> match k rc s2 with inl y => calm s y.1 | inr r => keeps s r end) ->
  match (match copy_out s1 udst src with Hang => inr Hang | Fault => inr Fault | Ok (rc, s2) => k rc s2 end) with
  | inl y => calm s y.1 | inr r => keeps s r end.
Proof.
  intros Hs Hk. pose proof (keeps_on_user s s1 (fun l => copy_to_user l udst src) (if (udst =? 0) || (zlen src =? 0) then 0 else -1) Hs) as Ho.
  unfold copy_out. destruct (on_user _ _ _) as [[rc s2]| |]; [|done..]. by apply Hk.
Qed.

Lemma round_copy_in s s1 usrc n (k : Z -> list Z -> sched mach -> (sched mach * Z) + res sysres) : calm s s1 ->
  (forall rc bs s2, calm s s2 -> match k rc bs s2 with inl y => calm s y.1 | inr r => keeps s r end) ->
  match (match copy_in s1 usrc n with Hang => inr Hang | Fault => inr Fault | Ok (rc, bs, s2) => k rc bs s2 end) with
  | inl y => calm s y.1 | inr r => keeps s r end.
Proof.
  intros Hs Hk. pose proof (keeps_on_user s s1 (fun l => copy_from_user l usrc n) (if (usrc =? 0) || (n =? 0) then 0 else -1, []) Hs) as Ho.
  unfold copy_in. destruct (on_user _ _ _) as [[[rc bs] s2]| |]; [|done..]. by apply Hk.
Qed.

Ltac round_auto :=
  repeat first
    [ progress cbv zeta
    | progress cbn [fst]
    | exact I
    | solve [cbn [keeps]; calm_solve]
    | apply round_copy_out; [calm_solve|]; intros
    | apply round_copy_in; [calm_solve|]; intros
    | match goal with |- match (match ?x with _ => _ end) with inl _ => _ | inr _ => _ end => destruct x eqn:? end ].

Lemma key_round_keeps s buf n : round_keeps s (key_round buf n).
Proof. intros s1 g Hs. unfold key_round. round_auto. Qed.
Lemma file_read_round_keeps s fd buf n : round_keeps s (file_read_round fd buf n).
Proof. intros s1 g Hs. unfold file_read_round. round_auto. Qed.
Lemma screen_round_keeps s buf n : round_keeps s (screen_round buf n).
Proof. intros s1 g Hs. unfold screen_round. round_auto. Qed.
Lemma file_write_round_keeps s fd buf n : round_keeps s (file_write_round fd buf n).
Proof. intros s1 g Hs. unfold file_write_round. round_auto. Qed.
Lemma send_round_keeps s send id buf n : round_keeps s (send_round send id buf n).
Proof. intros s1 g Hs. unfold send_round. round_auto. Qed.
Lemma tcp_recv_round_keeps s id buf n b : round_keeps s (tcp_recv_round id buf n b).
Proof. intros s1 g Hs. unfold tcp_recv_round. round_auto. Qed.

Lemma sys_open_keeps s a b : keeps s (sys_open s a b).
Proof. unfold sys_open. keeps_auto. Qed.

Lemma sys_close_keeps s a : keeps s (sys_close s a).
Proof. unfold sys_close. keeps_auto. Qed.

Lemma sys_stat_keeps s a b : keeps s (sys_stat kst0 pad0 s a b).
Proof. unfold sys_stat. keeps_auto. Qed.

Lemma sys_seek_keeps s a b c : keeps s (sys_seek s a b c).
Proof. unfold sys_seek. keeps_auto. Qed.

Lemma sys_mkdir_keeps s a : keeps s (sys_mkdir s a).
Proof. unfold sys_mkdir. keeps_auto. Qed.

Lemma sys_unlink_keeps s a : keeps s (sys_unlink s a).
Proof. unfold sys_unlink. keeps_auto. Qed.

Lemma sys_readdir_keeps s a b c d : keeps s (sys_readdir s a b c d).
Proof. unfold sys_readdir. keeps_auto. Qed.

Lemma sys_uname_keeps s a : keeps s (sys_uname ku0 s a).
Proof. unfold sys_uname. keeps_auto. Qed.

Lemma sys_getcwd_impl_keeps s a b : keeps s (sys_getcwd_impl s a b).
Proof. unfold sys_getcwd_impl. keeps_auto. Qed.

Lemma sys_chdir_keeps s a : keeps s (sys_chdir kst0 s a).
Proof. unfold sys_chdir. keeps_auto. Qed.

Lemma sys_pipe_keeps s a : keeps s (sys_pipe s a).
Proof. unfold sys_pipe. keeps_auto. Qed.

Lemma sys_meminfo_keeps s a b : keeps s (sys_meminfo s a b).
Proof. unfold sys_meminfo. keeps_auto. Qed.

Lemma sys_getusername_keeps s a b : keeps s (sys_getusername s a b).
Proof. unfold sys_getusername. keeps_auto. Qed.

Lemma sys_net_send_keeps s a b c d e : keeps s (sys_net_send s a b c d e).
Proof. unfold sys_net_send. keeps_auto. Qed.

Lemma sys_tcp_connect_keeps s a b c : keeps s (sys_tcp_connect s a b c).
Proof. unfold sys_tcp_connect. keeps_auto. Qed.

Lemma sys_dns_resolve_keeps s a b : keeps s (sys_dns_resolve s a b).
Proof. unfold sys_dns_resolve. keeps_auto. Qed.

Lemma sys_tls_connect_keeps s a b : keeps s (sys_tls_connect s a b).
Proof. unfold sys_tls_connect. keeps_auto. Qed.

Lemma sys_tls_recv_keeps s a b c d : keeps s (sys_tls_recv s a b c d).
Proof. unfold sys_tls_recv. keeps_auto. Qed.

Lemma sys_read_keeps s fd buf n : keeps s (sys_read s fd buf n).
Proof. unfold sys_read. keeps_auto; [apply key_round_keeps|apply file_read_round_keeps]. Qed.

Lemma sys_write_keeps s fd buf n : keeps s (sys_write s fd buf n).
Proof. unfold sys_write. keeps_auto; [apply screen_round_keeps|apply file_write_round_keeps]. Qed.

Lemma sys_tcp_send_keeps s id buf n : keeps s (sys_tcp_send s id buf n).
Proof. unfold sys_tcp_send. keeps_auto. apply send_round_keeps. Qed.

Lemma sys_tls_send_keeps s id buf n : keeps s (sys_tls_send s id buf n).
Proof. unfold sys_tls_send. keeps_auto. apply send_round_keeps. Qed.

Lemma sys_tcp_recv_keeps s id buf n b : keeps s (sys_tcp_recv s id buf n b).
Proof. unfold sys_tcp_recv. keeps_auto. apply tcp_recv_round_keeps. Qed.

Lemma maybe_out_keeps s s1 p n bs : calm s s1 -> match maybe_out s1 p n bs with Ok s2 => calm s s2 | _ => True end.
Proof.
  intros Hs. unfold maybe_out. destruct (_ && _); [|done]. pose proof (keeps_on_user s s1 (fun l => copy_to_user l p bs) (if (p =? 0) || (zlen bs =? 0) then 0 else -1) Hs) as Ho.
  unfold copy_out. by destruct (on_user _ _ _) as [[rc s2]| |].
Qed.

Lemma sys_net_recv_keeps s a b c d : keeps s (sys_net_recv s a b c d).
Proof.
  unfold sys_net_recv. keeps_auto. apply keeps_bind0; [by apply maybe_out_keeps|]. intros s2 Hs2.
  apply keeps_bind0; [by apply maybe_out_keeps|]. done.
Qed.

Lemma sys_net_ping_keeps s a b : keeps s (sys_net_ping s a b).
Proof.
  unfold sys_net_ping. keeps_auto. apply keeps_bind0; [apply maybe_out_keeps; calm_solve|]. done.
Qed.

Lemma writev_round_keeps s fd base len s1 off : calm s s1 ->
  match writev_round fd base len (s1, off) with inl y => calm s y.1 | inr (inl a) => keeps_in s a | inr (inr s2) => calm s s2 end.
Proof.
  intros Hs. unfold writev_round. destruct (negb _); [done|]. cbv zeta. set (chunk := if KBUF <? len - off then KBUF else len - off).
  pose proof (keeps_on_user s s1 (fun l => copy_from_user l (u64 (base + off)) chunk) (if (u64 (base + off) =? 0) || (chunk =? 0) then 0 else -1, []) Hs) as Ho.
  unfold copy_in. destruct (on_user _ _ _) as [[[rc bs] s2]| |]; [|done..]. cbn [keeps_in] in Ho. destruct (negb _); [done|].
  destruct (to_screen fd); [cbn [fst]; calm_solve|]. destruct (Vfs.vfs_write _ _ _ _ _) as [[v f]|]; [|done].
  destruct (v <? 0); cbn [keeps_in fst]; calm_solve.
Qed.

Lemma writev_loop_keeps s fd kiov : forall s1 total, calm s s1 -> keeps s (writev_loop fd kiov s1 total).
Proof.
  induction kiov as [|[base len] kiov IH]; intros s1 total Hs; cbn [writev_loop]; [keeps_auto|].
  destruct (len =? 0); [by apply IH|]. destruct (negb _); [done|]. destruct (u64 _ <? _); [done|].
  pose proof (loop_inv (writev_round fd base len) (fun x => calm s x.1) (fun x => match x with inl a => keeps_in s a | inr s2 => calm s s2 end)) as Hl.
  specialize (Hl (fun '(s2, n) => writev_round_keeps s fd base len s2 n) ROUNDS (s1, 0) Hs).
  destruct (loop _ _ _) as [|[a|s2]]; [done|by apply keeps_bind|by apply IH].
Qed.

Lemma sys_writev_keeps s a b c : keeps s (sys_writev s a b c).
Proof. unfold sys_writev. keeps_auto. by apply writev_loop_keeps. Qed.

Lemma cur_space_current s p vm : cur_space s = Some (p, vm) -> sched_current s = Some p.
Proof. unfold cur_space. destruct (sched_current s); [|done]. destruct (vmap_slot _); [|done]. by intros [= <- _]. Qed.

Lemma sys_mmap_keeps s a b c d e : keeps s (sys_mmap s a b c d e).
Proof. unfold sys_mmap. keeps_auto; apply cur_space_current in Heqo; calm_solve. Qed.

Lemma sys_brk_keeps s a : keeps s (sys_brk s a).
Proof. unfold sys_brk. keeps_auto; apply cur_space_current in Heqo; calm_solve. Qed.

Lemma sys_exit_keeps s a : keeps s (sys_exit kernel_cr3 g_bootstrap_kstack s a).
Proof. unfold sys_exit. by destruct (sched_exit _ _ _ _). Qed.

#[local] Hint Resolve sys_exit_keeps sys_open_keeps sys_close_keeps sys_read_keeps sys_write_keeps sys_stat_keeps sys_seek_keeps sys_mkdir_keeps
  sys_unlink_keeps sys_readdir_keeps sys_uname_keeps sys_mmap_keeps sys_brk_keeps sys_writev_keeps sys_net_send_keeps sys_net_recv_keeps
  sys_net_ping_keeps sys_chdir_keeps sys_getcwd_impl_keeps sys_pipe_keeps sys_tcp_connect_keeps sys_tcp_send_keeps sys_tcp_recv_keeps
  sys_dns_resolve_keeps sys_tls_connect_keeps sys_tls_send_keeps sys_tls_recv_keeps sys_meminfo_keeps sys_getusername_keeps : syskeeps.

Lemma value_keeps s v : keeps s (value s v).
Proof. apply calm_refl. Qed.

Lemma dup2_keeps s a b : keeps s (effect (sys_dup2 s a b)).
Proof. unfold effect, sys_dup2. destruct (Vfs.vfs_dup2 _ _ _ _). cbn [keeps snd]. calm_solve. Qed.

Lemma tcp_close_keeps s a : keeps s (effect (sys_tcp_close s a)).
Proof. cbn [effect sys_tcp_close keeps snd]. calm_solve. Qed.

Lemma tls_close_keeps s a : keeps s (effect (sys_tls_close s a)).
Proof. cbn [effect sys_tls_close keeps snd]. calm_solve. Qed.

#[local] Hint Resolve value_keeps dup2_keeps tcp_close_keeps tls_close_keeps : syskeeps.

(** The calls that change the process table. *)
Definition SYS_SPAWN : Z := 11.
Definition SYS_WAIT : Z := 12.
Definition SYS_YIELD : Z := 14.
Definition SYS_SETUID : Z := 28.
Definition SYS_SETGID : Z := 29.
Definition SYS_KILL : Z := 35.

Abbreviation dispatch := (syscall_dispatch kernel_cr3 g_bootstrap_kstack kst0 ku0 pad0).

Lemma dispatch_keeps s tsc rg nr a0 a1 a2 a3 a4 : nr ∉ [SYS_SPAWN; SYS_WAIT; SYS_YIELD; SYS_SETUID; SYS_SETGID; SYS_KILL] ->
  keeps s (dispatch s tsc rg nr a0 a1 a2 a3 a4).
Proof.
  intros Hn. unfold syscall_dispatch.
  repeat match goal with |- keeps _ (match ?x with _ => _ end) => destruct x end; first [solve [auto with syskeeps] | exfalso; apply Hn; repeat (apply elem_of_cons; first [left; reflexivity | right])].
Qed.

(** ** Privileges *)

(** The caller's user is in the wheel. *)
Definition wheel s (p : pcb_ref) : Prop :=
  exists u, find_user s (uid (procs s p)) = Some u /\ has_flag (Usr.flags u) Usr.USR_FLAG_WHEEL = true.

(** The 16-bit fields. *)
Definition ids16 s : Prop := forall q, 0 <= uid (procs s q) < 2 ^ 16 /\ 0 <= gid (procs s q) < 2 ^ 16.

(** What call [nr], made in state [s], may have done to the processes. *)
Record lawful s (nr : Z) s' : Prop := {
  lw_uid : forall q, uid (procs s' q) = uid (procs s q) \/
    nr = SYS_SETUID /\ sched_current s = Some q /\ (uid (procs s q) = 0 \/ uid (procs s' q) = 0 /\ wheel s q);
  lw_gid : forall q, gid (procs s' q) = gid (procs s q) \/ nr = SYS_SETGID /\ sched_current s = Some q /\ uid (procs s q) = 0;
  lw_ident : forall q, let i v := (pid v, ppid v, groups v, va_map v, state v, regs v) in i (procs s' q) = i (procs s q);
  lw_others : forall q, sched_current s <> Some q -> nr <> SYS_KILL -> procs s' q = procs s q;
  lw_kill : nr = SYS_KILL -> forall q, exists sg, procs s' q = set_sig_pending (procs s q) sg;
  lw_users : k_users (env s') = k_users (env s);
  lw_ids : ids16 s' }.

Lemma calm_lawful s nr s' : ids16 s -> nr <> SYS_KILL -> calm s s' -> lawful s nr s'.
Proof.
  intros Hi Hn [Hc Ho Hcr Hus]. assert (Hf : forall q, (pid (procs s' q), ppid (procs s' q), uid (procs s' q), gid (procs s' q), groups (procs s' q), va_map (procs s' q), state (procs s' q), sig_pending (procs s' q), regs (procs s' q)) =
    (pid (procs s q), ppid (procs s q), uid (procs s q), gid (procs s q), groups (procs s q), va_map (procs s q), state (procs s q), sig_pending (procs s q), regs (procs s q))) by exact Hcr.
  split; try done; intros q; specialize (Hf q); injection Hf as E1 E2 E3 E4 E5 E6 E7 E8 E9.
  - by left.
  - by left.
  - cbn. congruence.
  - intros. by apply Ho.
  - rewrite E3, E4. apply Hi.
Qed.

Lemma ids16_put s p v : ids16 s -> 0 <= uid v < 2 ^ 16 /\ 0 <= gid v < 2 ^ 16 -> ids16 (put_pcb s p v).
Proof. intros Hi Hv q. unfold put_pcb. cbn [procs put_procs]. destruct (decide (q = p)); [done|apply Hi]. Qed.

Lemma setuid_lawful s u v s' : ids16 s -> sys_setuid s u = (v, s') -> lawful s SYS_SETUID s'.
Proof.
  intros Hi. unfold sys_setuid. destruct (sched_current s) as [p|] eqn:Hc; [|intros [= _ <-]; by apply calm_lawful].
  set (b := _ && _ && _). destruct b eqn:Hb; [intros [= _ <-]; by apply calm_lawful|]. intros [= _ <-].
  assert (Hid : 0 <= u16 u < 2 ^ 16) by (apply Z.mod_pos_bound; lia).
  assert (Hu : u16 u = uid (procs s p) \/ uid (procs s p) = 0 \/ u16 u = 0 /\ wheel s p).
  { unfold b in Hb. destruct (Z.eqb_spec (uid (procs s p)) 0) as [|Hz0]; [by right; left|]. cbn [negb andb] in Hb.
    assert (Hm : u16 u = u16 (u32 u)) by (symmetry; apply Z.mod_mod_divide; by exists (2 ^ 16)).
    destruct (Z.eqb_spec (u32 u) (uid (procs s p))) as [Eu|Eu].
    - left. rewrite Hm, Eu. apply Z.mod_small. apply Hi.
    - right. right. cbn [negb andb] in Hb. destruct (Z.eqb_spec (u32 u) 0) as [E0|]; [|done].
      split; [by rewrite Hm, E0|]. destruct (find_user s (uid (procs s p))) as [x|] eqn:Ex; [|done]. exists x. split; [done|]. by apply negb_false_iff. }
  assert (Hi' : ids16 (put_pcb s p (set_uid (procs s p) (u16 u)))) by (apply ids16_put; [done|split; [done|apply Hi]]).
  unfold put_pcb in *. split; try done; cbn [procs put_procs env]; intros q; destruct (decide (q = p)) as [->|]; cbn [set_uid uid gid]; try done; auto; try congruence.
  - destruct Hu as [Hu|Hu]; [by left|]. right. split; [done|]. split; [done|]. done.
Qed.

Lemma setgid_lawful s u v s' : ids16 s -> sys_setgid s u = (v, s') -> lawful s SYS_SETGID s'.
Proof.
  intros Hi. unfold sys_setgid. destruct (sched_current s) as [p|] eqn:Hc; [|intros [= _ <-]; by apply calm_lawful].
  set (b := _ && _). destruct b eqn:Hb; [intros [= _ <-]; by apply calm_lawful|]. intros [= _ <-].
  assert (Hid : 0 <= u16 u < 2 ^ 16) by (apply Z.mod_pos_bound; lia).
  assert (Hu : u16 u = gid (procs s p) \/ uid (procs s p) = 0).
  { unfold b in Hb. destruct (Z.eqb_spec (uid (procs s p)) 0) as [|Hz0]; [by right|]. cbn [negb andb] in Hb. left.
    assert (Hm : u16 u = u16 (u32 u)) by (symmetry; apply Z.mod_mod_divide; by exists (2 ^ 16)).
    apply negb_false_iff, Z.eqb_eq in Hb. rewrite Hm, Hb. apply Z.mod_small. apply Hi. }
  assert (Hi' : ids16 (put_pcb s p (set_gid (procs s p) (u16 u)))) by (apply ids16_put; [done|split; [apply Hi|done]]).
  unfold put_pcb in *. split; try done; cbn [procs put_procs env]; intros q; destruct (decide (q = p)) as [->|]; cbn [set_gid uid gid]; try done; auto; try congruence.
  - destruct Hu as [Hu|Hu]; [by left|]. by right.
Qed.

Lemma kill_lawful s t g v s' : ids16 s -> sys_kill s t g = (v, s') -> lawful s SYS_KILL s'.
Proof.
  intros Hi. assert (Hid : lawful s SYS_KILL s).
  { split; try done; try (intros; by left). intros _ q. exists (sig_pending (procs s q)). by destruct (procs s q). }
  unfold sys_kill. destruct (31 <? u32 g); [by intros [= _ <-]|]. destruct (sched_find s (u32 t)) as [q0|]; [|by intros [= _ <-]].
  destruct (_ =? PROC_DEAD); [by intros [= _ <-]|]. intros [= _ <-]. unfold put_pcb. split; cbn [procs put_procs env]; try done.
  - intros q. left. by destruct (decide (q = q0)) as [->|].
  - intros q. left. by destruct (decide (q = q0)) as [->|].
  - intros q. cbn. by destruct (decide (q = q0)) as [->|].
  - intros _ q. destruct (decide (q = q0)) as [->|]; [eauto|]. exists (sig_pending (procs s q)). by destruct (procs s q).
  - apply ids16_put; [done|]. apply (Hi q0).
Qed.

Lemma dispatch_lawful s tsc rg nr a0 a1 a2 a3 a4 v s' : ids16 s -> nr ∉ [SYS_SPAWN; SYS_WAIT; SYS_YIELD] ->
  dispatch s tsc rg nr a0 a1 a2 a3 a4 = Ok (SRet v s') -> lawful s nr s'.
Proof.
  intros Hi Hn. destruct (decide (nr ∈ [SYS_SETUID; SYS_SETGID; SYS_KILL])) as [Hin|Hno].
  - rewrite !elem_of_cons, elem_of_nil in Hin. destruct Hin as [->|[->|[->|[]]]]; cbn [SYS_SETUID SYS_SETGID SYS_KILL syscall_dispatch effect]; intros [= Ev Es].
    + apply (setuid_lawful s a0 v); [done|]. rewrite <- Ev, <- Es. by destruct (sys_setuid s a0).
    + apply (setgid_lawful s a0 v); [done|]. rewrite <- Ev, <- Es. by destruct (sys_setgid s a0).
    + apply (kill_lawful s a0 a1 v); [done|]. rewrite <- Ev, <- Es. by destruct (sys_kill s a0 a1).
  - intros E. pose proof (dispatch_keeps s tsc rg nr a0 a1 a2 a3 a4) as Hk. rewrite E in Hk. apply calm_lawful; [done| |apply Hk].
    + intros ->. apply Hno. repeat (apply elem_of_cons; first [left; reflexivity | right]).
    + rewrite !elem_of_cons, !elem_of_nil in *. tauto.
Qed.

(** A system call that returns, of any process that runs and with any
    arguments; the calls that hand over to the scheduler apart. *)
Inductive call s s' : Prop :=
| call_returns tsc rg nr a0 a1 a2 a3 a4 v : nr ∉ [SYS_SPAWN; SYS_WAIT; SYS_YIELD] ->
    dispatch s tsc rg nr a0 a1 a2 a3 a4 = Ok (SRet v s') -> call s s'.



End Proofs.
End SysPriv.
