(* ===== verification/SysCases.v ===== *)
(** * System calls on a concrete machine

    A process with one region of two pages and an open file of the memory file
    system, on the machine of AddrWitness: the theorems on user memory, the
    system calls on memory and files and on privileges apply to it. *)

From S2P Require Import Prelude Phys PhysInv PhysInit PhysSpec PageAlloc PageTable Region AddrSpace AddrWitness Bytes Ringbuf Usr Vfs Heap Ramfs RamfsInv RamfsFile RamfsVfs UserMem UserStack Elf Loader LoadCases UserAccess UserAccThm Macho RbTree Sched Spawn Machine Syscall SysMemThm SysFileThm SysRam SysPriv.
From Stdlib Require Import ZArith Lia.
From stdpp Require Import base list gmap numbers.
Open Scope Z_scope.

Module SysCases.
Import Phys(phys_state_t).
#[local] Existing Instance RamfsVfs.demo_heap.
Import PageAlloc PageTable AddrSpace AddrWitness UserMem UserStack Elf Loader LoadCases UserAccess UserAccThm Sched Spawn Machine Syscall SysMemThm SysFileThm SysRam SysPriv.
#[local] Strategy opaque [boot3].

(** The address space of AddrWitness: one writable region over
    [0x400000, 0x402000), no page present. *)
Definition lu : lstate phys_state_t := mkLd boot3 add2.1 add2.2.
Definition BUF : Z := 0x400ffe.
Definition BUF2 : Z := 0x401800.

Lemma lu_regions : map (fun d => (Region.base d, Region.size d, Region.prot d)) (regions lu [0%nat]) = [(0x400000, 0x2000, 3)].
Proof. vm_compute. reflexivity. Qed.

Lemma lu_ok : lok lu A0 [0%nat].
Proof.
  destruct boot3_ok as [Hh Ho]. destruct add2_ok as [Hv Hc]. split; [exact Hv|exact Hh|]. unfold root, lu. cbn [l_vm]. rewrite Hc. exact Ho.
Qed.

Lemma lu_pages : whole_pages (regions lu [0%nat]).
Proof.
  unfold whole_pages. pose proof lu_regions as E. destruct (regions lu [0%nat]) as [|d [|? ?]]; try discriminate.
  injection E as E1 E2 E3. repeat constructor; rewrite ?E1, ?E2; reflexivity.
Qed.

Lemma user_at x0 n : 0x400000 <= x0 -> x0 + n <= 0x402000 -> forall x, x0 <= x < x0 + n -> user_va x.
Proof. intros H1 H2 x Hx. unfold user_va. lia. Qed.

Definition hi : list Z := [104; 105; 33; 0].
Lemma hi_bytes : Forall is_byte hi.
Proof. repeat constructor; unfold Bytes.is_byte; lia. Qed.

(** The four bytes lie in two pages. *)
Definition copied : Z * lstate phys_state_t := default (-1, lu) (copy_to_user lu BUF hi).
Definition lw : lstate phys_state_t := copied.2.

Lemma copied_rc : copy_to_user lu BUF hi = Some (0, lw).
Proof.
  assert (E : match copy_to_user lu BUF hi with Some (rc, _) => rc = 0 | None => False end) by (vm_compute; reflexivity).
  unfold lw, copied. destruct (copy_to_user lu BUF hi) as [[rc l]|]; [|done]. by subst rc.
Qed.
#[local] Strategy opaque [lw copied].

Lemma copy_to_user_correct_witness : exists l', copy_to_user lu BUF hi = Some (0, l') /\ umem l' [0%nat] (BUF + 1) = Some 105.
Proof.
  destruct (copy_to_user_correct lu A0 [0%nat] BUF hi lu_ok lu_pages ltac:(reflexivity) hi_bytes (user_at BUF 4 ltac:(discriminate) ltac:(discriminate)))
    as (rc & l' & A' & n & E & _ & _ & _ & _ & _ & Hm & Hrc).
  rewrite copied_rc in E. assert (rc = 0 /\ l' = lw) as [-> ->] by (split; congruence). exists lw. split; [exact copied_rc|].
  destruct Hrc as [[_ ->]|[Hne _]]; [|discriminate Hne]. rewrite Hm; [reflexivity|unfold user_va, BUF; lia].
Defined.

Lemma user_copy_roundtrip_witness : exists l'', copy_from_user lw BUF 4 = Some (0, hi, l'').
Proof.
  exact (user_copy_roundtrip lu A0 [0%nat] BUF hi lw lu_ok lu_pages ltac:(reflexivity) hi_bytes (user_at BUF 4 ltac:(discriminate) ltac:(discriminate)) copied_rc).
Defined.

Lemma lw_wrote : exists A, wrote lu A0 [0%nat] BUF hi lw A.
Proof.
  destruct (copy_to_user_ok lu A0 [0%nat] BUF hi lu_ok lu_pages ltac:(reflexivity) hi_bytes (user_at BUF 4 ltac:(discriminate) ltac:(discriminate)))
    as ([rc l'] & E & n & A' & Hn & Hw & Hrc). rewrite copied_rc in E. assert (rc = 0 /\ l' = lw) as [-> ->] by (split; congruence). destruct Hrc as [[_ ->]|[Hne _]]; [|discriminate Hne].
  exists A'. rewrite firstn_all in Hw. exact Hw.
Qed.

Lemma lw_pages : whole_pages (regions lw [0%nat]).
Proof. destruct lw_wrote as [A Hw]. unfold regions. rewrite (wr_pool _ _ _ _ _ _ _ Hw). exact lu_pages. Qed.

Lemma lw_reads : reads lw [0%nat] BUF hi.
Proof.
  destruct lw_wrote as [A Hw]. intros i Hi. rewrite (wr_mem _ _ _ _ _ _ _ Hw) by (unfold hi, BUF, user_va in *; simpl in Hi; lia).
  rewrite decide_True by (unfold zlen; lia). f_equal. lia.
Qed.

Lemma copy_user_cstr_correct_witness : exists l', copy_user_cstr lw 256 BUF 256 = Some (0, [104; 105; 33], l').
Proof.
  destruct lw_wrote as [A Hw].
  destruct (copy_user_cstr_correct lw A [0%nat] 256 BUF 256 (wr_ok _ _ _ _ _ _ _ Hw) lw_pages ltac:(reflexivity) ltac:(lia) ltac:(discriminate)
    (user_at BUF 256 ltac:(discriminate) ltac:(discriminate))) as (rc & t & l' & A' & E & _ & Hres).
  assert (Ev : match copy_user_cstr lw 256 BUF 256 with Some (rc, t, _) => rc = 0 /\ t = [104; 105; 33] | None => False end)
    by (vm_compute; split; reflexivity).
  rewrite E in Ev. destruct Ev as [-> ->]. exists l'. exact E.
Defined.

(** ** The machine *)

(** A console that shows nothing, a network without a card, a heap without
    memory for pipes. *)
#[local] Instance no_console : Console unit := { putc c _ := c; drain_rx c := c; getc_nb c := (None, c); wait_tick c := c }.
#[local] Instance no_net : Net unit := {
  net_udp_send n _ _ _ _ := (-1, n); net_udp_recv n _ := (None, n); net_icmp_ping n _ := (-1, 0, n); net_tcp_connect n _ _ := (-1, 0, n);
  net_tcp_send n _ _ := (-1, n); net_tcp_recv n _ _ _ := (None, n); net_tcp_close n _ := n; net_dns_resolve n _ := (-1, 0, n);
  net_tls_connect n _ _ := (-1, n); net_tls_send n _ _ := (-1, n); net_tls_recv n _ _ _ := (None, n); net_tls_close n _ := n }.
#[local] Instance no_heap : Bytes.KHeap unit := { kmalloc h _ := (0, h); kfree h _ := h }.
#[local] Instance no_ring : HeapRing unit := { ring_at _ _ := Ringbuf.mkRing 0 0 0 0 0 0 [] }.
#[local] Instance no_ports : Ports (Ramfs.world (gset Z)) := { port_send f _ _ := (-1, f) }.

Abbreviation mach1 := (machine phys_state_t (Ramfs.world (gset Z)) unit unit unit).
Definition alice : Usr.asd_user_t := Usr.mkUser 1000 100 0 0 0 [97] [] [] 0.
Definition as_with (l : lstate phys_state_t) : as_state phys_state_t := mkAS (l_pm l) (l_pool l) {[ 0%nat := l_vm l ]} 1 kcr3_1.
Definition mach_with (l : lstate phys_state_t) : mach1 := mkMachine (as_with l) RamfsVfs.demo_open tt [alice] tt tt 0 [] [] (0, 0).

(** Process 1 runs, as user 1000 in the address space of slot 0. *)
Definition P : pcb_ref := Proc 1.
Definition pcb1 : pcb_t := mkPcb 1 2 0 0 0 0 0 0 0 1 0 [] 1000 100 0 0 0 [47] 0 0 0 0 zero_regs.
Definition sys1 (l : lstate phys_state_t) : sched mach1 :=
  mkSched (fun _ => mkRq 0 0 None None None 0 0 0 (Some P) None 0 0 0) 1 (fun q => if decide (q = P) then pcb1 else zero_pcb) (fun _ => zero_node) 0 2 1
    (mkSS 0 1 (fun _ => mkStat 0 0 0 0 0 0) 1 0) (fun _ => Some P) None 0 0 0 (mach_with l).

Lemma sys1_runs l : runs (sys1 l) P 0.
Proof. split; reflexivity. Qed.

Lemma sys1_space l : space_of (sys1 l) 0 = l.
Proof. unfold space_of, lview. cbn. by destruct l. Qed.

Lemma sys1_file l : sys_file (sys1 l) P 3 [] 0.
Proof.
  split; [exact RamfsVfs.demo_wf| |done]. exists 1%nat, RamfsVfs.demo_handle, RamfsVfs.demo_file.
  split; [exact RamfsVfs.demo_fd|]. split; [exact RamfsVfs.demo_handle_file|]. split; [reflexivity|]. vm_compute. reflexivity.
Qed.

(** The results of the three calls. *)
Lemma calls1_all :
  match sys_write (sys1 lw) 3 BUF 4 with
  | Ok (SRet v1 s1) => match sys_seek s1 3 0 0 with
    | Ok (SRet v2 s2) => match sys_read s2 3 BUF2 4 with Ok (SRet v3 _) => Some (v1, v2, v3) | _ => None end
    | _ => None end
  | _ => None
  end = Some (4, 0, 4).
Proof. vm_compute. reflexivity. Qed.


(** ** Memory *)

Lemma lu_space : space lu A0 [0%nat].
Proof.
  split; [exact lu_ok|exact lu_pages|]. intros x Hx [b Hb]. exfalso. destruct add2_ok as [_ Hc].
  assert (Hn : walk boot3 R0 (idx x) = None).
  { unfold idx. cbn [walk]. unfold child. rewrite boot3_zero; [reflexivity|]. pose proof (idx_bounds x ltac:(destruct Hx; lia)) as Hu. by apply list.Forall_cons in Hu as [? _]. }
  unfold lbyte, ubyte, root, lu in Hb. cbn [l_pm l_vm] in Hb. rewrite Hc, Hn in Hb. discriminate Hb.
Qed.



(** ** Privileges *)

Definition kst1 : Vfs.stat_info_t := Vfs.mkStat 0 0 0 [] 0 0 0.

Lemma sys1_ids : ids16 (sys1 lu).
Proof. intros q. cbn. destruct (decide (q = P)); cbn; lia. Qed.

Definition dispatch1 (s : sched mach1) (nr a0 : Z) : res sysres := syscall_dispatch 0 0 kst1 [] [] s 0 zero_regs nr a0 0 0 0 0.

Lemma setuid_refused : dispatch1 (sys1 lu) SYS_SETUID 0 = Ok (SRet ESYS_PERM (sys1 lu)).
Proof. reflexivity. Qed.



(** ** Defects *)

(** Addresses of the kernel's shared window below 4 GB pass for user memory. *)
Example window_passes : validate_user_ptr 0x5000000 8 = true.
Proof. reflexivity. Qed.

(** The user id is compared on 32 bits and stored in 16: root that drops to
    user 65536 stays root. *)
Definition rooted : sched mach1 := put_pcb (sys1 lu) P (set_uid pcb1 0).

Example setuid_stays_root : let '(v, s') := sys_setuid rooted 65536 in v = 0 /\ uid (procs s' P) = 0.
Proof. vm_compute. split; reflexivity. Qed.

(** Any process may kill any other. *)
Definition victim : pcb_ref := Proc 2.
Definition with_victim : sched mach1 := put_pcb (sys1 lu) victim (mkPcb 2 2 0 0 0 0 0 0 0 0 0 [] 0 0 0 0 0 [] 0 0 0 0 zero_regs).

Example kill_unchecked : let '(v, s') := sys_kill with_victim 2 SIGKILL in v = 0 /\ sig_pending (procs s' victim) = 512.
Proof. vm_compute. split; reflexivity. Qed.

(** Output redirected with [dup2] to a file is refused by the VFS. *)
Example redirected_output_fails :
  let '(v, s1) := sys_dup2 (sys1 lw) 3 1 in
  v = 1 /\ match sys_write s1 1 BUF 4 with Ok (SRet v _) => v = ret Vfs.VFS_EINVAL | _ => False end.
Proof. vm_compute. split; reflexivity. Qed.

End SysCases.
